(* ===== verification/_CoqProject ===== *)
-Q . S2P
Prelude.v
Limbs.v
Gmp.v
Mpz.v
SplitParStr.v
Logger.v
FrRaw.v
FrElement.v
FrElementWp.v
FrArith.v
FrCompare.v
FrShift.v
FrMpz.v
RawFr.v
FileLoader.v
BinFile.v
BinFileSpec.v
BinFileFormat.v
FileHeaders.v
FileHeadersSpec.v
Group.v
Naf.v
Loops.v
Parallel.v
ThreadWorker.v
Schedule.v
Msm.v
MultiExp.v
MsmDigits.v
MsmSpec.v
Primes.v
FqLibrary.v
Field.v
Dft.v
Powers.v
ExtField.v
Tower.v
TowerSpec.v
TowerBn.v
Fft.v
FftSpec.v
FftInit.v
FftFr.v
TowerFq.v
TowerText.v
TowerDefault.v
Curve.v
CurveSpec.v
GroupLaw.v
CurveOverloads.v
CurveClass.v
MultiExpSpec.v
Engine.v
Pairing.v
FinalExp.v
MillerSpec.v
PairingSpec.v
Verify.v
MultiExpCurve.v
Json.v
ProofJson.v
VerifierApi.v
Quotient.v
Groth16.v
QuotientSpec.v
ProverPoints.v
Groth16Spec.v
Groth16Demo.v
Groth16Setup.v
CoefLocks.v
FullProver.v
FullProverSpec.v
ProofServer.v
ProverApi.v
ProverApiSpec.v
ProverFile.v
ProverEnd.v
ProverDemo.v
Mains.v
