(* ===== verification/Prelude.v ===== *)
(** * A verification development of the C++ prover of StarkCash

    The repository's C++ program, under [src/rapidsnark/], makes and checks Groth16 proofs
    over the curve alt_bn128: generated field libraries ([build/]), the curve,
    multi-exponentiation, transform and tower templates of ffiasm
    ([depends/ffiasm/c/]), and on top of them ([src/]) the readers of keys and witnesses,
    the prover, the verifier, their C interfaces and command lines, and an HTTP server that
    runs one proof at a time on a worker thread.  This library models these parts as Rocq
    functions and step relations, in the order of the statements of the code, and proves what
    makes them correct, from the limbs of a number to the text of a proof.

    ** How the program fits together, and which file models what

    A proof is made so: the command line ([Mains]) or the service ([ProofServer],
    [FullProver]) maps a key and a witness ([FileLoader]), which [BinFile] cuts into sections
    and [FileHeaders] reads the headers of; [ProverApi] builds a [Groth16] prover from the
    sections; the prover computes three polynomials ([Fft]) over the scalar field
    ([RawFr]), and five sums of multiples of points ([Msm]) with the formulas of [Curve] on
    the threads of [Parallel]; [ProofJson] writes the three points as a text.  A proof is
    checked by [VerifierApi], which parses the texts and calls [Verify], a product of
    four pairings ([Pairing]) over the tower of fields of [Tower].

    - Shared.  [Prelude]: machine integers, congruences, bits, the state monad.  [Limbs]:
      numbers as little-endian 64-bit words.  [Loops]: counted loops, arrays with
      uninitialised cells.  [Dft], [Powers], [Quotient], [ExtField], [Primes]: the
      mathematics the components refer to (the discrete Fourier transform,
      powers and Frobenius, polynomials, quadratic and cubic extensions, the primality of
      both moduli by certificates).  [Gmp] and [Mpz]: GMP, which is not part of the
      repository, as two interfaces with their documented laws and a reference instance.
      [Group] and [Field]: the interfaces of a class of points and of a field class, which
      the templates are written against.  [Logger]: [src/logger.cpp].
    - The field libraries.  [FrRaw]: [build/fr_raw_generic.cpp], arrays of four limbs.
      [FrElement]: [build/fr_generic.cpp], [build/fr_element.hpp], elements tagged short or
      long, normal or Montgomery, in a memory, because destination and operands may be one
      object and operations write the type word early; [FrElementWp] is its program
      logic, [FrArith], [FrCompare] and [FrShift] the theorems.  [FrMpz]: [build/fr.cpp].  [RawFr]: the class
      [RawFr] of [build/fr.hpp] and [build/fr.cpp].  The constants are a record
      [FieldParams] with the instances [Fr_params] and [Fq_params]; [FqLibrary] is the
      library of the base field, the same generated text with the other constants.
    - Files.  [FileLoader]: [src/fileloader.cpp].  [BinFile], [BinFileSpec],
      [BinFileFormat]: [src/binfile_utils.cpp], a state and exception monad whose third
      outcome is an access outside the mapped bytes.  [FileHeaders], [FileHeadersSpec]:
      [src/zkey_utils.cpp], [src/wtns_utils.cpp].
    - Threads.  [Parallel]: the pool of [misc.hpp], work division and both parallel
      constructs as a system of threads.  [ThreadWorker]: one worker with its mutex,
      condition variables and destructor.  [Schedule]: what a loop does along any log of the
      pool.
    - Points.  [Naf]: [naf.cpp], [exp.hpp].  [Msm], [MsmDigits], [MsmSpec]: [msm.cpp].
      [MultiExp], [MultiExpSpec], [MultiExpCurve]: [multiexp.cpp].  [Curve], [CurveSpec],
      [CurveOverloads]: [curve.cpp], [curve.hpp], on a memory of points.  [GroupLaw]: the
      chord-and-tangent law is an abelian group.  [CurveClass]: the template as an instance
      of the interface of points.  [Engine]: [alt_bn128.hpp], the two curves as constructed
      from their strings.
    - The transform.  [Fft], [FftSpec], [FftInit], [FftFr]: [fft.cpp].
    - The tower.  [Tower], [TowerSpec], [TowerBn], [TowerFq], [TowerText],
      [TowerDefault]: [f2field.cpp], [f6field.cpp], [f12field.cpp]; [SplitParStr]:
      [splitparstr.cpp], the parser of their texts.
    - The verifier.  [Pairing], [FinalExp], [MillerSpec], [PairingSpec], [Verify]: the class
      [Verifier] of [src/groth16.cpp].  [Json]: the accessors and the serialization of the
      JSON library the program calls.  [ProofJson]: the texts of proofs and keys.
      [VerifierApi]: [src/verifier.cpp].
    - The prover.  [Groth16]: the class [Prover] of [src/groth16.cpp].  [QuotientSpec],
      [ProverPoints], [Groth16Spec], [Groth16Setup], [Groth16Demo]: its theorems.
      [CoefLocks]: its loop over the coefficients with its mutexes, step by step.
      [ProverApi], [ProverApiSpec], [ProverFile], [ProverEnd], [ProverDemo]:
      [src/prover.cpp] on the bytes of files.
    - Programs.  [Mains]: [src/main_prover.cpp], [src/main_verifier.cpp].  [FullProver],
      [FullProverSpec]: [src/fullprover.cpp], the service object, its mutex and its worker
      threads as a step relation, over an interface [World] of the JSON parser, the external
      witness program and the prover.  [ProofServer]: [src/proverapi.cpp],
      [src/main_proofserver.cpp].

    ** What the theorems show

    - Field layers.  [rep], [repr] and [elem] say which residue an array, a tagged
      element and a Montgomery element stand for.  Every operation computes that of
      residues on all representations and branches, with the aliasing each allows; where an
      aliasing or an input is not served, a theorem gives the failing case.  [RawFr] and its
      twin are fields.
    - Files.  No byte outside the given ones is touched, whatever they are; the reader
      inverts the encoder of the format, and so do the header readers; what is mapped and
      opened is given back.
    - Threads.  A parallel loop runs every job once and ends, on every schedule; the
      protocol of a worker loses no job, and its only stuck state is that of a destructor
      that notified too early; the striped mutexes of the coefficient loop make it one of
      its sequential orders.
    - Points.  The formulas compute the group law whatever arguments coincide; scalar
      multiplication, both multi-exponentiations and the engine's curves compute in that
      group.
    - Transform.  It is the discrete Fourier transform, its inverse undoes it, and its
      constructor ends with the right tables or reports that the domain is too big.
    - Tower and pairing.  The classes are the extension fields and their Frobenius routines
      the [p]-th power; the loop and the exponentiation of the verifier compute the reduced
      optimal ate pairing, and [pairingCheck] decides whether a product of such is one.
    - Verifier.  [verify] decides the equation of Groth16 for the point of the public
      inputs; the exported function and the command line report that decision for texts that
      hold their arguments, and errors for others.
    - Prover.  On any schedule it returns the three points of its formula, with the values
      of the quotient polynomial; on the key of a setup and a satisfying witness these
      satisfy the equation of the verification for every bilinear pairing.  The exported
      functions and the command line write the texts of that proof from the bytes of the
      files, on every branch of codes, sizes and messages.
    - Service.  Invariants of every reachable state, soundness of the replies, completion of
      a request left alone, cancellation, the exceptions that end the process, and the
      requests that block it for ever.

    ** Bounds and fuel

    Integers keep their width: a C++ integer is a [Z] with its wrap-around written out
    ([u32], [u64], [i32], [i64]).  Files are below [2 ^ 63] bytes, scalars below [2 ^ 24]
    bytes, index ranges of parallel loops within [int].  Most loops recurse on their own
    counters.  Fuel is left to loops that have no counter in the code, and is proved enough:
    any fuel from three on lets [FFT_new] find the non-residue 5, the logarithms and the
    search for the power of two take as many rounds as their numbers have bits, and any
    fuel above zero reads the texts of the tower, which nest once.  Runs of threads come with explicit bounds: five stretches of the
    service's worker; four steps per job and one of a parallel loop; five per coefficient;
    21 steps for a [submit] and [wait].

    ** What is not modelled

    GMP, the parser of the JSON library, the web framework, the witness program, the random
    generator and the system calls are parameters.  The hand-written assembly variants of the
    field routines are other implementations of the modelled interface.  Within modelled parts:
    radices other than ten, which no caller uses; big-endian hosts; the OpenMP variant of
    the thread pool; the number GMP reads with the undefined order [fromRprBE] gives it, which
    is an argument; JSON texts of floating-point numbers and of strings outside ASCII, and
    pretty printing, which the program does not ask for; counters compiled on request.  In a
    log of the pool jobs are atomic, since their bodies write disjoint cells; the one
    loop whose bodies share cells has its own model, [CoefLocks].  That the pairing is
    bilinear and non-degenerate is not proved: completeness holds for every bilinear
    pairing, and soundness of the proof system is cryptography.  The Cairo contracts, the Rust
    client and the circuits of the repository are other programs. *)

From Stdlib Require Export ZArith Lia Znumtheory Zpow_facts.
From stdpp Require Export base decidable list numbers.

Declare Scope c_scope.
Delimit Scope c_scope with C.

#[global] Open Scope Z_scope.

(** ** Machine integers

    A C++ integer is a [Z] with its range written out; the conversions below
    are the implicit and explicit casts of the language. *)

Definition u32 (x : Z) : Z := x mod 2 ^ 32.
Definition u64 (x : Z) : Z := x mod 2 ^ 64.
Definition i32 (x : Z) : Z := (x + 2 ^ 31) mod 2 ^ 32 - 2 ^ 31.
Definition i64 (x : Z) : Z := (x + 2 ^ 63) mod 2 ^ 64 - 2 ^ 63.

Definition is_u32 (x : Z) : Prop := 0 <= x < 2 ^ 32.
Definition is_u64 (x : Z) : Prop := 0 <= x < 2 ^ 64.
Definition is_i32 (x : Z) : Prop := - 2 ^ 31 <= x < 2 ^ 31.

(** [b2z] is the [int] a C++ boolean expression evaluates to. *)
Definition b2z (b : bool) : Z := if b then 1 else 0.

(** Constants of the machine model are folded before calling [lia]. *)
Ltac fold_pows :=
  change (2 ^ 31) with 2147483648 in *;
  change (2 ^ 32) with 4294967296 in *;
  change (2 ^ 63) with 9223372036854775808 in *;
  change (2 ^ 64) with 18446744073709551616 in *.

Ltac word_lia :=
  unfold u32, u64, i32, i64, is_u32, is_u64, is_i32 in *; fold_pows;
  Z.div_mod_to_equations; lia.

Create HintDb words.
Create Rewrite HintDb words_rw.

Lemma u64_range x : is_u64 (u64 x).
Proof. word_lia. Qed.
Lemma u32_range x : is_u32 (u32 x).
Proof. word_lia. Qed.
Lemma i32_range x : is_i32 (i32 x).
Proof. word_lia. Qed.
Lemma u64_id x : is_u64 x -> u64 x = x.
Proof. intros; unfold u64; apply Z.mod_small; assumption. Qed.
Lemma u32_id x : is_u32 x -> u32 x = x.
Proof. intros; unfold u32; apply Z.mod_small; assumption. Qed.
Lemma i32_id x : is_i32 x -> i32 x = x.
Proof. word_lia. Qed.
Lemma i64_id x : - 2 ^ 63 <= x < 2 ^ 63 -> i64 x = x.
Proof. word_lia. Qed.

#[export] Hint Resolve u64_range u32_range i32_range : words.
#[export] Hint Rewrite u64_id u32_id i32_id i64_id using (solve [word_lia]) : words_rw.

(** ** Modular arithmetic

    Congruence modulo [q] is equality of remainders; the two lemmas are the
    ways a congruence is turned into an equality of canonical values. *)

Lemma mod_unique_range a b q :
  0 <= a < q -> 0 <= b < q -> a mod q = b mod q -> a = b.
Proof. intros Ha Hb H. by rewrite !Z.mod_small in H. Qed.

Lemma mod_eq_of_range r x q : 0 <= r < q -> r mod q = x mod q -> r = x mod q.
Proof. intros Hr H. by rewrite <- H, Z.mod_small. Qed.

Lemma mod_eq_diff a b q : q <> 0 -> (a mod q = b mod q <-> (a - b) mod q = 0).
Proof.
  intros Hq. rewrite Zminus_mod. split; intros H.
  - by rewrite H, Z.sub_diag, Z.mod_0_l.
  - rewrite <- Zminus_mod in H.
    apply Z.mod_divide in H; [|done]. destruct H as [k Hk].
    replace a with (b + k * q) by lia. by rewrite Z.mod_add.
Qed.

Lemma mod_add_mult a k q : (a + k * q) mod q = a mod q.
Proof.
  destruct (decide (q = 0)) as [->|Hq]; [by rewrite Z.mul_0_r, Z.add_0_r|].
  by rewrite Z.mod_add.
Qed.

(** [by_mod k] proves [a mod q = b mod q] when [a = b + k * q]. *)
Lemma mod_by a b k q : a = b + k * q -> a mod q = b mod q.
Proof. intros ->. apply mod_add_mult. Qed.
Ltac by_mod k := apply (mod_by _ _ k); ring.

(** Congruence as a setoid: [eqm q] is the standard library's relation. *)
#[export] Existing Instances Zdiv.eqm_setoid Zdiv.Zplus_eqm Zdiv.Zminus_eqm
  Zdiv.Zmult_eqm Zdiv.Zopp_eqm.

#[export] Instance Zpow_eqm q n : Proper (Zdiv.eqm q ==> Zdiv.eqm q) (fun x => x ^ Z.of_nat n).
Proof.
  intros x y H. induction n as [|n IH]; [done|].
  rewrite Nat2Z.inj_succ, !Z.pow_succ_r by lia. by apply Zdiv.Zmult_eqm.
Qed.

(** [strip_mods] removes every inner remainder of a congruence. *)
Ltac strip_mods :=
  lazymatch goal with
  | |- ?a mod ?q = ?b mod ?q => change (Zdiv.eqm q a b)
  | |- Zdiv.eqm _ _ _ => idtac
  end;
  repeat setoid_rewrite Zdiv.Zmod_eqm.

(** Cancelling a factor that has an inverse modulo [q]. *)
Lemma mod_mul_cancel a b r r' q :
  (r * r') mod q = 1 mod q -> (a * r) mod q = (b * r) mod q -> a mod q = b mod q.
Proof.
  intros Hr H.
  assert (Hx : forall x, x mod q = ((x * r) mod q * r') mod q).
  { intros x. rewrite Zmult_mod_idemp_l, <- Z.mul_assoc.
    by rewrite <- Zmult_mod_idemp_r, Hr, Zmult_mod_idemp_r, Z.mul_1_r. }
  by rewrite (Hx a), (Hx b), H.
Qed.

(** Bitwise operations stay below a power of two. *)
Lemma bits_below_iff x n :
  0 <= n -> 0 <= x -> (x < 2 ^ n <-> forall i, n <= i -> Z.testbit x i = false).
Proof.
  intros Hn Hx. split.
  - intros Hlt i Hi. destruct (decide (x = 0)) as [->|Hx0]; [apply Z.testbit_0_l|].
    apply Z.bits_above_log2; [done|]. apply Z.log2_lt_pow2; [lia|].
    eapply Z.lt_le_trans; [exact Hlt|]. apply Z.pow_le_mono_r; lia.
  - intros Hb. destruct (decide (x = 0)) as [->|Hx0]; [apply Z.pow_pos_nonneg; lia|].
    apply Z.log2_lt_pow2; [lia|].
    destruct (Z.lt_ge_cases (Z.log2 x) n); [done|].
    specialize (Hb (Z.log2 x)). rewrite Z.bit_log2 in Hb by lia. discriminate Hb. lia.
Qed.

Lemma land_below x y n : 0 <= n -> 0 <= x < 2 ^ n -> 0 <= y -> 0 <= Z.land x y < 2 ^ n.
Proof.
  intros Hn Hx Hy. assert (0 <= Z.land x y) by (apply Z.land_nonneg; lia).
  split; [done|]. apply bits_below_iff; [done..|]. intros i Hi.
  rewrite Z.land_spec. by rewrite (proj1 (bits_below_iff x n Hn ltac:(lia))) by lia.
Qed.

Lemma lor_below x y n :
  0 <= n -> 0 <= x < 2 ^ n -> 0 <= y < 2 ^ n -> 0 <= Z.lor x y < 2 ^ n.
Proof.
  intros Hn Hx Hy. assert (0 <= Z.lor x y) by (apply Z.lor_nonneg; lia).
  split; [done|]. apply bits_below_iff; [done..|]. intros i Hi. rewrite Z.lor_spec.
  by rewrite (proj1 (bits_below_iff x n Hn ltac:(lia))),
    (proj1 (bits_below_iff y n Hn ltac:(lia))) by lia.
Qed.

Lemma lxor_below x y n :
  0 <= n -> 0 <= x < 2 ^ n -> 0 <= y < 2 ^ n -> 0 <= Z.lxor x y < 2 ^ n.
Proof.
  intros Hn Hx Hy. assert (0 <= Z.lxor x y) by (apply Z.lxor_nonneg; lia).
  split; [done|]. apply bits_below_iff; [done..|]. intros i Hi. rewrite Z.lxor_spec.
  by rewrite (proj1 (bits_below_iff x n Hn ltac:(lia))),
    (proj1 (bits_below_iff y n Hn ltac:(lia))) by lia.
Qed.

(** ** State passing

    C++ code that mutates memory is a function from the state before to the
    state after together with its result. *)

Definition State (S A : Type) : Type := S -> S * A.

Section StateMonad.
Context {S : Type}.

Definition sret {A} (a : A) : State S A := fun s => (s, a).
Definition sbind {A B} (m : State S A) (k : A -> State S B) : State S B :=
  fun s => let '(s', a) := m s in k a s'.
Definition sget {A} (f : S -> A) : State S A := fun s => (s, f s).
Definition sput (f : S -> S) : State S unit := fun s => (f s, tt).

(** The state a statement leaves behind. *)
Definition exec {A} (m : State S A) (s : S) : S := fst (m s).
Definition result {A} (m : State S A) (s : S) : A := snd (m s).
End StateMonad.

Notation "x <- e ;; k" := (sbind e (fun x => k))
  (at level 60, e at next level, right associativity, only parsing) : c_scope.
Notation "e ;;; k" := (sbind e (fun _ => k))
  (at level 60, right associativity, only parsing) : c_scope.
