(* ===== verification/Limbs.v ===== *)
(** Arrays of 64-bit limbs, least significant first, and the number they
    stand for: the representation [FrRawElement] and GMP's [mp_ptr] share. *)

From S2P Require Import Prelude.

(** The number a limb array stands for. *)
Fixpoint eval (l : list Z) : Z :=
  match l with
  | [] => 0
  | x :: l' => x + 2 ^ 64 * eval l'
  end.

(** The [n] limbs of a number. *)
Fixpoint of_Z (n : nat) (z : Z) : list Z :=
  match n with
  | O => []
  | S n' => u64 z :: of_Z n' (z / 2 ^ 64)
  end.

(** [l] is an array of [n] 64-bit limbs. *)
Definition limbs (n : nat) (l : list Z) : Prop := length l = n /\ Forall is_u64 l.

Definition base (n : nat) : Z := 2 ^ (64 * Z.of_nat n).

Create HintDb limbs.
Create Rewrite HintDb limbs_rw.

Lemma base_pos n : 0 < base n.
Proof. unfold base. apply Z.pow_pos_nonneg; lia. Qed.

Lemma base_S n : base (S n) = 2 ^ 64 * base n.
Proof.
  unfold base. rewrite <- Z.pow_add_r by lia. f_equal. lia.
Qed.

Lemma base_add n m : base (n + m) = base n * base m.
Proof. unfold base. rewrite <- Z.pow_add_r by lia. f_equal. lia. Qed.

Lemma limbs_length n l : limbs n l -> length l = n.
Proof. by intros [? _]. Qed.

Lemma limbs_nil : limbs 0 [].
Proof. by split. Qed.

Lemma limbs_cons n x l : limbs (S n) (x :: l) <-> is_u64 x /\ limbs n l.
Proof.
  unfold limbs. rewrite Forall_cons_iff. simpl. split.
  - intros [[= Hl] [Hx F]]. done.
  - intros [Hx [Hl F]]. split; [lia|done].
Qed.

Lemma limbs_app n m l k : limbs n l -> limbs m k -> limbs (n + m) (l ++ k).
Proof.
  intros [Hl Fl] [Hk Fk]. split; [rewrite length_app; lia|]. by apply Forall_app.
Qed.

Lemma limbs_take n m l : limbs n l -> (m <= n)%nat -> limbs m (take m l).
Proof.
  intros [Hl Fl] ?. split; [rewrite length_take; lia|]. by apply Forall_take.
Qed.

Lemma limbs_drop n m l : limbs n l -> (m <= n)%nat -> limbs (n - m) (drop m l).
Proof.
  intros [Hl Fl] ?. split; [rewrite length_drop; lia|]. by apply Forall_drop.
Qed.

Lemma limbs_insert n i x l : limbs n l -> is_u64 x -> limbs n (<[i := x]> l).
Proof.
  intros [Hl Fl] ?. split; [by rewrite length_insert|]. by apply Forall_insert.
Qed.

Lemma limbs_replicate n x : is_u64 x -> limbs n (replicate n x).
Proof. intros. split; [apply length_replicate|]. by apply Forall_replicate. Qed.

Lemma limbs_lookup n l (i : nat) : limbs n l -> (i < n)%nat -> is_u64 (l !!! i).
Proof.
  intros [Hl Fl] Hi. rewrite Forall_lookup in Fl. apply (Fl i).
  apply list_lookup_lookup_total_lt. lia.
Qed.

Lemma limbs_of_Z n z : limbs n (of_Z n z).
Proof.
  revert z. induction n as [|n IH]; intros z; [apply limbs_nil|].
  cbn [of_Z]. apply limbs_cons. split; [apply u64_range|apply IH].
Qed.

#[export] Hint Resolve base_pos limbs_nil limbs_app limbs_insert limbs_replicate
  limbs_of_Z limbs_lookup : limbs.

Lemma eval_range n l : limbs n l -> 0 <= eval l < base n.
Proof.
  revert n. induction l as [|x l IH]; intros n Hl.
  - destruct n; [|by destruct Hl]. unfold base. cbn. lia.
  - destruct n as [|n]; [by destruct Hl|]. apply limbs_cons in Hl as [Hx Hl].
    specialize (IH _ Hl). rewrite base_S. cbn [eval]. unfold is_u64 in Hx. nia.
Qed.

Lemma eval_inj n l k : limbs n l -> limbs n k -> eval l = eval k -> l = k.
Proof.
  revert n k. induction l as [|x l IH]; intros n k Hl Hk He.
  - destruct n; [|by destruct Hl]. destruct k; [done|by destruct Hk].
  - destruct n as [|n]; [by destruct Hl|]. destruct k as [|y k]; [by destruct Hk|].
    apply limbs_cons in Hl as [Hx Hl]. apply limbs_cons in Hk as [Hy Hk].
    cbn [eval] in He. unfold is_u64 in *. fold_pows.
    pose proof (eval_range _ _ Hl). pose proof (eval_range _ _ Hk).
    assert (x = y) as -> by lia. f_equal. apply (IH n); [done..|lia].
Qed.

Lemma eval_of_Z n z : eval (of_Z n z) = z mod base n.
Proof.
  revert z. induction n as [|n IH]; intros z; cbn [of_Z eval].
  - unfold base. cbn. symmetry. apply Z.mod_1_r.
  - rewrite IH, base_S. unfold u64.
    rewrite (Z.rem_mul_r z (2 ^ 64) (base n)); [done| |]; [lia|].
    apply base_pos.
Qed.

Lemma eval_of_Z_small n z : 0 <= z < base n -> eval (of_Z n z) = z.
Proof. intros. rewrite eval_of_Z. by apply Z.mod_small. Qed.

Lemma of_Z_eval n l : limbs n l -> of_Z n (eval l) = l.
Proof.
  intros Hl. apply (eval_inj n); auto with limbs.
  apply eval_of_Z_small. by apply eval_range.
Qed.

Lemma eval_app l k : eval (l ++ k) = eval l + base (length l) * eval k.
Proof.
  induction l as [|x l IH]; cbn [app eval length].
  - unfold base. rewrite Z.pow_0_r. lia.
  - rewrite IH, base_S. ring.
Qed.

Lemma eval_singleton x : eval [x] = x.
Proof. cbn [eval]. lia. Qed.

Lemma eval_replicate_0 n : eval (replicate n 0) = 0.
Proof. induction n; cbn [replicate eval]; lia. Qed.

Lemma eval_take_drop n l : eval l = eval (take n l) + base (length (take n l)) * eval (drop n l).
Proof. rewrite <- eval_app. by rewrite take_drop. Qed.

Lemma eval_head n l : limbs (S n) l -> l !!! 0%nat = eval l mod 2 ^ 64.
Proof.
  intros Hl. destruct l as [|x l]; [by destruct Hl|]. apply limbs_cons in Hl as [Hx _].
  cbn [eval]. change ((x :: l) !!! 0%nat) with x.
  replace (x + 2 ^ 64 * eval l) with (x + eval l * 2 ^ 64) by ring.
  rewrite mod_add_mult. symmetry. by apply Z.mod_small.
Qed.

Lemma eval_tail n l : limbs (S n) l -> eval (drop 1 l) = eval l / 2 ^ 64.
Proof.
  intros Hl. destruct l as [|x l]; [by destruct Hl|]. apply limbs_cons in Hl as [Hx _].
  cbn [eval drop]. rewrite drop_0. unfold is_u64 in Hx.
  rewrite (Z.mul_comm (2 ^ 64)), Z.div_add by lia. by rewrite Z.div_small.
Qed.

#[export] Hint Rewrite eval_replicate_0 eval_singleton : limbs_rw.
#[export] Hint Rewrite @length_app @length_replicate @length_insert @length_take
  @length_drop : limbs_rw.

(** A four-limb array, limb by limb. *)
Lemma limbs_4 l :
  limbs 4 l -> exists a b c d, l = [a; b; c; d] /\ is_u64 a /\ is_u64 b /\ is_u64 c /\ is_u64 d.
Proof.
  intros [Hl F]. destruct l as [|a [|b [|c [|d [|]]]]]; try discriminate.
  exists a, b, c, d. repeat (apply Forall_cons_iff in F as [? F]). done.
Qed.

(** Limbs-wise bitwise operations act on the numbers. *)
Lemma eval_testbit_head x l i :
  is_u64 x -> 0 <= i < 64 -> Z.testbit (x + 2 ^ 64 * eval l) i = Z.testbit x i.
Proof.
  intros Hx Hi. rewrite <- (Z.mod_pow2_bits_low _ 64) by lia.
  rewrite (Z.mul_comm (2 ^ 64)), mod_add_mult, Z.mod_small by done. done.
Qed.
