(* ===== verification/Gmp.v ===== *)
(** The interface of GMP's [mpn] layer the field arithmetic is written on.

    GMP is not part of the repository (its submodule directory is empty), so its
    functions are the operations of a class [Mpn] and the behaviour its manual
    documents ("Low-level Functions") is the class [MpnLaws].  The field code is
    proved against the two classes.  [Mpn_reference] is one concrete
    implementation satisfying them: the laws can hold, and the examples of the
    development evaluate with it.

    An operation that writes [{rp, n}] and returns a limb is a function returning
    the pair of the written limbs and the returned value. *)

From S2P Require Import Prelude Limbs.

Class Mpn := {
  mpn_add_n : list Z -> list Z -> nat -> list Z * Z;
  mpn_sub_n : list Z -> list Z -> nat -> list Z * Z;
  mpn_add_1 : list Z -> nat -> Z -> list Z * Z;
  mpn_sub_1 : list Z -> nat -> Z -> list Z * Z;
  mpn_add : list Z -> nat -> list Z -> nat -> list Z * Z;
  mpn_mul_1 : list Z -> nat -> Z -> list Z * Z;
  mpn_addmul_1 : list Z -> list Z -> nat -> Z -> list Z * Z;
  mpn_cmp : list Z -> list Z -> nat -> Z;
  mpn_zero_p : list Z -> nat -> bool;
  mpn_lshift : list Z -> nat -> Z -> list Z * Z;
  mpn_rshift : list Z -> nat -> Z -> list Z * Z;
  mpn_and_n : list Z -> list Z -> nat -> list Z;
  mpn_ior_n : list Z -> list Z -> nat -> list Z;
  mpn_xor_n : list Z -> list Z -> nat -> list Z;
  mpn_com : list Z -> nat -> list Z;
  (** [mpn_copyi buf dst src n]: the address space [buf] after
      [mpn_copyi (buf + dst, buf + src, n)]. *)
  mpn_copyi : list Z -> nat -> nat -> nat -> list Z
}.

(** "Copy from [{s1p, n}] to [{rp, n}], increasingly": limb after limb, upwards. *)
Fixpoint copy_increasing (buf : list Z) (dst src n : nat) : list Z :=
  match n with
  | O => buf
  | S n' => copy_increasing (<[dst := buf !!! src]> buf) (S dst) (S src) n'
  end.

Class MpnLaws (G : Mpn) : Prop := {
  mpn_add_n_spec : forall n a b r c, limbs n a -> limbs n b -> mpn_add_n a b n = (r, c) ->
    limbs n r /\ 0 <= c <= 1 /\ eval r + base n * c = eval a + eval b;
  mpn_sub_n_spec : forall n a b r c, limbs n a -> limbs n b -> mpn_sub_n a b n = (r, c) ->
    limbs n r /\ 0 <= c <= 1 /\ eval r = eval a - eval b + base n * c;
  mpn_add_1_spec : forall n a b r c, (0 < n)%nat -> limbs n a -> is_u64 b ->
    mpn_add_1 a n b = (r, c) ->
    limbs n r /\ 0 <= c <= 1 /\ eval r + base n * c = eval a + b;
  mpn_sub_1_spec : forall n a b r c, (0 < n)%nat -> limbs n a -> is_u64 b ->
    mpn_sub_1 a n b = (r, c) ->
    limbs n r /\ 0 <= c <= 1 /\ eval r = eval a - b + base n * c;
  mpn_add_spec : forall n m a b r c, (m <= n)%nat -> limbs n a -> limbs m b ->
    mpn_add a n b m = (r, c) ->
    limbs n r /\ 0 <= c <= 1 /\ eval r + base n * c = eval a + eval b;
  mpn_mul_1_spec : forall n a b r c, limbs n a -> is_u64 b -> mpn_mul_1 a n b = (r, c) ->
    limbs n r /\ is_u64 c /\ eval r + base n * c = eval a * b;
  mpn_addmul_1_spec : forall n r0 a b r c, limbs n r0 -> limbs n a -> is_u64 b ->
    mpn_addmul_1 r0 a n b = (r, c) ->
    limbs n r /\ is_u64 c /\ eval r + base n * c = eval r0 + eval a * b;
  mpn_cmp_spec : forall n a b, limbs n a -> limbs n b ->
    (mpn_cmp a b n ?= 0) = (eval a ?= eval b);
  mpn_zero_p_spec : forall n a, limbs n a -> mpn_zero_p a n = (eval a =? 0);
  mpn_lshift_spec : forall n a k r c, (0 < n)%nat -> limbs n a -> 1 <= k <= 63 ->
    mpn_lshift a n k = (r, c) ->
    limbs n r /\ 0 <= c < 2 ^ k /\ eval r + base n * c = eval a * 2 ^ k;
  mpn_rshift_spec : forall n a k r c, (0 < n)%nat -> limbs n a -> 1 <= k <= 63 ->
    mpn_rshift a n k = (r, c) ->
    limbs n r /\ is_u64 c /\ eval r = eval a / 2 ^ k;
  mpn_and_n_spec : forall n a b, limbs n a -> limbs n b ->
    limbs n (mpn_and_n a b n) /\ eval (mpn_and_n a b n) = Z.land (eval a) (eval b);
  mpn_ior_n_spec : forall n a b, limbs n a -> limbs n b ->
    limbs n (mpn_ior_n a b n) /\ eval (mpn_ior_n a b n) = Z.lor (eval a) (eval b);
  mpn_xor_n_spec : forall n a b, limbs n a -> limbs n b ->
    limbs n (mpn_xor_n a b n) /\ eval (mpn_xor_n a b n) = Z.lxor (eval a) (eval b);
  mpn_com_spec : forall n a, limbs n a ->
    limbs n (mpn_com a n) /\ eval (mpn_com a n) = base n - 1 - eval a;
  mpn_copyi_spec : forall buf dst src n,
    (dst + n <= length buf)%nat -> (src + n <= length buf)%nat ->
    mpn_copyi buf dst src n = copy_increasing buf dst src n
}.

(** ** A reference implementation *)

Definition split_at (n : nat) (z : Z) : list Z * Z := (of_Z n z, z / base n).

#[export] Instance Mpn_reference : Mpn := {
  mpn_add_n a b n := split_at n (eval a + eval b);
  mpn_sub_n a b n := (of_Z n (eval a - eval b), if eval a <? eval b then 1 else 0);
  mpn_add_1 a n b := split_at n (eval a + b);
  mpn_sub_1 a n b := (of_Z n (eval a - b), if eval a <? b then 1 else 0);
  mpn_add a n b m := split_at n (eval a + eval b);
  mpn_mul_1 a n b := split_at n (eval a * b);
  mpn_addmul_1 r a n b := split_at n (eval r + eval a * b);
  mpn_cmp a b n := eval a - eval b;
  mpn_zero_p a n := eval a =? 0;
  mpn_lshift a n k := split_at n (eval a * 2 ^ k);
  mpn_rshift a n k := (of_Z n (eval a / 2 ^ k), u64 (eval a * 2 ^ (64 - k)));
  mpn_and_n a b n := of_Z n (Z.land (eval a) (eval b));
  mpn_ior_n a b n := of_Z n (Z.lor (eval a) (eval b));
  mpn_xor_n a b n := of_Z n (Z.lxor (eval a) (eval b));
  mpn_com a n := of_Z n (base n - 1 - eval a);
  mpn_copyi := copy_increasing
}.

Lemma split_at_spec n z :
  0 <= z -> limbs n (of_Z n z) /\ 0 <= z / base n /\ eval (of_Z n z) + base n * (z / base n) = z.
Proof.
  intros Hz. split; [apply limbs_of_Z|]. pose proof (base_pos n).
  split; [by apply Z.div_pos|]. rewrite eval_of_Z.
  pose proof (Z.div_mod z (base n)). lia.
Qed.

Lemma split_at_carry n z k : 0 <= z < base n * k -> 0 <= z / base n < k.
Proof.
  intros [Hz Hlt]. pose proof (base_pos n). split; [by apply Z.div_pos|].
  by apply Z.div_lt_upper_bound.
Qed.

Lemma borrow_spec n a b :
  0 <= a < base n -> 0 <= b <= base n ->
  eval (of_Z n (a - b)) = a - b + base n * (if a <? b then 1 else 0).
Proof.
  intros Ha Hb. rewrite eval_of_Z. destruct (Z.ltb_spec a b).
  - rewrite Z.mul_1_r, <- (Z.mod_add _ 1) by lia. rewrite Z.mod_small; lia.
  - rewrite Z.mul_0_r, Z.add_0_r. apply Z.mod_small. lia.
Qed.

Lemma base_ge_u64 n : (0 < n)%nat -> 2 ^ 64 <= base n.
Proof. intros. unfold base. apply Z.pow_le_mono_r; lia. Qed.

Section Reference.
Local Ltac ranges :=
  repeat match goal with
    | H : limbs ?n ?a |- _ =>
        lazymatch goal with
        | _ : 0 <= eval a < base n |- _ => fail
        | _ => pose proof (eval_range _ _ H)
        end
    end.
Local Ltac use_split z k :=
  lazymatch goal with H : split_at ?n _ = _ |- _ =>
    injection H as <- <-;
    destruct (split_at_spec n z) as (? & ? & ?); [nia|];
    assert (0 <= z / base n < k) by (apply split_at_carry; nia);
    unfold is_u64; split; [done|split; [lia|done]] end.

#[export] Instance Mpn_reference_laws : MpnLaws Mpn_reference.
Proof.
  split; cbn [mpn_add_n mpn_sub_n mpn_add_1 mpn_sub_1 mpn_add mpn_mul_1 mpn_addmul_1 mpn_cmp
    mpn_zero_p mpn_lshift mpn_rshift mpn_and_n mpn_ior_n mpn_xor_n mpn_com mpn_copyi Mpn_reference].
  - intros n a b r c Ha Hb H. ranges. use_split (eval a + eval b) 2.
  - intros n a b r c Ha Hb [= <- <-]. ranges. split; [apply limbs_of_Z|].
    split; [by destruct (_ <? _)|]. apply borrow_spec; lia.
  - intros n a b r c Hn Ha Hb H. ranges. pose proof (base_ge_u64 _ Hn).
    unfold is_u64 in Hb. use_split (eval a + b) 2.
  - intros n a b r c Hn Ha Hb [= <- <-]. ranges. pose proof (base_ge_u64 _ Hn).
    split; [apply limbs_of_Z|]. split; [by destruct (_ <? _)|].
    unfold is_u64 in Hb. apply borrow_spec; lia.
  - intros n m a b r c Hm Ha Hb H. ranges.
    assert (base m <= base n) by (unfold base; apply Z.pow_le_mono_r; lia).
    use_split (eval a + eval b) 2.
  - intros n a b r c Ha Hb H. ranges. unfold is_u64 in Hb. use_split (eval a * b) (2 ^ 64).
  - intros n r0 a b r c Hr Ha Hb H. ranges. unfold is_u64 in Hb.
    use_split (eval r0 + eval a * b) (2 ^ 64).
  - intros n a b Ha Hb. rewrite <- Z.compare_sub. done.
  - done.
  - intros n a k r c Hn Ha Hk H. ranges.
    assert (0 < 2 ^ k) by (apply Z.pow_pos_nonneg; lia). injection H as <- <-.
    destruct (split_at_spec n (eval a * 2 ^ k)) as (? & ? & ?); [nia|].
    assert (0 <= eval a * 2 ^ k / base n < 2 ^ k) by (apply split_at_carry; nia). done.
  - intros n a k r c Hn Ha Hk [= <- <-]. ranges. split; [apply limbs_of_Z|].
    split; [apply u64_range|]. apply eval_of_Z_small.
    assert (0 < 2 ^ k) by (apply Z.pow_pos_nonneg; lia).
    split; [apply Z.div_pos; lia|]. apply Z.div_lt_upper_bound; nia.
  - intros n a b Ha Hb. ranges. split; [apply limbs_of_Z|]. apply eval_of_Z_small.
    apply land_below; unfold base in *; lia.
  - intros n a b Ha Hb. ranges. split; [apply limbs_of_Z|]. apply eval_of_Z_small.
    apply lor_below; unfold base in *; lia.
  - intros n a b Ha Hb. ranges. split; [apply limbs_of_Z|]. apply eval_of_Z_small.
    apply lxor_below; unfold base in *; lia.
  - intros n a Ha. ranges. split; [apply limbs_of_Z|]. apply eval_of_Z_small. lia.
  - done.
Qed.
End Reference.

(** ** Derived facts *)

Section Derived.
Context {G : Mpn} {GL : MpnLaws G}.

(** The comparisons the code writes on the result of [mpn_cmp]. *)
Lemma mpn_cmp_ge n a b : limbs n a -> limbs n b -> (mpn_cmp a b n >=? 0) = (eval b <=? eval a).
Proof.
  intros Ha Hb. pose proof (mpn_cmp_spec _ _ _ Ha Hb) as H.
  rewrite Z.geb_leb. unfold Z.leb. rewrite Z.compare_antisym, H, <- Z.compare_antisym. done.
Qed.

Lemma mpn_cmp_lt n a b : limbs n a -> limbs n b -> (mpn_cmp a b n <? 0) = (eval a <? eval b).
Proof. intros Ha Hb. unfold Z.ltb. by rewrite (mpn_cmp_spec _ _ _ Ha Hb). Qed.

Lemma mpn_cmp_gt n a b : limbs n a -> limbs n b -> (mpn_cmp a b n >? 0) = (eval a >? eval b).
Proof. intros Ha Hb. unfold Z.gtb. by rewrite (mpn_cmp_spec _ _ _ Ha Hb). Qed.

Lemma mpn_cmp_eq n a b : limbs n a -> limbs n b -> (mpn_cmp a b n =? 0) = (eval a =? eval b).
Proof.
  intros Ha Hb. pose proof (mpn_cmp_spec _ _ _ Ha Hb) as H.
  rewrite !Z.eqb_compare. by rewrite H.
Qed.
End Derived.

(** Copying between two disjoint arrays. *)
Definition copyi_to (G : Mpn) (dst src : list Z) (n : nat) : list Z :=
  take (length dst) (mpn_copyi (dst ++ src) 0 (length dst) n).

Lemma copy_increasing_disjoint n : forall pre d s,
  (n <= length d)%nat -> (n <= length s)%nat ->
  copy_increasing (pre ++ d ++ s) (length pre) (length pre + length d) n
  = pre ++ (take n s ++ drop n d) ++ s.
Proof.
  intros pre d s Hd Hs.
  enough (H : forall n pre d s0 s1,
    (n <= length d)%nat -> (n <= length s1)%nat ->
    copy_increasing (pre ++ d ++ s0 ++ s1) (length pre) (length pre + length d + length s0) n
    = pre ++ (take n s1 ++ drop n d) ++ s0 ++ s1).
  { specialize (H n pre d [] s Hd Hs). cbn [length app] in H. by rewrite Nat.add_0_r in H. }
  clear. induction n as [|n IH]; intros pre d s0 s1 Hd Hs.
  { cbn [copy_increasing take app]. by rewrite drop_0. }
  destruct d as [|x d]; [cbn in Hd; lia|]. destruct s1 as [|y s1]; [cbn in Hs; lia|].
  cbn [copy_increasing length] in *.
  assert (Hl : (pre ++ (x :: d) ++ s0 ++ y :: s1) !!! (length pre + S (length d) + length s0)%nat = y).
  { rewrite list_lookup_total_alt, !app_assoc, lookup_app_r by (rewrite !length_app; cbn; lia).
    rewrite !length_app. cbn [length]. rewrite Nat.sub_diag. done. }
  rewrite Hl.
  assert (Hi : <[length pre := y]> (pre ++ (x :: d) ++ s0 ++ y :: s1)
    = (pre ++ [y]) ++ d ++ (s0 ++ [y]) ++ s1).
  { rewrite insert_app_r_alt by lia. rewrite Nat.sub_diag. cbn. by rewrite <- !app_assoc. }
  rewrite Hi. specialize (IH (pre ++ [y]) d (s0 ++ [y]) s1 ltac:(lia) ltac:(lia)).
  rewrite !length_app in IH. cbn [length] in IH.
  replace (S (length pre)) with (length pre + 1)%nat by lia.
  replace (S (length pre + S (length d) + length s0))%nat
    with (length pre + 1 + length d + (length s0 + 1))%nat by lia.
  rewrite IH. rewrite <- !app_assoc. cbn [app take drop]. done.
Qed.

Lemma copyi_to_spec {G : Mpn} {GL : MpnLaws G} dst src n :
  (n <= length dst)%nat -> (n <= length src)%nat ->
  copyi_to G dst src n = take n src ++ drop n dst.
Proof.
  intros Hd Hs. unfold copyi_to. rewrite mpn_copyi_spec by (rewrite length_app; lia).
  pose proof (copy_increasing_disjoint n [] dst src Hd Hs) as H. cbn [app length Nat.add] in H.
  rewrite H, take_app_length'; [done|].
  rewrite length_app, length_take, length_drop. lia.
Qed.

Lemma copyi_to_all {G : Mpn} {GL : MpnLaws G} n dst src :
  length dst = n -> length src = n -> copyi_to G dst src n = src.
Proof.
  intros Hd Hs. rewrite copyi_to_spec by lia.
  rewrite take_ge, drop_ge by lia. apply app_nil_r.
Qed.
