(* ===== verification/Mpz.v ===== *)
(** The part of GMP's integer layer ([mpz_*]) the program calls, as an
    interface: an [mpz_t] is its value.  The laws are the documented behaviour of
    the functions; the reference instance shows that they can hold. *)

From Stdlib Require Import Zcong Zdivisibility String DecimalString DecimalZ.
From S2P Require Import Prelude Limbs.

(** ** Bytes *)

Definition is_byte (x : Z) : Prop := 0 <= x < 2 ^ 8.

(** The number a little-endian byte string stands for, and back. *)
Fixpoint le_value (l : list Z) : Z :=
  match l with [] => 0 | b :: l => b + 2 ^ 8 * le_value l end.

Fixpoint le_bytes (n : nat) (v : Z) : list Z :=
  match n with O => [] | S n => v mod 2 ^ 8 :: le_bytes n (v / 2 ^ 8) end.

Lemma le_bytes_length n v : length (le_bytes n v) = n.
Proof. revert v. induction n as [|n IH]; intros v; cbn; [done|by rewrite IH]. Qed.

Lemma le_bytes_byte n v : Forall is_byte (le_bytes n v).
Proof.
  revert v. induction n as [|n IH]; intros v; cbn [le_bytes]; [by apply Forall_nil_2|].
  apply Forall_cons_2; [apply Z.mod_pos_bound; lia|apply IH].
Qed.

Lemma le_value_range l : Forall is_byte l -> 0 <= le_value l < 2 ^ (8 * Z.of_nat (length l)).
Proof.
  induction 1 as [|b l Hb Hl IH]; cbn [le_value length]; [lia|].
  replace (8 * Z.of_nat (S (length l))) with (8 + 8 * Z.of_nat (length l)) by lia.
  rewrite Z.pow_add_r by lia. unfold is_byte in Hb. nia.
Qed.

Lemma le_value_bytes n v : 0 <= v < 2 ^ (8 * Z.of_nat n) -> le_value (le_bytes n v) = v.
Proof.
  revert v. induction n as [|n IH]; intros v Hv; cbn [le_bytes le_value].
  - change (2 ^ (8 * Z.of_nat 0)) with 1 in Hv. lia.
  - replace (8 * Z.of_nat (S n)) with (8 + 8 * Z.of_nat n) in Hv by lia.
    rewrite Z.pow_add_r in Hv by lia.
    rewrite IH; [rewrite (Z.div_mod v (2 ^ 8)) at 3 by lia; lia|].
    split; [apply Z.div_pos; lia|apply Z.div_lt_upper_bound; lia].
Qed.

(** ** The interface *)

Class Mpz := {
  (** [mpz_import(rop, count, -1, 1, -1, 0, op)]: bytes, least significant first. *)
  mpz_import_bytes : list Z -> Z;
  (** [mpz_import(rop, Fr_N64, -1, 8, -1, 0, op)]: limbs, least significant first. *)
  mpz_import : list Z -> Z;
  (** [mpz_export(rop, NULL, -1, 8, -1, 0, op)]: the limbs of [|op|], none for 0. *)
  mpz_export : Z -> list Z;
  (** [mpz_export(rop, NULL, 1, 8, 1, 0, op)]: the same words, most significant first
      and big-endian, as bytes. *)
  mpz_export_be : Z -> list Z;
  mpz_fdiv_q : Z -> Z -> Z;
  mpz_fdiv_r : Z -> Z -> Z;
  mpz_powm : Z -> Z -> Z -> Z;
  (** [mpz_invert(rop, op1, op2)]: [rop] and whether the inverse exists. *)
  mpz_invert : Z -> Z -> Z * bool;
  mpz_fits_sint_p : Z -> bool;
  (** [mpz_set_str(rop, str, 10)] and [mpz_get_str(NULL, 10, op)]. *)
  mpz_set_str : string -> Z;
  mpz_get_str : Z -> string
}.

Class MpzLaws (M : Mpz) : Prop := {
  mpz_import_bytes_spec l : Forall is_byte l -> mpz_import_bytes l = le_value l;
  mpz_import_spec n l : limbs n l -> mpz_import l = eval l;
  mpz_export_spec v : 0 <= v -> exists n, limbs n (mpz_export v) /\ eval (mpz_export v) = v /\
    (forall k, 0 <= v < base k -> (n <= k)%nat);
  mpz_export_be_spec v : 0 <= v ->
    mpz_export_be v = rev (le_bytes (8 * length (mpz_export v)) v);
  mpz_fdiv_q_spec a b : 0 <= a -> 0 < b -> mpz_fdiv_q a b = a / b;
  mpz_fdiv_r_spec a b : 0 < b -> mpz_fdiv_r a b = a mod b;
  mpz_powm_spec a e m : 0 <= e -> 0 < m -> mpz_powm a e m = a ^ e mod m;
  mpz_invert_spec a m x : 1 < m -> mpz_invert a m = (x, true) ->
    0 <= x < m /\ (a * x) mod m = 1;
  mpz_invert_exists a m : 1 < m -> Z.gcd a m = 1 -> snd (mpz_invert a m) = true;
  mpz_fits_sint_p_spec v : mpz_fits_sint_p v = (- 2 ^ 31 <=? v) && (v <? 2 ^ 31);
  mpz_set_get_str v : mpz_set_str (mpz_get_str v) = v;
  mpz_get_str_spec v : mpz_get_str v = NilEmpty.string_of_int (Z.to_int v)
}.

(** ** A reference implementation *)

Definition limb_count (v : Z) : nat := if v =? 0 then 0 else S (Z.to_nat (Z.log2 v / 64)).

#[export] Instance Mpz_reference : Mpz := {
  mpz_import_bytes := le_value;
  mpz_import := eval;
  mpz_export v := of_Z (limb_count v) v;
  mpz_export_be v := rev (le_bytes (8 * limb_count v) v);
  mpz_fdiv_q := Z.div;
  mpz_fdiv_r := Z.modulo;
  mpz_powm a e m := a ^ e mod m;
  mpz_invert a m := (Z.invmod a m, Z.gcd a m =? 1);
  mpz_fits_sint_p v := (- 2 ^ 31 <=? v) && (v <? 2 ^ 31);
  mpz_set_str s := match NilEmpty.int_of_string s with Some d => Z.of_int d | None => 0 end;
  mpz_get_str v := NilEmpty.string_of_int (Z.to_int v)
}.

Lemma limb_count_least v k : 0 <= v < base k -> (limb_count v <= k)%nat.
Proof.
  intros Hv. unfold limb_count. destruct (Z.eqb_spec v 0); [lia|].
  unfold base in Hv. assert (Z.log2 v < 64 * Z.of_nat k) by (apply Z.log2_lt_pow2; lia).
  assert (Z.log2 v / 64 < Z.of_nat k) by (apply Z.div_lt_upper_bound; lia).
  pose proof (Z.log2_nonneg v). assert (0 <= Z.log2 v / 64) by (apply Z.div_pos; lia). lia.
Qed.

Lemma limb_count_enough v : 0 <= v -> v < base (limb_count v).
Proof.
  intros Hv. unfold limb_count. destruct (Z.eqb_spec v 0) as [->|Hne]; [done|].
  pose proof (Z.log2_nonneg v). unfold base.
  rewrite Nat2Z.inj_succ, Z2Nat.id by (apply Z.div_pos; lia).
  eapply Z.lt_le_trans; [apply Z.log2_spec; lia|]. apply Z.pow_le_mono_r; [lia|].
  pose proof (Z.mod_pos_bound (Z.log2 v) 64 ltac:(lia)).
  pose proof (Z.div_mod (Z.log2 v) 64 ltac:(lia)). lia.
Qed.

#[export] Instance Mpz_reference_laws : MpzLaws Mpz_reference.
Proof.
  split; cbn [mpz_import_bytes mpz_import mpz_export mpz_export_be mpz_fdiv_q mpz_fdiv_r mpz_powm mpz_invert
    mpz_fits_sint_p mpz_set_str mpz_get_str Mpz_reference]; try done.
  - intros v Hv. exists (limb_count v). split; [apply limbs_of_Z|]. split.
    + apply eval_of_Z_small. split; [done|by apply limb_count_enough].
    + intros k. apply limb_count_least.
  - intros v _. by rewrite (limbs_length _ _ (limbs_of_Z (limb_count v) v)).
  - intros a m x Hm [= <- Hg]. apply Z.eqb_eq in Hg. split.
    + rewrite <- Z.mod_invmod. apply Z.mod_pos_bound. lia.
    + rewrite Z.mul_comm. apply Z.invmod_coprime; [lia|done].
  - intros a m _ Hg. cbn [snd]. by apply Z.eqb_eq.
  - intros v. by rewrite NilEmpty.isi, DecimalZ.of_to.
Qed.

(** [for (i) v[i] = 0; mpz_export(v, ..., x)] on an array of four limbs. *)
Definition export_into {M : Mpz} (n : nat) (x : Z) : list Z :=
  mpz_export x ++ replicate (n - length (mpz_export x)) 0.

Lemma export_into_spec {M : Mpz} {ML : MpzLaws M} n x :
  0 <= x < base n -> limbs n (export_into n x) /\ eval (export_into n x) = x.
Proof.
  intros Hx. destruct (mpz_export_spec x) as (k & Hk & He & Hle); [lia|]. specialize (Hle n Hx).
  unfold export_into. rewrite (limbs_length _ _ Hk). split.
  - replace n with (k + (n - k))%nat at 1 by lia. apply limbs_app; [done|].
    apply limbs_replicate. unfold is_u64. lia.
  - rewrite eval_app, eval_replicate_0. lia.
Qed.
