(* ===== verification/SplitParStr.v ===== *)
(** The parser of tuples of field elements, [splitparstr.cpp]: [removePars] and
    [splitParStr]. *)

From Stdlib Require Import String Ascii.
From S2P Require Import Prelude.

#[local] Open Scope char_scope.

(** A call returns, throws [std::out_of_range], fails an [assert], or has not returned
    within its fuel. *)
Inductive parsed (A : Type) := Returns (x : A) | Throws | Aborts | Running.
#[global] Arguments Returns {A} x. #[global] Arguments Throws {A}.
#[global] Arguments Aborts {A}. #[global] Arguments Running {A}.

Definition pbind {A B} (m : parsed A) (f : A -> parsed B) : parsed B :=
  match m with Returns x => f x | Throws => Throws | Aborts => Aborts | Running => Running end.
Notation "x <~ m ; k" := (pbind m (fun x => k)) (at level 90, m at next level, k at level 200, right associativity).

(** [s[i]]; the character after the last is the null character. *)
Definition char_at (s : list ascii) (i : nat) : ascii := nth i s "000".

(** [std::isspace] in the C locale. *)
Definition isspace (c : ascii) : bool :=
  let n := nat_of_ascii c in (n =? 32)%nat || ((9 <=? n) && (n <=? 13))%nat.

(** The parentheses around the string: the [while] loop of [removePars]. *)
Fixpoint outer_pars (s : list ascii) (fuel ns : nat) : nat :=
  match fuel with
  | O => ns
  | S fuel =>
      if (ns * 2 <=? length s)%nat && (char_at s ns =? "(") && (char_at s (length s - 1 - ns) =? ")")
      then outer_pars s fuel (S ns) else ns
  end.

(** One character of the [for] loop: the depth and its minimum. *)
Definition scan_step (st : Z * Z) (c : ascii) : Z * Z :=
  let '(ins, minIns) := st in
  let ins := if c =? "(" then (ins + 1)%Z else ins in
  let ins := if c =? ")" then (ins - 1)%Z else ins in
  (ins, if (ins <? minIns)%Z then ins else minIns).

(** The characters of the [for] loop. *)
Definition scanned (s : list ascii) (ns : nat) : list ascii :=
  take (length s - ns * 2 - ns) (drop ns s).

(** [s.erase(pos, n)] *)
Definition erase (s : list ascii) (pos n : Z) : parsed (list ascii) :=
  if (Z.of_nat (length s) <? pos)%Z then Throws
  else Returns (take (Z.to_nat pos) s ++ drop (Z.to_nat (Z.min (pos + n) (Z.of_nat (length s)))) s).

Definition removePars (s : list ascii) : parsed (list ascii) :=
  let ns := outer_pars s (S (length s)) 0 in
  let '(_, minIns) := fold_left scan_step (scanned s ns) (0, 0)%Z in
  let k := ((Z.of_nat ns + minIns) mod 2 ^ 32)%Z in
  s <~ erase s 0 k; erase s ((Z.of_nat (length s) - k) mod 2 ^ 64)%Z (Z.of_nat (length s)).

(** The loop of [splitParStr] over the characters: the parts found, and the one being
    read. *)
Fixpoint split_loop (s : list ascii) (res : list (list ascii)) (accS : list ascii) (nPar : Z) :
    parsed (list (list ascii) * list ascii) :=
  match s with
  | [] => Returns (res, accS)
  | c :: s =>
      if isspace c then split_loop s res accS nPar
      else if (c =? ",") && (nPar =? 0)%Z then
        part <~ removePars accS; split_loop s (res ++ [part]) [] nPar
      else
        let nPar := if c =? "(" then (nPar + 1)%Z else nPar in
        let nPar := if c =? ")" then (nPar - 1)%Z else nPar in
        split_loop s res (accS ++ [c]) nPar
  end.

(** [fuel] bounds the depth of the recursion. *)
Fixpoint splitParStr (fuel : nat) (s : list ascii) : parsed (list (list ascii)) :=
  match fuel with
  | O => Running
  | S fuel =>
      found <~ split_loop s [] [] 0;
      part <~ removePars (snd found);
      match fst found with
      | [] => part <~ removePars part; splitParStr fuel part
      | res => Returns (res ++ [part])
      end
  end.

Definition text (s : string) : list ascii := list_ascii_of_string s.

Example split_pair : splitParStr 2 (text "(12, 345)") = Returns [text "12"; text "345"].
Proof. reflexivity. Qed.
Example split_nested : splitParStr 2 (text "((1,2),(3,4),(5,6))") = Returns [text "1,2"; text "3,4"; text "5,6"].
Proof. reflexivity. Qed.
Example remove_wrong : removePars (text "((a)())") = Returns (text "a)(").
Proof. reflexivity. Qed.

(** ** What the parser makes of the strings the classes write *)

Definition no_par (c : ascii) : Prop := (c =? "(") = false /\ (c =? ")") = false.
(** A character of a number. *)
Definition plain (c : ascii) : Prop := no_par c /\ isspace c = false /\ (c =? ",") = false.
(** A character between the parentheses of a pair or triple of numbers. *)
Definition inner (c : ascii) : Prop := no_par c /\ isspace c = false.

Fixpoint join (parts : list (list ascii)) : list ascii :=
  match parts with
  | [] => []
  | [p] => p
  | p :: parts => p ++ "," :: join parts
  end.

Definition fits (s : list ascii) : Prop := Z.of_nat (length s) < 2 ^ 64.

Lemma plain_inner c : plain c -> inner c.
Proof. by intros (? & ? & ?). Qed.

Lemma char_at_no_par s i : Forall no_par s -> (char_at s i =? "(") = false.
Proof.
  intros Hs. unfold char_at. destruct (nth_in_or_default i s "000") as [Hin| ->]; [|done].
  apply list_elem_of_In in Hin. rewrite list.Forall_forall in Hs. by apply Hs.
Qed.

Lemma scan_no_par s st : (snd st <= fst st)%Z -> Forall no_par s -> fold_left scan_step s st = st.
Proof.
  intros Hst Hs. revert st Hst. induction Hs as [|c s [H1 H2] Hs IH]; intros [i mi] Hst; [done|]. cbn [fold_left].
  unfold scan_step at 2. rewrite H1, H2. cbn [fst snd] in Hst.
  destruct (Z.ltb_spec i mi); [lia|]. by apply IH.
Qed.

(** [k] characters are taken off at both ends. *)
Lemma removePars_eq s k :
  fits s -> (2 * k <= length s)%nat ->
  (Z.of_nat (outer_pars s (S (length s)) 0) +
    snd (fold_left scan_step (scanned s (outer_pars s (S (length s)) 0)) (0, 0)%Z))%Z = Z.of_nat k ->
  (Z.of_nat k < 2 ^ 32)%Z ->
  removePars s = Returns (take (length s - 2 * k) (drop k s)).
Proof.
  unfold fits, removePars. intros Hl Hk He H32. destruct (fold_left _ _ _) as [i mi]. cbn [snd] in He.
  rewrite He, Z.mod_small by lia. unfold erase at 1.
  destruct (Z.ltb_spec (Z.of_nat (length s)) 0); [lia|]. cbn [pbind].
  replace (Z.to_nat (Z.min (0 + Z.of_nat k) (Z.of_nat (length s)))) with k by lia.
  change (take (Z.to_nat 0) s ++ drop k s) with (drop k s). unfold erase. rewrite length_drop, Z.mod_small by lia.
  destruct (Z.ltb_spec (Z.of_nat (length s - k)) (Z.of_nat (length s - k) - Z.of_nat k)); [lia|].
  rewrite Z.min_r, Nat2Z.id by lia. rewrite (drop_ge _ (length s - k)) by (rewrite length_drop; lia).
  rewrite app_nil_r. do 2 f_equal. lia.
Qed.

Lemma removePars_inner s : fits s -> Forall no_par s -> removePars s = Returns s.
Proof.
  intros Hl Hs. assert (Hns : outer_pars s (S (length s)) 0 = 0%nat).
  { cbn [outer_pars]. by rewrite char_at_no_par, andb_false_r by done. }
  rewrite (removePars_eq s 0); rewrite ?Hns; [|done|lia| |done].
  - by rewrite drop_0, Nat.mul_0_r, Nat.sub_0_r, firstn_all.
  - rewrite scan_no_par; [done|done|]. unfold scanned. by apply Forall_take, Forall_drop.
Qed.

Lemma outer_pars_parens s fuel :
  Forall no_par s -> outer_pars ("(" :: s ++ [")"]) (S (S fuel)) 0 = 1%nat.
Proof.
  intros Hs. cbn [outer_pars]. unfold char_at at 1 2. cbn [length nth]. rewrite length_app. cbn [length].
  replace (S (length s + 1) - 1 - 0)%nat with (S (length s)) by lia. cbn [nth].
  rewrite app_nth2, Nat.sub_diag by lia. cbn [nth Nat.mul Nat.leb andb Ascii.eqb Bool.eqb].
  replace (char_at ("(" :: s ++ [")"]) 1 =? "(") with false; [by rewrite andb_false_r|].
  unfold char_at. cbn [nth]. destruct s as [|c s]; [done|]. cbn [nth app].
  symmetry. by inversion Hs as [|? ? [? ?] ?].
Qed.

Lemma removePars_parens s :
  fits ("(" :: s ++ [")"]) -> Forall no_par s -> removePars ("(" :: s ++ [")"]) = Returns s.
Proof.
  intros Hl Hs. pose proof (outer_pars_parens s (length s) Hs) as Hns.
  assert (Hlen : length ("(" :: s ++ [")"]) = S (S (length s))) by (cbn [length]; rewrite length_app; cbn; lia).
  rewrite (removePars_eq _ 1); rewrite ?Hlen, ?outer_pars_parens by done; [|done|lia| |done].
  - cbn [drop skipn]. replace (S (S (length s)) - 2 * 1)%nat with (length s) by lia. by rewrite drop_0, take_app_length.
  - unfold scanned. rewrite Hlen. cbn [drop skipn]. rewrite drop_0, take_app_le by lia.
    rewrite scan_no_par; [done|done|by apply Forall_take].
Qed.

(** *** The loop *)

Lemma split_loop_plain p s res acc :
  Forall plain p -> split_loop (p ++ s) res acc 0 = split_loop s res (acc ++ p) 0.
Proof.
  intros Hp. revert acc. induction Hp as [|c p (Hn & Hsp & Hc) Hp IH]; intros acc; [by rewrite app_nil_r|].
  cbn [app split_loop]. destruct Hn as [H1 H2]. rewrite Hsp, Hc, H1, H2. cbn [andb].
  rewrite IH. by rewrite <- app_assoc.
Qed.

Lemma split_loop_inner p s res acc n :
  (0 < n)%Z -> Forall inner p -> split_loop (p ++ s) res acc n = split_loop s res (acc ++ p) n.
Proof.
  intros Hn Hp. revert acc. induction Hp as [|c p ([H1 H2] & Hsp) Hp IH]; intros acc; [by rewrite app_nil_r|].
  cbn [app split_loop]. rewrite Hsp, H1, H2. destruct (Z.eqb_spec n 0); [lia|]. rewrite andb_false_r.
  rewrite IH. by rewrite <- app_assoc.
Qed.

Lemma plain_no_par p : Forall plain p -> Forall no_par p.
Proof. intros H. eapply Forall_impl; [|exact H]. by intros c (? & ?). Qed.

Lemma fits_le s t : (length s <= length t)%nat -> fits t -> fits s.
Proof. unfold fits. lia. Qed.

Lemma split_loop_join parts p res :
  Forall (Forall plain) (parts ++ [p]) -> fits (join (parts ++ [p])) ->
  split_loop (join (parts ++ [p])) res [] 0 = Returns (res ++ parts, p).
Proof.
  revert res. induction parts as [|p0 parts IH]; intros res Hp Hl.
  - cbn [app join] in *. apply Forall_cons_1 in Hp as [Hp _].
    rewrite <- (app_nil_r p) at 1. rewrite split_loop_plain by done. cbn [split_loop app].
    by rewrite app_nil_r.
  - cbn [app] in Hp. apply Forall_cons_1 in Hp as [H0 Hp].
    assert (Ej : join ((p0 :: parts) ++ [p]) = p0 ++ "," :: join (parts ++ [p])) by (by destruct parts).
    rewrite Ej in *. rewrite split_loop_plain by done. cbn [split_loop app].
    cbn [isspace Ascii.eqb Bool.eqb andb]. change (isspace ",") with false. cbn [Z.eqb].
    assert (length (p0 ++ "," :: join (parts ++ [p])) = length p0 + S (length (join (parts ++ [p]))))%nat
      by (rewrite length_app; done).
    rewrite removePars_inner; [|eapply fits_le; [|exact Hl]; lia|by apply plain_no_par]. cbn [pbind].
    rewrite IH; [|done|eapply fits_le; [|exact Hl]; lia]. by rewrite <- app_assoc.
Qed.

Lemma join_last parts p : (length p <= length (join (parts ++ [p])))%nat.
Proof.
  induction parts as [|p0 parts IH]; [done|].
  assert (Ej : join ((p0 :: parts) ++ [p]) = p0 ++ "," :: join (parts ++ [p])) by (by destruct parts).
  rewrite Ej, length_app. cbn [length]. lia.
Qed.

(** Numbers separated by commas are split at them. *)
Lemma splitParStr_join fuel parts p :
  parts <> [] -> Forall (Forall plain) (parts ++ [p]) -> fits (join (parts ++ [p])) ->
  splitParStr (S fuel) (join (parts ++ [p])) = Returns (parts ++ [p]).
Proof.
  intros Hne Hp Hl. cbn [splitParStr]. rewrite split_loop_join by done. cbn [app pbind fst snd].
  apply Forall_app in Hp as [_ Hp]. apply Forall_cons_1 in Hp as [Hp _].
  rewrite removePars_inner; [|eapply fits_le; [|exact Hl]; apply join_last|by apply plain_no_par].
  by destruct parts.
Qed.

Lemma join_inner parts : Forall (Forall plain) parts -> Forall inner (join parts).
Proof.
  intros H. induction H as [|p parts Hp H IH]; [apply Forall_nil_2|].
  assert (Hi : Forall inner p) by (eapply Forall_impl; [|exact Hp]; intros c; apply plain_inner).
  destruct parts as [|p' parts]; [done|]. cbn [join]. apply Forall_app. split; [done|].
  apply Forall_cons_2; [|done]. by repeat split.
Qed.

Lemma splitParStr_S fuel s :
  splitParStr (S fuel) s =
    (found <~ split_loop s [] [] 0; part <~ removePars (snd found);
     match fst found with
     | [] => part <~ removePars part; splitParStr fuel part
     | res => Returns (res ++ [part])
     end).
Proof. done. Qed.

(** So are the same in parentheses, one level of recursion deeper. *)
Lemma splitParStr_parens fuel parts p :
  parts <> [] -> Forall (Forall plain) (parts ++ [p]) -> fits ("(" :: join (parts ++ [p]) ++ [")"]) ->
  splitParStr (S (S fuel)) ("(" :: join (parts ++ [p]) ++ [")"]) = Returns (parts ++ [p]).
Proof.
  intros Hne Hp Hl. pose proof (join_inner _ Hp) as Hi. set (s := join (parts ++ [p])) in *.
  assert (Hn : Forall no_par s) by (eapply Forall_impl; [|exact Hi]; by intros c []).
  assert (Hs : fits s) by (eapply fits_le; [|exact Hl]; cbn [length]; rewrite length_app; lia).
  assert (El : split_loop ("(" :: s ++ [")"]) [] [] 0 = Returns ([], "(" :: s ++ [")"])).
  { cbn [split_loop]. change (isspace "(") with false. cbn [Ascii.eqb Bool.eqb andb Z.eqb app].
    rewrite split_loop_inner by (done || lia). cbn [split_loop]. done. }
  rewrite splitParStr_S, El. cbn [pbind fst snd]. rewrite removePars_parens by done. cbn [pbind].
  rewrite removePars_inner by done. cbn [pbind]. by apply splitParStr_join.
Qed.

(** A single number is never returned: the function calls itself without end. *)
Lemma splitParStr_single fuel p : Forall plain p -> fits p -> splitParStr fuel p = Running.
Proof.
  intros Hp Hl. induction fuel as [|fuel IH]; [done|]. cbn [splitParStr].
  pose proof (split_loop_join [] p [] (Forall_cons_2 _ _ _ Hp (Forall_nil_2 _)) Hl) as El.
  cbn [app join] in El. rewrite El. cbn [pbind fst snd]. rewrite removePars_inner by (done || by apply plain_no_par). cbn [pbind].
  rewrite removePars_inner by (done || by apply plain_no_par). exact IH.
Qed.

(** Spaces are skipped. *)
Definition no_spaces (s : list ascii) : list ascii := List.filter (fun c => negb (isspace c)) s.

Lemma split_loop_spaces s : forall res accS n, split_loop (no_spaces s) res accS n = split_loop s res accS n.
Proof.
  induction s as [|c s IH]; intros res accS n; [done|]. cbn [no_spaces List.filter split_loop].
  destruct (isspace c) eqn:Ec; cbn [negb]; [apply IH|]. cbn [split_loop]. rewrite Ec.
  destruct ((c =? ",") && (n =? 0)%Z); [|apply IH].
  destruct (removePars accS); cbn [pbind]; [apply IH|done..].
Qed.

Lemma splitParStr_spaces fuel s : splitParStr fuel (no_spaces s) = splitParStr fuel s.
Proof. destruct fuel as [|fuel]; [done|]. cbn [splitParStr]. by rewrite split_loop_spaces. Qed.
