(* ===== verification/Logger.v ===== *)
(** The logger, [src/logger.cpp] and [logger.hpp]: the lines it writes to its file and to the
    console, for its level and its kind of output.  The mutex only keeps the lines of
    two threads apart in the file; the time of a line is an argument. *)

From Stdlib Require Import String Ascii.
From S2P Require Import Prelude.

(** ** Levels and kinds of output *)

Inductive LogLevel := DISABLE_LOG | LOG_LEVEL_INFO | LOG_LEVEL_BUFFER | LOG_LEVEL_TRACE | LOG_LEVEL_DEBUG | ENABLE_LOG.
Inductive LogType := NO_LOG | CONSOLE | FILE_LOG.

#[export] Instance LogType_eq_dec : EqDecision LogType.
Proof. solve_decision. Defined.

(** The values of the enumeration, which the comparisons are made on. *)
Definition level_value (l : LogLevel) : Z :=
  match l with
  | DISABLE_LOG => 1 | LOG_LEVEL_INFO => 2 | LOG_LEVEL_BUFFER => 3
  | LOG_LEVEL_TRACE => 4 | LOG_LEVEL_DEBUG => 5 | ENABLE_LOG => 6
  end.

Record Logger := mkLogger {
  m_File : list string;
  cout : list string;
  m_LogLevel : LogLevel;
  m_LogType : LogType
}.

Definition Logger_new (file : list string) : Logger := mkLogger file [] LOG_LEVEL_TRACE FILE_LOG.

Definition to_file (line : string) (l : Logger) : Logger :=
  mkLogger (m_File l ++ [line]) (cout l) (m_LogLevel l) (m_LogType l).
Definition to_console (line : string) (l : Logger) : Logger :=
  mkLogger (m_File l) (cout l ++ [line]) (m_LogLevel l) (m_LogType l).

(** [logIntoFile] and [logOnConsole] at the time [now]. *)
Definition logIntoFile (now data : string) (l : Logger) : Logger := to_file (now ++ "  " ++ data)%string l.
Definition logOnConsole (now data : string) (l : Logger) : Logger := to_console (now ++ "  " ++ data)%string l.

(** ** Messages *)

Definition is_file (l : Logger) : bool := bool_decide (m_LogType l = FILE_LOG).
Definition is_console (l : Logger) : bool := bool_decide (m_LogType l = CONSOLE).
Definition reaches_level (n : LogLevel) (l : Logger) : bool := level_value n <=? level_value (m_LogLevel l).

Definition error (now text : string) (l : Logger) : Logger :=
  let data := ("[ERROR]: " ++ text)%string in
  if is_file l then logIntoFile now data l else if is_console l then logOnConsole now data l else l.
Definition alarm (now text : string) (l : Logger) : Logger :=
  let data := ("[ALARM]: " ++ text)%string in
  if is_file l then logIntoFile now data l else if is_console l then logOnConsole now data l else l.
Definition always (now text : string) (l : Logger) : Logger :=
  let data := ("[ALWAYS]: " ++ text)%string in
  if is_file l then logIntoFile now data l else if is_console l then logOnConsole now data l else l.

Definition buffer (text : string) (l : Logger) : Logger :=
  if is_file l && reaches_level LOG_LEVEL_BUFFER l then to_file text l
  else if is_console l && reaches_level LOG_LEVEL_BUFFER l then to_console text l else l.
Definition info (now text : string) (l : Logger) : Logger :=
  let data := ("[INFO]: " ++ text)%string in
  if is_file l && reaches_level LOG_LEVEL_INFO l then logIntoFile now data l
  else if is_console l && reaches_level LOG_LEVEL_INFO l then logOnConsole now data l else l.
Definition trace (now text : string) (l : Logger) : Logger :=
  let data := ("[TRACE]: " ++ text)%string in
  if is_file l && reaches_level LOG_LEVEL_TRACE l then logIntoFile now data l
  else if is_console l && reaches_level LOG_LEVEL_TRACE l then logOnConsole now data l else l.
Definition debug (now text : string) (l : Logger) : Logger :=
  let data := ("[DEBUG]: " ++ text)%string in
  if is_file l && reaches_level LOG_LEVEL_DEBUG l then logIntoFile now data l
  else if is_console l && reaches_level LOG_LEVEL_DEBUG l then logOnConsole now data l else l.

(** The overloads for [std::string] and streams pass the text up to its first null. *)
Fixpoint c_str (s : string) : string :=
  match s with
  | EmptyString => EmptyString
  | String c s => if Ascii.eqb c zero then EmptyString else String c (c_str s)
  end.

(** ** Settings *)

Definition updateLogLevel (logLevel : LogLevel) (l : Logger) : Logger := mkLogger (m_File l) (cout l) logLevel (m_LogType l).
Definition enaleLog : Logger -> Logger := updateLogLevel ENABLE_LOG.
Definition disableLog : Logger -> Logger := updateLogLevel DISABLE_LOG.
Definition updateLogType (logType : LogType) (l : Logger) : Logger := mkLogger (m_File l) (cout l) (m_LogLevel l) logType.
Definition enableConsoleLogging : Logger -> Logger := updateLogType CONSOLE.
Definition enableFileLogging : Logger -> Logger := updateLogType FILE_LOG.

(** ** A run of the logger *)

Inductive log_call :=
| Error (now text : string) | Alarm (now text : string) | Always (now text : string) | Buffer (text : string)
| Info (now text : string) | Trace (now text : string) | Debug (now text : string)
| SetLevel (logLevel : LogLevel) | SetType (logType : LogType).

Definition log_step (l : Logger) (c : log_call) : Logger :=
  match c with
  | Error now t => error now t l | Alarm now t => alarm now t l | Always now t => always now t l | Buffer t => buffer t l
  | Info now t => info now t l | Trace now t => trace now t l | Debug now t => debug now t l
  | SetLevel n => updateLogLevel n l | SetType t => updateLogType t l
  end.

(** ** Which lines go where *)

(** The line of a message, and the level it needs, if it needs one. *)
Definition message (c : log_call) : option (string * option LogLevel) :=
  match c with
  | Error now t => Some ((now ++ "  [ERROR]: " ++ t)%string, None)
  | Alarm now t => Some ((now ++ "  [ALARM]: " ++ t)%string, None)
  | Always now t => Some ((now ++ "  [ALWAYS]: " ++ t)%string, None)
  | Buffer t => Some (t, Some LOG_LEVEL_BUFFER)
  | Info now t => Some ((now ++ "  [INFO]: " ++ t)%string, Some LOG_LEVEL_INFO)
  | Trace now t => Some ((now ++ "  [TRACE]: " ++ t)%string, Some LOG_LEVEL_TRACE)
  | Debug now t => Some ((now ++ "  [DEBUG]: " ++ t)%string, Some LOG_LEVEL_DEBUG)
  | _ => None
  end.

Definition captured (need : option LogLevel) (level : LogLevel) : bool :=
  match need with None => true | Some n => level_value n <=? level_value level end.

(** The lines a sequence of calls adds to the output of the kind [sink]. *)
Fixpoint lines_for (sink : LogType) (level : LogLevel) (type : LogType) (cs : list log_call) : list string :=
  match cs with
  | [] => []
  | SetLevel level :: cs => lines_for sink level type cs
  | SetType type :: cs => lines_for sink level type cs
  | c :: cs =>
      match message c with
      | Some (line, need) => if bool_decide (type = sink) && captured need level then [line] else []
      | None => []
      end ++ lines_for sink level type cs
  end.

(** The file and the console get, in the order of the calls, the lines of the messages
    whose level is enabled while their kind of output is chosen, those of errors, alarms
    and the [always] kind whatever the level; with [NO_LOG] there are none of them either. *)
Theorem log_lines cs : forall l,
  m_File (fold_left log_step cs l) = m_File l ++ lines_for FILE_LOG (m_LogLevel l) (m_LogType l) cs /\
  cout (fold_left log_step cs l) = cout l ++ lines_for CONSOLE (m_LogLevel l) (m_LogType l) cs.
Proof.
  induction cs as [|c cs IH]; intros l; cbn [fold_left]; [by rewrite !app_nil_r|].
  rewrite (proj1 (IH _)), (proj2 (IH _)). clear IH. destruct l as [f o n t].
  destruct c; cbn [lines_for message log_step]; try done;
    unfold error, alarm, always, buffer, info, trace, debug, is_file, is_console, reaches_level; cbn [m_LogType m_LogLevel captured];
    destruct t; repeat (case_bool_decide; try discriminate; try done); cbn [andb];
    try (destruct (_ <=? _)); cbn; by rewrite <- ?app_assoc.
Qed.

Example log_sample : let l := fold_left log_step
    [Debug "12:00" "a"; Info "12:01" "b"; SetType CONSOLE; SetLevel DISABLE_LOG; Info "12:02" "c"; Error "12:03" "d"; SetType NO_LOG; Error "12:04" "e"]%string
    (Logger_new []) in
  m_File l = ["12:01  [INFO]: b"]%string /\ cout l = ["12:03  [ERROR]: d"]%string.
Proof. split; reflexivity. Qed.
