(* ===== verification/FrRaw.v ===== *)
(** The raw field layer: [build/fr_raw_generic.cpp] (and, with the constants of
    the other prime, [build/fq_raw_generic.cpp], the same code generated from one
    template).  An [FrRawElement] is an array of four limbs; the array a routine
    writes is its result.  The constants of the two files are the two instances
    of [FieldParams]. *)

From S2P Require Import Prelude Limbs Gmp.

(** ** The constants of a generated field *)

Class FieldParams := {
  Fr_rawq : list Z;
  Fr_np : Z;
  lboMask : Z;
  Fr_q_longVal : list Z;
  Fr_R2_longVal : list Z;
  Fr_R3_longVal : list Z;
  half : list Z;
  Fr_rawR2 : list Z
}.

Definition Fr_params : FieldParams := {|
  Fr_rawq := [0x43e1f593f0000001; 0x2833e84879b97091; 0xb85045b68181585d; 0x30644e72e131a029; 0];
  Fr_np := 0xc2e1f593efffffff;
  lboMask := 0x3fffffffffffffff;
  Fr_q_longVal := [0x43e1f593f0000001; 0x2833e84879b97091; 0xb85045b68181585d; 0x30644e72e131a029];
  Fr_R2_longVal := [0x1bb8e645ae216da7; 0x53fe3ab1e35c59e3; 0x8c49833d53bb8085; 0x0216d0b17f4e44a5];
  Fr_R3_longVal := [0x5e94d8e1b4bf0040; 0x2a489cbe1cfbb6b8; 0x893cc664a19fcfed; 0x0cf8594b7fcc657c];
  half := [0xa1f0fac9f8000000; 0x9419f4243cdcb848; 0xdc2822db40c0ac2e; 0x183227397098d014];
  Fr_rawR2 := [0x1bb8e645ae216da7; 0x53fe3ab1e35c59e3; 0x8c49833d53bb8085; 0x0216d0b17f4e44a5]
|}.

Definition Fq_params : FieldParams := {|
  Fr_rawq := [0x3c208c16d87cfd47; 0x97816a916871ca8d; 0xb85045b68181585d; 0x30644e72e131a029; 0];
  Fr_np := 0x87d20782e4866389;
  lboMask := 0x3fffffffffffffff;
  Fr_q_longVal := [0x3c208c16d87cfd47; 0x97816a916871ca8d; 0xb85045b68181585d; 0x30644e72e131a029];
  Fr_R2_longVal := [0xf32cfc5b538afa89; 0xb5e71911d44501fb; 0x47ab1eff0a417ff6; 0x06d89f71cab8351f];
  Fr_R3_longVal := [0xb1cd6dafda1530df; 0x62f210e6a7283db6; 0xef7f0b0c0ada0afb; 0x20fd6e902d592544];
  half := [0x9e10460b6c3e7ea3; 0xcbc0b548b438e546; 0xdc2822db40c0ac2e; 0x183227397098d014];
  Fr_rawR2 := [0xf32cfc5b538afa89; 0xb5e71911d44501fb; 0x47ab1eff0a417ff6; 0x06d89f71cab8351f]
|}.

Definition Fr_N64 : nat := 4.

(** ** The operations *)

Section Operations.
Context {P : FieldParams} {G : Mpn}.

(** [if (cond) mpn_sub_n(r, r, Fr_rawq, Fr_N64);] and its [mpn_add_n] twin. *)
Definition sub_q_if (cond : bool) (r : list Z) : list Z :=
  if cond then fst (mpn_sub_n r (take Fr_N64 Fr_rawq) Fr_N64) else r.
Definition add_q_if (cond : bool) (r : list Z) : list Z :=
  if cond then fst (mpn_add_n r (take Fr_N64 Fr_rawq) Fr_N64) else r.
Definition ge_q (r : list Z) : bool := mpn_cmp r (take Fr_N64 Fr_rawq) Fr_N64 >=? 0.
Definition nonzero (c : Z) : bool := negb (c =? 0).

Definition Fr_rawAdd (pRawA pRawB : list Z) : list Z :=
  let '(pRawResult, carry) := mpn_add_n pRawA pRawB Fr_N64 in
  sub_q_if (nonzero carry || ge_q pRawResult) pRawResult.

Definition Fr_rawAddLS (pRawA : list Z) (rawB : Z) : list Z :=
  let '(pRawResult, carry) := mpn_add_1 pRawA Fr_N64 rawB in
  sub_q_if (nonzero carry || ge_q pRawResult) pRawResult.

Definition Fr_rawSub (pRawA pRawB : list Z) : list Z :=
  let '(pRawResult, carry) := mpn_sub_n pRawA pRawB Fr_N64 in
  add_q_if (nonzero carry) pRawResult.

Definition Fr_rawSubRegular (pRawA pRawB : list Z) : list Z :=
  fst (mpn_sub_n pRawA pRawB Fr_N64).

Definition Fr_rawSubSL (rawA : Z) (pRawB : list Z) : list Z :=
  let pRawA := [rawA; 0; 0; 0] in
  let '(pRawResult, carry) := mpn_sub_n pRawA pRawB Fr_N64 in
  add_q_if (nonzero carry) pRawResult.

Definition Fr_rawSubLS (pRawA : list Z) (rawB : Z) : list Z :=
  let '(pRawResult, carry) := mpn_sub_1 pRawA Fr_N64 rawB in
  add_q_if (nonzero carry) pRawResult.

Definition Fr_rawNeg (pRawA : list Z) : list Z :=
  let zero := [0; 0; 0; 0] in
  if negb (mpn_cmp pRawA zero Fr_N64 =? 0)
  then fst (mpn_sub_n (take Fr_N64 Fr_rawq) pRawA Fr_N64)
  else copyi_to G (replicate Fr_N64 0) zero Fr_N64.

Definition Fr_rawNegLS (pRawA : list Z) (rawB : Z) : list Z :=
  let '(pRawResult, carry1) := mpn_sub_1 (take Fr_N64 Fr_rawq) Fr_N64 rawB in
  let '(pRawResult, carry2) := mpn_sub_n pRawResult pRawA Fr_N64 in
  add_q_if (nonzero carry1 || nonzero carry2) pRawResult.

Definition Fr_rawCopy (pRawA : list Z) : list Z :=
  [pRawA !!! 0%nat; pRawA !!! 1%nat; pRawA !!! 2%nat; pRawA !!! 3%nat].

Definition Fr_rawIsEq (pRawA pRawB : list Z) : bool :=
  mpn_cmp pRawA pRawB Fr_N64 =? 0.

(** The five-limb accumulator of the Montgomery routines. *)
Definition N : nat := Fr_N64 + 1.

(** [prod[4] = mpn_mul_1(prod, s, Fr_N64, b)] *)
Definition mul_1_into (s : list Z) (b : Z) (prod : list Z) : list Z :=
  let '(lo, c) := mpn_mul_1 s Fr_N64 b in
  <[4%nat := c]> (lo ++ drop Fr_N64 prod).

(** [prod[4] = mpn_addmul_1(prod, s, Fr_N64, b)] *)
Definition addmul_1_into (s : list Z) (b : Z) (prod : list Z) : list Z :=
  let '(lo, c) := mpn_addmul_1 (take Fr_N64 prod) s Fr_N64 b in
  <[4%nat := c]> (lo ++ drop Fr_N64 prod).

(** [mpn_add(prod, prod, N, prev+1, N-1)] *)
Definition add_shifted (prod prev : list Z) : list Z :=
  fst (mpn_add prod N (drop 1 prev) (N - 1)).

(** [mpn_copyi(r, product3+1, Fr_N64); if (mpn_cmp(r, mq) >= 0) mpn_sub_n(r, r, mq);] *)
Definition finish_reduction (product3 : list Z) : list Z :=
  let pRawResult := copyi_to G (replicate Fr_N64 0) (drop 1 product3) Fr_N64 in
  sub_q_if (ge_q pRawResult) pRawResult.

Definition Fr_rawMMul (pRawA pRawB : list Z) : list Z :=
  let mq := Fr_rawq in
  let product0 := replicate N 0 in
  let product1 := replicate N 0 in
  let product2 := replicate N 0 in
  let product3 := replicate N 0 in

  let product0 := mul_1_into pRawB (pRawA !!! 0%nat) product0 in
  let np0 := u64 (Fr_np * product0 !!! 0%nat) in
  let '(product0, c) := mpn_addmul_1 product0 mq N np0 in
  let product1 := <[1%nat := c]> product1 in
  let product1 := addmul_1_into pRawB (pRawA !!! 1%nat) product1 in
  let product1 := add_shifted product1 product0 in

  let np0 := u64 (Fr_np * product1 !!! 0%nat) in
  let '(product1, c) := mpn_addmul_1 product1 mq N np0 in
  let product2 := <[1%nat := c]> product2 in
  let product2 := addmul_1_into pRawB (pRawA !!! 2%nat) product2 in
  let product2 := add_shifted product2 product1 in

  let np0 := u64 (Fr_np * product2 !!! 0%nat) in
  let '(product2, c) := mpn_addmul_1 product2 mq N np0 in
  let product3 := <[1%nat := c]> product3 in
  let product3 := addmul_1_into pRawB (pRawA !!! 3%nat) product3 in
  let product3 := add_shifted product3 product2 in

  let np0 := u64 (Fr_np * product3 !!! 0%nat) in
  let '(product3, _) := mpn_addmul_1 product3 mq N np0 in
  finish_reduction product3.

Definition Fr_rawMMul1 (pRawA : list Z) (pRawB : Z) : list Z :=
  let mq := Fr_rawq in
  let product0 := replicate N 0 in
  let product1 := replicate N 0 in
  let product2 := replicate N 0 in
  let product3 := replicate N 0 in

  let product0 := mul_1_into pRawA pRawB product0 in
  let np0 := u64 (Fr_np * product0 !!! 0%nat) in
  let '(product0, c) := mpn_addmul_1 product0 mq N np0 in
  let product1 := <[1%nat := c]> product1 in
  let product1 := add_shifted product1 product0 in

  let np0 := u64 (Fr_np * product1 !!! 0%nat) in
  let '(product1, c) := mpn_addmul_1 product1 mq N np0 in
  let product2 := <[1%nat := c]> product2 in
  let product2 := add_shifted product2 product1 in

  let np0 := u64 (Fr_np * product2 !!! 0%nat) in
  let '(product2, c) := mpn_addmul_1 product2 mq N np0 in
  let product3 := <[1%nat := c]> product3 in
  let product3 := add_shifted product3 product2 in

  let np0 := u64 (Fr_np * product3 !!! 0%nat) in
  let '(product3, _) := mpn_addmul_1 product3 mq N np0 in
  finish_reduction product3.

Definition Fr_rawFromMontgomery (pRawA : list Z) : list Z :=
  let mq := Fr_rawq in
  let product0 := replicate N 0 in
  let product1 := replicate N 0 in
  let product2 := replicate N 0 in
  let product3 := replicate N 0 in

  let product0 := copyi_to G product0 pRawA Fr_N64 in
  let product0 := <[4%nat := 0]> product0 in
  let np0 := u64 (Fr_np * product0 !!! 0%nat) in
  let '(product0, c) := mpn_addmul_1 product0 mq N np0 in
  let product1 := <[1%nat := c]> product1 in
  let product1 := add_shifted product1 product0 in

  let np0 := u64 (Fr_np * product1 !!! 0%nat) in
  let '(product1, c) := mpn_addmul_1 product1 mq N np0 in
  let product2 := <[1%nat := c]> product2 in
  let product2 := add_shifted product2 product1 in

  let np0 := u64 (Fr_np * product2 !!! 0%nat) in
  let '(product2, c) := mpn_addmul_1 product2 mq N np0 in
  let product3 := <[1%nat := c]> product3 in
  let product3 := add_shifted product3 product2 in

  let np0 := u64 (Fr_np * product3 !!! 0%nat) in
  let '(product3, _) := mpn_addmul_1 product3 mq N np0 in
  finish_reduction product3.

Definition Fr_rawMSquare (pRawA : list Z) : list Z := Fr_rawMMul pRawA pRawA.
Definition Fr_rawToMontgomery (pRawA : list Z) : list Z := Fr_rawMMul pRawA Fr_rawR2.

Definition Fr_rawIsZero (rawA : list Z) : bool := mpn_zero_p rawA Fr_N64.
Definition Fr_rawCmp (pRawA pRawB : list Z) : Z := mpn_cmp pRawA pRawB Fr_N64.

(** Both arrays after the swap. *)
Definition Fr_rawSwap (pRawResult pRawA : list Z) : list Z * list Z :=
  let temp := [pRawResult !!! 0%nat; pRawResult !!! 1%nat; pRawResult !!! 2%nat; pRawResult !!! 3%nat] in
  let pRawResult := [pRawA !!! 0%nat; pRawA !!! 1%nat; pRawA !!! 2%nat; pRawA !!! 3%nat] in
  let pRawA := [temp !!! 0%nat; temp !!! 1%nat; temp !!! 2%nat; temp !!! 3%nat] in
  (pRawResult, pRawA).

Definition Fr_rawCopyS2L (val : Z) : list Z :=
  let pRawResult := [u64 val; 0; 0; 0] in
  if val <? 0
  then fst (mpn_add_n [u64 val; u64 (-1); u64 (-1); u64 (-1)] (take Fr_N64 Fr_rawq) Fr_N64)
  else pRawResult.

(** [pRawResult[3] &= lboMask;] *)
Definition mask_top (r : list Z) : list Z := <[3%nat := Z.land (r !!! 3%nat) lboMask]> r.

Definition Fr_rawAnd (pRawA pRawB : list Z) : list Z :=
  let pRawResult := mask_top (mpn_and_n pRawA pRawB Fr_N64) in
  sub_q_if (ge_q pRawResult) pRawResult.

Definition Fr_rawOr (pRawA pRawB : list Z) : list Z :=
  let pRawResult := mask_top (mpn_ior_n pRawA pRawB Fr_N64) in
  sub_q_if (ge_q pRawResult) pRawResult.

Definition Fr_rawXor (pRawA pRawB : list Z) : list Z :=
  let pRawResult := mask_top (mpn_xor_n pRawA pRawB Fr_N64) in
  sub_q_if (ge_q pRawResult) pRawResult.

Definition Fr_rawNot (pRawA : list Z) : list Z :=
  let pRawResult := mask_top (mpn_com pRawA Fr_N64) in
  sub_q_if (ge_q pRawResult) pRawResult.

(** The shifts copy between arrays that may be one and the same, so they take the
    contents of the destination, whether [r] and [a] are one array, and [a]. *)
Definition Fr_rawShl (same : bool) (r a : list Z) (b : Z) : list Z :=
  let bit_shift := b mod 64 in
  let word_shift := Z.to_nat (b / 64) in
  let word_count := (Fr_N64 - word_shift)%nat in
  let space := if same then a else r ++ a in
  let src := if same then 0%nat else Fr_N64 in
  let r := take Fr_N64 (mpn_copyi space word_shift src word_count) in
  let r := replicate word_shift 0 ++ drop word_shift r in
  let r := if negb (bit_shift =? 0) then fst (mpn_lshift r Fr_N64 bit_shift) else r in
  let r := mask_top r in
  sub_q_if (ge_q r) r.

Definition Fr_rawShr (same : bool) (r a : list Z) (b : Z) : list Z :=
  let bit_shift := b mod 64 in
  let word_shift := Z.to_nat (b / 64) in
  let word_count := (Fr_N64 - word_shift)%nat in
  let space := if same then a else r ++ a in
  let src := if same then 0%nat else Fr_N64 in
  let r := take Fr_N64 (mpn_copyi space 0 (src + word_shift) word_count) in
  let r := take word_count r ++ replicate word_shift 0 in
  if negb (bit_shift =? 0) then fst (mpn_rshift r Fr_N64 bit_shift) else r.
End Operations.

(** ** What the constants must satisfy *)

Definition q {P : FieldParams} : Z := eval Fr_rawq.
Definition R : Z := 2 ^ 256.

(** The inverse of [R] modulo [q], from [Fr_np]: [2^64 * ((1 + np * q) / 2^64) = 1 + np * q]. *)
Definition Rinv {P : FieldParams} : Z := ((1 + Fr_np * q) / 2 ^ 64) ^ 4 mod q.

(** [rep l v]: the array [l] holds the canonical representative [v] of a residue. *)
Definition rep {P : FieldParams} (l : list Z) (v : Z) : Prop :=
  limbs 4 l /\ eval l = v /\ v < q.

Class FieldOk (P : FieldParams) : Prop := {
  rawq_limbs : limbs 5 Fr_rawq;
  rawq_top : eval (take 4 Fr_rawq) = q;
  q_longVal_eq : Fr_q_longVal = take 4 Fr_rawq;
  q_range : 2 ^ 253 < q < 2 ^ 254;
  q_low : 2 ^ 32 <= Fr_rawq !!! 0%nat;
  np_u64 : is_u64 Fr_np;
  np_inverse : (1 + Fr_np * q) mod 2 ^ 64 = 0;
  mask_62 : lboMask = Z.ones 62;
  half_limbs : limbs 4 half;
  half_eq : 2 * eval half + 1 = q;
  R2_rep : rep Fr_R2_longVal (R * R mod q);
  R3_rep : rep Fr_R3_longVal (R * R * R mod q);
  rawR2_eq : Fr_rawR2 = Fr_R2_longVal
}.

(** Checking a concrete set of constants is evaluation. *)
Ltac check_const := vm_compute; first [reflexivity | repeat split; first [reflexivity | discriminate]].
Ltac check_limbs :=
  split; [reflexivity|]; repeat (apply Forall_cons_2; [check_const|]); apply Forall_nil_2.
Ltac check_field_ok :=
  split;
  lazymatch goal with
  | |- limbs _ _ => check_limbs
  | |- rep _ _ => split; [check_limbs|split; check_const]
  | |- _ => check_const
  end.

#[export] Instance Fr_params_ok : FieldOk Fr_params.
Proof. check_field_ok. Qed.

#[export] Instance Fq_params_ok : FieldOk Fq_params.
Proof. check_field_ok. Qed.

Create HintDb raw.

Section Facts.
Context {P : FieldParams} {OK : FieldOk P} {G : Mpn} {GL : MpnLaws G}.

Lemma q_bounds : 2 ^ 253 < q < 2 ^ 254.
Proof. apply q_range. Qed.
Lemma q_pos : 0 < q.
Proof. pose proof q_bounds. lia. Qed.
Lemma q_nonzero : q <> 0.
Proof. pose proof q_pos. lia. Qed.
Lemma base_4 : base 4 = R.
Proof. done. Qed.
Lemma q_R : 4 * q < 4 * R.
Proof. pose proof q_bounds. unfold R. lia. Qed.
Lemma two_q_R : 2 * q < R.
Proof. pose proof q_bounds. unfold R. lia. Qed.

Lemma q4_limbs : limbs 4 (take Fr_N64 Fr_rawq).
Proof. apply (limbs_take 5); [apply rawq_limbs|unfold Fr_N64; lia]. Qed.
Lemma q4_eval : eval (take Fr_N64 Fr_rawq) = q.
Proof. apply rawq_top. Qed.

Lemma Rinv_spec : (R * Rinv) mod q = 1 mod q.
Proof.
  unfold Rinv. rewrite Zmult_mod_idemp_r.
  set (k := (1 + Fr_np * q) / 2 ^ 64).
  assert (Hk : 2 ^ 64 * k = 1 + Fr_np * q).
  { unfold k. pose proof np_inverse as H. apply Z.div_exact in H; lia. }
  replace (R * k ^ 4) with ((2 ^ 64 * k) ^ 4) by (unfold R; ring).
  rewrite Hk, Zpower_mod by apply q_pos. rewrite mod_add_mult.
  by rewrite <- Zpower_mod by apply q_pos.
Qed.

Lemma rep_range l v : rep l v -> 0 <= v < q.
Proof. intros (Hl & <- & Hv). pose proof (eval_range _ _ Hl). lia. Qed.

Lemma rep_limbs l v : rep l v -> limbs 4 l.
Proof. by intros (? & _). Qed.

Lemma rep_eval l v : rep l v -> eval l = v.
Proof. by intros (_ & ? & _). Qed.

Lemma rep_mod l v : rep l v -> v mod q = v.
Proof. intros H. apply Z.mod_small. eapply rep_range; eauto. Qed.

Lemma rep_intro l x : limbs 4 l -> 0 <= x < q -> eval l = x -> rep l x.
Proof. intros. split; [done|]. split; [done|lia]. Qed.

Lemma rep_inj l k v : rep l v -> rep k v -> l = k.
Proof. intros (Hl & El & _) (Hk & Ek & _). apply (eval_inj 4); [done..|congruence]. Qed.

Lemma rep_of_Z v : 0 <= v < q -> rep (of_Z 4 v) v.
Proof.
  intros Hv. apply rep_intro; [apply limbs_of_Z|done|].
  apply eval_of_Z_small. rewrite base_4. pose proof two_q_R. lia.
Qed.

(** *** Conditional correction steps *)

Lemma ge_q_spec r : limbs 4 r -> ge_q r = (q <=? eval r).
Proof.
  intros Hr. unfold ge_q. rewrite mpn_cmp_ge by auto using q4_limbs. by rewrite q4_eval.
Qed.

Lemma nonzero_carry c : 0 <= c <= 1 -> nonzero c = (0 <? c).
Proof. intros. unfold nonzero. assert (c = 0 \/ c = 1) as [-> | ->] by lia; done. Qed.

(** A carry is 0 or 1; the other case is usually out of range. *)
Local Ltac carry c := assert (c = 0 \/ c = 1) as [-> | ->] by lia;
  rewrite ?Z.mul_0_r, ?Z.mul_1_r, ?Z.add_0_r, ?Z.sub_0_r in *; try lia.
Local Ltac step E spec :=
  apply spec in E as (? & ? & ?); auto using q4_limbs;
  rewrite ?q4_eval in *; unfold Fr_N64 in *; rewrite ?base_4 in *.
Local Ltac residue k :=
  apply rep_intro; [done|apply Z.mod_pos_bound, q_pos|apply (Zmod_unique _ _ k); lia].

Lemma sub_q_if_spec r c :
  limbs 4 r -> 0 <= c <= 1 -> 0 <= eval r + R * c < 2 * q ->
  rep (sub_q_if (nonzero c || ge_q r) r) ((eval r + R * c) mod q).
Proof.
  intros Hr Hc Hb. rewrite nonzero_carry, ge_q_spec by done. unfold sub_q_if.
  pose proof (eval_range _ _ Hr) as Hrr. rewrite base_4 in Hrr. pose proof two_q_R.
  carry c. cbn [Z.ltb Z.compare orb]. destruct (Z.leb_spec q (eval r)); [|residue 0].
  destruct (mpn_sub_n _ _ _) as [r' c'] eqn:E. cbn [fst]. step E mpn_sub_n_spec.
  pose proof (eval_range 4 r' ltac:(done)). rewrite base_4 in *. carry c'. residue 1.
Qed.

Lemma sub_q_if_ge r :
  limbs 4 r -> eval r < 2 * q -> rep (sub_q_if (ge_q r) r) (eval r mod q).
Proof.
  intros Hr Hb. pose proof (eval_range _ _ Hr).
  pose proof (sub_q_if_spec r 0 Hr ltac:(lia) ltac:(lia)) as H1.
  by rewrite Z.mul_0_r, Z.add_0_r in H1.
Qed.

Lemma add_q_if_spec r c :
  limbs 4 r -> 0 <= c <= 1 -> - q <= eval r - R * c < q ->
  rep (add_q_if (nonzero c) r) ((eval r - R * c) mod q).
Proof.
  intros Hr Hc Hb. rewrite nonzero_carry by done. unfold add_q_if.
  pose proof (eval_range _ _ Hr) as Hrr. rewrite base_4 in Hrr. pose proof two_q_R.
  carry c; cbn [Z.ltb Z.compare]; [residue 0|].
  destruct (mpn_add_n _ _ _) as [r' c'] eqn:E. cbn [fst]. step E mpn_add_n_spec.
  pose proof (eval_range 4 r' ltac:(done)). rewrite base_4 in *. carry c'. residue (-1).
Qed.

(** *** Additive operations *)

Lemma Fr_rawAdd_spec a b va vb :
  rep a va -> rep b vb -> rep (Fr_rawAdd a b) ((va + vb) mod q).
Proof.
  intros Ha Hb. pose proof (rep_range _ _ Ha). pose proof (rep_range _ _ Hb).
  destruct Ha as (Ha & <- & _), Hb as (Hb & <- & _).
  unfold Fr_rawAdd. destruct (mpn_add_n _ _ _) as [r c] eqn:E.
  step E mpn_add_n_spec. replace (eval a + eval b) with (eval r + R * c) by lia.
  apply sub_q_if_spec; [done..|lia].
Qed.

Lemma Fr_rawAddLS_spec a b va :
  rep a va -> 0 <= b < 2 ^ 32 -> rep (Fr_rawAddLS a b) ((va + b) mod q).
Proof.
  intros Ha Hb. pose proof (rep_range _ _ Ha). destruct Ha as (Ha & <- & _).
  unfold Fr_rawAddLS. destruct (mpn_add_1 _ _ _) as [r c] eqn:E.
  apply mpn_add_1_spec in E as (Hr & Hc & He); [|unfold Fr_N64; lia|done|unfold is_u64; lia].
  unfold Fr_N64 in *. rewrite base_4 in *. pose proof q_bounds.
  replace (eval a + b) with (eval r + R * c) by lia.
  apply sub_q_if_spec; [done..|lia].
Qed.

Lemma Fr_rawSub_spec a b va vb :
  rep a va -> rep b vb -> rep (Fr_rawSub a b) ((va - vb) mod q).
Proof.
  intros Ha Hb. pose proof (rep_range _ _ Ha). pose proof (rep_range _ _ Hb).
  destruct Ha as (Ha & <- & _), Hb as (Hb & <- & _).
  unfold Fr_rawSub. destruct (mpn_sub_n _ _ _) as [r c] eqn:E.
  step E mpn_sub_n_spec. replace (eval a - eval b) with (eval r - R * c) by lia.
  apply add_q_if_spec; [done..|lia].
Qed.

Lemma small_limbs a : 0 <= a < 2 ^ 64 -> limbs 4 [a; 0; 0; 0] /\ eval [a; 0; 0; 0] = a.
Proof.
  intros Ha. split; [|cbn [eval]; lia].
  split; [done|]. repeat (apply Forall_cons_2; [unfold is_u64; lia|]). apply Forall_nil_2.
Qed.

Lemma small_rep a : 0 <= a < 2 ^ 64 -> rep [a; 0; 0; 0] a.
Proof.
  intros Ha. destruct (small_limbs a Ha). pose proof q_bounds.
  apply rep_intro; [done|lia|done].
Qed.

Lemma Fr_rawSubSL_spec a b vb :
  0 <= a < 2 ^ 32 -> rep b vb -> rep (Fr_rawSubSL a b) ((a - vb) mod q).
Proof. intros Ha Hb. apply Fr_rawSub_spec; [apply small_rep; lia|done]. Qed.

Lemma Fr_rawSubLS_spec a b va :
  rep a va -> 0 <= b < 2 ^ 32 -> rep (Fr_rawSubLS a b) ((va - b) mod q).
Proof.
  intros Ha Hb. pose proof (rep_range _ _ Ha). destruct Ha as (Ha & <- & _).
  unfold Fr_rawSubLS. destruct (mpn_sub_1 _ _ _) as [r c] eqn:E.
  apply mpn_sub_1_spec in E as (Hr & Hc & He); [|unfold Fr_N64; lia|done|unfold is_u64; lia].
  unfold Fr_N64 in *. rewrite base_4 in *. pose proof q_bounds.
  replace (eval a - b) with (eval r - R * c) by lia.
  apply add_q_if_spec; [done..|lia].
Qed.

Lemma Fr_rawSubRegular_spec a b :
  limbs 4 a -> limbs 4 b -> eval b <= eval a ->
  limbs 4 (Fr_rawSubRegular a b) /\ eval (Fr_rawSubRegular a b) = eval a - eval b.
Proof.
  intros Ha Hb Hle. unfold Fr_rawSubRegular. destruct (mpn_sub_n _ _ _) as [r c] eqn:E.
  cbn [fst]. step E mpn_sub_n_spec. split; [done|].
  pose proof (eval_range 4 r ltac:(done)). pose proof (eval_range 4 a Ha).
  pose proof (eval_range 4 b Hb). rewrite base_4 in *. carry c.
Qed.

Lemma Fr_rawNeg_spec a va : rep a va -> rep (Fr_rawNeg a) ((- va) mod q).
Proof.
  intros Ha. pose proof (rep_range _ _ Ha). destruct Ha as (Ha & <- & _).
  unfold Fr_rawNeg. destruct (small_limbs 0 ltac:(lia)) as [Hz Ez].
  rewrite mpn_cmp_eq, Ez by done. destruct (Z.eqb_spec (eval a) 0) as [E|E]; cbn [negb].
  - rewrite (copyi_to_all 4) by done. rewrite E. apply rep_intro; done || apply Z.mod_pos_bound, q_pos.
  - destruct (mpn_sub_n _ _ _) as [r c] eqn:E'. cbn [fst]. step E' mpn_sub_n_spec.
    pose proof (eval_range 4 r ltac:(done)). rewrite base_4 in *. pose proof two_q_R.
    carry c. residue (-1).
Qed.

Lemma Fr_rawNegLS_spec a b va :
  rep a va -> 0 < b < 2 ^ 32 -> rep (Fr_rawNegLS a b) ((- b - va) mod q).
Proof.
  intros Ha Hb. pose proof (rep_range _ _ Ha). destruct Ha as (Ha & <- & _).
  pose proof q_bounds. pose proof two_q_R.
  unfold Fr_rawNegLS. destruct (mpn_sub_1 _ _ _) as [r1 c1] eqn:E1.
  apply mpn_sub_1_spec in E1 as (Hr1 & Hc1 & He1); [|unfold Fr_N64; lia|apply q4_limbs|unfold is_u64; lia].
  rewrite q4_eval in He1. unfold Fr_N64 in *. rewrite base_4 in *.
  pose proof (eval_range 4 r1 Hr1). rewrite base_4 in *. carry c1.
  destruct (mpn_sub_n _ _ _) as [r c] eqn:E. step E mpn_sub_n_spec.
  change (nonzero 0) with false. cbn [orb].
  replace (- b - eval a) with (eval r - R * c + (-1) * q) by lia.
  rewrite mod_add_mult. apply add_q_if_spec; [done..|lia].
Qed.

Lemma Fr_rawCopy_spec a va : rep a va -> rep (Fr_rawCopy a) va.
Proof. intros Ha. destruct (limbs_4 a) as (x & y & z & w & -> & _); [apply Ha|done]. Qed.

Lemma Fr_rawSwap_spec a b : limbs 4 a -> limbs 4 b -> Fr_rawSwap a b = (b, a).
Proof.
  intros Ha Hb. destruct (limbs_4 _ Ha) as (? & ? & ? & ? & -> & _).
  by destruct (limbs_4 _ Hb) as (? & ? & ? & ? & -> & _).
Qed.

Lemma Fr_rawIsEq_spec a b va vb : rep a va -> rep b vb -> Fr_rawIsEq a b = (va =? vb).
Proof.
  intros (Ha & <- & _) (Hb & <- & _). unfold Fr_rawIsEq. by rewrite mpn_cmp_eq.
Qed.

Lemma Fr_rawIsZero_spec a va : rep a va -> Fr_rawIsZero a = (va =? 0).
Proof. intros (Ha & <- & _). unfold Fr_rawIsZero. by rewrite mpn_zero_p_spec. Qed.

Lemma Fr_rawCopyS2L_spec v : - 2 ^ 63 <= v < 2 ^ 63 -> rep (Fr_rawCopyS2L v) (v mod q).
Proof.
  intros Hv. pose proof q_bounds. unfold Fr_rawCopyS2L.
  destruct (Z.ltb_spec v 0) as [Hneg|Hpos].
  - assert (limbs 4 [u64 v; u64 (-1); u64 (-1); u64 (-1)]).
    { split; [done|]. repeat (apply Forall_cons_2; [apply u64_range|]). apply Forall_nil_2. }
    assert (Ev : eval [u64 v; u64 (-1); u64 (-1); u64 (-1)] = R + v).
    { replace (u64 v) with (2 ^ 64 + v) by word_lia. unfold R. cbn [eval].
      change (u64 (-1)) with (2 ^ 64 - 1). ring. }
    destruct (mpn_add_n _ _ _) as [r c] eqn:E. cbn [fst]. step E mpn_add_n_spec.
    pose proof (eval_range 4 r ltac:(done)). rewrite base_4 in *. rewrite Ev in *.
    pose proof two_q_R. carry c. residue (-1).
  - rewrite u64_id by (unfold is_u64; lia).
    rewrite Z.mod_small by lia. apply small_rep. lia.
Qed.
End Facts.

(** ** Montgomery multiplication *)

Section Montgomery.
Context {P : FieldParams} {OK : FieldOk P} {G : Mpn} {GL : MpnLaws G}.

Lemma base_5 : base 5 = 2 ^ 64 * R.
Proof. done. Qed.

Lemma drop1_limbs r : limbs 5 r -> limbs 4 (drop 1 r).
Proof. intros H. apply (limbs_drop 5 1); [done|lia]. Qed.

Lemma div64_lt x k : x < 2 ^ 64 * k -> x / 2 ^ 64 < k.
Proof. intros. apply Z.div_lt_upper_bound; lia. Qed.

(** The multiplier of one reduction step clears the low limb. *)
Lemma np0_clears t : (t + u64 (Fr_np * (t mod 2 ^ 64)) * q) mod 2 ^ 64 = 0.
Proof.
  unfold u64. rewrite Z.add_comm, Zplus_mod, Zmult_mod_idemp_l, <- Zplus_mod.
  replace (Fr_np * (t mod 2 ^ 64) * q + t) with (t mod 2 ^ 64 * (Fr_np * q) + t) by ring.
  rewrite Zplus_mod, Zmult_mod_idemp_l, <- Zplus_mod.
  replace (t * (Fr_np * q) + t) with (t * (1 + Fr_np * q)) by ring.
  rewrite <- Zmult_mod_idemp_r, np_inverse, Z.mul_0_r. done.
Qed.

(** One reduction step: adding a multiple of [q] and dropping the low limb
    divides by [2^64]; the returned carry is zero, so the odd-looking
    [product1[1] = carry] of the source stores nothing. *)
Lemma redc_step prod K r c :
  limbs 5 prod -> eval prod < 2 ^ 64 * K + q -> K + q <= R ->
  mpn_addmul_1 prod Fr_rawq N (u64 (Fr_np * prod !!! 0%nat)) = (r, c) ->
  c = 0 /\ limbs 5 r /\ eval (drop 1 r) < K + q /\
  exists m, 2 ^ 64 * eval (drop 1 r) = eval prod + m * q.
Proof.
  intros Hp Hlt HK E. pose proof q_bounds.
  rewrite (eval_head 4 prod Hp) in E. set (m := u64 (Fr_np * (eval prod mod 2 ^ 64))) in E.
  assert (Hm : is_u64 m) by apply u64_range.
  assert (Hz : (eval prod + m * q) mod 2 ^ 64 = 0) by apply np0_clears. clearbody m.
  apply mpn_addmul_1_spec in E as (Hr & Hc & He); [|exact Hp|apply rawq_limbs|exact Hm].
  change (eval Fr_rawq) with q in He. change (base N) with (base 5) in He.
  rewrite base_5 in He. pose proof (eval_range _ _ Hr) as Hrr.
  change (base N) with (base 5) in Hrr. rewrite base_5 in Hrr.
  unfold is_u64 in Hm, Hc. fold_pows.
  assert (q * m <= q * 18446744073709551615) by (apply Z.mul_le_mono_nonneg_l; lia).
  assert (c = 0) as ->.
  { destruct (Z.eq_dec c 0) as [|Hc0]; [done|].
    assert (R * 1 <= R * c) by (apply Z.mul_le_mono_nonneg_l; unfold R; lia). lia. }
  change (limbs N r) with (limbs 5 r) in Hr. rewrite (eval_tail 4 r Hr).
  rewrite Z.mul_0_r, Z.add_0_r in He.
  split; [done|]. split; [exact Hr|]. split; [apply div64_lt; lia|].
  exists m. replace (eval prod + m * q) with (eval r) in * by lia.
  apply Z.div_exact in Hz; [fold_pows; lia|done].
Qed.

Lemma mul_1_into_spec s b :
  limbs 4 s -> is_u64 b ->
  limbs 5 (mul_1_into s b (replicate N 0)) /\ eval (mul_1_into s b (replicate N 0)) = eval s * b.
Proof.
  intros Hs Hb. unfold mul_1_into. destruct (mpn_mul_1 _ _ _) as [lo c] eqn:E.
  apply mpn_mul_1_spec in E as (Hlo & Hc & He); [|done..].
  unfold Fr_N64 in *. destruct (limbs_4 _ Hlo) as (x & y & z & w & -> & _).
  cbn. split; [apply (limbs_app 4 1 [x; y; z; w] [c]); [done|by apply limbs_cons]|].
  rewrite <- He. cbn [eval]. rewrite base_4. unfold R. ring.
Qed.

Lemma addmul_1_into_spec s b :
  limbs 4 s -> is_u64 b ->
  let prod := addmul_1_into s b (<[1%nat := 0]> (replicate N 0)) in
  limbs 5 prod /\ eval prod = eval s * b.
Proof.
  intros Hs Hb. unfold addmul_1_into. destruct (mpn_addmul_1 _ _ _ _) as [lo c] eqn:E.
  apply mpn_addmul_1_spec in E as (Hlo & Hc & He); [|by apply (limbs_replicate 4 0)|done..].
  change (eval (take Fr_N64 _)) with (eval (replicate 4 0)) in He.
  rewrite eval_replicate_0, Z.add_0_l in He.
  unfold Fr_N64 in *. destruct (limbs_4 _ Hlo) as (x & y & z & w & -> & _).
  cbn. split; [apply (limbs_app 4 1 [x; y; z; w] [c]); [done|by apply limbs_cons]|].
  rewrite <- He. cbn [eval]. rewrite base_4. unfold R. ring.
Qed.

Lemma add_shifted_spec prod prev :
  limbs 5 prod -> limbs 5 prev -> eval prod + eval (drop 1 prev) < 2 ^ 64 * R ->
  limbs 5 (add_shifted prod prev) /\
  eval (add_shifted prod prev) = eval prod + eval (drop 1 prev).
Proof.
  intros Hp Hv Hlt. unfold add_shifted. destruct (mpn_add _ _ _ _) as [r c] eqn:E. cbn [fst].
  apply mpn_add_spec in E as (Hr & Hc & He); [|unfold N; lia|exact Hp|by apply drop1_limbs].
  change (base N) with (base 5) in He. rewrite base_5 in He.
  pose proof (eval_range 5 _ Hr). split; [exact Hr|]. assert (c = 0 \/ c = 1) as [-> | ->] by lia; lia.
Qed.

(** The two shapes of a step, on the previous accumulator. *)
Lemma mul_step s b prev r c :
  limbs 4 s -> eval s < q -> is_u64 b -> limbs 5 prev -> eval (drop 1 prev) < eval s + q ->
  let prod := add_shifted (addmul_1_into s b (<[1%nat := 0]> (replicate N 0))) prev in
  mpn_addmul_1 prod Fr_rawq N (u64 (Fr_np * prod !!! 0%nat)) = (r, c) ->
  c = 0 /\ limbs 5 r /\ eval (drop 1 r) < eval s + q /\
  exists m, 2 ^ 64 * eval (drop 1 r) = eval s * b + eval (drop 1 prev) + m * q.
Proof.
  intros Hs Hsq Hb Hv Hlt prod E. pose proof two_q_R. pose proof (eval_range _ _ Hs).
  destruct (addmul_1_into_spec s b Hs Hb) as [Hp He].
  assert (eval s * b <= eval s * (2 ^ 64 - 1))
    by (apply Z.mul_le_mono_nonneg_l; unfold is_u64 in Hb; lia).
  destruct (add_shifted_spec _ prev Hp Hv) as [Hp' He']; [lia|].
  rewrite He in He'. fold prod in Hp', He'. rewrite <- He'.
  apply redc_step; [done| |lia|done]. rewrite He'. lia.
Qed.

Lemma shift_step K prev r c :
  0 <= K -> K + q <= R -> limbs 5 prev -> eval (drop 1 prev) < K + q ->
  let prod := add_shifted (<[1%nat := 0]> (replicate N 0)) prev in
  mpn_addmul_1 prod Fr_rawq N (u64 (Fr_np * prod !!! 0%nat)) = (r, c) ->
  c = 0 /\ limbs 5 r /\ eval (drop 1 r) < K + q /\
  exists m, 2 ^ 64 * eval (drop 1 r) = eval (drop 1 prev) + m * q.
Proof.
  intros HK HKq Hv Hlt prod E.
  destruct (add_shifted_spec (<[1%nat := 0]> (replicate N 0)) prev) as [Hp' He'];
    [by apply (limbs_replicate 5 0)|done| |].
  { change (eval (<[1%nat := 0]> (replicate N 0))) with (eval (replicate 5 0)).
    rewrite eval_replicate_0. unfold R in *. lia. }
  change (eval (<[1%nat := 0]> (replicate N 0))) with (eval (replicate 5 0)) in He'.
  rewrite eval_replicate_0, Z.add_0_l in He'. fold prod in Hp', He'. rewrite <- He'.
  apply redc_step; [done|lia|done|done].
Qed.

(** After four steps the accumulator is congruent to the input divided by [R]. *)
Lemma finish_reduction_spec r x m :
  limbs 5 r -> eval (drop 1 r) < 2 * q -> R * eval (drop 1 r) = x + m * q ->
  rep (finish_reduction r) ((x * Rinv) mod q).
Proof.
  intros Hr Hlt He. pose proof (drop1_limbs _ Hr) as Hd.
  unfold finish_reduction. rewrite (copyi_to_all 4) by (done || by apply limbs_length).
  replace ((x * Rinv) mod q) with (eval (drop 1 r) mod q); [by apply sub_q_if_ge|].
  apply (mod_mul_cancel _ _ R Rinv); [apply Rinv_spec|].
  replace (x * Rinv * R) with (x * (R * Rinv)) by ring.
  rewrite <- (Zmult_mod_idemp_r (R * Rinv)), Rinv_spec, Zmult_mod_idemp_r, Z.mul_1_r.
  rewrite Z.mul_comm, He. apply mod_add_mult.
Qed.

Local Ltac first_step K :=
  match goal with |- context [mpn_addmul_1 ?p Fr_rawq N ?m] =>
    destruct (mpn_addmul_1 p Fr_rawq N m) as [r0 c0] eqn:E0;
    apply (redc_step _ K) in E0 as (-> & Hr0 & Hb0 & m0 & He0) end.
Local Ltac next_step r c E lem :=
  match goal with |- context [mpn_addmul_1 ?p Fr_rawq N ?m] =>
    destruct (mpn_addmul_1 p Fr_rawq N m) as [r c] eqn:E;
    apply lem in E as (-> & ? & ? & ? & ?) end.

Lemma Fr_rawMMul_spec a b vb :
  limbs 4 a -> rep b vb -> rep (Fr_rawMMul a b) ((eval a * vb * Rinv) mod q).
Proof.
  intros Ha (Hb & <- & Hbq). pose proof (eval_range _ _ Hb). pose proof two_q_R.
  destruct (limbs_4 _ Ha) as (a0 & a1 & a2 & a3 & -> & Ha0 & Ha1 & Ha2 & Ha3).
  unfold Fr_rawMMul. cbn [lookup_total list_lookup_total].
  destruct (mul_1_into_spec b a0 Hb Ha0) as [Hp0 Hep0].
  first_step (eval b); [|done| |lia].
  2: { assert (eval b * a0 <= eval b * (2 ^ 64 - 1))
         by (apply Z.mul_le_mono_nonneg_l; unfold is_u64 in Ha0; lia). lia. }
  next_step r1 c1 E1 mul_step; [|done..].
  next_step r2 c2 E2 mul_step; [|done..].
  next_step r3 c3 E3 mul_step; [|done..].
  rewrite Hep0 in He0.
  match goal with Ha : 2 ^ 64 * eval (drop 1 r1) = _ + ?k1 * q,
    Hb : 2 ^ 64 * eval (drop 1 r2) = _ + ?k2 * q, Hc : 2 ^ 64 * eval (drop 1 r3) = _ + ?k3 * q |- _ =>
    apply (finish_reduction_spec _ _ (m0 + 2 ^ 64 * k1 + 2 ^ 128 * k2 + 2 ^ 192 * k3)) end;
    [done|lia|]. cbn [eval]. unfold R. lia.
Qed.

Lemma Fr_rawMMul1_spec a b va :
  rep a va -> is_u64 b -> rep (Fr_rawMMul1 a b) ((va * b * Rinv) mod q).
Proof.
  intros (Ha & <- & Haq) Hb. pose proof (eval_range _ _ Ha). pose proof two_q_R.
  unfold Fr_rawMMul1. destruct (mul_1_into_spec a b Ha Hb) as [Hp0 Hep0].
  first_step (eval a); [|done| |lia].
  2: { assert (eval a * b <= eval a * (2 ^ 64 - 1))
         by (apply Z.mul_le_mono_nonneg_l; unfold is_u64 in Hb; lia). lia. }
  next_step r1 c1 E1 (shift_step (eval a)); [|lia|lia|done..].
  next_step r2 c2 E2 (shift_step (eval a)); [|lia|lia|done..].
  next_step r3 c3 E3 (shift_step (eval a)); [|lia|lia|done..].
  rewrite Hep0 in He0.
  match goal with Ha : 2 ^ 64 * eval (drop 1 r1) = _ + ?k1 * q,
    Hb : 2 ^ 64 * eval (drop 1 r2) = _ + ?k2 * q, Hc : 2 ^ 64 * eval (drop 1 r3) = _ + ?k3 * q |- _ =>
    apply (finish_reduction_spec _ _ (m0 + 2 ^ 64 * k1 + 2 ^ 128 * k2 + 2 ^ 192 * k3)) end;
    [done|lia|]. unfold R. lia.
Qed.

Lemma Fr_rawFromMontgomery_spec a :
  limbs 4 a -> rep (Fr_rawFromMontgomery a) ((eval a * Rinv) mod q).
Proof.
  intros Ha. pose proof (eval_range _ _ Ha) as Har. rewrite base_4 in Har. pose proof q_bounds.
  unfold Fr_rawFromMontgomery.
  assert (Hc : <[4%nat := 0]> (copyi_to G (replicate N 0) a Fr_N64) = a ++ [0]).
  { destruct (limbs_4 _ Ha) as (? & ? & ? & ? & -> & _).
    unfold Fr_N64. by rewrite copyi_to_spec by (cbn; lia). }
  rewrite Hc. assert (Hp0 : limbs 5 (a ++ [0])) by (apply (limbs_app 4 1); [done|by apply (limbs_replicate 1 0)]).
  assert (Hep0 : eval (a ++ [0]) = eval a) by (rewrite eval_app; cbn [eval]; lia).
  first_step (2 ^ 192); [|done|rewrite Hep0; unfold R in *; lia|unfold R in *; lia].
  next_step r1 c1 E1 (shift_step (2 ^ 192)); [|lia|unfold R; lia|done..].
  next_step r2 c2 E2 (shift_step (2 ^ 192)); [|lia|unfold R; lia|done..].
  next_step r3 c3 E3 (shift_step (2 ^ 192)); [|lia|unfold R; lia|done..].
  rewrite Hep0 in He0.
  match goal with Ha : 2 ^ 64 * eval (drop 1 r1) = _ + ?k1 * q,
    Hb : 2 ^ 64 * eval (drop 1 r2) = _ + ?k2 * q, Hc : 2 ^ 64 * eval (drop 1 r3) = _ + ?k3 * q |- _ =>
    apply (finish_reduction_spec _ _ (m0 + 2 ^ 64 * k1 + 2 ^ 128 * k2 + 2 ^ 192 * k3)) end;
    [done|lia|]. unfold R. lia.
Qed.
End Montgomery.

(** ** Bitwise operations and shifts *)

Section Bitwise.
Context {P : FieldParams} {OK : FieldOk P} {G : Mpn} {GL : MpnLaws G}.

Lemma mask_top_spec r :
  limbs 4 r -> limbs 4 (mask_top r) /\ eval (mask_top r) = eval r mod 2 ^ 254.
Proof.
  intros Hr. unfold mask_top. rewrite mask_62.
  assert (Hm : is_u64 (Z.land (r !!! 3%nat) (Z.ones 62))).
  { rewrite Z.land_ones by lia. unfold is_u64. Z.div_mod_to_equations. lia. }
  split; [by apply limbs_insert|].
  destruct (limbs_4 _ Hr) as (x & y & z & w & -> & Hx & Hy & Hz & Hw).
  cbn [lookup_total list_lookup_total insert list_insert eval] in *.
  change ([x; y; z; w] !!! 3%nat) with w in *. change (<[3%nat := ?v]> [x; y; z; w]) with [x; y; z; v].
  rewrite Z.land_ones by lia. cbn [eval]. unfold is_u64 in *. fold_pows.
  apply (Zmod_unique _ _ (w / 2 ^ 62)); Z.div_mod_to_equations; lia.
Qed.

(** Masking to 254 bits and one conditional subtraction canonicalise. *)
Lemma mask_reduce r x :
  limbs 4 r -> eval r mod 2 ^ 254 = x ->
  rep (sub_q_if (ge_q (mask_top r)) (mask_top r)) (x mod q).
Proof.
  intros Hr <-. destruct (mask_top_spec r Hr) as [Hm <-]. pose proof q_bounds.
  apply sub_q_if_ge; [done|]. destruct (mask_top_spec r Hr) as [_ ->].
  pose proof (Z.mod_pos_bound (eval r) (2 ^ 254)). lia.
Qed.

Lemma rep_below l v : rep l v -> 0 <= v < 2 ^ 254.
Proof. intros H. pose proof (rep_range _ _ H). pose proof q_bounds. lia. Qed.

Lemma Fr_rawAnd_spec a b va vb :
  rep a va -> rep b vb -> rep (Fr_rawAnd a b) (Z.land va vb mod q).
Proof.
  intros Ha Hb. pose proof (rep_below _ _ Ha). pose proof (rep_below _ _ Hb).
  destruct Ha as (Ha & <- & _), Hb as (Hb & <- & _).
  destruct (mpn_and_n_spec 4 a b Ha Hb) as [Hr He]. apply mask_reduce; [done|].
  unfold Fr_N64. rewrite He. apply Z.mod_small. apply land_below; lia.
Qed.

Lemma Fr_rawOr_spec a b va vb :
  rep a va -> rep b vb -> rep (Fr_rawOr a b) (Z.lor va vb mod q).
Proof.
  intros Ha Hb. pose proof (rep_below _ _ Ha). pose proof (rep_below _ _ Hb).
  destruct Ha as (Ha & <- & _), Hb as (Hb & <- & _).
  destruct (mpn_ior_n_spec 4 a b Ha Hb) as [Hr He]. apply mask_reduce; [done|].
  unfold Fr_N64. rewrite He. apply Z.mod_small. apply lor_below; lia.
Qed.

Lemma Fr_rawXor_spec a b va vb :
  rep a va -> rep b vb -> rep (Fr_rawXor a b) (Z.lxor va vb mod q).
Proof.
  intros Ha Hb. pose proof (rep_below _ _ Ha). pose proof (rep_below _ _ Hb).
  destruct Ha as (Ha & <- & _), Hb as (Hb & <- & _).
  destruct (mpn_xor_n_spec 4 a b Ha Hb) as [Hr He]. apply mask_reduce; [done|].
  unfold Fr_N64. rewrite He. apply Z.mod_small. apply lxor_below; lia.
Qed.

(** [Fr_rawNot] complements 254 bits. *)
Lemma Fr_rawNot_spec a va : rep a va -> rep (Fr_rawNot a) ((Z.ones 254 - va) mod q).
Proof.
  intros Ha. pose proof (rep_below _ _ Ha). destruct Ha as (Ha & <- & _).
  destruct (mpn_com_spec 4 a Ha) as [Hr He]. apply mask_reduce; [done|].
  unfold Fr_N64. rewrite He, base_4. symmetry. apply (Zmod_unique _ _ 3).
  - change (Z.ones 254) with (2 ^ 254 - 1). lia.
  - change (Z.ones 254) with (2 ^ 254 - 1). unfold R. lia.
Qed.

(** The word-wise part of a left shift. *)
Lemma shl_words (same : bool) (r a : list Z) (k : nat) :
  limbs 4 r -> limbs 4 a -> (k < 4)%nat -> same = false \/ k = 0%nat ->
  let space := if same then a else r ++ a in
  let src := if same then 0%nat else Fr_N64 in
  let r' := take Fr_N64 (mpn_copyi space k src (Fr_N64 - k)) in
  let r'' := replicate k 0 ++ drop k r' in
  limbs 4 r'' /\ eval r'' = (eval a * 2 ^ (64 * Z.of_nat k)) mod R.
Proof.
  intros Hr Ha Hk Hs. cbn zeta. pose proof (eval_range _ _ Ha) as Hb. rewrite base_4 in Hb.
  rewrite mpn_copyi_spec by
    (destruct same; rewrite ?length_app, ?(limbs_length 4) by done; unfold Fr_N64; lia).
  destruct (limbs_4 _ Hr) as (r0 & r1 & r2 & r3 & -> & _).
  destruct (limbs_4 _ Ha) as (x & y & z & w & -> & Hx & Hy & Hz & Hw).
  assert (Hgo : forall (l : list Z) m, limbs 4 l -> 0 <= eval l < R ->
    eval [x; y; z; w] * 2 ^ (64 * Z.of_nat k) = R * m + eval l ->
    limbs 4 l /\ eval l = (eval [x; y; z; w] * 2 ^ (64 * Z.of_nat k)) mod R).
  { intros l m Hl Hr' He. split; [done|]. by apply (Zmod_unique _ _ m). }
  assert (H0 : is_u64 0) by (by split).
  destruct k as [|[|[|[|k]]]]; [| | | |lia];
    (destruct same; [destruct Hs as [Hs|Hs]; try discriminate Hs|]);
    cbn [copy_increasing replicate app drop take Nat.sub Fr_N64 insert list_insert
         lookup_total list_lookup_total].
  all: match goal with |- limbs 4 ?l /\ _ =>
    let l' := eval cbv in l in change l with l' end.
  1, 2: apply (Hgo _ 0).
  7: apply (Hgo _ w). 10: apply (Hgo _ (z + 2 ^ 64 * w)). 13: apply (Hgo _ (y + 2 ^ 64 * z + 2 ^ 128 * w)).
  all: first [ solve [rewrite !limbs_cons; auto 10 using limbs_nil]
    | cbn [eval] in *; unfold R, is_u64 in *; lia ].
Qed.

Lemma shl_bits (r : list Z) (bs : Z) :
  limbs 4 r -> 0 <= bs < 64 ->
  let r' := if negb (bs =? 0) then fst (mpn_lshift r Fr_N64 bs) else r in
  limbs 4 r' /\ eval r' = (eval r * 2 ^ bs) mod R.
Proof.
  intros Hr Hbs. cbn zeta. pose proof (eval_range _ _ Hr) as Hb. rewrite base_4 in Hb.
  destruct (Z.eqb_spec bs 0) as [->|Hne]; cbn [negb].
  - split; [done|]. rewrite Z.pow_0_r, Z.mul_1_r. symmetry. by apply Z.mod_small.
  - destruct (mpn_lshift _ _ _) as [r' c] eqn:E. cbn [fst].
    apply mpn_lshift_spec in E as (Hr' & Hc & He); [|unfold Fr_N64; lia|done|lia].
    pose proof (eval_range _ _ Hr') as Hb'. unfold Fr_N64 in *. rewrite base_4 in *.
    split; [done|]. apply (Zmod_unique _ _ c); lia.
Qed.

Lemma shift_split (b : Z) : 0 <= b < 256 ->
  (Z.to_nat (b / 64) < 4)%nat /\ 0 <= b mod 64 < 64 /\ 64 * Z.of_nat (Z.to_nat (b / 64)) + b mod 64 = b.
Proof. intros Hb. Z.div_mod_to_equations. lia. Qed.

Lemma mod_R_254 (x : Z) : (x mod R) mod 2 ^ 254 = x mod 2 ^ 254.
Proof. apply Z.mod_mod_divide. by exists 4. Qed.

(** The left shift computes [(va << b)] cut to 254 bits, reduced; when the two
    arrays are one, only while no whole limb moves. *)
Lemma Fr_rawShl_spec (same : bool) r a b va :
  limbs 4 r -> rep a va -> 0 <= b < 256 -> same = false \/ b < 64 ->
  rep (Fr_rawShl same r a b) ((va * 2 ^ b) mod 2 ^ 254 mod q).
Proof.
  intros Hr Ha Hb Hs. destruct Ha as (Ha & <- & _).
  destruct (shift_split b Hb) as (Hk & Hbs & Hsum).
  unfold Fr_rawShl. set (k := Z.to_nat (b / 64)) in *.
  destruct (shl_words same r a k Hr Ha Hk) as [Hw Ew].
  { destruct Hs as [Hs|Hs]; [by left|right]. unfold k. Z.div_mod_to_equations. lia. }
  cbn zeta in Hw, Ew |- *.
  destruct (shl_bits _ (b mod 64) Hw Hbs) as [Hl El]. cbn zeta in Hl, El.
  apply mask_reduce; [exact Hl|]. rewrite El, Ew, Zmult_mod_idemp_l, mod_R_254.
  by rewrite <- Z.mul_assoc, <- Z.pow_add_r, Hsum by lia.
Qed.

Lemma shr_words (same : bool) (r a : list Z) (k : nat) :
  limbs 4 r -> limbs 4 a -> (k < 4)%nat ->
  let space := if same then a else r ++ a in
  let src := if same then 0%nat else Fr_N64 in
  let r' := take Fr_N64 (mpn_copyi space 0 (src + k) (Fr_N64 - k)) in
  let r'' := take (Fr_N64 - k) r' ++ replicate k 0 in
  limbs 4 r'' /\ eval r'' = eval a / 2 ^ (64 * Z.of_nat k).
Proof.
  intros Hr Ha Hk. cbn zeta.
  rewrite mpn_copyi_spec by
    (destruct same; rewrite ?length_app, ?(limbs_length 4) by done; unfold Fr_N64; lia).
  destruct (limbs_4 _ Hr) as (r0 & r1 & r2 & r3 & -> & _).
  destruct (limbs_4 _ Ha) as (x & y & z & w & -> & Hx & Hy & Hz & Hw).
  assert (Hgo : forall (l : list Z) m, limbs 4 l -> 0 <= m < 2 ^ (64 * Z.of_nat k) ->
    eval [x; y; z; w] = 2 ^ (64 * Z.of_nat k) * eval l + m ->
    limbs 4 l /\ eval l = eval [x; y; z; w] / 2 ^ (64 * Z.of_nat k)).
  { intros l m Hl Hr' He. split; [done|]. by apply (Zdiv_unique _ _ _ m). }
  assert (H0 : is_u64 0) by (by split).
  destruct k as [|[|[|[|k]]]]; [| | | |lia]; destruct same;
    cbn [copy_increasing replicate app drop take Nat.sub Nat.add Fr_N64].
  all: match goal with |- limbs 4 ?l /\ _ =>
    let l' := eval cbv in l in change l with l' end.
  1, 2: apply (Hgo _ 0).
  7, 8: apply (Hgo _ x). 13, 14: apply (Hgo _ (x + 2 ^ 64 * y)).
  19, 20: apply (Hgo _ (x + 2 ^ 64 * y + 2 ^ 128 * z)).
  all: first [ solve [rewrite !limbs_cons; auto 10 using limbs_nil]
    | cbn [eval] in *; unfold is_u64 in *; lia ].
Qed.

Lemma Fr_rawShr_spec (same : bool) r a b va :
  limbs 4 r -> rep a va -> 0 <= b < 256 -> rep (Fr_rawShr same r a b) (va / 2 ^ b).
Proof.
  intros Hr Ha Hb. pose proof (rep_range _ _ Ha). destruct Ha as (Ha & <- & _).
  destruct (shift_split b Hb) as (Hk & Hbs & Hsum).
  assert (0 < 2 ^ b) by (apply Z.pow_pos_nonneg; lia).
  assert (Hq : 0 <= eval a / 2 ^ b < q).
  { split; [apply Z.div_pos; lia|]. apply Z.div_lt_upper_bound; nia. }
  unfold Fr_rawShr. set (k := Z.to_nat (b / 64)) in *.
  destruct (shr_words same r a k Hr Ha Hk) as [Hw Ew]. cbn zeta in Hw, Ew |- *.
  revert Hw Ew. generalize (take (Fr_N64 - k) (take Fr_N64 (mpn_copyi (if same then a else r ++ a)
    0 ((if same then 0%nat else Fr_N64) + k) (Fr_N64 - k))) ++ replicate k 0).
  intros l Hw Ew. destruct (Z.eqb_spec (b mod 64) 0) as [E|E]; cbn [negb].
  - apply rep_intro; [done..|]. rewrite Ew. do 2 f_equal. lia.
  - destruct (mpn_rshift _ _ _) as [r' c] eqn:Er. cbn [fst].
    apply mpn_rshift_spec in Er as (Hr' & _ & He); [|unfold Fr_N64; lia|done|lia].
    apply rep_intro; [done..|]. rewrite He, Ew, Z.div_div by (apply Z.pow_nonzero || apply Z.pow_pos_nonneg; lia).
    rewrite <- Z.pow_add_r by lia. do 2 f_equal. lia.
Qed.

Lemma Fr_rawMSquare_spec a va :
  rep a va -> rep (Fr_rawMSquare a) ((va * va * Rinv) mod q).
Proof.
  intros Ha. pose proof (Fr_rawMMul_spec a a va (rep_limbs _ _ Ha) Ha) as H.
  by rewrite (rep_eval _ _ Ha) in H.
Qed.

Lemma Fr_rawToMontgomery_spec a va :
  rep a va -> rep (Fr_rawToMontgomery a) ((va * R) mod q).
Proof.
  intros Ha. unfold Fr_rawToMontgomery. rewrite rawR2_eq.
  pose proof (Fr_rawMMul_spec a _ _ (rep_limbs _ _ Ha) R2_rep) as H.
  rewrite (rep_eval _ _ Ha) in H.
  replace ((va * R) mod q) with ((va * (R * R mod q) * Rinv) mod q); [done|].
  replace (va * (R * R mod q) * Rinv) with (va * Rinv * (R * R mod q)) by ring.
  rewrite Zmult_mod_idemp_r. replace (va * Rinv * (R * R)) with (va * R * (R * Rinv)) by ring.
  by rewrite <- Zmult_mod_idemp_r, Rinv_spec, Zmult_mod_idemp_r, Z.mul_1_r.
Qed.
End Bitwise.

#[export] Hint Resolve Fr_rawMMul_spec Fr_rawMMul1_spec Fr_rawFromMontgomery_spec
  Fr_rawAnd_spec Fr_rawOr_spec Fr_rawXor_spec Fr_rawNot_spec Fr_rawMSquare_spec
  Fr_rawToMontgomery_spec : raw.

#[export] Hint Resolve Fr_rawAdd_spec Fr_rawAddLS_spec Fr_rawSub_spec Fr_rawSubSL_spec
  Fr_rawSubLS_spec Fr_rawNeg_spec Fr_rawNegLS_spec Fr_rawCopy_spec Fr_rawCopyS2L_spec : raw.

(** ** The Montgomery operations as a property *)

Section Montgomery.
Context {P : FieldParams} {OK : FieldOk P} {G : Mpn} {GL : MpnLaws G}.

(** On canonical residues [Fr_rawMMul] gives the canonical [x] with
    [x * R = a * b] modulo [q], converting to Montgomery form multiplies by [R], and
    converting back restores the very limbs. *)
Theorem Fr_montgomery_correct a b va vb :
  rep a va -> rep b vb ->
  (exists x, rep (Fr_rawMMul a b) x /\ (x * R) mod q = (va * vb) mod q) /\
  rep (Fr_rawToMontgomery a) ((va * R) mod q) /\
  Fr_rawFromMontgomery (Fr_rawToMontgomery a) = a.
Proof.
  intros Ha Hb. pose proof Rinv_spec as HR.
  assert (Hcancel : forall x, (x * Rinv * R) mod q = x mod q).
  { intros x. replace (x * Rinv * R) with (x * (R * Rinv)) by ring.
    by rewrite <- Zmult_mod_idemp_r, HR, Zmult_mod_idemp_r, Z.mul_1_r. }
  split; [|split; [by apply Fr_rawToMontgomery_spec|]].
  - exists ((va * vb * Rinv) mod q). split.
    + rewrite <- (rep_eval _ _ Ha). by apply Fr_rawMMul_spec; [eapply rep_limbs|].
    + rewrite Zmult_mod_idemp_l. apply Hcancel.
  - pose proof (Fr_rawToMontgomery_spec a va Ha) as Hm. apply (rep_inj _ _ va); [|done].
    pose proof (Fr_rawFromMontgomery_spec _ (rep_limbs _ _ Hm)) as Hf.
    rewrite (rep_eval _ _ Hm), Zmult_mod_idemp_l in Hf.
    replace (va * R * Rinv) with (va * Rinv * R) in Hf by ring.
    by rewrite Hcancel, (rep_mod _ _ Ha) in Hf.
Qed.
End Montgomery.

Lemma Fr_montgomery_correct_witness :
  let a := of_Z 4 (2 ^ 200 + 7) in let b := of_Z 4 (q (P := Fr_params) - 1) in
  (exists x, rep (P := Fr_params) (Fr_rawMMul (P := Fr_params) a b) x /\
     (x * R) mod q (P := Fr_params) =
     ((2 ^ 200 + 7) * (q (P := Fr_params) - 1)) mod q (P := Fr_params)) /\
  rep (P := Fr_params) (Fr_rawToMontgomery (P := Fr_params) a)
    (((2 ^ 200 + 7) * R) mod q (P := Fr_params)) /\
  Fr_rawFromMontgomery (P := Fr_params) (Fr_rawToMontgomery (P := Fr_params) a) = a.
Proof.
  apply (Fr_montgomery_correct (P := Fr_params)); apply rep_of_Z;
    (split; [vm_compute; discriminate|vm_compute; reflexivity]).
Defined.
