(* ===== verification/FrElement.v ===== *)
(** The tagged field elements: [build/fr_generic.cpp] (and [build/fq_generic.cpp],
    the same code with the other prime's constants).

    An [FrElement] is a short 32-bit integer, a four-limb number, or either of
    them in Montgomery form, according to its [type] word.  The routines take
    pointers and mutate what they point to, and callers may pass one pointer
    twice, so they are modelled on an explicit memory: a routine is a state
    passing function on [mem], in the order of the statements of the source. *)

From S2P Require Import Prelude Limbs Gmp FrRaw.

(** ** Data *)

Record FrElement := mkFrElement { shortVal : Z; type : Z; longVal : list Z }.

Definition Fr_SHORT : Z := 0x00000000.
Definition Fr_MONTGOMERY : Z := 0x40000000.
Definition Fr_SHORTMONTGOMERY : Z := 0x40000000.
Definition Fr_LONG : Z := 0x80000000.
Definition Fr_LONGMONTGOMERY : Z := 0xC0000000.

(** [t & flag] as a condition. *)
Definition has (t flag : Z) : bool := negb (Z.land t flag =? 0).

(** The caller's elements are the [Cell]s.  No routine is recursive and no two
    routines on one call chain use the same name for a local element, so a local
    variable is a location of its own; its initial contents are arbitrary. *)
Inductive local_var :=
  a_m | b_m | a_n | b_n | b_ln | e_n | b_long
| shlcl_a_long | do_shl_a_long | do_shrl_a_long | do_shr_a_long
| mpz_tmp | div_tmp.

Inductive loc := Cell (n : nat) | Local (v : local_var).

#[export] Instance local_var_eq_dec : EqDecision local_var.
Proof. solve_decision. Defined.
#[export] Instance loc_eq_dec : EqDecision loc.
Proof. solve_decision. Defined.

Definition mem : Type := loc -> FrElement.
Definition cmd (A : Type) : Type := State mem A.

Definition upd (m : mem) (p : loc) (e : FrElement) : mem :=
  fun l => if decide (l = p) then e else m l.

(** Field accesses through a pointer. *)
Definition shortOf (p : loc) : cmd Z := sget (fun m => shortVal (m p)).
Definition typeOf (p : loc) : cmd Z := sget (fun m => type (m p)).
Definition longOf (p : loc) : cmd (list Z) := sget (fun m => longVal (m p)).
Definition setElem (p : loc) (e : FrElement) : cmd unit := sput (fun m => upd m p e).
Definition setShort (p : loc) (v : Z) : cmd unit :=
  sput (fun m => upd m p (mkFrElement v (type (m p)) (longVal (m p)))).
Definition setType (p : loc) (t : Z) : cmd unit :=
  sput (fun m => upd m p (mkFrElement (shortVal (m p)) t (longVal (m p)))).
Definition setLong (p : loc) (l : list Z) : cmd unit :=
  sput (fun m => upd m p (mkFrElement (shortVal (m p)) (type (m p)) l)).

#[local] Open Scope c_scope.

(** Calls of raw routines on the [longVal] arrays of elements. *)
Definition raw1 (f : list Z -> list Z) (r a : loc) : cmd unit :=
  la <- longOf a ;; setLong r (f la).
Definition raw2 (f : list Z -> list Z -> list Z) (r a b : loc) : cmd unit :=
  la <- longOf a ;; lb <- longOf b ;; setLong r (f la lb).

Section Operations.
Context {P : FieldParams} {G : Mpn}.

Definition Fr_copy (r a : loc) : cmd unit := e <- sget (fun m => m a) ;; setElem r e.

Definition Fr_toNormal (r a : loc) : cmd unit :=
  ta <- typeOf a ;;
  if ta =? Fr_LONGMONTGOMERY then
    setType r Fr_LONG ;;;
    raw1 Fr_rawFromMontgomery r a
  else Fr_copy r a.

(** *** Multiplication *)

Definition has_mul32_overflow (val : Z) : bool :=
  let sign := Z.shiftr val 31 in
  let sign := if negb (sign =? 0) then Z.lnot sign else sign in
  negb (sign =? 0).

Definition Fr_rawSMul (a b : Z) : Z * bool :=
  let r := a * b in (r, has_mul32_overflow r).

(** [Fr_rawCopyS2L(r->longVal, val); r->type = Fr_LONG; r->shortVal = 0;] *)
Definition setLongValue (r : loc) (val : Z) : cmd unit :=
  setLong r (Fr_rawCopyS2L val) ;;;
  setType r Fr_LONG ;;;
  setShort r 0.

Definition mul_s1s2 (r a b : loc) : cmd unit :=
  sa <- shortOf a ;; sb <- shortOf b ;;
  let '(result, overflow) := Fr_rawSMul sa sb in
  if overflow : bool then setLongValue r result
  else
    setShort r (i32 result) ;;;
    setType r Fr_SHORT ;;;
    setLongValue r result.

Definition mul_l1nl2n (r a b : loc) : cmd unit :=
  setType r Fr_LONGMONTGOMERY ;;;
  raw2 Fr_rawMMul r a b ;;;
  raw1 (fun x => Fr_rawMMul x Fr_R3_longVal) r r.

Definition mul_l1nl2m (r a b : loc) : cmd unit :=
  setType r Fr_LONG ;;;
  raw2 Fr_rawMMul r a b.

Definition mul_l1ml2m (r a b : loc) : cmd unit :=
  setType r Fr_LONGMONTGOMERY ;;;
  raw2 Fr_rawMMul r a b.

Definition mul_l1ml2n (r a b : loc) : cmd unit :=
  setType r Fr_LONG ;;;
  raw2 Fr_rawMMul r a b.

(** The common text of the short-by-long products: [l] is the long operand's
    array, [s] points to the short one. *)
Definition mul_by_short (r l s : loc) : cmd unit :=
  sv <- shortOf s ;;
  if sv <? 0 then
    sv' <- shortOf s ;;
    raw1 (fun x => Fr_rawMMul1 x (u64 (- sv'))) r l ;;;
    raw1 Fr_rawNeg r r
  else
    sv' <- shortOf s ;;
    raw1 (fun x => Fr_rawMMul1 x (u64 sv')) r l.

Definition mul_l1ns2n (r a b : loc) : cmd unit :=
  setType r Fr_LONGMONTGOMERY ;;;
  mul_by_short r a b ;;;
  raw1 (fun x => Fr_rawMMul x Fr_R3_longVal) r r.

Definition mul_s1nl2n (r a b : loc) : cmd unit :=
  setType r Fr_LONGMONTGOMERY ;;;
  mul_by_short r b a ;;;
  raw1 (fun x => Fr_rawMMul x Fr_R3_longVal) r r.

Definition mul_l1ms2n (r a b : loc) : cmd unit :=
  setType r Fr_LONG ;;;
  mul_by_short r a b.

Definition mul_s1nl2m (r a b : loc) : cmd unit :=
  setType r Fr_LONG ;;;
  mul_by_short r b a.

Definition mul_l1ns2m (r a b : loc) : cmd unit :=
  setType r Fr_LONG ;;;
  raw2 Fr_rawMMul r a b.

Definition mul_l1ms2m (r a b : loc) : cmd unit :=
  setType r Fr_LONGMONTGOMERY ;;;
  raw2 Fr_rawMMul r a b.

Definition mul_s1ml2m (r a b : loc) : cmd unit :=
  setType r Fr_LONGMONTGOMERY ;;;
  raw2 Fr_rawMMul r a b.

Definition mul_s1ml2n (r a b : loc) : cmd unit :=
  setType r Fr_LONG ;;;
  raw2 Fr_rawMMul r a b.

Definition Fr_mul (r a b : loc) : cmd unit :=
  ta <- typeOf a ;; tb <- typeOf b ;;
  if has ta Fr_LONG then
    if has tb Fr_LONG then
      if has ta Fr_MONTGOMERY then
        if has tb Fr_MONTGOMERY then mul_l1ml2m r a b else mul_l1ml2n r a b
      else
        if has tb Fr_MONTGOMERY then mul_l1nl2m r a b else mul_l1nl2n r a b
    else if has ta Fr_MONTGOMERY then
      if has tb Fr_MONTGOMERY then mul_l1ms2m r a b else mul_l1ms2n r a b
    else
      if has tb Fr_MONTGOMERY then mul_l1ns2m r a b else mul_l1ns2n r a b
  else if has tb Fr_LONG then
    if has ta Fr_MONTGOMERY then
      if has tb Fr_MONTGOMERY then mul_s1ml2m r a b else mul_s1ml2n r a b
    else if has tb Fr_MONTGOMERY then mul_s1nl2m r a b
    else mul_s1nl2n r a b
  else mul_s1s2 r a b.

(** *** Conversions *)

Definition Fr_toLongNormal (r a : loc) : cmd unit :=
  ta <- typeOf a ;;
  if has ta Fr_LONG then
    if has ta Fr_MONTGOMERY then
      raw1 Fr_rawFromMontgomery r a ;;;
      setType r Fr_LONG
    else Fr_copy r a
  else
    sa <- shortOf a ;;
    setLongValue r sa.

Definition Fr_toMontgomery (r a : loc) : cmd unit :=
  ta <- typeOf a ;;
  if has ta Fr_MONTGOMERY then Fr_copy r a
  else if has ta Fr_LONG then
    sa <- shortOf a ;;
    setShort r sa ;;;
    raw1 (fun x => Fr_rawMMul x Fr_R2_longVal) r a ;;;
    setType r Fr_LONGMONTGOMERY
  else
    sa <- shortOf a ;;
    if sa <? 0 then
      setLong r (Fr_rawMMul1 Fr_R2_longVal (u64 (- sa))) ;;;
      raw1 Fr_rawNeg r r ;;;
      setType r Fr_SHORTMONTGOMERY
    else
      setLong r (Fr_rawMMul1 Fr_R2_longVal (u64 sa)) ;;;
      setType r Fr_SHORTMONTGOMERY.

(** *** Subtraction and addition *)

Definition has_add32_overflow (val : Z) : bool :=
  let signs := Z.land (Z.shiftr val 31) 3 in
  (signs =? 1) || (signs =? 2).

Definition Fr_rawSSub (a b : Z) : Z * bool := let r := a - b in (r, has_add32_overflow r).
Definition Fr_rawSAdd (a b : Z) : Z * bool := let r := a + b in (r, has_add32_overflow r).
Definition Fr_rawSNeg (a : Z) : Z * bool := let r := - a in (r, has_add32_overflow r).

Definition sub_s1s2 (r a b : loc) : cmd unit :=
  sa <- shortOf a ;; sb <- shortOf b ;;
  let '(diff, overflow) := Fr_rawSSub sa sb in
  if overflow : bool then setLongValue r diff
  else
    setType r Fr_SHORT ;;;
    setShort r (i32 diff).

Definition sub_l1nl2n (r a b : loc) : cmd unit :=
  setType r Fr_LONG ;;;
  raw2 Fr_rawSub r a b.

Definition sub_l1nl2m (r a b : loc) : cmd unit :=
  setType r Fr_LONGMONTGOMERY ;;;
  Fr_toMontgomery (Local a_m) a ;;;
  raw2 Fr_rawSub r (Local a_m) b.

Definition sub_l1ml2m (r a b : loc) : cmd unit :=
  setType r Fr_LONGMONTGOMERY ;;;
  raw2 Fr_rawSub r a b.

Definition sub_l1ml2n (r a b : loc) : cmd unit :=
  setType r Fr_LONGMONTGOMERY ;;;
  Fr_toMontgomery (Local b_m) b ;;;
  raw2 Fr_rawSub r a (Local b_m).

Definition sub_s1l2n (r a b : loc) : cmd unit :=
  setType r Fr_LONG ;;;
  sa <- shortOf a ;;
  if sa >=? 0 then
    raw1 (fun x => Fr_rawSubSL (u64 sa) x) r b
  else
    raw1 (fun x => Fr_rawNegLS x (u64 (- sa))) r b.

Definition sub_l1ms2n (r a b : loc) : cmd unit :=
  setType r Fr_LONGMONTGOMERY ;;;
  Fr_toMontgomery (Local b_m) b ;;;
  raw2 Fr_rawSub r a (Local b_m).

Definition sub_s1nl2m (r a b : loc) : cmd unit :=
  setType r Fr_LONGMONTGOMERY ;;;
  Fr_toMontgomery (Local a_m) a ;;;
  raw2 Fr_rawSub r (Local a_m) b.

Definition sub_l1ns2 (r a b : loc) : cmd unit :=
  setType r Fr_LONG ;;;
  sb <- shortOf b ;;
  if sb <? 0 then
    raw1 (fun x => Fr_rawAddLS x (u64 (- sb))) r a
  else
    raw1 (fun x => Fr_rawSubLS x (u64 sb)) r a.

Definition sub_l1ms2m (r a b : loc) : cmd unit :=
  setType r Fr_LONGMONTGOMERY ;;;
  raw2 Fr_rawSub r a b.

Definition sub_s1ml2m (r a b : loc) : cmd unit :=
  setType r Fr_LONGMONTGOMERY ;;;
  raw2 Fr_rawSub r a b.

Definition Fr_sub (r a b : loc) : cmd unit :=
  ta <- typeOf a ;; tb <- typeOf b ;;
  if has ta Fr_LONG then
    if has tb Fr_LONG then
      if has ta Fr_MONTGOMERY then
        if has tb Fr_MONTGOMERY then sub_l1ml2m r a b else sub_l1ml2n r a b
      else if has tb Fr_MONTGOMERY then sub_l1nl2m r a b
      else sub_l1nl2n r a b
    else if has ta Fr_MONTGOMERY then
      if has tb Fr_MONTGOMERY then sub_l1ms2m r a b else sub_l1ms2n r a b
    else sub_l1ns2 r a b
  else if has tb Fr_LONG then
    if has tb Fr_MONTGOMERY then
      if has ta Fr_MONTGOMERY then sub_s1ml2m r a b else sub_s1nl2m r a b
    else sub_s1l2n r a b
  else sub_s1s2 r a b.

Definition add_s1s2 (r a b : loc) : cmd unit :=
  sa <- shortOf a ;; sb <- shortOf b ;;
  let '(sum, overflow) := Fr_rawSAdd sa sb in
  if overflow : bool then setLongValue r sum
  else
    setType r Fr_SHORT ;;;
    setShort r (i32 sum).

Definition add_l1nl2n (r a b : loc) : cmd unit :=
  setType r Fr_LONG ;;;
  raw2 Fr_rawAdd r a b.

Definition add_l1nl2m (r a b : loc) : cmd unit :=
  setType r Fr_LONGMONTGOMERY ;;;
  Fr_toMontgomery (Local a_m) a ;;;
  raw2 Fr_rawAdd r (Local a_m) b.

Definition add_l1ml2m (r a b : loc) : cmd unit :=
  setType r Fr_LONGMONTGOMERY ;;;
  raw2 Fr_rawAdd r a b.

Definition add_l1ml2n (r a b : loc) : cmd unit :=
  setType r Fr_LONGMONTGOMERY ;;;
  Fr_toMontgomery (Local b_m) b ;;;
  raw2 Fr_rawAdd r a (Local b_m).

Definition add_s1l2n (r a b : loc) : cmd unit :=
  setType r Fr_LONG ;;;
  sa <- shortOf a ;;
  if sa >=? 0 then
    raw1 (fun x => Fr_rawAddLS x (u64 sa)) r b
  else
    raw1 (fun x => Fr_rawSubLS x (u64 (- sa))) r b.

Definition add_l1ms2n (r a b : loc) : cmd unit :=
  setType r Fr_LONGMONTGOMERY ;;;
  Fr_toMontgomery (Local b_m) b ;;;
  raw2 Fr_rawAdd r a (Local b_m).

Definition add_s1nl2m (r a b : loc) : cmd unit :=
  setType r Fr_LONGMONTGOMERY ;;;
  Fr_toMontgomery (Local a_m) a ;;;
  raw2 Fr_rawAdd r (Local a_m) b.

Definition add_l1ns2 (r a b : loc) : cmd unit :=
  setType r Fr_LONG ;;;
  sb <- shortOf b ;;
  if sb >=? 0 then
    raw1 (fun x => Fr_rawAddLS x (u64 sb)) r a
  else
    raw1 (fun x => Fr_rawSubLS x (u64 (- sb))) r a.

Definition add_l1ms2m (r a b : loc) : cmd unit :=
  setType r Fr_LONGMONTGOMERY ;;;
  raw2 Fr_rawAdd r a b.

Definition add_s1ml2m (r a b : loc) : cmd unit :=
  setType r Fr_LONGMONTGOMERY ;;;
  raw2 Fr_rawAdd r a b.

Definition Fr_add (r a b : loc) : cmd unit :=
  ta <- typeOf a ;; tb <- typeOf b ;;
  if has ta Fr_LONG then
    if has tb Fr_LONG then
      if has ta Fr_MONTGOMERY then
        if has tb Fr_MONTGOMERY then add_l1ml2m r a b else add_l1ml2n r a b
      else
        if has tb Fr_MONTGOMERY then add_l1nl2m r a b else add_l1nl2n r a b
    else if has ta Fr_MONTGOMERY then
      if has tb Fr_MONTGOMERY then add_l1ms2m r a b else add_l1ms2n r a b
    else add_l1ns2 r a b
  else if has tb Fr_LONG then
    if has tb Fr_MONTGOMERY then
      if has ta Fr_MONTGOMERY then add_s1ml2m r a b else add_s1nl2m r a b
    else add_s1l2n r a b
  else add_s1s2 r a b.

(** *** Conversion to [int]; [None] is the exception [Fr_longErr] throws *)

Definition Fr_isTrue (pE : loc) : cmd Z :=
  t <- typeOf pE ;;
  if has t Fr_LONG then l <- longOf pE ;; sret (b2z (negb (Fr_rawIsZero l)))
  else s <- shortOf pE ;; sret (b2z (negb (s =? 0))).

Definition Fr_longNeg (pE : loc) : cmd (option Z) :=
  l <- longOf pE ;;
  if Fr_rawCmp l Fr_q_longVal >=? 0 then sret None
  else
    let result := i64 (u64 (l !!! 0%nat - Fr_q_longVal !!! 0%nat)) in
    let is_long := Z.shiftr result 31 + 1 in
    if negb (is_long =? 0) then sret None else sret (Some (i32 result)).

Definition Fr_longNormal (pE : loc) : cmd (option Z) :=
  l <- longOf pE ;;
  let result := l !!! 0%nat in
  let is_long := Z.shiftr result 31 in
  if negb (is_long =? 0) then Fr_longNeg pE
  else if negb (l !!! 1%nat =? 0) || negb (l !!! 2%nat =? 0) || negb (l !!! 3%nat =? 0)
  then Fr_longNeg pE
  else sret (Some (i32 result)).

Definition Fr_toInt (pE : loc) : cmd (option Z) :=
  t <- typeOf pE ;;
  if has t Fr_LONG then
    if has t Fr_MONTGOMERY then
      Fr_toNormal (Local e_n) pE ;;;
      Fr_longNormal (Local e_n)
    else Fr_longNormal pE
  else s <- shortOf pE ;; sret (Some s).

(** *** Less than: numbers above [half] are negative *)

Definition rlt_s1s2 (a b : loc) : cmd Z :=
  sa <- shortOf a ;; sb <- shortOf b ;; sret (b2z (sa <? sb)).

Definition rltRawL1L2 (pRawA pRawB : list Z) : Z :=
  let result := Fr_rawCmp pRawB pRawA in b2z (result >? 0).

Definition rltl1l2_n1 (pRawA pRawB : list Z) : Z :=
  let result := Fr_rawCmp half pRawB in
  if result <? 0 then rltRawL1L2 pRawA pRawB else 1.

Definition rltl1l2_p1 (pRawA pRawB : list Z) : Z :=
  let result := Fr_rawCmp half pRawB in
  if result <? 0 then 0 else rltRawL1L2 pRawA pRawB.

Definition rltL1L2 (pRawA pRawB : list Z) : Z :=
  let result := Fr_rawCmp half pRawA in
  if result <? 0 then rltl1l2_n1 pRawA pRawB else rltl1l2_p1 pRawA pRawB.

Definition rlt_longs (a b : loc) : cmd Z :=
  la <- longOf a ;; lb <- longOf b ;; sret (rltL1L2 la lb).

Definition rlt_l1nl2n (a b : loc) : cmd Z := rlt_longs a b.

Definition rlt_l1nl2m (a b : loc) : cmd Z :=
  Fr_toNormal (Local b_n) b ;;;
  rlt_longs a (Local b_n).

Definition rlt_l1ml2m (a b : loc) : cmd Z :=
  Fr_toNormal (Local a_n) a ;;;
  Fr_toNormal (Local b_n) b ;;;
  rlt_longs (Local a_n) (Local b_n).

Definition rlt_l1ml2n (a b : loc) : cmd Z :=
  Fr_toNormal (Local a_n) a ;;;
  rlt_longs (Local a_n) b.

Definition rlt_s1l2n (a b : loc) : cmd Z :=
  Fr_toLongNormal (Local a_n) a ;;;
  rlt_longs (Local a_n) b.

Definition rlt_l1ms2 (a b : loc) : cmd Z :=
  Fr_toLongNormal (Local b_ln) b ;;;
  Fr_toNormal (Local a_n) a ;;;
  rlt_longs (Local a_n) (Local b_ln).

Definition rlt_s1l2m (a b : loc) : cmd Z :=
  Fr_toLongNormal (Local a_n) a ;;;
  Fr_toNormal (Local b_n) b ;;;
  rlt_longs (Local a_n) (Local b_n).

Definition rlt_l1ns2 (a b : loc) : cmd Z :=
  Fr_toLongNormal (Local b_n) b ;;;
  rlt_longs a (Local b_n).

Definition Fr_rlt (a b : loc) : cmd Z :=
  ta <- typeOf a ;; tb <- typeOf b ;;
  if has ta Fr_LONG then
    if has tb Fr_LONG then
      if has ta Fr_MONTGOMERY then
        if has tb Fr_MONTGOMERY then rlt_l1ml2m a b else rlt_l1ml2n a b
      else if has tb Fr_MONTGOMERY then rlt_l1nl2m a b
      else rlt_l1nl2n a b
    else if has ta Fr_MONTGOMERY then rlt_l1ms2 a b
    else rlt_l1ns2 a b
  else if has tb Fr_LONG then
    if has tb Fr_MONTGOMERY then rlt_s1l2m a b else rlt_s1l2n a b
  else rlt_s1s2 a b.

(** [r->shortVal = v; r->type = Fr_SHORT;] *)
Definition setShortValue (r : loc) (v : Z) : cmd unit :=
  setShort r v ;;; setType r Fr_SHORT.

Definition Fr_lt (r a b : loc) : cmd unit :=
  result <- Fr_rlt a b ;; setShortValue r result.

Definition Fr_geq (r a b : loc) : cmd unit :=
  result <- Fr_rlt a b ;; setShortValue r (Z.lxor result 1).

Definition Fr_neg (r a : loc) : cmd unit :=
  ta <- typeOf a ;;
  if has ta Fr_LONG then
    setType r ta ;;;
    sa <- shortOf a ;; setShort r sa ;;;
    raw1 Fr_rawNeg r a
  else
    sa <- shortOf a ;;
    let '(a_shortVal, overflow) := Fr_rawSNeg sa in
    if overflow : bool then setLongValue r a_shortVal
    else
      setType r Fr_SHORT ;;;
      setShort r (i32 a_shortVal).

(** *** Equality *)

Definition reqL1L2 (pRawA pRawB : list Z) : Z := b2z (Fr_rawCmp pRawB pRawA =? 0).

Definition req_longs (a b : loc) : cmd Z :=
  la <- longOf a ;; lb <- longOf b ;; sret (reqL1L2 la lb).

Definition req_s1s2 (a b : loc) : cmd Z :=
  sa <- shortOf a ;; sb <- shortOf b ;; sret (b2z (sa =? sb)).

Definition req_l1nl2n (a b : loc) : cmd Z := req_longs a b.

Definition req_l1nl2m (a b : loc) : cmd Z :=
  Fr_toMontgomery (Local a_m) a ;;;
  req_longs (Local a_m) b.

Definition req_l1ml2m (a b : loc) : cmd Z := req_longs a b.

Definition req_l1ml2n (a b : loc) : cmd Z :=
  Fr_toMontgomery (Local b_m) b ;;;
  req_longs a (Local b_m).

Definition req_s1l2n (a b : loc) : cmd Z :=
  Fr_toLongNormal (Local a_n) a ;;;
  req_longs (Local a_n) b.

Definition req_l1ms2 (a b : loc) : cmd Z :=
  Fr_toMontgomery (Local b_m) b ;;;
  req_longs a (Local b_m).

Definition req_s1l2m (a b : loc) : cmd Z :=
  Fr_toMontgomery (Local a_m) a ;;;
  req_longs (Local a_m) b.

Definition req_l1ns2 (a b : loc) : cmd Z :=
  Fr_toLongNormal (Local b_n) b ;;;
  req_longs a (Local b_n).

Definition Fr_req (a b : loc) : cmd Z :=
  ta <- typeOf a ;; tb <- typeOf b ;;
  if has ta Fr_LONG then
    if has tb Fr_LONG then
      if has ta Fr_MONTGOMERY then
        if has tb Fr_MONTGOMERY then req_l1ml2m a b else req_l1ml2n a b
      else if has tb Fr_MONTGOMERY then req_l1nl2m a b
      else req_l1nl2n a b
    else if has ta Fr_MONTGOMERY then req_l1ms2 a b
    else req_l1ns2 a b
  else if has tb Fr_LONG then
    if has tb Fr_MONTGOMERY then req_s1l2m a b else req_s1l2n a b
  else req_s1s2 a b.

Definition Fr_eq (r a b : loc) : cmd unit :=
  result <- Fr_req a b ;; setShortValue r result.

Definition Fr_neq (r a b : loc) : cmd unit :=
  result <- Fr_req a b ;; setShortValue r (Z.lxor result 1).

(** *** Logical operations *)

(** The truth value the logical operations compute inline. *)
Definition is_true (p : loc) : cmd Z :=
  t <- typeOf p ;;
  if has t Fr_LONG then l <- longOf p ;; sret (b2z (negb (Fr_rawIsZero l)))
  else s <- shortOf p ;; sret (if negb (s =? 0) then 1 else 0).

Definition Fr_lor (r a b : loc) : cmd unit :=
  is_true_a <- is_true a ;; is_true_b <- is_true b ;;
  setShortValue r (Z.lor is_true_a is_true_b).

Definition Fr_lnot (r a : loc) : cmd unit :=
  t <- typeOf a ;;
  (if has t Fr_LONG then l <- longOf a ;; setShort r (b2z (Fr_rawIsZero l))
   else s <- shortOf a ;; setShort r (if negb (s =? 0) then 0 else 1)) ;;;
  setType r Fr_SHORT.

Definition Fr_land (r a b : loc) : cmd unit :=
  is_true_a <- is_true a ;; is_true_b <- is_true b ;;
  setShortValue r (Z.land is_true_a is_true_b).

(** *** Greater than: numbers above [half] are negative *)

Definition rgt_s1s2 (a b : loc) : cmd Z :=
  sa <- shortOf a ;; sb <- shortOf b ;; sret (b2z (sa >? sb)).

Definition rgtRawL1L2 (pRawA pRawB : list Z) : Z :=
  let result := Fr_rawCmp pRawB pRawA in b2z (result <? 0).

Definition rgtl1l2_n1 (pRawA pRawB : list Z) : Z :=
  let result := Fr_rawCmp half pRawB in
  if result <? 0 then rgtRawL1L2 pRawA pRawB else 0.

Definition rgtl1l2_p1 (pRawA pRawB : list Z) : Z :=
  let result := Fr_rawCmp half pRawB in
  if result <? 0 then 1 else rgtRawL1L2 pRawA pRawB.

Definition rgtL1L2 (pRawA pRawB : list Z) : Z :=
  let result := Fr_rawCmp half pRawA in
  if result <? 0 then rgtl1l2_n1 pRawA pRawB else rgtl1l2_p1 pRawA pRawB.

Definition rgt_longs (a b : loc) : cmd Z :=
  la <- longOf a ;; lb <- longOf b ;; sret (rgtL1L2 la lb).

Definition rgt_l1nl2n (a b : loc) : cmd Z := rgt_longs a b.

Definition rgt_l1nl2m (a b : loc) : cmd Z :=
  Fr_toNormal (Local b_n) b ;;;
  rgt_longs a (Local b_n).

Definition rgt_l1ml2m (a b : loc) : cmd Z :=
  Fr_toNormal (Local a_n) a ;;;
  Fr_toNormal (Local b_n) b ;;;
  rgt_longs (Local a_n) (Local b_n).

Definition rgt_l1ml2n (a b : loc) : cmd Z :=
  Fr_toNormal (Local a_n) a ;;;
  rgt_longs (Local a_n) b.

Definition rgt_s1l2n (a b : loc) : cmd Z :=
  Fr_toLongNormal (Local a_n) a ;;;
  rgt_longs (Local a_n) b.

Definition rgt_l1ms2 (a b : loc) : cmd Z :=
  Fr_toNormal (Local a_n) a ;;;
  Fr_toLongNormal (Local b_n) b ;;;
  rgt_longs (Local a_n) (Local b_n).

Definition rgt_s1l2m (a b : loc) : cmd Z :=
  Fr_toLongNormal (Local a_n) a ;;;
  Fr_toNormal (Local b_n) b ;;;
  rgt_longs (Local a_n) (Local b_n).

Definition rgt_l1ns2 (a b : loc) : cmd Z :=
  Fr_toLongNormal (Local b_n) b ;;;
  rgt_longs a (Local b_n).

Definition Fr_rgt (a b : loc) : cmd Z :=
  ta <- typeOf a ;; tb <- typeOf b ;;
  if has ta Fr_LONG then
    if has tb Fr_LONG then
      if has ta Fr_MONTGOMERY then
        if has tb Fr_MONTGOMERY then rgt_l1ml2m a b else rgt_l1ml2n a b
      else if has tb Fr_MONTGOMERY then rgt_l1nl2m a b
      else rgt_l1nl2n a b
    else if has ta Fr_MONTGOMERY then rgt_l1ms2 a b
    else rgt_l1ns2 a b
  else if has tb Fr_LONG then
    if has tb Fr_MONTGOMERY then rgt_s1l2m a b else rgt_s1l2n a b
  else rgt_s1s2 a b.

Definition Fr_gt (r a b : loc) : cmd unit :=
  result <- Fr_rgt a b ;; setShortValue r result.

Definition Fr_leq (r a b : loc) : cmd unit :=
  result <- Fr_rgt a b ;; setShortValue r (Z.lxor result 1).

(** *** Bitwise operations *)

(** [if (s->shortVal >= 0) v = {0, 0, {(uint64_t)s->shortVal, 0, 0, 0}};
    else Fr_toLongNormal(&v, s);] *)
Definition short_to_long (v s : loc) : cmd unit :=
  sv <- shortOf s ;;
  if sv >=? 0 then setElem v (mkFrElement 0 0 [u64 sv; 0; 0; 0])
  else Fr_toLongNormal v s.

Definition and_s1s2 (r a b : loc) : cmd unit :=
  sa <- shortOf a ;; sb <- shortOf b ;;
  if (sa >=? 0) && (sb >=? 0) then
    setShort r (Z.land sa sb) ;;;
    setType r Fr_SHORT
  else
    setType r Fr_LONG ;;;
    Fr_toLongNormal (Local a_n) a ;;;
    Fr_toLongNormal (Local b_n) b ;;;
    raw2 Fr_rawAnd r (Local a_n) (Local b_n).

Definition and_l1nl2n (r a b : loc) : cmd unit :=
  setType r Fr_LONG ;;;
  raw2 Fr_rawAnd r a b.

Definition and_l1nl2m (r a b : loc) : cmd unit :=
  setType r Fr_LONG ;;;
  Fr_toNormal (Local b_n) b ;;;
  raw2 Fr_rawAnd r a (Local b_n).

Definition and_l1ml2m (r a b : loc) : cmd unit :=
  setType r Fr_LONG ;;;
  Fr_toNormal (Local a_n) a ;;;
  Fr_toNormal (Local b_n) b ;;;
  raw2 Fr_rawAnd r (Local a_n) (Local b_n).

Definition and_l1ml2n (r a b : loc) : cmd unit :=
  setType r Fr_LONG ;;;
  Fr_toNormal (Local a_n) a ;;;
  raw2 Fr_rawAnd r (Local a_n) b.

Definition and_s1l2n (r a b : loc) : cmd unit :=
  setType r Fr_LONG ;;;
  short_to_long (Local a_n) a ;;;
  raw2 Fr_rawAnd r (Local a_n) b.

Definition and_l1ms2 (r a b : loc) : cmd unit :=
  setType r Fr_LONG ;;;
  Fr_toNormal (Local a_n) a ;;;
  short_to_long (Local b_n) b ;;;
  raw2 Fr_rawAnd r (Local b_n) (Local a_n).

Definition and_s1l2m (r a b : loc) : cmd unit :=
  setType r Fr_LONG ;;;
  Fr_toNormal (Local b_n) b ;;;
  short_to_long (Local a_n) a ;;;
  raw2 Fr_rawAnd r (Local a_n) (Local b_n).

Definition and_l1ns2 (r a b : loc) : cmd unit :=
  setType r Fr_LONG ;;;
  short_to_long (Local b_n) b ;;;
  raw2 Fr_rawAnd r a (Local b_n).

Definition Fr_band (r a b : loc) : cmd unit :=
  ta <- typeOf a ;; tb <- typeOf b ;;
  if has ta Fr_LONG then
    if has tb Fr_LONG then
      if has ta Fr_MONTGOMERY then
        if has tb Fr_MONTGOMERY then and_l1ml2m r a b else and_l1ml2n r a b
      else if has tb Fr_MONTGOMERY then and_l1nl2m r a b
      else and_l1nl2n r a b
    else if has ta Fr_MONTGOMERY then and_l1ms2 r a b
    else and_l1ns2 r a b
  else if has tb Fr_LONG then
    if has tb Fr_MONTGOMERY then and_s1l2m r a b else and_s1l2n r a b
  else and_s1s2 r a b.

(** *** Shifts *)

Definition Fr_rawZero : list Z := [0; 0; 0; 0].

Definition rawShl (r a : loc) (b : Z) : cmd unit :=
  la <- longOf a ;;
  if b =? 0 then setLong r (Fr_rawCopy la)
  else if b >=? 254 then setLong r Fr_rawZero
  else lr <- longOf r ;; setLong r (Fr_rawShl (bool_decide (r = a)) lr la b).

Definition rawShr (r a : loc) (b : Z) : cmd unit :=
  la <- longOf a ;;
  if b =? 0 then setLong r (Fr_rawCopy la)
  else if b >=? 254 then setLong r Fr_rawZero
  else lr <- longOf r ;; setLong r (Fr_rawShr (bool_decide (r = a)) lr la b).

Definition Fr_setzero (r : loc) : cmd unit := setType r 0 ;;; setShort r 0.

Definition do_shlcl (r a : loc) (b : Z) : cmd unit :=
  Fr_toLongNormal (Local shlcl_a_long) a ;;;
  setType r Fr_LONG ;;;
  rawShl r (Local shlcl_a_long) b.

Definition do_shlln (r a : loc) (b : Z) : cmd unit :=
  setType r Fr_LONG ;;;
  rawShl r a b.

Definition do_shl (r a : loc) (b : Z) : cmd unit :=
  ta <- typeOf a ;;
  if has ta Fr_LONG then
    if ta =? Fr_LONGMONTGOMERY then
      Fr_toNormal (Local do_shl_a_long) a ;;;
      do_shlln r (Local do_shl_a_long) b
    else do_shlln r a b
  else
    a_shortVal <- shortOf a ;;
    if a_shortVal =? 0 then Fr_setzero r
    else if a_shortVal <? 0 then do_shlcl r a b
    else if b >=? 31 then do_shlcl r a b
    else
      let a_shortVal := i64 (Z.shiftl a_shortVal b) in
      let a_is_over_short := Z.shiftr a_shortVal 31 in
      if negb (a_is_over_short =? 0) then do_shlcl r a b
      else
        setType r Fr_SHORT ;;;
        setShort r (i32 a_shortVal).

Definition do_shrln (r a : loc) (b : Z) : cmd unit :=
  setType r Fr_LONG ;;;
  rawShr r a b.

Definition do_shrl (r a : loc) (b : Z) : cmd unit :=
  ta <- typeOf a ;;
  if ta =? Fr_LONGMONTGOMERY then
    Fr_toNormal (Local do_shrl_a_long) a ;;;
    do_shrln r (Local do_shrl_a_long) b
  else do_shrln r a b.

Definition do_shr (r a : loc) (b : Z) : cmd unit :=
  ta <- typeOf a ;;
  if has ta Fr_LONG then do_shrl r a b
  else
    a_shortVal <- shortOf a ;;
    if a_shortVal =? 0 then Fr_setzero r
    else if a_shortVal <? 0 then
      Fr_toLongNormal (Local do_shr_a_long) a ;;;
      do_shrl r (Local do_shr_a_long) b
    else if b >=? 31 then Fr_setzero r
    else
      setShort r (i32 (Z.shiftr a_shortVal b)) ;;;
      setType r Fr_SHORT.

Definition max_shift : list Z := [254; 0; 0; 0].

Definition Fr_shr_big_shift (r a b : loc) : cmd unit :=
  lb <- longOf b ;;
  let shift := Fr_rawSubRegular Fr_q_longVal lb in
  if Fr_rawCmp shift max_shift >=? 0 then Fr_setzero r
  else do_shl r a (shift !!! 0%nat).

Definition Fr_shr_long (r a b : loc) : cmd unit :=
  lb <- longOf b ;;
  if Fr_rawCmp lb max_shift >=? 0 then Fr_shr_big_shift r a b
  else do_shr r a (lb !!! 0%nat).

Definition Fr_shr (r a b : loc) : cmd unit :=
  tb <- typeOf b ;;
  if has tb Fr_LONG then
    if tb =? Fr_LONGMONTGOMERY then
      Fr_toNormal (Local b_long) b ;;;
      Fr_shr_long r a (Local b_long)
    else Fr_shr_long r a b
  else
    b_shortVal <- shortOf b ;;
    if b_shortVal <? 0 then
      let b_shortVal := - b_shortVal in
      if b_shortVal >=? 254 then Fr_setzero r else do_shl r a b_shortVal
    else if b_shortVal >=? 254 then Fr_setzero r
    else do_shr r a b_shortVal.

Definition Fr_shl_big_shift (r a b : loc) : cmd unit :=
  lb <- longOf b ;;
  let shift := Fr_rawSubRegular Fr_q_longVal lb in
  if Fr_rawCmp shift max_shift >=? 0 then Fr_setzero r
  else do_shr r a (shift !!! 0%nat).

Definition Fr_shl_long (r a b : loc) : cmd unit :=
  lb <- longOf b ;;
  if Fr_rawCmp lb max_shift >=? 0 then Fr_shl_big_shift r a b
  else do_shl r a (lb !!! 0%nat).

Definition Fr_shl (r a b : loc) : cmd unit :=
  tb <- typeOf b ;;
  if has tb Fr_LONG then
    if tb =? Fr_LONGMONTGOMERY then
      Fr_toNormal (Local b_long) b ;;;
      Fr_shl_long r a (Local b_long)
    else Fr_shl_long r a b
  else
    b_shortVal <- shortOf b ;;
    if b_shortVal <? 0 then
      let b_shortVal := - b_shortVal in
      if b_shortVal >=? 254 then Fr_setzero r else do_shr r a b_shortVal
    else if b_shortVal >=? 254 then Fr_setzero r
    else do_shl r a b_shortVal.

Definition Fr_square (r a : loc) : cmd unit :=
  ta <- typeOf a ;;
  if has ta Fr_LONG then
    if ta =? Fr_LONGMONTGOMERY then
      setType r Fr_LONGMONTGOMERY ;;;
      raw1 Fr_rawMSquare r a
    else
      setType r Fr_LONGMONTGOMERY ;;;
      raw1 Fr_rawMSquare r a ;;;
      raw1 (fun x => Fr_rawMMul x Fr_R3_longVal) r r
  else
    sa <- shortOf a ;;
    let '(result, overflow) := Fr_rawSMul sa sa in
    if overflow : bool then setLongValue r result
    else
      setShort r (i32 result) ;;;
      setType r Fr_SHORT ;;;
      setLongValue r result.

Definition or_s1s2 (r a b : loc) : cmd unit :=
  sa <- shortOf a ;; sb <- shortOf b ;;
  if (sa >=? 0) && (sb >=? 0) then
    setShort r (Z.lor sa sb) ;;;
    setType r Fr_SHORT
  else
    setType r Fr_LONG ;;;
    Fr_toLongNormal (Local a_n) a ;;;
    Fr_toLongNormal (Local b_n) b ;;;
    raw2 Fr_rawOr r (Local a_n) (Local b_n).

Definition or_l1nl2n (r a b : loc) : cmd unit :=
  setType r Fr_LONG ;;;
  raw2 Fr_rawOr r a b.

Definition or_l1nl2m (r a b : loc) : cmd unit :=
  setType r Fr_LONG ;;;
  Fr_toNormal (Local b_n) b ;;;
  raw2 Fr_rawOr r a (Local b_n).

Definition or_l1ml2m (r a b : loc) : cmd unit :=
  setType r Fr_LONG ;;;
  Fr_toNormal (Local a_n) a ;;;
  Fr_toNormal (Local b_n) b ;;;
  raw2 Fr_rawOr r (Local a_n) (Local b_n).

Definition or_l1ml2n (r a b : loc) : cmd unit :=
  setType r Fr_LONG ;;;
  Fr_toNormal (Local a_n) a ;;;
  raw2 Fr_rawOr r (Local a_n) b.

Definition or_s1l2n (r a b : loc) : cmd unit :=
  setType r Fr_LONG ;;;
  short_to_long (Local a_n) a ;;;
  raw2 Fr_rawOr r (Local a_n) b.

Definition or_l1ms2 (r a b : loc) : cmd unit :=
  setType r Fr_LONG ;;;
  Fr_toNormal (Local a_n) a ;;;
  short_to_long (Local b_n) b ;;;
  raw2 Fr_rawOr r (Local b_n) (Local a_n).

Definition or_s1l2m (r a b : loc) : cmd unit :=
  setType r Fr_LONG ;;;
  Fr_toNormal (Local b_n) b ;;;
  short_to_long (Local a_n) a ;;;
  raw2 Fr_rawOr r (Local a_n) (Local b_n).

Definition or_l1ns2 (r a b : loc) : cmd unit :=
  setType r Fr_LONG ;;;
  short_to_long (Local b_n) b ;;;
  raw2 Fr_rawOr r a (Local b_n).

Definition Fr_bor (r a b : loc) : cmd unit :=
  ta <- typeOf a ;; tb <- typeOf b ;;
  if has ta Fr_LONG then
    if has tb Fr_LONG then
      if has ta Fr_MONTGOMERY then
        if has tb Fr_MONTGOMERY then or_l1ml2m r a b else or_l1ml2n r a b
      else if has tb Fr_MONTGOMERY then or_l1nl2m r a b
      else or_l1nl2n r a b
    else if has ta Fr_MONTGOMERY then or_l1ms2 r a b
    else or_l1ns2 r a b
  else if has tb Fr_LONG then
    if has tb Fr_MONTGOMERY then or_s1l2m r a b else or_s1l2n r a b
  else or_s1s2 r a b.

Definition xor_s1s2 (r a b : loc) : cmd unit :=
  sa <- shortOf a ;; sb <- shortOf b ;;
  if (sa >=? 0) && (sb >=? 0) then
    setShort r (Z.lxor sa sb) ;;;
    setType r Fr_SHORT
  else
    setType r Fr_LONG ;;;
    Fr_toLongNormal (Local a_n) a ;;;
    Fr_toLongNormal (Local b_n) b ;;;
    raw2 Fr_rawXor r (Local a_n) (Local b_n).

Definition xor_l1nl2n (r a b : loc) : cmd unit :=
  setType r Fr_LONG ;;;
  raw2 Fr_rawXor r a b.

Definition xor_l1nl2m (r a b : loc) : cmd unit :=
  setType r Fr_LONG ;;;
  Fr_toNormal (Local b_n) b ;;;
  raw2 Fr_rawXor r a (Local b_n).

Definition xor_l1ml2m (r a b : loc) : cmd unit :=
  setType r Fr_LONG ;;;
  Fr_toNormal (Local a_n) a ;;;
  Fr_toNormal (Local b_n) b ;;;
  raw2 Fr_rawXor r (Local a_n) (Local b_n).

Definition xor_l1ml2n (r a b : loc) : cmd unit :=
  setType r Fr_LONG ;;;
  Fr_toNormal (Local a_n) a ;;;
  raw2 Fr_rawXor r (Local a_n) b.

Definition xor_s1l2n (r a b : loc) : cmd unit :=
  setType r Fr_LONG ;;;
  short_to_long (Local a_n) a ;;;
  raw2 Fr_rawXor r (Local a_n) b.

Definition xor_l1ms2 (r a b : loc) : cmd unit :=
  setType r Fr_LONG ;;;
  Fr_toNormal (Local a_n) a ;;;
  short_to_long (Local b_n) b ;;;
  raw2 Fr_rawXor r (Local b_n) (Local a_n).

Definition xor_s1l2m (r a b : loc) : cmd unit :=
  setType r Fr_LONG ;;;
  Fr_toNormal (Local b_n) b ;;;
  short_to_long (Local a_n) a ;;;
  raw2 Fr_rawXor r (Local a_n) (Local b_n).

Definition xor_l1ns2 (r a b : loc) : cmd unit :=
  setType r Fr_LONG ;;;
  short_to_long (Local b_n) b ;;;
  raw2 Fr_rawXor r a (Local b_n).

Definition Fr_bxor (r a b : loc) : cmd unit :=
  ta <- typeOf a ;; tb <- typeOf b ;;
  if has ta Fr_LONG then
    if has tb Fr_LONG then
      if has ta Fr_MONTGOMERY then
        if has tb Fr_MONTGOMERY then xor_l1ml2m r a b else xor_l1ml2n r a b
      else if has tb Fr_MONTGOMERY then xor_l1nl2m r a b
      else xor_l1nl2n r a b
    else if has ta Fr_MONTGOMERY then xor_l1ms2 r a b
    else xor_l1ns2 r a b
  else if has tb Fr_LONG then
    if has tb Fr_MONTGOMERY then xor_s1l2m r a b else xor_s1l2n r a b
  else xor_s1s2 r a b.

Definition Fr_bnot (r a : loc) : cmd unit :=
  setType r Fr_LONG ;;;
  ta <- typeOf a ;;
  if ta =? Fr_LONG then
    if has ta Fr_MONTGOMERY then
      Fr_toNormal (Local a_n) a ;;;
      raw1 Fr_rawNot r (Local a_n)
    else raw1 Fr_rawNot r a
  else
    Fr_toLongNormal (Local a_n) a ;;;
    raw1 Fr_rawNot r (Local a_n).
End Operations.
