(* ===== verification/FrElementWp.v ===== *)
(** Reasoning about the memory of field elements: weakest preconditions of the
    statements, the representation relation [repr], and the arithmetic of
    Montgomery form the proofs of the operations share; the conversions between the
    representations as steps of such proofs; and a concrete memory, one element of each
    representation, on which the theorems are exercised. *)

From S2P Require Import Prelude Limbs Gmp FrRaw FrElement.

(** The inverse of [R] is used through its law only. *)
#[global] Opaque Rinv.

(** ** Weakest preconditions *)

Definition wp {A} (c : cmd A) (Q : A -> mem -> Prop) (m : mem) : Prop :=
  Q (result c m) (exec c m).

Lemma upd_same m p e : upd m p e p = e.
Proof. unfold upd. by rewrite decide_True. Qed.
Lemma upd_other m p p' e : p' <> p -> upd m p e p' = m p'.
Proof. intros. unfold upd. by rewrite decide_False. Qed.

Section Wp.
Context {A B : Type}.

Lemma wp_sbind (c : cmd A) (k : A -> cmd B) Q m :
  wp c (fun x => wp (k x) Q) m -> wp (sbind c k) Q m.
Proof. unfold wp, result, exec, sbind. by destruct (c m). Qed.

Lemma wp_sret (x : A) Q m : Q x m -> wp (sret x) Q m.
Proof. done. Qed.

Lemma wp_mono (c : cmd A) (Q Q' : A -> mem -> Prop) m :
  (forall x m', Q x m' -> Q' x m') -> wp c Q m -> wp c Q' m.
Proof. unfold wp. auto. Qed.
End Wp.

Lemma wp_shortOf p (Q : Z -> mem -> Prop) m : Q (shortVal (m p)) m -> wp (shortOf p) Q m.
Proof. done. Qed.
Lemma wp_typeOf p (Q : Z -> mem -> Prop) m : Q (type (m p)) m -> wp (typeOf p) Q m.
Proof. done. Qed.
Lemma wp_longOf p (Q : list Z -> mem -> Prop) m : Q (longVal (m p)) m -> wp (longOf p) Q m.
Proof. done. Qed.
Lemma wp_setShort p v (Q : unit -> mem -> Prop) m :
  Q tt (upd m p (mkFrElement v (type (m p)) (longVal (m p)))) -> wp (setShort p v) Q m.
Proof. done. Qed.
Lemma wp_setType p t (Q : unit -> mem -> Prop) m :
  Q tt (upd m p (mkFrElement (shortVal (m p)) t (longVal (m p)))) -> wp (setType p t) Q m.
Proof. done. Qed.
Lemma wp_setLong p l (Q : unit -> mem -> Prop) m :
  Q tt (upd m p (mkFrElement (shortVal (m p)) (type (m p)) l)) -> wp (setLong p l) Q m.
Proof. done. Qed.
Lemma wp_setElem p e (Q : unit -> mem -> Prop) m : Q tt (upd m p e) -> wp (setElem p e) Q m.
Proof. done. Qed.
Lemma wp_raw1 f r a (Q : unit -> mem -> Prop) m :
  Q tt (upd m r (mkFrElement (shortVal (m r)) (type (m r)) (f (longVal (m a))))) ->
  wp (raw1 f r a) Q m.
Proof. done. Qed.
Lemma wp_raw2 f r a b (Q : unit -> mem -> Prop) m :
  Q tt (upd m r (mkFrElement (shortVal (m r)) (type (m r)) (f (longVal (m a)) (longVal (m b))))) ->
  wp (raw2 f r a b) Q m.
Proof. done. Qed.

(** Reads of an updated memory. *)
Ltac mem_reads :=
  repeat first
    [ rewrite upd_same
    | rewrite upd_other by congruence ];
  cbn [shortVal type longVal].

(** Type tests on known type words are evaluated. *)
Ltac eval_types :=
  repeat match goal with
  | |- context [has ?x ?y] =>
      is_const x; is_const y; let b := eval vm_compute in (has x y) in change (has x y) with b
  | |- context [?x =? ?y] =>
      is_const x; is_const y; let b := eval vm_compute in (x =? y) in change (x =? y) with b
  end; cbn iota.

(** ** Representation *)

Section Representation.
Context {P : FieldParams}.

(** The Montgomery form of a residue. *)
Definition mont (v : Z) : Z := (v * R) mod q.

(** [repr e v]: the element [e], of any of the four types, stands for the
    canonical residue [v].  A short Montgomery element carries both its integer
    and its Montgomery form. *)
Inductive repr (e : FrElement) (v : Z) : Prop :=
| repr_short : type e = Fr_SHORT -> is_i32 (shortVal e) -> v = shortVal e mod q -> repr e v
| repr_long : type e = Fr_LONG -> rep (longVal e) v -> repr e v
| repr_shortmont : type e = Fr_SHORTMONTGOMERY -> is_i32 (shortVal e) ->
    v = shortVal e mod q -> rep (longVal e) (mont v) -> repr e v
| repr_longmont : type e = Fr_LONGMONTGOMERY -> 0 <= v < q ->
    rep (longVal e) (mont v) -> repr e v.

(** The signed reading of a residue: numbers above [half] are negative. *)
Definition signed (v : Z) : Z := if v <=? eval half then v else v - q.
End Representation.

Section RepresentationFacts.
Context {P : FieldParams} {OK : FieldOk P}.

Lemma repr_range e v : repr e v -> 0 <= v < q.
Proof.
  intros [_ _ ->|_ H|_ _ -> _|_ H _]; try apply Z.mod_pos_bound, q_pos; [|done].
  by eapply rep_range.
Qed.

Lemma rep_cast l x y : rep l x -> x = y -> rep l y.
Proof. by intros ? <-. Qed.

Lemma half_bounds : 0 <= eval half /\ 2 * eval half + 1 = q.
Proof. split; [|apply half_eq]. apply (eval_range 4), half_limbs. Qed.

Lemma half_rep : rep half (eval half).
Proof.
  pose proof half_bounds. pose proof q_bounds.
  apply rep_intro; [apply half_limbs|lia|done].
Qed.

(** The signed reading recovers a short integer. *)
Lemma signed_short s : is_i32 s -> signed (s mod q) = s.
Proof.
  intros Hs. pose proof half_bounds. pose proof q_bounds. unfold is_i32 in Hs. unfold signed.
  destruct (Z.lt_ge_cases s 0).
  - replace (s mod q) with (s + q) by (apply (Zmod_unique _ _ (-1)); lia).
    destruct (Z.leb_spec (s + q) (eval half)); lia.
  - rewrite Z.mod_small by lia. destruct (Z.leb_spec s (eval half)); lia.
Qed.

Lemma signed_range v : 0 <= v < q -> - eval half <= signed v <= eval half.
Proof.
  intros Hv. pose proof half_bounds. unfold signed.
  destruct (Z.leb_spec v (eval half)); lia.
Qed.

Lemma signed_mod v : 0 <= v < q -> signed v mod q = v.
Proof.
  intros Hv. unfold signed. destruct (v <=? eval half); [by apply Z.mod_small|].
  symmetry. apply (Zmod_unique _ _ (-1)); lia.
Qed.

(** *** Cancelling powers of [R * Rinv] *)

Lemma RRinv_eqm : Zdiv.eqm q (R * Rinv) 1.
Proof. apply Rinv_spec. Qed.

Lemma eqm_RRinv (n : nat) x y :
  Zdiv.eqm q x (y * (R * Rinv) ^ Z.of_nat n) -> Zdiv.eqm q x y.
Proof.
  intros ->. pose proof (Zpow_eqm q n _ _ RRinv_eqm) as H. cbv beta in H. rewrite H.
  rewrite Z.pow_1_l by lia. by rewrite Z.mul_1_r.
Qed.

Lemma mont_inj v w : 0 <= v < q -> 0 <= w < q -> mont v = mont w -> v = w.
Proof.
  intros Hv Hw H. apply (mod_unique_range _ _ q); [done..|].
  apply (mod_mul_cancel _ _ R Rinv); [apply Rinv_spec|exact H].
Qed.

Lemma repr_inj e v w : repr e v -> repr e w -> v = w.
Proof.
  intros [Ht _ ->|Ht H|Ht _ -> _|Ht Hv H] [Ht' _ ->|Ht' H'|Ht' _ -> _|Ht' Hw H'];
    rewrite Ht in Ht'; try discriminate Ht'; try done.
  - by rewrite <- (rep_eval _ _ H), <- (rep_eval _ _ H').
  - apply mont_inj; [done..|]. by rewrite <- (rep_eval _ _ H), <- (rep_eval _ _ H').
Qed.

Lemma repr_long_eval e v : repr e v -> type e = Fr_LONG -> eval (longVal e) = v.
Proof. intros [Ht|Ht H|Ht|Ht] E; rewrite E in Ht; try discriminate Ht. by apply rep_eval. Qed.

Lemma repr_longmont_eval e v :
  repr e v -> type e = Fr_LONGMONTGOMERY -> eval (longVal e) = mont v.
Proof. intros [Ht|Ht|Ht|Ht Hv H] E; rewrite E in Ht; try discriminate Ht. by apply rep_eval. Qed.

Lemma mont_range v : 0 <= mont v < q.
Proof. apply Z.mod_pos_bound, q_pos. Qed.
End RepresentationFacts.

(** Closes [X mod q = Y mod q] when the two sides are equal polynomials up to
    factors [R * Rinv]. *)
Ltac solve_mont :=
  unfold mont; strip_mods;
  let go n := solve [apply (eqm_RRinv n); apply (f_equal (fun x => x mod q));
                     let k := eval vm_compute in (Z.of_nat n) in change (Z.of_nat n) with k;
                     ring] in
  first [ go 0%nat | go 1%nat | go 2%nat | go 3%nat
        | symmetry; first [ go 1%nat | go 2%nat | go 3%nat ] ].

(** ** Conversions between the representations *)

(** [m'] is [m] except at [p]. *)
Definition same_except (p : loc) (m m' : mem) : Prop := forall l, l <> p -> m' l = m l.

Lemma same_except_upd p m m' e : same_except p m m' -> same_except p m (upd m' p e).
Proof. intros H l Hl. rewrite upd_other by done. by apply H. Qed.
Lemma same_except_refl p m : same_except p m m.
Proof. done. Qed.
#[export] Hint Resolve same_except_upd same_except_refl : words.

(** Reads that a frame hypothesis or an update answers. *)
Ltac mem_frames :=
  repeat first
    [ rewrite upd_same
    | rewrite upd_other by congruence
    | match goal with
      | H : same_except ?p ?m ?m' |- context [?m' ?l] => rewrite (H l) by congruence
      end ];
  cbn [shortVal type longVal].

(** One step of symbolic execution. *)
Ltac wp_step :=
  lazymatch goal with
  | |- wp (sbind _ _) _ _ => apply wp_sbind
  | |- wp (sret _) _ _ => apply wp_sret
  | |- wp (shortOf _) _ _ => apply wp_shortOf
  | |- wp (typeOf _) _ _ => apply wp_typeOf
  | |- wp (longOf _) _ _ => apply wp_longOf
  | |- wp (setShort _ _) _ _ => apply wp_setShort
  | |- wp (setType _ _) _ _ => apply wp_setType
  | |- wp (setLong _ _) _ _ => apply wp_setLong
  | |- wp (setElem _ _) _ _ => apply wp_setElem
  | |- wp (raw1 _ _ _) _ _ => apply wp_raw1
  | |- wp (raw2 _ _ _ _) _ _ => apply wp_raw2
  end; mem_frames.
Ltac wp_steps := repeat wp_step.

Section Conversions.
Context {P : FieldParams} {OK : FieldOk P} {G : Mpn} {GL : MpnLaws G}.

Lemma Fr_copy_wp r a (Q : unit -> mem -> Prop) m :
  Q tt (upd m r (m a)) -> wp (Fr_copy r a) Q m.
Proof. done. Qed.

(** A signed 64-bit integer stored as a long element. *)
Lemma setLongValue_wp r v (Q : unit -> mem -> Prop) m :
  - 2 ^ 63 <= v < 2 ^ 63 ->
  (forall m' l, same_except r m m' -> rep l (v mod q) -> m' r = mkFrElement 0 Fr_LONG l ->
     Q tt m') ->
  wp (setLongValue r v) Q m.
Proof.
  intros Hv HQ. unfold setLongValue. wp_steps.
  eapply HQ; [eauto with words|by apply Fr_rawCopyS2L_spec|by rewrite upd_same].
Qed.

Lemma i32_64 s : is_i32 s -> - 2 ^ 63 <= s < 2 ^ 63.
Proof. unfold is_i32. fold_pows. lia. Qed.

Lemma MMul_rep a b va vb :
  rep a va -> rep b vb -> rep (Fr_rawMMul a b) ((va * vb * Rinv) mod q).
Proof.
  intros Ha Hb. rewrite <- (rep_eval _ _ Ha).
  apply Fr_rawMMul_spec; [by eapply rep_limbs|done].
Qed.

(** Leaving and entering Montgomery form. *)
Lemma from_mont l v :
  rep l (mont v) -> 0 <= v < q -> rep (Fr_rawFromMontgomery l) v.
Proof.
  intros Hl Hv. eapply rep_cast; [apply Fr_rawFromMontgomery_spec; by eapply rep_limbs|].
  rewrite (rep_eval _ _ Hl). symmetry. apply mod_eq_of_range; [done|]. solve_mont.
Qed.

Lemma to_mont l v : rep l v -> rep (Fr_rawMMul l Fr_R2_longVal) (mont v).
Proof.
  intros Hl. eapply rep_cast; [apply Fr_rawMMul_spec; [by eapply rep_limbs|apply R2_rep]|].
  rewrite (rep_eval _ _ Hl). solve_mont.
Qed.

Lemma short_to_mont s :
  0 <= s < 2 ^ 32 -> rep (Fr_rawMMul1 Fr_R2_longVal (u64 s)) (mont s).
Proof.
  intros Hs. eapply rep_cast; [apply Fr_rawMMul1_spec; [apply R2_rep|apply u64_range]|].
  rewrite u64_id by word_lia. solve_mont.
Qed.

(** [Fr_toLongNormal] always leaves a long element. *)
Lemma Fr_toLongNormal_wp p a v (Q : unit -> mem -> Prop) m :
  repr (m a) v -> p <> a ->
  (forall m', same_except p m m' -> rep (longVal (m' p)) v -> type (m' p) = Fr_LONG -> Q tt m') ->
  wp (Fr_toLongNormal p a) Q m.
Proof.
  intros Ha Hpa HQ. unfold Fr_toLongNormal.
  destruct Ha as [Ht Hs ->|Ht Hl|Ht Hs -> _|Ht Hv Hl];
    wp_steps; rewrite Ht; eval_types; wp_steps.
  1,3: apply setLongValue_wp; [by apply i32_64|]; intros m' l Hm Hl E; apply HQ; by rewrite ?E.
  - apply Fr_copy_wp, HQ; mem_frames; auto with words.
  - apply HQ; mem_frames; auto with words. by apply from_mont.
Qed.

(** [Fr_toNormal] leaves a long element when given one. *)
Lemma Fr_toNormal_wp p a v (Q : unit -> mem -> Prop) m :
  repr (m a) v -> p <> a -> has (type (m a)) Fr_LONG = true ->
  (forall m', same_except p m m' -> rep (longVal (m' p)) v -> type (m' p) = Fr_LONG -> Q tt m') ->
  wp (Fr_toNormal p a) Q m.
Proof.
  intros Ha Hpa Hlong HQ. unfold Fr_toNormal.
  destruct Ha as [Ht _ _|Ht Hl|Ht _ _ _|Ht Hv Hl]; try by rewrite Ht in Hlong.
  all: wp_steps; rewrite Ht; eval_types; wp_steps.
  - apply Fr_copy_wp, HQ; mem_frames; auto with words.
  - apply HQ; mem_frames; auto with words. by apply from_mont.
Qed.

(** [Fr_toMontgomery] leaves the Montgomery form in the array, whatever the
    operand; the destination's [shortVal] is set only for long operands. *)
Lemma Fr_toMontgomery_wp p a v (Q : unit -> mem -> Prop) m :
  repr (m a) v -> p <> a ->
  (forall m', same_except p m m' -> rep (longVal (m' p)) (mont v) ->
     has (type (m' p)) Fr_MONTGOMERY = true -> Q tt m') ->
  wp (Fr_toMontgomery p a) Q m.
Proof.
  intros Ha Hpa HQ. unfold Fr_toMontgomery.
  destruct Ha as [Ht Hs ->|Ht Hl|Ht Hs -> Hl|Ht Hv Hl];
    wp_steps; rewrite Ht; eval_types; wp_steps.
  - unfold is_i32 in Hs. destruct (Z.ltb_spec (shortVal (m a)) 0); wp_steps;
      (apply HQ; mem_frames; [auto with words| |done]).
    + eapply rep_cast; [apply Fr_rawNeg_spec, short_to_mont; lia|]. solve_mont.
    + eapply rep_cast; [apply short_to_mont; lia|]. solve_mont.
  - apply HQ; mem_frames; [auto with words|by apply to_mont|done].
  - apply Fr_copy_wp, HQ; mem_frames; rewrite ?Ht; auto with words.
  - apply Fr_copy_wp, HQ; mem_frames; rewrite ?Ht; auto with words.
Qed.

(** The non-negative short operands of the bitwise operations. *)
Lemma short_to_long_wp p a v (Q : unit -> mem -> Prop) m :
  repr (m a) v -> has (type (m a)) Fr_LONG = false -> p <> a ->
  (forall m', same_except p m m' -> rep (longVal (m' p)) v -> Q tt m') ->
  wp (short_to_long p a) Q m.
Proof.
  intros Ha Hshort Hpa HQ. unfold short_to_long. wp_steps.
  assert (Hv : is_i32 (shortVal (m a)) /\ v = shortVal (m a) mod q)
    by (destruct Ha as [Ht|Ht|Ht|Ht]; rewrite Ht in Hshort; done).
  destruct Hv as [Hs Hv]. unfold is_i32 in Hs. pose proof q_bounds.
  destruct (Z.geb_spec (shortVal (m a)) 0); wp_steps.
  - apply HQ; mem_frames; [auto with words|].
    rewrite u64_id by word_lia. rewrite Hv, Z.mod_small by lia.
    apply small_rep. word_lia.
  - eapply Fr_toLongNormal_wp; eauto.
Qed.
End Conversions.

(** ** A concrete memory *)

Section Demo.
#[local] Existing Instance Fr_params.

(** Cell 0 is the short integer -5, cell 1 a long number, cell 2 the short 3 with
    its Montgomery form, cell 3 a long Montgomery number, cell 5 the short 70, the
    others are zero. *)
Definition demo_long : Z := 7 * 2 ^ 128 + 12345.
Definition demo_mont : Z := q - 4.

Definition demo_mem : mem := fun l =>
  match l with
  | Cell 0 => mkFrElement (-5) Fr_SHORT [1; 2; 3; 4]
  | Cell 1 => mkFrElement 0 Fr_LONG (of_Z 4 demo_long)
  | Cell 2 => mkFrElement 3 Fr_SHORTMONTGOMERY (of_Z 4 (mont 3))
  | Cell 3 => mkFrElement 0 Fr_LONGMONTGOMERY (of_Z 4 (mont demo_mont))
  | Cell 5 => mkFrElement 70 Fr_SHORT [0; 0; 0; 0]
  | _ => mkFrElement 0 Fr_LONG [0; 0; 0; 0]
  end.

(** Bounds and equations between closed numbers are evaluated. *)
Ltac bounds := split; [vm_compute; discriminate|vm_compute; reflexivity].

Lemma demo_0 : repr (demo_mem (Cell 0)) (q - 5).
Proof. apply repr_short; [reflexivity|bounds|vm_compute; reflexivity]. Qed.
Lemma demo_1 : repr (demo_mem (Cell 1)) demo_long.
Proof. apply repr_long; [reflexivity|]. apply rep_of_Z. bounds. Qed.
Lemma demo_2 : repr (demo_mem (Cell 2)) 3.
Proof. apply repr_shortmont; [reflexivity|bounds|vm_compute; reflexivity|]. apply rep_of_Z, mont_range. Qed.
Lemma demo_3 : repr (demo_mem (Cell 3)) demo_mont.
Proof. apply repr_longmont; [reflexivity|bounds|]. apply rep_of_Z, mont_range. Qed.
Lemma demo_4 : limbs 4 (longVal (demo_mem (Cell 4))).
Proof. by apply (limbs_replicate 4 0). Qed.
Lemma demo_5 : repr (demo_mem (Cell 5)) 70.
Proof. apply repr_short; [reflexivity|bounds|vm_compute; reflexivity]. Qed.
End Demo.
