(* ===== verification/FrArith.v ===== *)
(** Correctness of the arithmetic on tagged field elements: multiplication,
    addition, subtraction, negation and squaring compute the operation of the
    field for every combination of operand representations. *)

From S2P Require Import Prelude Limbs Gmp FrRaw FrElement FrElementWp.

(** What a statement writing [r] must do: leave [r] standing for [v] and every
    other element of the caller untouched. *)
Definition computes {P : FieldParams} (r : nat) (v : Z) (m m' : mem) : Prop :=
  repr (m' (Cell r)) v /\ forall n, n <> r -> m' (Cell n) = m (Cell n).

(** The same for any location, when nothing else changes at all. *)
Definition stores {P : FieldParams} (r : loc) (v : Z) (m m' : mem) : Prop :=
  repr (m' r) v /\ same_except r m m'.

(** From the memory a statement leaves to its weakest precondition. *)
Ltac by_wp :=
  lazymatch goal with
  | |- computes ?r ?v ?m (exec ?c ?m) => change (wp c (fun _ => computes r v m) m)
  end.

(** [rep_raw] follows the raw routines of a limb expression. *)
Ltac rep_raw :=
  lazymatch goal with
  | |- rep (Fr_rawMMul _ _) _ => eapply MMul_rep; rep_raw
  | |- rep (Fr_rawMMul1 _ _) _ => eapply Fr_rawMMul1_spec; [rep_raw|word_lia]
  | |- rep (Fr_rawMSquare _) _ => eapply Fr_rawMSquare_spec; rep_raw
  | |- rep (Fr_rawNeg _) _ => eapply Fr_rawNeg_spec; rep_raw
  | |- rep (Fr_rawAdd _ _) _ => eapply Fr_rawAdd_spec; rep_raw
  | |- rep (Fr_rawSub _ _) _ => eapply Fr_rawSub_spec; rep_raw
  | |- rep (Fr_rawAddLS _ _) _ => eapply Fr_rawAddLS_spec; [rep_raw|word_lia]
  | |- rep (Fr_rawSubLS _ _) _ => eapply Fr_rawSubLS_spec; [rep_raw|word_lia]
  | |- rep (Fr_rawSubSL _ _) _ => eapply Fr_rawSubSL_spec; [word_lia|rep_raw]
  | |- rep (Fr_rawNegLS _ _) _ => eapply Fr_rawNegLS_spec; [rep_raw|word_lia]
  | |- rep Fr_R3_longVal _ => apply R3_rep
  | H : rep ?l _ |- rep ?l _ => exact H
  end.

(** Closes [repr e v] for an element built by an arithmetic routine. *)
Ltac repr_by_type :=
  lazymatch goal with
  | |- repr (mkFrElement _ Fr_LONG _) _ =>
      apply repr_long; [reflexivity|cbn [longVal]]
  | |- repr (mkFrElement _ Fr_LONGMONTGOMERY _) _ =>
      apply repr_longmont; [reflexivity|apply Z.mod_pos_bound, q_pos|cbn [longVal]]
  | |- repr (mkFrElement _ Fr_SHORT _) _ =>
      apply repr_short; [reflexivity|cbn [shortVal]; try by eauto with words|cbn [shortVal]]
  end.

Ltac finish_arith :=
  rewrite ?u64_id by word_lia;
  split; [mem_frames; repr_by_type; eapply rep_cast; [rep_raw|solve_mont]
         |unfold same_except; intros; mem_frames; reflexivity].

(** Case analysis on how an operand is represented. *)
Ltac repr_cases H Ht :=
  let Hs := fresh "Hs" in let Hl := fresh "Hl" in let Hv := fresh "Hv" in
  destruct H as [Ht Hs ->|Ht Hl|Ht Hs -> Hl|Ht Hv Hl]; try unfold is_i32 in Hs.

(** The same for two operands, which may be one cell. *)
Ltac operand_cases a b Ha Hb :=
  let Hta := fresh "Hta" in let Htb := fresh "Htb" in
  destruct (decide (a = b));
  [ simplify_eq; pose proof (repr_inj _ _ _ Ha Hb); simplify_eq; clear Ha;
    pose proof Hb; repr_cases Hb Htb
  | pose proof Ha; pose proof Hb; repr_cases Ha Hta; repr_cases Hb Htb ].

(** How the destination is aliased. *)
Ltac alias_cases :=
  lazymatch goal with
  | |- wp (_ (Cell ?r) (Cell ?a) (Cell ?b)) _ _ =>
      destruct (decide (r = a)), (decide (r = b)); simplify_eq
  | |- wp (_ (Cell ?r) (Cell ?a)) _ _ => destruct (decide (r = a)); simplify_eq
  | |- wp (_ ?r ?a ?b) _ _ => destruct (decide (r = a)), (decide (r = b)); simplify_eq
  end.

(** Evaluates the dispatch on the type words. *)
Ltac dispatch :=
  wp_steps; repeat match goal with H : type (?m ?a) = _ |- context [type (?m ?a)] => rewrite H end;
  eval_types; wp_steps;
  repeat match goal with H : type (?m ?a) = _ |- context [type (?m ?a)] => rewrite H end;
  eval_types.

(** The cases of the arithmetic operations. *)
Create HintDb arith_cases.
#[export] Hint Unfold mul_s1s2 mul_l1nl2n mul_l1nl2m mul_l1ml2m mul_l1ml2n mul_by_short mul_l1ns2n
  mul_s1nl2n mul_l1ms2n mul_s1nl2m mul_l1ns2m mul_l1ms2m mul_s1ml2m mul_s1ml2n : arith_cases.
#[export] Hint Unfold add_s1s2 add_l1nl2n add_l1nl2m add_l1ml2m add_l1ml2n add_s1l2n add_l1ms2n
  add_s1nl2m add_l1ns2 add_l1ms2m add_s1ml2m : arith_cases.
#[export] Hint Unfold sub_s1s2 sub_l1nl2n sub_l1nl2m sub_l1ml2m sub_l1ml2n sub_s1l2n sub_l1ms2n
  sub_s1nl2m sub_l1ns2 sub_l1ms2m sub_s1ml2m : arith_cases.

(** Splits on the sign test of a short operand. *)
Ltac sign_cases :=
  repeat match goal with
  | |- context [if ?x <? ?y then _ else _] => destruct (Z.ltb_spec x y)
  | |- context [if ?x >=? ?y then _ else _] => destruct (Z.geb_spec x y)
  end.

(** Conversions of an operand into a local element. *)
Ltac wp_conv :=
  lazymatch goal with
  | |- wp (Fr_toMontgomery _ _) _ _ => eapply Fr_toMontgomery_wp
  | |- wp (Fr_toLongNormal _ _) _ _ => eapply Fr_toLongNormal_wp
  end;
  [mem_frames; eassumption|congruence|intros; mem_frames].

Ltac run_case :=
  autounfold with arith_cases; wp_steps; sign_cases; wp_steps; repeat (wp_conv; wp_steps).

(** One long Montgomery operand and one that is not in Montgomery form. *)
Definition mixed (ta tb : Z) : bool := (ta =? Fr_LONGMONTGOMERY) && negb (has tb Fr_MONTGOMERY).

(** The destination of a sum or difference may be one of the operands unless
    that operand is the one to be converted to Montgomery form: the routine
    overwrites its type word before converting it. *)
Definition alias_safe (m : mem) (r a b : nat) : Prop :=
  (r = a -> mixed (type (m (Cell b))) (type (m (Cell a))) = false) /\
  (r = b -> mixed (type (m (Cell a))) (type (m (Cell b))) = false).

Ltac refute_alias :=
  match goal with
  | H : ?r = ?r -> mixed _ _ = false |- _ =>
      exfalso; specialize (H eq_refl);
      repeat match goal with E : type _ = _ |- _ => rewrite E in H end; discriminate H
  end.

Section Arith.
Context {P : FieldParams} {OK : FieldOk P} {G : Mpn} {GL : MpnLaws G}.

(** *** Overflow tests of the short operations *)

Lemma has_mul32_overflow_spec v : has_mul32_overflow v = false -> is_i32 v.
Proof.
  unfold has_mul32_overflow, is_i32. rewrite Z.shiftr_div_pow2 by lia. fold_pows.
  destruct (Z.eqb_spec (v / 2147483648) 0); cbn [negb]; [word_lia|].
  destruct (Z.eqb_spec (Z.lnot (v / 2147483648)) 0) as [E|]; cbn [negb]; [|done].
  unfold Z.lnot in E. word_lia.
Qed.

Lemma has_add32_overflow_spec v :
  - 2 ^ 32 <= v < 2 ^ 32 -> has_add32_overflow v = false -> is_i32 v.
Proof.
  intros Hv. unfold has_add32_overflow, is_i32. rewrite Z.shiftr_div_pow2 by lia.
  change 3 with (Z.ones 2). rewrite Z.land_ones by lia. change (2 ^ 2) with 4. fold_pows.
  destruct (Z.eqb_spec ((v / 2147483648) mod 4) 1); [done|].
  destruct (Z.eqb_spec ((v / 2147483648) mod 4) 2); [done|]. intros _.
  Z.div_mod_to_equations. lia.
Qed.

Lemma short_product_bound s t :
  - 2 ^ 31 <= s < 2 ^ 31 -> - 2 ^ 31 <= t < 2 ^ 31 -> - 2 ^ 63 <= s * t < 2 ^ 63.
Proof. fold_pows. nia. Qed.

Lemma setLongValue_computes (r : nat) v w m0 m :
  - 2 ^ 63 <= v < 2 ^ 63 -> v mod q = w mod q ->
  (forall n, n <> r -> m0 (Cell n) = m (Cell n)) ->
  wp (setLongValue (Cell r) v) (fun _ => computes r (w mod q) m) m0.
Proof.
  intros Hv Hw Hf. apply setLongValue_wp; [done|]. intros m' l Hm Hl E.
  split; [rewrite E; apply repr_long; [done|by rewrite <- Hw]|].
  intros n Hn. rewrite Hm by congruence. by apply Hf.
Qed.

(** The two ways a short result is stored, with its overflow test. *)
Lemma store_sum_computes r v w m :
  - 2 ^ 32 <= v < 2 ^ 32 -> v mod q = w mod q ->
  wp (if has_add32_overflow v then setLongValue (Cell r) v
      else (setType (Cell r) Fr_SHORT ;;; setShort (Cell r) (i32 v))%C)
    (fun _ => computes r (w mod q) m) m.
Proof.
  intros Hv Hw. destruct (has_add32_overflow _) eqn:E.
  - apply setLongValue_computes; [word_lia|done|done].
  - apply has_add32_overflow_spec in E; [|done]. wp_steps. split.
    + mem_frames. rewrite i32_id by done. by apply repr_short.
    + intros. by mem_frames.
Qed.

Lemma store_product_stores r v w m :
  - 2 ^ 63 <= v < 2 ^ 63 -> v mod q = w mod q ->
  wp (if has_mul32_overflow v then setLongValue r v
      else (setShort r (i32 v) ;;; setType r Fr_SHORT ;;; setLongValue r v)%C)
    (fun _ => stores r (w mod q) m) m.
Proof.
  intros Hv Hw. destruct (has_mul32_overflow _); [|wp_steps];
    (apply setLongValue_wp; [done|]; intros m' l Hm Hl E;
     split; [rewrite E; apply repr_long; [done|by rewrite <- Hw]|
             intros n Hn; rewrite Hm by done; by mem_frames]).
Qed.

Lemma stores_computes r v m m' : stores (Cell r) v m m' -> computes r v m m'.
Proof. intros [Hr Hf]. split; [done|]. intros n Hn. apply Hf. congruence. Qed.

Lemma store_product_computes r v w m :
  - 2 ^ 63 <= v < 2 ^ 63 -> v mod q = w mod q ->
  wp (if has_mul32_overflow v then setLongValue (Cell r) v
      else (setShort (Cell r) (i32 v) ;;; setType (Cell r) Fr_SHORT ;;;
            setLongValue (Cell r) v)%C)
    (fun _ => computes r (w mod q) m) m.
Proof.
  intros Hv Hw. eapply wp_mono; [|by apply store_product_stores].
  intros [] m'. apply stores_computes.
Qed.

Ltac short_case :=
  solve [wp_steps; first [eapply store_product_computes|eapply store_product_stores|eapply store_sum_computes];
         [first [by apply short_product_bound|word_lia]|solve_mont]].

(** Multiplication converts no operand, so nothing but the destination changes. *)
Lemma Fr_mul_stores r a b m va vb :
  repr (m a) va -> repr (m b) vb ->
  wp (Fr_mul r a b) (fun _ => stores r ((va * vb) mod q) m) m.
Proof.
  intros Ha Hb. unfold Fr_mul. pose proof q_bounds.
  operand_cases a b Ha Hb; dispatch; alias_cases; run_case;
    first [finish_arith|short_case].
Qed.

(** C2: For every pair of representations of the operands, and for every aliasing
    of the three pointers, [Fr_mul] leaves in [r] an element that stands for the
    product modulo [q], and changes no other element of the caller. *)
Theorem Fr_mul_correct r a b m va vb :
  repr (m (Cell a)) va -> repr (m (Cell b)) vb ->
  computes r ((va * vb) mod q) m (exec (Fr_mul (Cell r) (Cell a) (Cell b)) m).
Proof. intros Ha Hb. apply stores_computes. by apply Fr_mul_stores. Qed.

(** C3: [Fr_add] leaves the sum modulo [q] in [r] and changes no other element, for
    every pair of representations; [r] may be an operand except the one that has
    to be converted to Montgomery form. *)
Theorem Fr_add_correct r a b m va vb :
  repr (m (Cell a)) va -> repr (m (Cell b)) vb -> alias_safe m r a b ->
  computes r ((va + vb) mod q) m (exec (Fr_add (Cell r) (Cell a) (Cell b)) m).
Proof.
  intros Ha Hb [Hra Hrb]. by_wp. unfold Fr_add. pose proof q_bounds.
  operand_cases a b Ha Hb; dispatch; alias_cases; try refute_alias; run_case;
    first [finish_arith|short_case].
Qed.

(** C19: [Fr_sub] leaves the difference modulo [q] in [r], under the same aliasing
    condition as [Fr_add]. *)
Theorem Fr_sub_correct r a b m va vb :
  repr (m (Cell a)) va -> repr (m (Cell b)) vb -> alias_safe m r a b ->
  computes r ((va - vb) mod q) m (exec (Fr_sub (Cell r) (Cell a) (Cell b)) m).
Proof.
  intros Ha Hb [Hra Hrb]. by_wp. unfold Fr_sub. pose proof q_bounds.
  operand_cases a b Ha Hb; dispatch; alias_cases; try refute_alias; run_case;
    first [finish_arith|short_case].
Qed.

Lemma Fr_neg_computes r a m va :
  repr (m (Cell a)) va ->
  computes r ((- va) mod q) m (exec (Fr_neg (Cell r) (Cell a)) m).
Proof.
  intros Ha. by_wp. pose proof q_bounds.
  alias_cases; unfold Fr_neg; repr_cases Ha Hta; dispatch; first [finish_arith|short_case].
Qed.

Lemma Fr_square_computes r a m va :
  repr (m (Cell a)) va ->
  computes r ((va * va) mod q) m (exec (Fr_square (Cell r) (Cell a)) m).
Proof.
  intros Ha. by_wp. pose proof q_bounds.
  alias_cases; unfold Fr_square; repr_cases Ha Hta; dispatch; first [finish_arith|short_case].
Qed.

(** [Fr_neg] computes the opposite and [Fr_square] the square, in every
    representation, also in place. *)
Theorem Fr_unary_correct r a m va :
  repr (m (Cell a)) va ->
  computes r ((- va) mod q) m (exec (Fr_neg (Cell r) (Cell a)) m) /\
  computes r ((va * va) mod q) m (exec (Fr_square (Cell r) (Cell a)) m).
Proof. intros Ha. split; [by apply Fr_neg_computes|by apply Fr_square_computes]. Qed.
End Arith.

(** ** Instances on a concrete memory *)

Section Witnesses.
#[local] Existing Instance Fr_params.

Lemma Fr_mul_correct_witness :
  computes 0 (((q - 5) * demo_mont) mod q) demo_mem
    (exec (Fr_mul (Cell 0) (Cell 0) (Cell 3)) demo_mem).
Proof. apply Fr_mul_correct; [apply demo_0|apply demo_3]. Defined.

Lemma Fr_add_correct_witness :
  computes 4 ((demo_long + demo_mont) mod q) demo_mem
    (exec (Fr_add (Cell 4) (Cell 1) (Cell 3)) demo_mem).
Proof. apply Fr_add_correct; [apply demo_1|apply demo_3|by split]. Defined.

Lemma Fr_sub_correct_witness :
  computes 3 ((3 - demo_mont) mod q) demo_mem
    (exec (Fr_sub (Cell 3) (Cell 2) (Cell 3)) demo_mem).
Proof. apply Fr_sub_correct; [apply demo_2|apply demo_3|by split]. Defined.

Lemma Fr_unary_correct_witness :
  computes 3 ((- demo_mont) mod q) demo_mem (exec (Fr_neg (Cell 3) (Cell 3)) demo_mem) /\
  computes 3 ((demo_mont * demo_mont) mod q) demo_mem
    (exec (Fr_square (Cell 3) (Cell 3)) demo_mem).
Proof. apply Fr_unary_correct, demo_3. Defined.

(** The aliasing condition of [Fr_add] is needed.  With [r] the long operand
    and the other one in Montgomery form, the sum of two long numbers is wrong:
    the type word of [r] is overwritten before the operand is converted. *)
Theorem Fr_add_alias_wrong :
  repr (demo_mem (Cell 1)) demo_long /\ repr (demo_mem (Cell 3)) demo_mont /\
  ~ computes 1 ((demo_long + demo_mont) mod q) demo_mem
      (exec (Fr_add (Cell 1) (Cell 1) (Cell 3)) demo_mem).
Proof.
  split; [apply demo_1|]. split; [apply demo_3|]. intros [H _].
  apply repr_longmont_eval in H; [|vm_compute; reflexivity]. vm_compute in H. discriminate H.
Qed.
End Witnesses.
