(* ===== verification/FrCompare.v ===== *)
(** Correctness of the comparisons, the logical operations and the conversion to
    [int] of tagged field elements.  Comparisons read residues above [half] as
    negative numbers. *)

From S2P Require Import Prelude Limbs Gmp FrRaw FrElement FrElementWp FrArith.

(** A question asked of the memory: it answers [x] and changes no cell. *)
Definition answers {A} (x : A) (m : mem) (y : A) (m' : mem) : Prop :=
  y = x /\ forall n, m' (Cell n) = m (Cell n).

Create HintDb compare_cases.
#[export] Hint Unfold rlt_s1s2 rlt_longs rlt_l1nl2n rlt_l1nl2m rlt_l1ml2m rlt_l1ml2n rlt_s1l2n
  rlt_l1ms2 rlt_s1l2m rlt_l1ns2 rgt_s1s2 rgt_longs rgt_l1nl2n rgt_l1nl2m rgt_l1ml2m rgt_l1ml2n
  rgt_s1l2n rgt_l1ms2 rgt_s1l2m rgt_l1ns2 req_s1s2 req_longs req_l1nl2n req_l1nl2m req_l1ml2m
  req_l1ml2n req_s1l2n req_l1ms2 req_s1l2m req_l1ns2 : compare_cases.

Ltac type_of_operand :=
  mem_frames; match goal with H : type (_ _) = _ |- _ => rewrite H; reflexivity end.

(** Conversions in the order the routine makes them. *)
Ltac wp_conv' :=
  lazymatch goal with
  | |- wp (Fr_toNormal _ _) _ _ =>
      eapply Fr_toNormal_wp; [mem_frames; eassumption|congruence|type_of_operand|intros; mem_frames]
  | |- wp (short_to_long _ _) _ _ =>
      eapply short_to_long_wp; [mem_frames; eassumption|type_of_operand|congruence|intros; mem_frames]
  | |- _ => wp_conv
  end.

(** Runs a comparison in each case and leaves its answer to be proved. *)
Ltac compare_run a b Ha Hb :=
  operand_cases a b Ha Hb; dispatch; autounfold with compare_cases; wp_steps;
  repeat (wp_conv'; wp_steps);
  (split; [|intros; mem_frames; reflexivity]).

Section Compare.
Context {P : FieldParams} {OK : FieldOk P} {G : Mpn} {GL : MpnLaws G}.

Lemma Fr_rawCmp_lt a b va vb : rep a va -> rep b vb -> (Fr_rawCmp a b <? 0) = (va <? vb).
Proof. intros (Ha & <- & _) (Hb & <- & _). by apply mpn_cmp_lt. Qed.
Lemma Fr_rawCmp_gt a b va vb : rep a va -> rep b vb -> (Fr_rawCmp a b >? 0) = (va >? vb).
Proof. intros (Ha & <- & _) (Hb & <- & _). by apply mpn_cmp_gt. Qed.
Lemma Fr_rawCmp_eq a b va vb : rep a va -> rep b vb -> (Fr_rawCmp a b =? 0) = (va =? vb).
Proof. intros (Ha & <- & _) (Hb & <- & _). by apply mpn_cmp_eq. Qed.

(** The two tests against [half] followed by an unsigned comparison are the
    comparison of the signed readings. *)
Lemma rltL1L2_spec a b va vb :
  rep a va -> rep b vb -> rltL1L2 a b = b2z (signed va <? signed vb).
Proof.
  intros Ha Hb. pose proof half_rep. pose proof half_bounds.
  pose proof (rep_range _ _ Ha). pose proof (rep_range _ _ Hb).
  unfold rltL1L2, rltl1l2_n1, rltl1l2_p1, rltRawL1L2, signed.
  rewrite (Fr_rawCmp_lt half a _ va), (Fr_rawCmp_lt half b _ vb), (Fr_rawCmp_gt b a vb va) by done.
  destruct (Z.ltb_spec (eval half) va), (Z.ltb_spec (eval half) vb), (Z.leb_spec va (eval half)),
    (Z.leb_spec vb (eval half)); try lia; unfold b2z;
  repeat match goal with |- context [if ?c then _ else _] => destruct c eqn:? end; lia.
Qed.

Lemma rgtL1L2_spec a b va vb :
  rep a va -> rep b vb -> rgtL1L2 a b = b2z (signed va >? signed vb).
Proof.
  intros Ha Hb. pose proof half_rep. pose proof half_bounds.
  pose proof (rep_range _ _ Ha). pose proof (rep_range _ _ Hb).
  unfold rgtL1L2, rgtl1l2_n1, rgtl1l2_p1, rgtRawL1L2, signed.
  rewrite (Fr_rawCmp_lt half a _ va), (Fr_rawCmp_lt half b _ vb), (Fr_rawCmp_lt b a vb va) by done.
  destruct (Z.ltb_spec (eval half) va), (Z.ltb_spec (eval half) vb), (Z.leb_spec va (eval half)),
    (Z.leb_spec vb (eval half)); try lia; unfold b2z;
  repeat match goal with |- context [if ?c then _ else _] => destruct c eqn:? end; lia.
Qed.

Lemma reqL1L2_spec a b va vb : rep a va -> rep b vb -> reqL1L2 a b = b2z (va =? vb).
Proof. intros Ha Hb. unfold reqL1L2. by rewrite (Fr_rawCmp_eq b a vb va), Z.eqb_sym. Qed.

Lemma mont_eqb v w : 0 <= v < q -> 0 <= w < q -> (mont v =? mont w) = (v =? w).
Proof.
  intros Hv Hw. destruct (Z.eqb_spec v w) as [->|Hne]; [apply Z.eqb_refl|].
  apply Z.eqb_neq. contradict Hne. by apply mont_inj.
Qed.

Lemma short_eqb s t : is_i32 s -> is_i32 t -> (s mod q =? t mod q) = (s =? t).
Proof.
  intros Hs Ht. destruct (Z.eqb_spec s t) as [->|Hne]; [apply Z.eqb_refl|].
  apply Z.eqb_neq. contradict Hne. rewrite <- (signed_short s), <- (signed_short t) by done.
  by rewrite Hne.
Qed.

(** The three comparisons of all sixteen pairs of representations. *)
Lemma Fr_rlt_wp (a b : nat) m va vb :
  repr (m (Cell a)) va -> repr (m (Cell b)) vb ->
  wp (Fr_rlt (Cell a) (Cell b)) (answers (b2z (signed va <? signed vb)) m) m.
Proof.
  intros Ha Hb. unfold Fr_rlt. compare_run a b Ha Hb.
  all: first [by rewrite !signed_short|by apply rltL1L2_spec].
Qed.

Lemma Fr_rgt_wp (a b : nat) m va vb :
  repr (m (Cell a)) va -> repr (m (Cell b)) vb ->
  wp (Fr_rgt (Cell a) (Cell b)) (answers (b2z (signed va >? signed vb)) m) m.
Proof.
  intros Ha Hb. unfold Fr_rgt. compare_run a b Ha Hb.
  all: first [by rewrite !signed_short|by apply rgtL1L2_spec].
Qed.

Lemma Fr_req_wp (a b : nat) m va vb :
  repr (m (Cell a)) va -> repr (m (Cell b)) vb ->
  wp (Fr_req (Cell a) (Cell b)) (answers (b2z (va =? vb)) m) m.
Proof.
  intros Ha Hb. pose proof (repr_range _ _ Ha). pose proof (repr_range _ _ Hb).
  unfold Fr_req. compare_run a b Ha Hb.
  all: first [by rewrite short_eqb|by apply reqL1L2_spec
             |rewrite <- mont_eqb by done; by apply reqL1L2_spec].
Qed.

(** *** The operations that store an answer *)

Lemma bit_range b : 0 <= b2z b < q.
Proof. pose proof q_bounds. destruct b; cbn [b2z]; lia. Qed.

Lemma store_answer_computes r c (x : cmd Z) (f : Z -> Z) m :
  wp x (answers (b2z c) m) m ->
  forall d, f (b2z c) = b2z d ->
  wp (result <- x ;; setShortValue (Cell r) (f result))%C (fun _ => computes r (b2z d) m) m.
Proof.
  intros Hx d Hd. apply wp_sbind. eapply wp_mono; [|exact Hx].
  intros y m' [-> Hm]. unfold setShortValue. wp_steps. split.
  - mem_frames. rewrite Hd. apply repr_short; [done|by destruct d|].
    cbn [shortVal]. by rewrite Z.mod_small by apply bit_range.
  - intros. mem_frames. by apply Hm.
Qed.

Lemma lxor_1 b : Z.lxor (b2z b) 1 = b2z (negb b).
Proof. by destruct b. Qed.

Lemma Fr_lt_computes r a b m va vb :
  repr (m (Cell a)) va -> repr (m (Cell b)) vb ->
  computes r (b2z (signed va <? signed vb)) m (exec (Fr_lt (Cell r) (Cell a) (Cell b)) m) /\
  computes r (b2z (signed vb <=? signed va)) m (exec (Fr_geq (Cell r) (Cell a) (Cell b)) m).
Proof.
  intros Ha Hb. split; by_wp.
  - by eapply (store_answer_computes r _ _ id); [by apply Fr_rlt_wp|].
  - eapply (store_answer_computes r _ _ (fun x => Z.lxor x 1)); [by apply Fr_rlt_wp|].
    by rewrite lxor_1, Z.leb_antisym.
Qed.

Lemma Fr_gt_computes r a b m va vb :
  repr (m (Cell a)) va -> repr (m (Cell b)) vb ->
  computes r (b2z (signed vb <? signed va)) m (exec (Fr_gt (Cell r) (Cell a) (Cell b)) m) /\
  computes r (b2z (signed va <=? signed vb)) m (exec (Fr_leq (Cell r) (Cell a) (Cell b)) m).
Proof.
  intros Ha Hb. rewrite <- Z.gtb_ltb. split; by_wp.
  - by eapply (store_answer_computes r _ _ id); [by apply Fr_rgt_wp|].
  - eapply (store_answer_computes r _ _ (fun x => Z.lxor x 1)); [by apply Fr_rgt_wp|].
    by rewrite lxor_1, Z.gtb_ltb, Z.leb_antisym.
Qed.

(** [Fr_lt], [Fr_geq], [Fr_gt] and [Fr_leq] store the truth value of the
    comparison of the signed readings of the operands, whatever their
    representations and aliasing. *)
Theorem Fr_order_correct r a b m va vb :
  repr (m (Cell a)) va -> repr (m (Cell b)) vb ->
  computes r (b2z (signed va <? signed vb)) m (exec (Fr_lt (Cell r) (Cell a) (Cell b)) m) /\
  computes r (b2z (signed vb <=? signed va)) m (exec (Fr_geq (Cell r) (Cell a) (Cell b)) m) /\
  computes r (b2z (signed vb <? signed va)) m (exec (Fr_gt (Cell r) (Cell a) (Cell b)) m) /\
  computes r (b2z (signed va <=? signed vb)) m (exec (Fr_leq (Cell r) (Cell a) (Cell b)) m).
Proof.
  intros Ha Hb. destruct (Fr_lt_computes r a b m va vb Ha Hb).
  destruct (Fr_gt_computes r a b m va vb Ha Hb). done.
Qed.

(** [Fr_eq] and [Fr_neq] decide equality of the residues across
    representations. *)
Theorem Fr_eq_correct r a b m va vb :
  repr (m (Cell a)) va -> repr (m (Cell b)) vb ->
  computes r (b2z (va =? vb)) m (exec (Fr_eq (Cell r) (Cell a) (Cell b)) m) /\
  computes r (b2z (negb (va =? vb))) m (exec (Fr_neq (Cell r) (Cell a) (Cell b)) m).
Proof.
  intros Ha Hb. split; by_wp.
  - by eapply (store_answer_computes r _ _ id); [by apply Fr_req_wp|].
  - eapply (store_answer_computes r _ _ (fun x => Z.lxor x 1)); [by apply Fr_req_wp|].
    by rewrite lxor_1.
Qed.

(** *** Logical operations *)

Definition truth (v : Z) : bool := negb (v =? 0).

Lemma truth_short t : is_i32 t -> truth (t mod q) = negb (t =? 0).
Proof.
  intros Ht. unfold truth. f_equal. rewrite <- (short_eqb t 0) by (done || word_lia).
  by rewrite Zmod_0_l.
Qed.

Lemma truth_mont v : 0 <= v < q -> truth (mont v) = truth v.
Proof.
  intros Hv. unfold truth. rewrite <- (mont_eqb v 0) by (done || pose proof q_pos; lia).
  unfold mont at 3. by rewrite Z.mul_0_l, Zmod_0_l.
Qed.

Lemma is_true_wp (a : nat) m va :
  repr (m (Cell a)) va -> wp (is_true (Cell a)) (answers (b2z (truth va)) m) m.
Proof.
  intros Ha. unfold is_true. repr_cases Ha Ht; dispatch; wp_steps; (split; [|done]).
  - rewrite truth_short by done. by destruct (shortVal _ =? 0).
  - by rewrite (Fr_rawIsZero_spec _ va).
  - rewrite truth_short by done. by destruct (shortVal _ =? 0).
  - by rewrite (Fr_rawIsZero_spec _ _ Hl), <- truth_mont.
Qed.

Lemma store_bit_computes r c m m' :
  (forall n, m' (Cell n) = m (Cell n)) ->
  wp (setShortValue (Cell r) (b2z c)) (fun _ => computes r (b2z c) m) m'.
Proof.
  intros Hm. change (setShortValue (Cell r) (b2z c)) with
    (sbind (sret (b2z c)) (fun result => setShortValue (Cell r) (id result))).
  apply wp_sbind, wp_sret. unfold setShortValue. wp_steps. split.
  - mem_frames. apply repr_short; [done|by destruct c|].
    cbn [shortVal]. by rewrite Z.mod_small by apply bit_range.
  - intros. mem_frames. by apply Hm.
Qed.

Lemma logical_computes (op : Z -> Z -> Z) (f : bool -> bool -> bool) r (a b : nat) m va vb :
  (forall x y, op (b2z x) (b2z y) = b2z (f x y)) ->
  repr (m (Cell a)) va -> repr (m (Cell b)) vb ->
  wp (x <- is_true (Cell a) ;; y <- is_true (Cell b) ;; setShortValue (Cell r) (op x y))%C
    (fun _ => computes r (b2z (f (truth va) (truth vb))) m) m.
Proof.
  intros Hop Ha Hb. apply wp_sbind. eapply wp_mono; [|by apply is_true_wp].
  intros x m1 [-> H1]. apply wp_sbind. eapply wp_mono; [|apply is_true_wp; by rewrite H1].
  intros y m2 [-> H2]. rewrite Hop. apply store_bit_computes. intros n. by rewrite H2.
Qed.

Lemma Fr_lnot_wp r (a : nat) m va :
  repr (m (Cell a)) va ->
  wp (Fr_lnot (Cell r) (Cell a)) (fun _ => computes r (b2z (negb (truth va))) m) m.
Proof.
  intros Ha. unfold Fr_lnot.
  assert (Hend : forall x, x = b2z (negb (truth va)) ->
    wp (setShort (Cell r) x ;;; setType (Cell r) Fr_SHORT)%C
      (fun _ => computes r (b2z (negb (truth va))) m) m).
  { intros x ->. by apply store_bit_computes. }
  pose proof (is_true_wp a m va Ha) as [Ht _]. unfold is_true, wp, result in Ht.
  apply wp_sbind, wp_typeOf. cbn in Ht.
  destruct (has (type (m (Cell a))) Fr_LONG); cbn in Ht.
  - apply (Hend (b2z (Fr_rawIsZero (longVal (m (Cell a)))))).
    destruct (Fr_rawIsZero _), (truth va); done.
  - apply (Hend (if negb (shortVal (m (Cell a)) =? 0) then 0 else 1)).
    destruct (shortVal (m (Cell a)) =? 0), (truth va); done.
Qed.

Lemma Fr_isTrue_wp (a : nat) m va :
  repr (m (Cell a)) va -> wp (Fr_isTrue (Cell a)) (answers (b2z (truth va)) m) m.
Proof.
  intros Ha. pose proof (is_true_wp a m va Ha) as H. unfold is_true, Fr_isTrue, wp in *.
  cbn in *. destruct (has (type (m (Cell a))) Fr_LONG); [done|].
  cbn in *. by destruct (shortVal (m (Cell a)) =? 0).
Qed.

(** The logical operations and [Fr_isTrue] read any nonzero residue as true. *)
Theorem Fr_logical_correct r a b m va vb :
  repr (m (Cell a)) va -> repr (m (Cell b)) vb ->
  computes r (b2z (truth va || truth vb)) m (exec (Fr_lor (Cell r) (Cell a) (Cell b)) m) /\
  computes r (b2z (truth va && truth vb)) m (exec (Fr_land (Cell r) (Cell a) (Cell b)) m) /\
  computes r (b2z (negb (truth va))) m (exec (Fr_lnot (Cell r) (Cell a)) m) /\
  result (Fr_isTrue (Cell a)) m = b2z (truth va).
Proof.
  intros Ha Hb. split; [|split; [|split]]; try by_wp.
  - apply (logical_computes Z.lor orb); [by intros [] []|done..].
  - apply (logical_computes Z.land andb); [by intros [] []|done..].
  - apply Fr_lnot_wp, Ha.
  - apply (Fr_isTrue_wp a m va Ha).
Qed.

(** *** Conversion to [int] *)

(** What [Fr_longNeg] and [Fr_longNormal] compute: the negative case compares
    low limbs only. *)
Definition toInt_long (v : Z) : option Z :=
  if v <? 2 ^ 31 then Some v
  else let d := i64 (v - q) in if (- 2 ^ 31 <=? d) && (d <? 0) then Some d else None.

Lemma Fr_longNeg_wp p m v :
  rep (longVal (m p)) v ->
  wp (Fr_longNeg p) (fun x m' => m' = m /\
    x = let d := i64 (v - q) in if (- 2 ^ 31 <=? d) && (d <? 0) then Some d else None) m.
Proof.
  intros Hl. pose proof (rep_range _ _ Hl). unfold Fr_longNeg. wp_steps.
  destruct Hl as (Hl & <- & Hq).
  assert (Hg : (Fr_rawCmp (longVal (m p)) Fr_q_longVal >=? 0) = false).
  { unfold Fr_rawCmp. rewrite q_longVal_eq, (mpn_cmp_ge 4) by (done || apply q4_limbs).
    change (take 4 Fr_rawq) with (take Fr_N64 Fr_rawq). rewrite q4_eval. lia. }
  rewrite Hg. wp_steps. rewrite q_longVal_eq.
  rewrite (eval_head 3 (longVal (m p))), (eval_head 3 (take 4 Fr_rawq)) by (done || apply q4_limbs).
  change (take 4 Fr_rawq) with (take Fr_N64 Fr_rawq). rewrite q4_eval.
  set (w := eval (longVal (m p))) in *.
  assert (Hd : i64 (u64 (w mod 2 ^ 64 - q mod 2 ^ 64)) = i64 (w - q)) by word_lia.
  rewrite Hd. set (d := i64 (w - q)). rewrite Z.shiftr_div_pow2 by lia.
  assert (Hid : is_i32 d -> i32 d = d) by apply i32_id. unfold is_i32 in *.
  destruct (Z.eqb_spec (d / 2 ^ 31 + 1) 0); cbn [negb]; wp_steps; (split; [done|]);
    cbv zeta; destruct (Z.leb_spec (- 2 ^ 31) d), (Z.ltb_spec d 0); cbn [andb]; fold_pows;
    try done; try solve [f_equal; apply Hid; lia]; Z.div_mod_to_equations; lia.
Qed.

Lemma Fr_longNormal_wp p m v :
  rep (longVal (m p)) v ->
  wp (Fr_longNormal p) (fun x m' => m' = m /\ x = toInt_long v) m.
Proof.
  intros Hl. pose proof (rep_range _ _ Hl) as Hv. pose proof q_bounds as Hq.
  pose proof (Fr_longNeg_wp p m v Hl) as Hneg. unfold toInt_long.
  unfold Fr_longNormal. wp_steps. rewrite (eval_head 3) by apply Hl.
  destruct (limbs_4 (longVal (m p))) as (w0 & w1 & w2 & w3 & E & H0 & H1 & H2 & H3); [apply Hl|].
  pose proof (rep_eval _ _ Hl) as Ev. rewrite Ev, E in *. cbn [eval] in Ev. cbn [lookup_total list_lookup_total].
  rewrite Z.shiftr_div_pow2 by lia. unfold is_u64 in *.
  assert (Hlow : v mod 2 ^ 64 = w0) by (symmetry; apply (Zmod_unique _ _ (w1 + 2 ^ 64 * (w2 + 2 ^ 64 * w3))); lia).
  rewrite Hlow. destruct (Z.ltb_spec v (2 ^ 31)) as [Hlt|Hge].
  - assert (w1 = 0 /\ w2 = 0 /\ w3 = 0 /\ w0 = v) as (-> & -> & -> & ->) by (fold_pows; lia).
    rewrite Z.div_small by lia. cbn [negb Z.eqb orb]. wp_steps.
    split; [done|]. by rewrite i32_id by word_lia.
  - destruct (Z.eqb_spec (w0 / 2 ^ 31) 0); cbn [negb]; [|exact Hneg].
    destruct (Z.eqb_spec w1 0), (Z.eqb_spec w2 0), (Z.eqb_spec w3 0); cbn [negb orb]; try exact Hneg.
    exfalso. subst. fold_pows. Z.div_mod_to_equations. lia.
Qed.

Lemma toInt_long_small v : 0 <= v < q -> is_i32 (signed v) -> toInt_long v = Some (signed v).
Proof.
  intros Hv Hs. pose proof half_bounds. pose proof q_bounds. unfold toInt_long, signed, is_i32 in *.
  destruct (Z.leb_spec v (eval half)).
  - destruct (Z.ltb_spec v (2 ^ 31)); [done|lia].
  - destruct (Z.ltb_spec v (2 ^ 31)); [lia|]. rewrite i64_id by lia. cbv zeta.
    destruct (Z.leb_spec (- 2 ^ 31) (v - q)), (Z.ltb_spec (v - q) 0); done || lia.
Qed.

(** What [Fr_toInt] returns in every case, and that it is the signed reading
    when that fits an [int]; it changes no element of the caller. *)
Theorem Fr_toInt_correct (a : nat) m v :
  repr (m (Cell a)) v ->
  wp (Fr_toInt (Cell a))
    (answers (if has (type (m (Cell a))) Fr_LONG then toInt_long v else Some (signed v)) m) m /\
  (is_i32 (signed v) -> result (Fr_toInt (Cell a)) m = Some (signed v)).
Proof.
  intros Ha.
  assert (Hw : wp (Fr_toInt (Cell a))
    (answers (if has (type (m (Cell a))) Fr_LONG then toInt_long v else Some (signed v)) m) m).
  { pose proof Ha. unfold Fr_toInt. repr_cases Ha Ht; dispatch; wp_steps.
    1,3: split; [by rewrite signed_short|done].
    - eapply wp_mono; [|by apply Fr_longNormal_wp]. by intros x m' [-> ->].
    - wp_conv'. eapply wp_mono; [|by apply Fr_longNormal_wp].
      intros x m'' [-> ->]. split; [done|]. intros. by mem_frames. }
  split; [exact Hw|]. intros Hs. destruct Hw as [-> _].
  destruct (has _ _); [|done]. apply toInt_long_small; [by eapply repr_range|done].
Qed.
End Compare.

(** ** Instances on a concrete memory *)

Section Witnesses.
#[local] Existing Instance Fr_params.

Lemma Fr_order_correct_witness :
  computes 4 (b2z (signed (q - 5) <? signed demo_long)) demo_mem
    (exec (Fr_lt (Cell 4) (Cell 0) (Cell 1)) demo_mem) /\
  computes 4 (b2z (signed demo_long <=? signed (q - 5))) demo_mem
    (exec (Fr_geq (Cell 4) (Cell 0) (Cell 1)) demo_mem) /\
  computes 4 (b2z (signed demo_long <? signed (q - 5))) demo_mem
    (exec (Fr_gt (Cell 4) (Cell 0) (Cell 1)) demo_mem) /\
  computes 4 (b2z (signed (q - 5) <=? signed demo_long)) demo_mem
    (exec (Fr_leq (Cell 4) (Cell 0) (Cell 1)) demo_mem).
Proof. apply Fr_order_correct; [apply demo_0|apply demo_1]. Defined.

Lemma Fr_eq_correct_witness :
  computes 4 (b2z (3 =? demo_mont)) demo_mem (exec (Fr_eq (Cell 4) (Cell 2) (Cell 3)) demo_mem) /\
  computes 4 (b2z (negb (3 =? demo_mont))) demo_mem
    (exec (Fr_neq (Cell 4) (Cell 2) (Cell 3)) demo_mem).
Proof. apply Fr_eq_correct; [apply demo_2|apply demo_3]. Defined.

Lemma Fr_logical_correct_witness :
  computes 4 (b2z (truth 3 || truth demo_mont)) demo_mem
    (exec (Fr_lor (Cell 4) (Cell 2) (Cell 3)) demo_mem) /\
  computes 4 (b2z (truth 3 && truth demo_mont)) demo_mem
    (exec (Fr_land (Cell 4) (Cell 2) (Cell 3)) demo_mem) /\
  computes 4 (b2z (negb (truth 3))) demo_mem (exec (Fr_lnot (Cell 4) (Cell 2)) demo_mem) /\
  result (Fr_isTrue (Cell 2)) demo_mem = b2z (truth 3).
Proof. apply Fr_logical_correct; [apply demo_2|apply demo_3]. Defined.

Lemma Fr_toInt_correct_witness :
  wp (Fr_toInt (Cell 3))
    (answers (if has (type (demo_mem (Cell 3))) Fr_LONG then toInt_long demo_mont
              else Some (signed demo_mont)) demo_mem) demo_mem /\
  (is_i32 (signed demo_mont) -> result (Fr_toInt (Cell 3)) demo_mem = Some (signed demo_mont)).
Proof. apply Fr_toInt_correct, demo_3. Defined.

(** [Fr_toInt] answers -1 for a residue that is not -1: for a number above [half]
    it compares low limbs only, instead of failing as it does for other residues
    that fit no [int]. *)
Theorem Fr_toInt_accepts_wrong :
  exists e, repr e (q - 2 ^ 64 - 1) /\ signed (q - 2 ^ 64 - 1) <> -1 /\
    result (Fr_toInt (Cell 0)) (fun _ => e) = Some (-1).
Proof.
  exists (mkFrElement 0 Fr_LONG (of_Z 4 (q - 2 ^ 64 - 1))). split; [|split].
  - apply repr_long; [reflexivity|]. apply rep_of_Z.
    split; [vm_compute; discriminate|vm_compute; reflexivity].
  - vm_compute. discriminate.
  - vm_compute. reflexivity.
Qed.
End Witnesses.
