(* ===== verification/FrShift.v ===== *)
(** Correctness of the bitwise operations and the shifts of tagged field elements: the amount is the signed
    reading of the second operand, and a negative amount shifts the other way. *)

From S2P Require Import Prelude Limbs Gmp FrRaw FrElement FrElementWp FrArith FrCompare.

(** ** The bitwise operations *)

Create HintDb bit_cases.
#[export] Hint Unfold and_s1s2 and_l1nl2n and_l1nl2m and_l1ml2m and_l1ml2n and_s1l2n and_l1ms2
  and_s1l2m and_l1ns2 or_s1s2 or_l1nl2n or_l1nl2m or_l1ml2m or_l1ml2n or_s1l2n or_l1ms2
  or_s1l2m or_l1ns2 xor_s1s2 xor_l1nl2n xor_l1nl2m xor_l1ml2m xor_l1ml2n xor_s1l2n xor_l1ms2
  xor_s1l2m xor_l1ns2 : bit_cases.

(** The bitwise operations convert no operand of this kind, so only these may be
    the destination too. *)
Definition plain (e : FrElement) : Prop :=
  type e = Fr_LONG \/ (has (type e) Fr_LONG = false /\ 0 <= shortVal e).

Definition bits_alias_safe (m : mem) (r a b : nat) : Prop :=
  r = a \/ r = b -> plain (m (Cell a)) /\ plain (m (Cell b)).

(** What an aliased destination says of the operands of a case. *)
Ltac use_plain :=
  repeat match goal with
  | H : ?r = _ \/ ?r = _ -> plain _ /\ plain _ |- _ =>
      first [specialize (H (or_introl eq_refl)) | specialize (H (or_intror eq_refl)) | clear H];
      try (unfold plain in H;
        repeat match goal with E : type _ = _ |- _ => rewrite E in H end;
        destruct H as [[?|[? ?]] [?|[? ?]]]; try discriminate)
  end.

(** The sign tests of short operands; impossible combinations are closed. *)
Ltac case_split_signs :=
  repeat match goal with
  | |- context [if (?x >=? ?y) && _ then _ else _] =>
      destruct (Z.geb_spec x y); cbn [andb]; try lia
  | |- context [if ?x >=? ?y then _ else _] =>
      destruct (Z.geb_spec x y); try lia
  end.

Section ShortOperands.
Context {P : FieldParams} {OK : FieldOk P} {G : Mpn} {GL : MpnLaws G}.

Lemma short_nonneg s : 0 <= s -> is_i32 s -> s mod q = s.
Proof. intros. pose proof q_bounds. unfold is_i32 in *. apply Z.mod_small. lia. Qed.

Lemma short_to_long_nonneg p a s (Q : unit -> mem -> Prop) m :
  shortVal (m a) = s -> 0 <= s -> - 2 ^ 31 <= s < 2 ^ 31 ->
  (forall m', same_except p m m' -> rep (longVal (m' p)) (s mod q) -> Q tt m') ->
  wp (short_to_long p a) Q m.
Proof.
  intros <- H0 Hs HQ. unfold short_to_long. wp_steps.
  destruct (Z.geb_spec (shortVal (m a)) 0); [|lia]. wp_steps.
  apply HQ; [auto with words|]. mem_frames.
  rewrite u64_id, short_nonneg by word_lia. apply small_rep. word_lia.
Qed.
End ShortOperands.

(** Conversions of short operands that are not negative read no type word. *)
Ltac wp_conv_bits :=
  lazymatch goal with
  | |- wp (short_to_long _ _) _ _ =>
      first [ eapply short_to_long_nonneg; [mem_frames; reflexivity|eassumption|eassumption|intros; mem_frames]
            | wp_conv' ]
  | |- _ => wp_conv'
  end.

Ltac bit_case :=
  autounfold with bit_cases; wp_steps; case_split_signs; wp_steps;
  repeat (wp_conv_bits; wp_steps);
  (split; [mem_frames|intros; mem_frames; reflexivity]).

Section Bits.
Context {P : FieldParams} {OK : FieldOk P} {G : Mpn} {GL : MpnLaws G}.

(** The value of two short operands that are not negative. *)
Lemma short_op_repr op e x y :
  type e = Fr_SHORT -> 0 <= x < 2 ^ 31 -> 0 <= y < 2 ^ 31 -> shortVal e = op x y ->
  0 <= op x y < 2 ^ 31 ->
  repr e (op (x mod q) (y mod q) mod q).
Proof.
  intros Ht Hx Hy He Hop. rewrite (short_nonneg x), (short_nonneg y) by word_lia.
  apply repr_short; [done|rewrite He; word_lia|by rewrite He].
Qed.

Ltac bit_finish spec comm below :=
  first
    [ apply short_op_repr; try (done || lia); apply below; lia
    | apply repr_long; [done|]; cbn [longVal];
      first [solve [apply spec; eassumption]|rewrite comm; apply spec; eassumption] ].

Lemma Fr_band_computes r a b m va vb :
  repr (m (Cell a)) va -> repr (m (Cell b)) vb -> bits_alias_safe m r a b ->
  computes r (Z.land va vb mod q) m (exec (Fr_band (Cell r) (Cell a) (Cell b)) m).
Proof.
  intros Ha Hb Hal. by_wp. unfold Fr_band. pose proof q_bounds. unfold bits_alias_safe in Hal.
  operand_cases a b Ha Hb; dispatch; alias_cases; use_plain; bit_case;
    bit_finish Fr_rawAnd_spec Z.land_comm land_below.
Qed.

Lemma Fr_bor_computes r a b m va vb :
  repr (m (Cell a)) va -> repr (m (Cell b)) vb -> bits_alias_safe m r a b ->
  computes r (Z.lor va vb mod q) m (exec (Fr_bor (Cell r) (Cell a) (Cell b)) m).
Proof.
  intros Ha Hb Hal. by_wp. unfold Fr_bor. pose proof q_bounds. unfold bits_alias_safe in Hal.
  operand_cases a b Ha Hb; dispatch; alias_cases; use_plain; bit_case;
    bit_finish Fr_rawOr_spec Z.lor_comm lor_below.
Qed.

Lemma Fr_bxor_computes r a b m va vb :
  repr (m (Cell a)) va -> repr (m (Cell b)) vb -> bits_alias_safe m r a b ->
  computes r (Z.lxor va vb mod q) m (exec (Fr_bxor (Cell r) (Cell a) (Cell b)) m).
Proof.
  intros Ha Hb Hal. by_wp. unfold Fr_bxor. pose proof q_bounds. unfold bits_alias_safe in Hal.
  operand_cases a b Ha Hb; dispatch; alias_cases; use_plain; bit_case;
    bit_finish Fr_rawXor_spec Z.lxor_comm lxor_below.
Qed.

(** [Fr_band], [Fr_bor] and [Fr_bxor] compute the operation on the canonical
    residues as 254-bit numbers, reduced modulo [q]; the destination may be an
    operand when no operand has to be converted. *)
Theorem Fr_bitwise_correct r a b m va vb :
  repr (m (Cell a)) va -> repr (m (Cell b)) vb -> bits_alias_safe m r a b ->
  computes r (Z.land va vb mod q) m (exec (Fr_band (Cell r) (Cell a) (Cell b)) m) /\
  computes r (Z.lor va vb mod q) m (exec (Fr_bor (Cell r) (Cell a) (Cell b)) m) /\
  computes r (Z.lxor va vb mod q) m (exec (Fr_bxor (Cell r) (Cell a) (Cell b)) m).
Proof.
  intros Ha Hb Hal. split; [|split];
    [by apply Fr_band_computes|by apply Fr_bor_computes|by apply Fr_bxor_computes].
Qed.

(** [Fr_bnot] computes the complement of the 254 bits of the residue, reduced
    modulo [q]; in place only for a long element, whose type it does not spoil. *)
Theorem Fr_bnot_correct r a m va :
  repr (m (Cell a)) va -> (r = a -> type (m (Cell a)) = Fr_LONG) ->
  computes r ((Z.ones 254 - va) mod q) m (exec (Fr_bnot (Cell r) (Cell a)) m).
Proof.
  intros Ha Hal. by_wp. pose proof Ha.
  alias_cases; [specialize (Hal eq_refl)|clear Hal]; unfold Fr_bnot;
    repr_cases Ha Ht; try (rewrite Ht in Hal; discriminate Hal); dispatch;
    repeat (wp_conv_bits; wp_steps); (split; [mem_frames|intros; mem_frames; reflexivity]);
    (apply repr_long; [done|]; by apply Fr_rawNot_spec).
Qed.
End Bits.

(** ** Instances on a concrete memory *)

Section Witnesses.
#[local] Existing Instance Fr_params.

Lemma Fr_bitwise_correct_witness :
  computes 4 (Z.land (q - 5) demo_mont mod q) demo_mem
    (exec (Fr_band (Cell 4) (Cell 0) (Cell 3)) demo_mem) /\
  computes 4 (Z.lor (q - 5) demo_mont mod q) demo_mem
    (exec (Fr_bor (Cell 4) (Cell 0) (Cell 3)) demo_mem) /\
  computes 4 (Z.lxor (q - 5) demo_mont mod q) demo_mem
    (exec (Fr_bxor (Cell 4) (Cell 0) (Cell 3)) demo_mem).
Proof.
  apply Fr_bitwise_correct; [apply demo_0|apply demo_3|]. intros [H|H]; discriminate H.
Defined.

Lemma Fr_bnot_correct_witness :
  computes 4 ((Z.ones 254 - demo_mont) mod q) demo_mem (exec (Fr_bnot (Cell 4) (Cell 3)) demo_mem).
Proof. apply Fr_bnot_correct; [apply demo_3|]. intros H; discriminate H. Defined.
End Witnesses.

(** What the shifts compute: 254 bits are kept and the result is reduced. *)
Definition shifted {P : FieldParams} (v n : Z) : Z :=
  if n <? 0 then v / 2 ^ (- n) else ((v * 2 ^ n) mod 2 ^ 254) mod q.

Section Shift.
Context {P : FieldParams} {OK : FieldOk P} {G : Mpn} {GL : MpnLaws G}.

(** A left shift inside one array is right only while no whole limb moves. *)
Definition shift_alias_safe (m : mem) (r a : nat) (n : Z) : Prop :=
  r = a -> type (m (Cell a)) = Fr_LONG -> n < 64.

Lemma shifted_big v n : 0 <= v < q -> 254 <= Z.abs n -> shifted v n = 0.
Proof.
  intros Hv Hn. pose proof q_bounds. unfold shifted. destruct (Z.ltb_spec n 0).
  - apply Z.div_small. split; [lia|]. eapply Z.lt_le_trans; [exact (proj2 Hv)|].
    transitivity (2 ^ 254); [lia|]. apply Z.pow_le_mono_r; lia.
  - replace (v * 2 ^ n) with (v * 2 ^ (n - 254) * 2 ^ 254)
      by (rewrite <- Z.mul_assoc, <- Z.pow_add_r by lia; do 2 f_equal; lia).
    by rewrite Z.mod_mul.
Qed.

Lemma shifted_0 v : 0 <= v < q -> (v * 2 ^ 0) mod 2 ^ 254 mod q = v.
Proof.
  intros Hv. pose proof q_bounds. rewrite Z.pow_0_r, Z.mul_1_r.
  by rewrite (Z.mod_small v (2 ^ 254)), Z.mod_small by lia.
Qed.

Lemma setzero_wp r m m0 v :
  v = 0 -> (forall n, m0 (Cell n) = m (Cell n)) ->
  wp (Fr_setzero (Cell r)) (fun _ => computes r v m) m0.
Proof.
  intros -> Hm. unfold Fr_setzero. wp_steps. split.
  - mem_frames. by apply repr_short.
  - intros. mem_frames. apply Hm.
Qed.

Lemma rawShl_wp r src n v m0 (Q : unit -> mem -> Prop) :
  limbs 4 (longVal (m0 r)) -> rep (longVal (m0 src)) v -> 0 <= n < 254 ->
  (r = src -> n < 64) ->
  (forall m', same_except r m0 m' ->
     (exists l, rep l (shifted v n) /\ m' r = mkFrElement (shortVal (m0 r)) (type (m0 r)) l) ->
     Q tt m') ->
  wp (rawShl r src n) Q m0.
Proof.
  intros Hr Hl Hn Hal HQ. pose proof (rep_range _ _ Hl) as Hv. pose proof (rep_below _ _ Hl).
  unfold rawShl. wp_steps. unfold shifted in HQ. destruct (Z.ltb_spec n 0) as [?|_]; [lia|].
  destruct (Z.eqb_spec n 0) as [->|Hn0]; wp_steps.
  - apply HQ; [auto with words|]. eexists. split; [|mem_frames; reflexivity].
    rewrite shifted_0 by lia. by apply Fr_rawCopy_spec.
  - destruct (Z.geb_spec n 254); [lia|]. wp_steps.
    apply HQ; [auto with words|]. eexists. split; [|mem_frames; reflexivity].
    apply Fr_rawShl_spec; [done..|lia|].
    destruct (decide (r = src)) as [->|]; [right; auto|left; by apply bool_decide_eq_false].
Qed.

Lemma rawShr_wp r src n v m0 (Q : unit -> mem -> Prop) :
  limbs 4 (longVal (m0 r)) -> rep (longVal (m0 src)) v -> 0 <= n < 254 ->
  (forall m', same_except r m0 m' ->
     (exists l, rep l (shifted v (- n)) /\ m' r = mkFrElement (shortVal (m0 r)) (type (m0 r)) l) ->
     Q tt m') ->
  wp (rawShr r src n) Q m0.
Proof.
  intros Hr Hl Hn HQ. pose proof (rep_range _ _ Hl) as Hv. pose proof (rep_below _ _ Hl).
  assert (Hsh : shifted v (- n) = v / 2 ^ n).
  { unfold shifted. destruct (Z.ltb_spec (- n) 0); [by rewrite Z.opp_involutive|].
    replace n with 0 by lia. rewrite shifted_0 by lia. by rewrite Z.div_1_r. }
  unfold rawShr. wp_steps. rewrite Hsh in HQ.
  destruct (Z.eqb_spec n 0) as [->|Hn0]; wp_steps.
  - apply HQ; [auto with words|]. eexists. split; [|mem_frames; reflexivity].
    rewrite Z.div_1_r. by apply Fr_rawCopy_spec.
  - destruct (Z.geb_spec n 254); [lia|]. wp_steps.
    apply HQ; [auto with words|]. eexists. split; [|mem_frames; reflexivity].
    apply Fr_rawShr_spec; [done..|lia].
Qed.

(** Closes the goal a long shift leaves. *)
Ltac shift_done :=
  let E := fresh "E" in intros ? ? (? & ? & E); split; [rewrite E; mem_frames; by apply repr_long|];
  intros; mem_frames; reflexivity.

Lemma do_shlcl_wp (r a : nat) m v n :
  repr (m (Cell a)) v -> limbs 4 (longVal (m (Cell r))) -> 0 <= n < 254 ->
  wp (do_shlcl (Cell r) (Cell a) n) (fun _ => computes r (shifted v n) m) m.
Proof.
  intros Ha Hr Hn. unfold do_shlcl. wp_steps. wp_conv. wp_steps.
  eapply rawShl_wp; [by mem_frames|by mem_frames|done|congruence|shift_done].
Qed.

Lemma do_shl_wp (r a : nat) m v n :
  repr (m (Cell a)) v -> limbs 4 (longVal (m (Cell r))) -> 0 <= n < 254 ->
  shift_alias_safe m r a n ->
  wp (do_shl (Cell r) (Cell a) n) (fun _ => computes r (shifted v n) m) m.
Proof.
  intros Ha Hr Hn Hal. pose proof Ha as Ha'. pose proof q_bounds.
  assert (Hs : has (type (m (Cell a))) Fr_LONG = false -> is_i32 (shortVal (m (Cell a))) ->
    v = shortVal (m (Cell a)) mod q ->
    wp (do_shl (Cell r) (Cell a) n) (fun _ => computes r (shifted v n) m) m).
  { intros Ht Hs ->. unfold do_shl. wp_steps. rewrite Ht. wp_steps.
    destruct (Z.eqb_spec (shortVal (m (Cell a))) 0) as [E|E].
    { apply setzero_wp; [|done]. rewrite E, Zmod_0_l. unfold shifted.
      destruct (Z.ltb_spec n 0); [lia|]. by rewrite Z.mul_0_l, !Zmod_0_l. }
    destruct (Z.ltb_spec (shortVal (m (Cell a))) 0); [by apply do_shlcl_wp|].
    destruct (Z.geb_spec n 31); [by apply do_shlcl_wp|]. cbv zeta.
    unfold is_i32 in Hs. rewrite Z.shiftl_mul_pow2 by lia.
    assert (1 <= 2 ^ n <= 2 ^ 30) by (split; [lia|apply Z.pow_le_mono_r; lia]).
    rewrite i64_id by (change (2 ^ 30) with 1073741824 in *; fold_pows; nia).
    rewrite Z.shiftr_div_pow2 by lia.
    destruct (Z.eqb_spec (shortVal (m (Cell a)) * 2 ^ n / 2 ^ 31) 0) as [E'|E']; cbn [negb];
      [|by apply do_shlcl_wp].
    assert (Hp : 0 <= shortVal (m (Cell a)) * 2 ^ n < 2 ^ 31)
      by (split; [nia|apply Z.div_small_iff in E'; lia]).
    wp_steps. split; [|intros; by mem_frames]. mem_frames. rewrite i32_id by word_lia.
    apply repr_short; [done|cbn; word_lia|]. cbn [shortVal]. unfold shifted.
    destruct (Z.ltb_spec n 0); [lia|]. rewrite (short_nonneg (shortVal _)) by word_lia.
    by rewrite (Z.mod_small _ (2 ^ 254)) by lia. }
  repr_cases Ha Ht.
  - apply Hs; [by rewrite Ht|done..].
  - clear Hs. unfold do_shl. dispatch. unfold do_shlln. wp_steps.
    eapply rawShl_wp; [| |done| |shift_done].
    + destruct (decide (r = a)) as [->|]; by mem_frames.
    + destruct (decide (r = a)) as [->|]; by mem_frames.
    + intros E. injection E as ->. by apply Hal.
  - apply Hs; [by rewrite Ht|done..].
  - clear Hs. unfold do_shl. dispatch. wp_conv'. unfold do_shlln. wp_steps.
    eapply rawShl_wp; [by mem_frames|by mem_frames|done|congruence|shift_done].
Qed.

Lemma do_shr_wp (r a : nat) m v n :
  repr (m (Cell a)) v -> limbs 4 (longVal (m (Cell r))) -> 0 <= n < 254 ->
  wp (do_shr (Cell r) (Cell a) n) (fun _ => computes r (shifted v (- n)) m) m.
Proof.
  intros Ha Hr Hn. pose proof Ha as Ha'. pose proof q_bounds.
  assert (Hs : has (type (m (Cell a))) Fr_LONG = false -> is_i32 (shortVal (m (Cell a))) ->
    v = shortVal (m (Cell a)) mod q ->
    wp (do_shr (Cell r) (Cell a) n) (fun _ => computes r (shifted v (- n)) m) m).
  { intros Ht Hs ->. unfold do_shr. wp_steps. rewrite Ht. wp_steps.
    assert (Hshift : 0 <= shortVal (m (Cell a)) ->
      shifted (shortVal (m (Cell a)) mod q) (- n) = shortVal (m (Cell a)) / 2 ^ n).
    { intros H0. rewrite short_nonneg by done. unfold is_i32 in Hs. unfold shifted.
      destruct (Z.ltb_spec (- n) 0); [by rewrite Z.opp_involutive|].
      replace n with 0 by lia. rewrite shifted_0 by lia. by rewrite Z.div_1_r. }
    unfold is_i32 in Hs.
    destruct (Z.eqb_spec (shortVal (m (Cell a))) 0) as [E|E].
    { apply setzero_wp; [|done]. rewrite Hshift by lia. by rewrite E. }
    destruct (Z.ltb_spec (shortVal (m (Cell a))) 0).
    { wp_steps. wp_conv. unfold do_shrl. wp_steps.
      match goal with H : type (_ (Local do_shr_a_long)) = _ |- _ => rewrite H end.
      eval_types. unfold do_shrln. wp_steps.
      eapply rawShr_wp; [by mem_frames|by mem_frames|done|shift_done]. }
    destruct (Z.geb_spec n 31).
    { apply setzero_wp; [|done]. rewrite Hshift by lia. apply Z.div_small. split; [lia|].
      eapply Z.lt_le_trans; [exact (proj2 Hs)|]. apply Z.pow_le_mono_r; lia. }
    rewrite Z.shiftr_div_pow2 by lia. wp_steps. split; [|intros; by mem_frames]. mem_frames.
    assert (0 <= shortVal (m (Cell a)) / 2 ^ n <= shortVal (m (Cell a))).
    { assert (0 < 2 ^ n) by (apply Z.pow_pos_nonneg; lia).
      split; [apply Z.div_pos; lia|]. apply Z.div_le_upper_bound; nia. }
    rewrite Hshift, i32_id by word_lia.
    apply repr_short; [done|cbn; word_lia|]. cbn [shortVal]. by rewrite short_nonneg by word_lia. }
  repr_cases Ha Ht.
  - apply Hs; [by rewrite Ht|done..].
  - clear Hs. unfold do_shr. dispatch. unfold do_shrl. dispatch. unfold do_shrln. wp_steps.
    eapply rawShr_wp; [| |done|shift_done]; destruct (decide (r = a)) as [->|]; by mem_frames.
  - apply Hs; [by rewrite Ht|done..].
  - clear Hs. unfold do_shr. dispatch. unfold do_shrl. dispatch. wp_conv'. unfold do_shrln. wp_steps.
    eapply rawShr_wp; [by mem_frames|by mem_frames|done|shift_done].
Qed.

(** A shift by [n] in either direction, run where only locals have changed. *)
Lemma wp_shift_frame (r : nat) (c : cmd unit) v m0 m :
  (forall n, m0 (Cell n) = m (Cell n)) ->
  wp c (fun _ => computes r v m0) m0 -> wp c (fun _ => computes r v m) m0.
Proof.
  intros Hm. apply wp_mono. intros _ m' [Hr Hf]. split; [done|].
  intros n Hn. by rewrite Hf, Hm.
Qed.

Lemma shl_any (r a : nat) m0 m v n :
  (forall n, m0 (Cell n) = m (Cell n)) ->
  repr (m (Cell a)) v -> limbs 4 (longVal (m (Cell r))) -> 0 <= n < 254 ->
  shift_alias_safe m r a n ->
  wp (do_shl (Cell r) (Cell a) n) (fun _ => computes r (shifted v n) m) m0.
Proof.
  intros Hm Ha Hr Hn Hal. apply wp_shift_frame; [done|].
  apply do_shl_wp; unfold shift_alias_safe; by rewrite ?Hm.
Qed.

Lemma shr_any (r a : nat) m0 m v n :
  (forall n, m0 (Cell n) = m (Cell n)) ->
  repr (m (Cell a)) v -> limbs 4 (longVal (m (Cell r))) -> 0 <= n < 254 ->
  wp (do_shr (Cell r) (Cell a) n) (fun _ => computes r (shifted v (- n)) m) m0.
Proof.
  intros Hm Ha Hr Hn. apply wp_shift_frame; [done|]. by apply do_shr_wp; rewrite ?Hm.
Qed.

Lemma max_shift_rep : rep max_shift 254.
Proof. by apply small_rep. Qed.

Lemma Fr_rawCmp_ge a b va vb : rep a va -> rep b vb -> (Fr_rawCmp a b >=? 0) = (vb <=? va).
Proof. intros (Ha & <- & _) (Hb & <- & _). by apply mpn_cmp_ge. Qed.

(** The amount [q - v] of a negative long shift. *)
Lemma neg_amount l v :
  rep l v -> 0 < v -> rep (Fr_rawSubRegular Fr_q_longVal l) (q - v).
Proof.
  intros Hl Hv. pose proof (rep_range _ _ Hl). destruct Hl as (Hl & <- & Hq).
  rewrite q_longVal_eq. change 4%nat with Fr_N64.
  destruct (Fr_rawSubRegular_spec (take Fr_N64 Fr_rawq) l) as [Hs Es];
    [apply q4_limbs|done|rewrite q4_eval; lia|].
  rewrite q4_eval in Es. apply rep_intro; [done|lia|done].
Qed.

Lemma rep_head l v : rep l v -> 0 <= v < 254 -> l !!! 0%nat = v.
Proof.
  intros Hl Hv. rewrite (eval_head 3) by apply Hl. rewrite (rep_eval _ _ Hl).
  apply Z.mod_small. fold_pows. lia.
Qed.

Lemma signed_long v :
  0 <= v < q -> (v < 254 -> signed v = v) /\ (q - v < 254 -> signed v = v - q) /\
  (254 <= v -> 254 <= q - v -> 254 <= Z.abs (signed v)).
Proof.
  intros Hv. pose proof half_bounds. pose proof q_bounds. unfold signed.
  destruct (Z.leb_spec v (eval half)); lia.
Qed.

(** A long amount, already out of Montgomery form. *)
Lemma shift_long_wp (r a : nat) p m0 m va vb :
  (forall n, m0 (Cell n) = m (Cell n)) ->
  repr (m (Cell a)) va -> limbs 4 (longVal (m (Cell r))) -> rep (longVal (m0 p)) vb ->
  (shift_alias_safe m r a (signed vb) ->
   wp (Fr_shl_long (Cell r) (Cell a) p) (fun _ => computes r (shifted va (signed vb)) m) m0) /\
  (shift_alias_safe m r a (- signed vb) ->
   wp (Fr_shr_long (Cell r) (Cell a) p) (fun _ => computes r (shifted va (- signed vb)) m) m0).
Proof.
  intros Hm Ha Hr Hb. pose proof (rep_range _ _ Hb) as Hv. pose proof (repr_range _ _ Ha).
  destruct (signed_long vb Hv) as (Hsmall & Hneg & Hbig). pose proof q_bounds.
  unfold Fr_shl_long, Fr_shr_long, Fr_shl_big_shift, Fr_shr_big_shift.
  split; intros Hal; wp_steps; rewrite (Fr_rawCmp_ge _ _ _ _ Hb max_shift_rep);
    (destruct (Z.leb_spec 254 vb) as [Hge|Hlt];
     [wp_steps; rewrite (Fr_rawCmp_ge _ _ _ _ (neg_amount _ _ Hb ltac:(lia)) max_shift_rep);
      destruct (Z.leb_spec 254 (q - vb)) as [Hge'|Hlt']
     |]).
  all: try (apply setzero_wp; [apply shifted_big; [done|lia]|done]).
  all: try (rewrite (rep_head _ _ Hb) by lia; rewrite Hsmall in * by lia).
  all: try (rewrite (rep_head _ (q - vb)) by (lia || apply neg_amount; done || lia);
            rewrite Hneg in * by lia).
  - replace (vb - q) with (- (q - vb)) by lia. apply shr_any; [done..|lia].
  - apply shl_any; [done..|lia|done].
  - replace (- (vb - q)) with (q - vb) in * by lia. apply shl_any; [done..|lia|done].
  - apply shr_any; [done..|lia].
Qed.

(** A short amount. *)
Lemma shift_short_wp (r a : nat) m va s :
  repr (m (Cell a)) va -> limbs 4 (longVal (m (Cell r))) ->
  (shift_alias_safe m r a s ->
   wp (if s <? 0 then if - s >=? 254 then Fr_setzero (Cell r) else do_shr (Cell r) (Cell a) (- s)
       else if s >=? 254 then Fr_setzero (Cell r) else do_shl (Cell r) (Cell a) s)
     (fun _ => computes r (shifted va s) m) m) /\
  (shift_alias_safe m r a (- s) ->
   wp (if s <? 0 then if - s >=? 254 then Fr_setzero (Cell r) else do_shl (Cell r) (Cell a) (- s)
       else if s >=? 254 then Fr_setzero (Cell r) else do_shr (Cell r) (Cell a) s)
     (fun _ => computes r (shifted va (- s)) m) m).
Proof.
  intros Ha Hr. pose proof (repr_range _ _ Ha).
  split; intros Hal; destruct (Z.ltb_spec s 0).
  1,3: destruct (Z.geb_spec (- s) 254).
  5,6: destruct (Z.geb_spec s 254).
  all: try (apply setzero_wp; [apply shifted_big; [done|lia]|done]).
  - replace (shifted va s) with (shifted va (- - s)) by (f_equal; lia). apply shr_any; [done..|lia].
  - apply shl_any; [done..|lia|done].
  - apply shl_any; [done..|lia|done].
  - apply shr_any; [done..|lia].
Qed.

(** [Fr_shl] shifts by the signed reading of its second operand: left within
    254 bits and reduced, or right when negative, and gives zero from 254 places
    on.  In place on a long element it is right for fewer than 64 places. *)
Theorem Fr_shl_correct r a b m va vb :
  repr (m (Cell a)) va -> repr (m (Cell b)) vb -> limbs 4 (longVal (m (Cell r))) ->
  shift_alias_safe m r a (signed vb) ->
  computes r (shifted va (signed vb)) m (exec (Fr_shl (Cell r) (Cell a) (Cell b)) m).
Proof.
  intros Ha Hb Hr. intros Hal. by_wp. unfold Fr_shl. pose proof Hb.
  repr_cases Hb Ht; dispatch.
  1,3: rewrite signed_short in * by done; cbv zeta; by apply shift_short_wp.
  - by apply shift_long_wp.
  - wp_conv'. apply shift_long_wp; try done. intros. by mem_frames.
Qed.

(** [Fr_shr] shifts by the opposite amount. *)
Theorem Fr_shr_correct r a b m va vb :
  repr (m (Cell a)) va -> repr (m (Cell b)) vb -> limbs 4 (longVal (m (Cell r))) ->
  shift_alias_safe m r a (- signed vb) ->
  computes r (shifted va (- signed vb)) m (exec (Fr_shr (Cell r) (Cell a) (Cell b)) m).
Proof.
  intros Ha Hb Hr. intros Hal. by_wp. unfold Fr_shr. pose proof Hb.
  repr_cases Hb Ht; dispatch.
  1,3: rewrite signed_short in * by done; cbv zeta; by apply shift_short_wp.
  - by apply shift_long_wp.
  - wp_conv'. apply shift_long_wp; try done. intros. by mem_frames.
Qed.
End Shift.

(** ** Instances on a concrete memory *)

Section Witnesses.
#[local] Existing Instance Fr_params.

Lemma Fr_shl_correct_witness :
  computes 4 (shifted demo_long (signed 70)) demo_mem
    (exec (Fr_shl (Cell 4) (Cell 1) (Cell 5)) demo_mem).
Proof.
  apply Fr_shl_correct; [apply demo_1|apply demo_5|apply demo_4|]. intros H; discriminate H.
Defined.

Lemma Fr_shr_correct_witness :
  computes 4 (shifted demo_mont (- signed (q - 5))) demo_mem
    (exec (Fr_shr (Cell 4) (Cell 3) (Cell 0)) demo_mem).
Proof.
  apply Fr_shr_correct; [apply demo_3|apply demo_0|apply demo_4|]. intros H; discriminate H.
Defined.

(** A left shift in place by 64 places or more copies limbs over limbs it has yet to
    read. *)
Theorem Fr_shl_in_place_wrong :
  repr (demo_mem (Cell 1)) demo_long /\
  ~ computes 1 (shifted demo_long (signed 70)) demo_mem
      (exec (Fr_shl (Cell 1) (Cell 1) (Cell 5)) demo_mem).
Proof.
  split; [apply demo_1|]. intros [H _].
  assert (Ht : type (exec (Fr_shl (Cell 1) (Cell 1) (Cell 5)) demo_mem (Cell 1)) = Fr_LONG)
    by (vm_compute; reflexivity).
  apply (repr_long_eval _ _ H) in Ht. vm_compute in Ht. discriminate Ht.
Qed.
End Witnesses.
