(* ===== verification/FrMpz.v ===== *)
(** The operations of tagged elements that go through GMP integers:
    the [Fr_] functions of [build/fr.cpp] (and [build/fq.cpp]). *)

From Stdlib Require Import String.
From S2P Require Import Prelude Limbs Gmp Mpz FrRaw FrElement FrElementWp FrArith.

#[local] Open Scope c_scope.

Section Operations.
Context {P : FieldParams} {G : Mpn} {MZ : Mpz}.

(** The static [q] that [Fr_init] imports. *)
Definition q_mpz : Z := mpz_import Fr_q_longVal.

Definition Fr_toMpz (pE : loc) : cmd Z :=
  Fr_toNormal (Local mpz_tmp) pE ;;;
  t <- typeOf (Local mpz_tmp) ;;
  if negb (has t Fr_LONG) then
    s <- shortOf (Local mpz_tmp) ;;
    sret (if s <? 0 then s + q_mpz else s)
  else
    l <- longOf (Local mpz_tmp) ;; sret (mpz_import l).

Definition Fr_fromMpz (pE : loc) (v : Z) : cmd unit :=
  if mpz_fits_sint_p v then
    setType pE Fr_SHORT ;;;
    setShort pE (i32 v)
  else
    setType pE Fr_LONG ;;;
    setLong pE (export_into 4 v).

(** For base 10. *)
Definition Fr_str2element (pE : loc) (s : string) : cmd unit :=
  Fr_fromMpz pE (mpz_fdiv_r (mpz_set_str s) q_mpz).

Definition Fr_element2str (pE : loc) : cmd string :=
  t <- typeOf pE ;;
  if negb (has t Fr_LONG) then
    s <- shortOf pE ;;
    if s >=? 0 then sret (mpz_get_str s)
    else sret (mpz_get_str (s + q_mpz))
  else
    Fr_toNormal (Local mpz_tmp) pE ;;;
    l <- longOf (Local mpz_tmp) ;;
    sret (mpz_get_str (mpz_import l)).

Definition Fr_idiv (r a b : loc) : cmd unit :=
  ma <- Fr_toMpz a ;; mb <- Fr_toMpz b ;;
  Fr_fromMpz r (mpz_fdiv_q ma mb).

Definition Fr_mod (r a b : loc) : cmd unit :=
  ma <- Fr_toMpz a ;; mb <- Fr_toMpz b ;;
  Fr_fromMpz r (mpz_fdiv_r ma mb).

Definition Fr_pow (r a b : loc) : cmd unit :=
  ma <- Fr_toMpz a ;; mb <- Fr_toMpz b ;;
  Fr_fromMpz r (mpz_powm ma mb q_mpz).

Definition Fr_inv (r a : loc) : cmd unit :=
  ma <- Fr_toMpz a ;;
  Fr_fromMpz r (fst (mpz_invert ma q_mpz)).

Definition Fr_div (r a b : loc) : cmd unit :=
  Fr_inv (Local div_tmp) b ;;;
  Fr_mul r a (Local div_tmp).
End Operations.

(** ** Correctness *)

Section Correct.
Context {P : FieldParams} {OK : FieldOk P} {G : Mpn} {GL : MpnLaws G} {MZ : Mpz} {ML : MpzLaws MZ}.

Lemma q_mpz_q : q_mpz = q.
Proof.
  unfold q_mpz. rewrite q_longVal_eq, (mpz_import_spec 4) by apply q4_limbs. apply rawq_top.
Qed.

(** [m'] differs from [m] in local elements only. *)
Definition same_cells (m m' : mem) : Prop := forall n, m' (Cell n) = m (Cell n).

Lemma Fr_toMpz_wp a v m (Q : Z -> mem -> Prop) :
  repr (m a) v -> a <> Local mpz_tmp ->
  (forall m', (forall l, l <> Local mpz_tmp -> m' l = m l) -> Q v m') ->
  wp (Fr_toMpz a) Q m.
Proof.
  intros Ha Hne HQ. pose proof q_bounds.
  assert (Hshort : has (type (m a)) Fr_LONG = false -> is_i32 (shortVal (m a)) ->
    v = shortVal (m a) mod q -> (type (m a) =? Fr_LONGMONTGOMERY) = false ->
    wp (Fr_toMpz a) Q m).
  { intros Ht Hs Hv Hlm. unfold Fr_toMpz, Fr_toNormal. wp_steps. rewrite Hlm. apply Fr_copy_wp.
    wp_steps. rewrite Ht. cbn [negb]. wp_steps. rewrite q_mpz_q.
    replace (if shortVal (m a) <? 0 then shortVal (m a) + q else shortVal (m a)) with v.
    - apply HQ. intros l Hl. by apply upd_other.
    - unfold is_i32 in Hs. rewrite Hv. destruct (Z.ltb_spec (shortVal (m a)) 0).
      + symmetry. apply (Zmod_unique _ _ (-1)); lia.
      + apply Z.mod_small. lia. }
  pose proof Ha. repr_cases Ha Ht; try (apply Hshort; rewrite ?Ht; done); clear Hshort;
    unfold Fr_toMpz; apply wp_sbind; (eapply Fr_toNormal_wp; [eassumption|congruence|by rewrite Ht|]);
    intros m' Hf Hr Hty; wp_steps; rewrite Hty; eval_types; cbn [negb]; wp_steps;
    rewrite (mpz_import_spec 4) by apply Hr; rewrite (rep_eval _ _ Hr); apply HQ, Hf.
Qed.

Lemma Fr_fromMpz_wp p v m (Q : unit -> mem -> Prop) :
  0 <= v < q ->
  (forall m', same_except p m m' -> repr (m' p) v -> Q tt m') ->
  wp (Fr_fromMpz p v) Q m.
Proof.
  intros Hv HQ. pose proof q_bounds. unfold Fr_fromMpz.
  rewrite mpz_fits_sint_p_spec. destruct (Z.leb_spec (- 2 ^ 31) v), (Z.ltb_spec v (2 ^ 31));
    cbn [andb]; wp_steps; (apply HQ; [auto with words|mem_frames]).
  - rewrite i32_id by word_lia. apply repr_short; [done|cbn; word_lia|].
    symmetry. by apply Z.mod_small.
  - destruct (export_into_spec 4 v) as [Hl He]; [rewrite base_4; unfold R; lia|].
    apply repr_long; [done|]. by apply rep_intro.
  - lia.
  - lia.
Qed.

(** Both operands read, [f] of them stored. *)
Lemma via_mpz_computes (f : Z -> Z -> Z) (r a b : nat) m va vb :
  repr (m (Cell a)) va -> repr (m (Cell b)) vb -> 0 <= f va vb < q ->
  wp (ma <- Fr_toMpz (Cell a) ;; mb <- Fr_toMpz (Cell b) ;; Fr_fromMpz (Cell r) (f ma mb))
    (fun _ => computes r (f va vb) m) m.
Proof.
  intros Ha Hb Hf. apply wp_sbind. eapply Fr_toMpz_wp; [done..|]. intros m1 H1.
  apply wp_sbind. eapply Fr_toMpz_wp; [by rewrite H1|done|]. intros m2 H2.
  apply Fr_fromMpz_wp; [done|]. intros m3 H3 Hr. split; [done|].
  intros n Hn. by rewrite H3, H2, H1 by congruence.
Qed.

(** [Fr_idiv] and [Fr_mod] are the quotient and remainder of the canonical
    integers (for a divisor that is not zero), and [Fr_pow] is exponentiation
    modulo [q] with the residue of the second operand as exponent. *)
Theorem Fr_integer_ops_correct r a b m va vb :
  repr (m (Cell a)) va -> repr (m (Cell b)) vb ->
  (0 < vb ->
   computes r (va / vb) m (exec (Fr_idiv (Cell r) (Cell a) (Cell b)) m) /\
   computes r (va mod vb) m (exec (Fr_mod (Cell r) (Cell a) (Cell b)) m)) /\
  computes r (va ^ vb mod q) m (exec (Fr_pow (Cell r) (Cell a) (Cell b)) m).
Proof.
  intros Ha Hb. pose proof (repr_range _ _ Ha) as Hva. pose proof (repr_range _ _ Hb) as Hvb.
  pose proof q_pos as Hq.
  split; [intros Hpos; split|]; by_wp.
  - rewrite <- mpz_fdiv_q_spec by lia. apply (via_mpz_computes mpz_fdiv_q); [done..|].
    rewrite mpz_fdiv_q_spec by lia. split; [apply Z.div_pos; lia|].
    apply Z.div_lt_upper_bound; [done|nia].
  - rewrite <- mpz_fdiv_r_spec by lia. apply (via_mpz_computes mpz_fdiv_r); [done..|].
    rewrite mpz_fdiv_r_spec by lia. pose proof (Z.mod_pos_bound va vb Hpos). lia.
  - rewrite <- mpz_powm_spec, <- q_mpz_q by lia.
    apply (via_mpz_computes (fun x y => mpz_powm x y q_mpz)); [done..|].
    rewrite q_mpz_q, mpz_powm_spec by lia. by apply Z.mod_pos_bound.
Qed.

Lemma mpz_invert_range a : Z.gcd a q = 1 ->
  0 <= fst (mpz_invert a q_mpz) < q /\ (a * fst (mpz_invert a q_mpz)) mod q = 1.
Proof.
  intros Hg. assert (Hq1 : 1 < q) by (pose proof q_bounds; lia). rewrite q_mpz_q.
  destruct (mpz_invert a q) as [x ok] eqn:E.
  pose proof (mpz_invert_exists a q Hq1 Hg) as Hok. rewrite E in Hok. cbn [snd] in Hok. subst ok.
  apply mpz_invert_spec in E; [done|lia].
Qed.

(** When the divisor is invertible modulo [q], [Fr_inv] stores its inverse and
    [Fr_div] the product of the dividend with that inverse. *)
Theorem Fr_div_correct r a b m va vb :
  repr (m (Cell a)) va -> repr (m (Cell b)) vb -> Z.gcd vb q = 1 ->
  exists x, 0 <= x < q /\ (vb * x) mod q = 1 /\
    computes r x m (exec (Fr_inv (Cell r) (Cell b)) m) /\
    computes r ((va * x) mod q) m (exec (Fr_div (Cell r) (Cell a) (Cell b)) m).
Proof.
  intros Ha Hb Hg. destruct (mpz_invert_range vb Hg) as [Hx Hinv].
  exists (fst (mpz_invert vb q_mpz)). split; [done|]. split; [done|].
  assert (Hi : forall p, p <> Local mpz_tmp -> wp (Fr_inv p (Cell b)) (fun _ m' =>
    repr (m' p) (fst (mpz_invert vb q_mpz)) /\
    forall l, l <> p -> l <> Local mpz_tmp -> m' l = m l) m).
  { intros p Hp. unfold Fr_inv. apply wp_sbind. eapply Fr_toMpz_wp; [done..|]. intros m1 H1.
    apply Fr_fromMpz_wp; [done|]. intros m2 H2 Hr. split; [done|].
    intros l Hl Hl'. by rewrite H2, H1. }
  split; by_wp.
  - eapply wp_mono; [|by apply Hi]. intros [] m' [Hr Hf]. split; [done|].
    intros n Hn. apply Hf; congruence.
  - unfold Fr_div. apply wp_sbind. eapply wp_mono; [|by apply Hi]. intros [] m' [Hr Hf].
    eapply wp_mono; [|apply Fr_mul_stores; [rewrite Hf; done|exact Hr]].
    intros [] m2 [Hr2 Hf2]. split; [done|]. intros n Hn. rewrite Hf2 by congruence.
    apply Hf; congruence.
Qed.

(** [Fr_element2str] prints the canonical residue in decimal, whatever the
    representation, and [Fr_str2element] reads it back. *)
Theorem Fr_str_roundtrip r a m v :
  repr (m (Cell a)) v ->
  result (Fr_element2str (Cell a)) m = mpz_get_str v /\
  computes r v m (exec (Fr_str2element (Cell r) (mpz_get_str v)) m).
Proof.
  intros Ha. pose proof (repr_range _ _ Ha) as Hv. pose proof q_bounds. split.
  - change (wp (Fr_element2str (Cell a)) (fun s _ => s = mpz_get_str v) m).
    unfold Fr_element2str. pose proof Ha.
    repr_cases Ha Ht; wp_steps; rewrite Ht; eval_types; cbn [negb]; wp_steps.
    2,4: eapply Fr_toNormal_wp; [eassumption|done|by rewrite Ht|]; intros m' Hf Hl' Hty; wp_steps;
         by rewrite (mpz_import_spec 4), (rep_eval _ _ Hl') by apply Hl'.
    all: rewrite q_mpz_q; destruct (Z.geb_spec (shortVal (m (Cell a))) 0); wp_steps; f_equal;
         [symmetry; apply Z.mod_small; lia|apply (Zmod_unique _ _ (-1)); lia].
  - by_wp. unfold Fr_str2element. rewrite mpz_set_get_str, q_mpz_q, mpz_fdiv_r_spec by apply q_pos.
    rewrite Z.mod_small by done. apply Fr_fromMpz_wp; [done|]. intros m' Hf Hr.
    split; [done|]. intros n Hn. apply Hf. congruence.
Qed.
End Correct.

(** ** Instances on a concrete memory *)

Section Witnesses.
#[local] Existing Instance Fr_params.

Lemma Fr_integer_ops_correct_witness :
  (0 < 3 ->
   computes 4 (demo_mont / 3) demo_mem (exec (Fr_idiv (Cell 4) (Cell 3) (Cell 2)) demo_mem) /\
   computes 4 (demo_mont mod 3) demo_mem (exec (Fr_mod (Cell 4) (Cell 3) (Cell 2)) demo_mem)) /\
  computes 4 (demo_mont ^ 3 mod q) demo_mem (exec (Fr_pow (Cell 4) (Cell 3) (Cell 2)) demo_mem).
Proof. apply Fr_integer_ops_correct; [apply demo_3|apply demo_2]. Defined.

Lemma Fr_div_correct_witness :
  exists x, 0 <= x < q /\ (demo_mont * x) mod q = 1 /\
    computes 4 x demo_mem (exec (Fr_inv (Cell 4) (Cell 3)) demo_mem) /\
    computes 4 ((demo_long * x) mod q) demo_mem
      (exec (Fr_div (Cell 4) (Cell 1) (Cell 3)) demo_mem).
Proof. apply Fr_div_correct; [apply demo_1|apply demo_3|vm_compute; reflexivity]. Defined.

Lemma Fr_str_roundtrip_witness :
  result (Fr_element2str (Cell 0)) demo_mem = mpz_get_str (q - 5) /\
  computes 4 (q - 5) demo_mem (exec (Fr_str2element (Cell 4) (mpz_get_str (q - 5))) demo_mem).
Proof. apply Fr_str_roundtrip, demo_0. Defined.
End Witnesses.
