(* ===== verification/RawFr.v ===== *)
(** The Montgomery-only field class [RawFr] of [build/fr.cpp] and [build/fr.hpp]
    ([RawFq] is the same code with the other constants).  An [Element] is its array
    of limbs, always in Montgomery form; a method's destination is its result. *)

From Stdlib Require Import String.
From S2P Require Import Prelude Limbs Gmp Mpz FrRaw FrElement FrElementWp FrMpz.

Section Operations.
Context {P : FieldParams} {G : Mpn} {MZ : Mpz}.

Definition Element : Type := list Z.

Definition RawFr_copy (a : Element) : Element := Fr_rawCopy a.
Definition RawFr_add (a b : Element) : Element := Fr_rawAdd a b.
Definition RawFr_sub (a b : Element) : Element := Fr_rawSub a b.
Definition RawFr_mul (a b : Element) : Element := Fr_rawMMul a b.
Definition RawFr_neg (a : Element) : Element := Fr_rawNeg a.
Definition RawFr_square (a : Element) : Element := Fr_rawMSquare a.
Definition RawFr_eq (a b : Element) : bool := Fr_rawIsEq a b.
Definition RawFr_isZero (a : Element) : bool := Fr_rawIsZero a.
Definition RawFr_toMontgomery (a : Element) : Element := Fr_rawToMontgomery a.
Definition RawFr_fromMontgomery (a : Element) : Element := Fr_rawFromMontgomery a.

Definition RawFr_toMpz (a : Element) : Z := mpz_import (Fr_rawFromMontgomery a).
Definition RawFr_fromMpz (a : Z) : Element := Fr_rawToMontgomery (export_into 4 a).

Definition RawFr_set (value : Z) : Element :=
  let mr := value in
  let mr := if value <? 0 then mr + q_mpz else mr in
  Fr_rawToMontgomery (export_into 4 mr).

Definition RawFr_zero : Element := RawFr_set 0.
Definition RawFr_one : Element := RawFr_set 1.
Definition RawFr_negOne : Element := RawFr_neg RawFr_one.

Definition RawFr_fromUI (v : Z) : Element := Fr_rawToMontgomery (export_into 4 v).

(** For radix 10. *)
Definition RawFr_fromString (s : string) : Element :=
  Fr_rawToMontgomery (export_into 4 (mpz_fdiv_r (mpz_set_str s) q_mpz)).

Definition RawFr_toString (a : Element) : string :=
  mpz_get_str (mpz_import (Fr_rawFromMontgomery a)).

Definition RawFr_inv (a : Element) : Element :=
  let mr := mpz_import a in
  let mr := fst (mpz_invert mr q_mpz) in
  Fr_rawMMul (export_into 4 mr) Fr_R3_longVal.

Definition RawFr_div (a b : Element) : Element := RawFr_mul a (RawFr_inv b).

(** [BIT_IS_SET(s, p)] *)
Definition BIT_IS_SET (s : list Z) (p : Z) : bool :=
  negb (Z.land (s !!! Z.to_nat (Z.shiftr p 3)) (Z.shiftl 1 (Z.land p 7)) =? 0).

(** The loop over the bits [n - 1], ..., [0]; [None] while no one bit was found. *)
Fixpoint exp_loop (copyBase : Element) (scalar : list Z) (n : nat) (r : option Element) :
    option Element :=
  match n with
  | O => r
  | S n =>
      let set := BIT_IS_SET scalar (Z.of_nat n) in
      let r' :=
        match r with
        | None => if set then Some (RawFr_copy copyBase) else None
        | Some r =>
            let r := RawFr_square r in
            Some (if set then RawFr_mul r copyBase else r)
        end in
      exp_loop copyBase scalar n r'
  end.

Definition RawFr_exp (base : Element) (scalar : list Z) (scalarSize : nat) : Element :=
  let copyBase := RawFr_copy base in
  match exp_loop copyBase scalar (scalarSize * 8) None with
  | Some r => r
  | None => RawFr_copy RawFr_one
  end.

(** Returns the code and the buffer after the call. *)
Definition RawFr_toRprBE (element : Element) (data : list Z) (bytes : Z) : Z * list Z :=
  if bytes <? Z.of_nat Fr_N64 * 8 then (- (Z.of_nat Fr_N64 * 8), data)
  else
    let out := mpz_export_be (RawFr_toMpz element) in
    (Z.of_nat Fr_N64 * 8, out ++ drop (length out) data).

(** Returns the code and the element after the call.  [mpz_import_order0] is
    [mpz_import(r, 32, 0, 1, 0, 0, data)], whose order 0 GMP's manual does not define. *)
Definition RawFr_fromRprBE (mpz_import_order0 : list Z -> Z) (element : Element) (data : list Z) (bytes : Z) : Z * Element :=
  if bytes <? Z.of_nat Fr_N64 * 8 then (- (Z.of_nat Fr_N64 * 8), element)
  else (Z.of_nat Fr_N64 * 8, RawFr_fromMpz (mpz_import_order0 (take (Fr_N64 * 8) data))).
End Operations.

(** ** Correctness *)

(** [elem a v]: the element [a] is the residue [v]. *)
Definition elem {P : FieldParams} (a : list Z) (v : Z) : Prop := 0 <= v < q /\ rep a (mont v).

Section Correct.
Context {P : FieldParams} {OK : FieldOk P} {G : Mpn} {GL : MpnLaws G} {MZ : Mpz} {ML : MpzLaws MZ}.

Lemma elem_intro a x v : rep a x -> x mod q = (v * R) mod q -> elem a (v mod q).
Proof.
  intros Ha Hx. split; [apply Z.mod_pos_bound, q_pos|].
  eapply rep_cast; [exact Ha|]. rewrite <- (rep_mod _ _ Ha), Hx. solve_mont.
Qed.

Lemma RawFr_add_spec a b va vb :
  elem a va -> elem b vb -> elem (RawFr_add a b) ((va + vb) mod q).
Proof.
  intros [_ Ha] [_ Hb]. eapply elem_intro; [by apply Fr_rawAdd_spec|].
  rewrite Z.mod_mod by apply q_nonzero. solve_mont.
Qed.

Lemma RawFr_sub_spec a b va vb :
  elem a va -> elem b vb -> elem (RawFr_sub a b) ((va - vb) mod q).
Proof.
  intros [_ Ha] [_ Hb]. eapply elem_intro; [by apply Fr_rawSub_spec|].
  rewrite Z.mod_mod by apply q_nonzero. solve_mont.
Qed.

Lemma RawFr_mul_spec a b va vb :
  elem a va -> elem b vb -> elem (RawFr_mul a b) ((va * vb) mod q).
Proof.
  intros [_ Ha] [_ Hb]. eapply elem_intro; [by apply MMul_rep|].
  rewrite Z.mod_mod by apply q_nonzero. solve_mont.
Qed.

Lemma RawFr_neg_spec a va : elem a va -> elem (RawFr_neg a) ((- va) mod q).
Proof.
  intros [_ Ha]. eapply elem_intro; [by apply Fr_rawNeg_spec|].
  rewrite Z.mod_mod by apply q_nonzero. solve_mont.
Qed.

Lemma RawFr_square_spec a va : elem a va -> elem (RawFr_square a) ((va * va) mod q).
Proof.
  intros [_ Ha]. eapply elem_intro; [by apply Fr_rawMSquare_spec|].
  rewrite Z.mod_mod by apply q_nonzero. solve_mont.
Qed.

Lemma RawFr_copy_spec a va : elem a va -> elem (RawFr_copy a) va.
Proof. intros [Hv Ha]. split; [done|]. by apply Fr_rawCopy_spec. Qed.

Lemma elem_inj a v w : elem a v -> elem a w -> v = w.
Proof.
  intros [Hv Ha] [Hw Hb]. apply mont_inj; [done..|].
  by rewrite <- (rep_eval _ _ Ha), <- (rep_eval _ _ Hb).
Qed.

Lemma RawFr_eq_spec a b va vb : elem a va -> elem b vb -> RawFr_eq a b = (va =? vb).
Proof.
  intros [Hva Ha] [Hvb Hb]. unfold RawFr_eq. rewrite (Fr_rawIsEq_spec _ _ _ _ Ha Hb).
  destruct (Z.eqb_spec va vb) as [->|Hne]; [apply Z.eqb_refl|].
  apply Z.eqb_neq. contradict Hne. by apply mont_inj.
Qed.

(** Importing and exporting canonical numbers. *)
Lemma export_rep x : 0 <= x < q -> rep (export_into 4 x) x.
Proof.
  intros Hx. destruct (export_into_spec 4 x) as [Hl He].
  - rewrite base_4. pose proof two_q_R. lia.
  - by apply rep_intro.
Qed.

Lemma fromMpz_spec x : 0 <= x < q -> elem (RawFr_fromMpz x) x.
Proof.
  intros Hx. split; [done|]. unfold RawFr_fromMpz, mont. by apply Fr_rawToMontgomery_spec, export_rep.
Qed.

Lemma toMpz_spec a v : elem a v -> RawFr_toMpz a = v.
Proof.
  intros [Hv Ha]. pose proof (from_mont _ _ Ha Hv) as H. unfold RawFr_toMpz.
  rewrite (mpz_import_spec 4) by apply H. by apply rep_eval.
Qed.

Lemma RawFr_set_spec value : is_i32 value -> elem (RawFr_set value) (value mod q).
Proof.
  intros Hv. pose proof q_bounds. unfold is_i32 in Hv. unfold RawFr_set. rewrite q_mpz_q. cbv zeta.
  destruct (Z.ltb_spec value 0).
  - replace (value mod q) with (value + q) by (apply (Zmod_unique _ _ (-1)); lia).
    apply fromMpz_spec. lia.
  - rewrite Z.mod_small by lia. apply fromMpz_spec. lia.
Qed.

Lemma RawFr_one_spec : elem RawFr_one 1.
Proof.
  pose proof q_bounds. pose proof (RawFr_set_spec 1) as H1.
  rewrite Z.mod_small in H1 by lia. apply H1. unfold is_i32. lia.
Qed.

Lemma gcd_of_inverse x y : (x * y) mod q = 1 -> Z.gcd x q = 1.
Proof.
  intros H. apply Z.bezout_1_gcd. exists y, (- ((x * y) / q)).
  pose proof (Z.div_mod (x * y) q q_nonzero). lia.
Qed.

Lemma mod_1 : 1 mod q = 1.
Proof. pose proof q_bounds. apply Z.mod_small. lia. Qed.

Lemma mont_coprime v : Z.gcd v q = 1 -> Z.gcd (mont v) q = 1.
Proof.
  intros Hg. destruct (mpz_invert_range v Hg) as [_ Hy].
  set (y := fst (mpz_invert v q_mpz)) in *. apply (gcd_of_inverse _ (y * Rinv)).
  rewrite <- Hy. solve_mont.
Qed.

Lemma RawFr_inv_spec a v :
  elem a v -> Z.gcd v q = 1 -> exists x, (v * x) mod q = 1 /\ elem (RawFr_inv a) x.
Proof.
  intros [Hv Ha] Hg. unfold RawFr_inv. cbv zeta.
  rewrite (mpz_import_spec 4), (rep_eval _ _ Ha) by apply Ha.
  destruct (mpz_invert_range _ (mont_coprime _ Hg)) as [Hu Hinv].
  set (u := fst (mpz_invert (mont v) q_mpz)) in *. exists ((u * R) mod q). split.
  - rewrite <- Hinv. solve_mont.
  - eapply elem_intro; [apply MMul_rep; [by apply export_rep|apply R3_rep]|].
    rewrite Z.mod_mod by apply q_nonzero. solve_mont.
Qed.

(** C33: The ring operations, [inv] and [div] of the class compute those of the field
    on Montgomery elements, and comparison decides equality of residues. *)
Theorem RawFr_ops_correct a b va vb :
  elem a va -> elem b vb ->
  elem (RawFr_add a b) ((va + vb) mod q) /\ elem (RawFr_sub a b) ((va - vb) mod q) /\
  elem (RawFr_mul a b) ((va * vb) mod q) /\ elem (RawFr_neg a) ((- va) mod q) /\
  elem (RawFr_square a) ((va * va) mod q) /\ RawFr_eq a b = (va =? vb) /\
  (Z.gcd vb q = 1 -> exists x, (vb * x) mod q = 1 /\ elem (RawFr_inv b) x /\
     elem (RawFr_div a b) ((va * x) mod q)).
Proof.
  intros Ha Hb. split; [by apply RawFr_add_spec|]. split; [by apply RawFr_sub_spec|].
  split; [by apply RawFr_mul_spec|]. split; [by apply RawFr_neg_spec|].
  split; [by apply RawFr_square_spec|]. split; [by apply RawFr_eq_spec|].
  intros Hg. destruct (RawFr_inv_spec b vb Hb Hg) as (x & Hx & Hi).
  exists x. split; [done|]. split; [done|]. by apply RawFr_mul_spec.
Qed.

(** *** Exponentiation *)

Lemma BIT_IS_SET_testbit s p :
  Forall is_byte s -> 0 <= p < 8 * Z.of_nat (length s) ->
  BIT_IS_SET s p = Z.testbit (le_value s) p.
Proof.
  unfold BIT_IS_SET. intros Hs. revert p. induction Hs as [|b s Hb Hs IH]; intros p Hp;
    cbn [length] in Hp; [lia|].
  rewrite Z.shiftr_div_pow2 by lia. change 7 with (Z.ones 3). rewrite Z.land_ones by lia.
  change (2 ^ 3) with 8. cbn [le_value]. unfold is_byte in Hb.
  assert (Hbit : forall x i, 0 <= i -> negb (Z.land x (Z.shiftl 1 i) =? 0) = Z.testbit x i).
  { intros x i Hi. rewrite Z.shiftl_1_l. destruct (Z.testbit x i) eqn:E.
    - apply negb_true_iff, Z.eqb_neq. intros H. apply (f_equal (fun z => Z.testbit z i)) in H.
      rewrite Z.land_spec, Z.pow2_bits_true, E, Z.bits_0 in H by lia. done.
    - apply negb_false_iff, Z.eqb_eq. apply Z.bits_inj'. intros j Hj.
      rewrite Z.land_spec, Z.bits_0, Z.pow2_bits_eqb by lia.
      destruct (Z.eqb_spec i j) as [<-|]; [by rewrite E|by rewrite andb_false_r]. }
  destruct (Z.lt_ge_cases p 8) as [Hlt|Hge].
  - rewrite (Z.div_small p 8), (Z.mod_small p 8) by lia. cbn [lookup_total list_lookup_total Z.to_nat].
    rewrite Hbit by lia.
    rewrite <- (Z.mod_pow2_bits_low (b + _) 8) by lia.
    rewrite Z.mul_comm, Z.mod_add, Z.mod_small by lia. done.
  - specialize (IH (p - 8) ltac:(lia)). rewrite Z.shiftr_div_pow2 in IH by lia.
    change 7 with (Z.ones 3) in IH. rewrite Z.land_ones in IH by lia. change (2 ^ 3) with 8 in IH.
    assert (Hdiv : Z.to_nat (p / 8) = S (Z.to_nat ((p - 8) / 8))).
    { replace p with (1 * 8 + (p - 8)) at 1 by lia. rewrite Z.div_add_l by lia.
      rewrite Z2Nat.inj_add by (lia || apply Z.div_pos; lia). done. }
    replace (p mod 8) with ((p - 8) mod 8)
      by (replace p with (p - 8 + 1 * 8) at 2 by lia; by rewrite Z.mod_add).
    rewrite Hdiv. change ((b :: s) !!! S ?n) with (s !!! n).
    rewrite IH. replace (Z.testbit (b + 2 ^ 8 * le_value s) p)
      with (Z.testbit (b + 2 ^ 8 * le_value s) (p - 8 + 8)) by (f_equal; lia).
    rewrite <- Z.div_pow2_bits by lia. f_equal.
    rewrite Z.mul_comm, Z.div_add, (Z.div_small b) by lia. lia.
Qed.

(** The bits of [scalar] from [n] up, as a number. *)
Lemma exp_bits_step x n :
  0 <= n -> x / 2 ^ n = 2 * (x / 2 ^ (n + 1)) + Z.b2z (Z.testbit x n).
Proof.
  intros Hn. rewrite Z.testbit_spec' by done.
  rewrite Z.pow_add_r, Z.pow_1_r, <- Z.div_div by (lia || apply Z.pow_nonzero; lia).
  apply Z.div_mod. lia.
Qed.

(** The accumulator after the bits from [n] up. *)
Definition exp_inv (v : Z) (e : Z) (r : option (list Z)) : Prop :=
  match r with
  | None => e = 0
  | Some r => 0 < e /\ elem r (v ^ e mod q)
  end.

Lemma exp_loop_spec base v scalar : elem base v -> Forall is_byte scalar -> forall n r,
  (n <= 8 * length scalar)%nat ->
  exp_inv v (le_value scalar / 2 ^ Z.of_nat n) r ->
  exp_inv v (le_value scalar) (exp_loop base scalar n r).
Proof.
  intros Hb Hs n. induction n as [|n IH]; intros r Hn Hr; cbn [exp_loop].
  - by rewrite Z.pow_0_r, Z.div_1_r in Hr.
  - apply IH; [lia|]. clear IH. rewrite BIT_IS_SET_testbit by (done || lia).
    rewrite exp_bits_step by lia. replace (Z.of_nat n + 1) with (Z.of_nat (S n)) by lia.
    set (h := le_value scalar / 2 ^ Z.of_nat (S n)) in *.
    pose proof (Z.mod_small v q (proj1 Hb)) as Hv.
    destruct r as [r|]; cbn [exp_inv] in Hr.
    + destruct Hr as [Hh Hr]. pose proof (RawFr_square_spec _ _ Hr) as Hsq.
      destruct (Z.testbit _ _); cbn [exp_inv Z.b2z]; (split; [lia|]).
      * pose proof (RawFr_mul_spec _ _ _ _ Hsq Hb) as Hm.
        replace (v ^ (2 * h + 1) mod q) with ((v ^ h mod q * (v ^ h mod q)) mod q * v mod q); [done|].
        rewrite Z.pow_add_r, Z.pow_1_r, Z.pow_mul_r, Z.pow_2_r, Z.pow_mul_l by lia.
        strip_mods. done.
      * replace (v ^ (2 * h + 0) mod q) with ((v ^ h mod q * (v ^ h mod q)) mod q); [done|].
        rewrite Z.add_0_r, Z.pow_mul_r, Z.pow_2_r, Z.pow_mul_l by lia. strip_mods. done.
    + rewrite Hr. destruct (Z.testbit _ _); cbn [exp_inv Z.b2z Z.mul Z.add]; [|done].
      split; [lia|]. rewrite Z.pow_1_r, Hv. by apply RawFr_copy_spec.
Qed.

Lemma RawFr_exp_spec base v scalar :
  elem base v -> Forall is_byte scalar ->
  elem (RawFr_exp base scalar (length scalar)) (v ^ le_value scalar mod q).
Proof.
  intros Hb Hs. pose proof (le_value_range _ Hs) as Hr. unfold RawFr_exp. cbv zeta.
  pose proof (exp_loop_spec _ _ scalar (RawFr_copy_spec _ _ Hb) Hs (length scalar * 8) None ltac:(lia)) as H.
  cbn [exp_inv] in H. specialize (H ltac:(apply Z.div_small; split; [lia|];
    eapply Z.lt_le_trans; [exact (proj2 Hr)|]; apply Z.pow_le_mono_r; lia)).
  destruct (exp_loop _ _ _ _) as [r|]; cbn [exp_inv] in H; [by destruct H|].
  rewrite H, Z.pow_0_r, mod_1. apply RawFr_copy_spec, RawFr_one_spec.
Qed.

(** [exp] with a little-endian scalar of any length is exponentiation in the
    field, zero scalars included. *)
Theorem RawFr_exp_correct base v scalar :
  elem base v -> Forall is_byte scalar ->
  elem (RawFr_exp base scalar (length scalar)) (v ^ le_value scalar mod q).
Proof. apply RawFr_exp_spec. Qed.

(** *** Conversions *)

(** Conversion to and from integers and decimal strings are inverse of each
    other, and [set] takes a signed [int] to its residue. *)
Theorem RawFr_conversions a v s :
  elem a v -> is_i32 s ->
  RawFr_toMpz a = v /\ RawFr_fromMpz v = a /\ RawFr_toString a = mpz_get_str v /\
  RawFr_fromString (RawFr_toString a) = a /\ elem (RawFr_set s) (s mod q).
Proof.
  intros Ha Hs. pose proof Ha as [Hv Hr]. pose proof q_pos.
  assert (Hf : RawFr_fromMpz v = a).
  { destruct (fromMpz_spec v Hv) as [_ H']. by apply (rep_inj _ _ _ H' Hr). }
  assert (Ht : RawFr_toString a = mpz_get_str v).
  { unfold RawFr_toString. change (mpz_import _) with (RawFr_toMpz a). by rewrite (toMpz_spec a v). }
  split; [by apply toMpz_spec|]. split; [done|]. split; [done|]. split; [|by apply RawFr_set_spec].
  rewrite Ht. unfold RawFr_fromString.
  rewrite mpz_set_get_str, q_mpz_q, mpz_fdiv_r_spec, Z.mod_small by lia. exact Hf.
Qed.

(** [fromRprBE] refuses a short buffer and leaves the element alone; else it makes the
    element of the number GMP reads, when that is a residue. *)
Lemma RawFr_fromRprBE_spec imp e data bytes :
  (bytes < 32 -> RawFr_fromRprBE imp e data bytes = (-32, e)) /\
  (32 <= bytes -> 0 <= imp (take 32 data) < q ->
   fst (RawFr_fromRprBE imp e data bytes) = 32 /\ elem (snd (RawFr_fromRprBE imp e data bytes)) (imp (take 32 data))).
Proof.
  unfold RawFr_fromRprBE. change (Z.of_nat Fr_N64 * 8) with 32. change (Fr_N64 * 8)%nat with 32%nat.
  split; intros Hb; destruct (Z.ltb_spec bytes 32); try lia; [done|]. intros Hv. split; [done|]. by apply fromMpz_spec.
Qed.

(** [toRprBE] refuses a short buffer, writes the 32 big-endian bytes of a residue
    that needs four limbs, and writes only 8 bytes for one that fits one limb,
    leaving the rest of the buffer as it was. *)
Theorem RawFr_toRprBE_correct a v data bytes :
  elem a v ->
  (bytes < 32 -> RawFr_toRprBE a data bytes = (-32, data)) /\
  (32 <= bytes -> 2 ^ 192 <= v -> length data = 32%nat ->
   RawFr_toRprBE a data bytes = (32, rev (le_bytes 32 v))) /\
  (32 <= bytes -> 0 < v < 2 ^ 64 ->
   RawFr_toRprBE a data bytes = (32, rev (le_bytes 8 v) ++ drop 8 data)).
Proof.
  intros Ha. pose proof Ha as [Hv _]. pose proof q_bounds. unfold RawFr_toRprBE.
  rewrite (toMpz_spec a v), mpz_export_be_spec by (done || lia).
  change (Z.of_nat Fr_N64 * 8) with 32. cbv zeta.
  destruct (mpz_export_spec v) as (n & Hl & He & Hmin); [lia|].
  rewrite length_rev, le_bytes_length, (limbs_length _ _ Hl).
  pose proof (eval_range _ _ Hl) as Hr. rewrite He in Hr.
  split; [|split]; intros Hb; destruct (Z.ltb_spec bytes 32); try lia; [done| |].
  - intros Hbig Hd. assert (n = 4%nat) as ->.
    { pose proof (Hmin 4%nat ltac:(rewrite base_4; unfold R; lia)).
      destruct (decide (n <= 3)%nat); [|lia].
      assert (base n <= 2 ^ 192) by (unfold base; apply Z.pow_le_mono_r; lia). lia. }
    change (8 * 4)%nat with 32%nat. by rewrite drop_ge, app_nil_r by lia.
  - intros Hsmall. assert (n = 1%nat) as ->; [|done].
    pose proof (Hmin 1%nat ltac:(unfold base; cbn; lia)).
    destruct n as [|[|]]; [unfold base in Hr; cbn in Hr; lia|done|lia].
Qed.
End Correct.

(** ** Instances *)

Section Witnesses.
#[local] Existing Instance Fr_params.

Definition demo_elem : list Z := of_Z 4 (mont 1000).

Lemma demo_elem_ok : elem demo_elem 1000.
Proof.
  split; [split; [lia|vm_compute; reflexivity]|]. apply rep_of_Z, mont_range.
Qed.

Lemma demo_3_elem : elem (of_Z 4 (mont demo_mont)) demo_mont.
Proof.
  split; [split; [vm_compute; discriminate|vm_compute; reflexivity]|].
  apply rep_of_Z, mont_range.
Qed.

Lemma RawFr_ops_correct_witness :
  let a := demo_elem in let b := of_Z 4 (mont demo_mont) in
  elem (RawFr_add a b) ((1000 + demo_mont) mod q) /\ elem (RawFr_sub a b) ((1000 - demo_mont) mod q) /\
  elem (RawFr_mul a b) ((1000 * demo_mont) mod q) /\ elem (RawFr_neg a) ((- 1000) mod q) /\
  elem (RawFr_square a) ((1000 * 1000) mod q) /\ RawFr_eq a b = (1000 =? demo_mont) /\
  (Z.gcd demo_mont q = 1 -> exists x, (demo_mont * x) mod q = 1 /\ elem (RawFr_inv b) x /\
     elem (RawFr_div a b) ((1000 * x) mod q)).
Proof. apply RawFr_ops_correct; [apply demo_elem_ok|apply demo_3_elem]. Defined.

Lemma RawFr_exp_correct_witness :
  elem (RawFr_exp demo_elem [5; 1] (length [5; 1])) (1000 ^ le_value [5; 1] mod q).
Proof.
  apply RawFr_exp_correct; [apply demo_elem_ok|].
  repeat (apply Forall_cons_2; [split; [discriminate|reflexivity]|]). apply Forall_nil_2.
Defined.

Lemma RawFr_conversions_witness :
  RawFr_toMpz demo_elem = 1000 /\ RawFr_fromMpz 1000 = demo_elem /\
  RawFr_toString demo_elem = mpz_get_str 1000 /\
  RawFr_fromString (RawFr_toString demo_elem) = demo_elem /\
  elem (RawFr_set (-7)) ((-7) mod q).
Proof. apply RawFr_conversions; [apply demo_elem_ok|split; [discriminate|reflexivity]]. Defined.

Lemma RawFr_toRprBE_correct_witness :
  let data := replicate 32 255 in
  (40 < 32 -> RawFr_toRprBE demo_elem data 40 = (-32, data)) /\
  (32 <= 40 -> 2 ^ 192 <= 1000 -> length data = 32%nat ->
   RawFr_toRprBE demo_elem data 40 = (32, rev (le_bytes 32 1000))) /\
  (32 <= 40 -> 0 < 1000 < 2 ^ 64 ->
   RawFr_toRprBE demo_elem data 40 = (32, rev (le_bytes 8 1000) ++ drop 8 data)).
Proof. apply RawFr_toRprBE_correct, demo_elem_ok. Defined.
End Witnesses.
