(* ===== verification/FileLoader.v ===== *)
(** The class [FileLoader] of [src/fileloader.cpp] and [fileloader.hpp]: the system calls of
    an object from its constructor to its destructor.  What the system answers is a
    parameter; a member that was never assigned is [None]. *)

From Stdlib Require Import String.
From S2P Require Import Prelude.

(** What the system calls return: [-1] for a failure of [open] and [fstat], the size of the
    file else for [fstat]; [MAP_FAILED] for a failure of [mmap]. *)
Record Sys := mkSys { sys_open : Z; sys_fstat : option Z; sys_mmap : Z }.
Definition MAP_FAILED : Z := 2 ^ 64 - 1.

Inductive syscall :=
| SysOpen
| SysFstat (fd : Z)
| SysMmap (size fd : Z)
| SysMadvise (addr size : Z)
| SysMunmap (addr size : option Z)
| SysClose (fd : Z).

Inductive load_error := invalid_argument (what : string) | system_error (what : string).

(** The members of the class. *)
Record FileLoader := mkFileLoader { addr : option Z; fsize : option Z; fd : Z }.

(** [FileLoader()] *)
Definition FileLoader_default : FileLoader := mkFileLoader None None (-1).

(** [load]: the object it leaves, the calls it makes and its exception. *)
Definition FileLoader_load (S : Sys) (f : FileLoader) : FileLoader * list syscall * option load_error :=
  if negb (fd f =? -1) then (f, [], Some (invalid_argument "file already loaded"))
  else
    let f := mkFileLoader (addr f) (fsize f) (sys_open S) in
    if fd f =? -1 then (f, [SysOpen], Some (system_error "open"))
    else
      match sys_fstat S with
      | None => (f, [SysOpen; SysFstat (fd f); SysClose (fd f)], Some (system_error "fstat"))
      | Some st_size =>
          let f := mkFileLoader (Some (sys_mmap S)) (Some st_size) (fd f) in
          let calls := [SysOpen; SysFstat (fd f); SysMmap st_size (fd f)] in
          if sys_mmap S =? MAP_FAILED then (f, calls ++ [SysClose (fd f)], Some (system_error "mmap failed"))
          else (f, calls ++ [SysMadvise (sys_mmap S) st_size], None)
      end.

(** [~FileLoader()] *)
Definition FileLoader_destroy (f : FileLoader) : list syscall :=
  if negb (fd f =? -1) then [SysMunmap (addr f) (fsize f); SysClose (fd f)] else [].

(** An object made with a file name, to the end of its life: its constructor throws, and
    then there is no object to destroy, or it is used and destroyed. *)
Definition named_life (S : Sys) : list syscall * option load_error :=
  let '(f, calls, e) := FileLoader_load S FileLoader_default in
  match e with Some _ => (calls, e) | None => (calls ++ FileLoader_destroy f, None) end.

(** An object made without a name that [load] is called on: it is destroyed in any case. *)
Definition default_life (S : Sys) : list syscall * option load_error :=
  let '(f, calls, e) := FileLoader_load S FileLoader_default in (calls ++ FileLoader_destroy f, e).

(** ** What is released *)

Definition closes (fd : Z) (calls : list syscall) : nat :=
  length (List.filter (fun c => match c with SysClose fd' => fd' =? fd | _ => false end) calls).

(** What is unmapped: every argument of [munmap]. *)
Definition unmaps (calls : list syscall) : list (option Z * option Z) :=
  flat_map (fun c => match c with SysMunmap a n => [(a, n)] | _ => [] end) calls.

(** The mapping the system made, if it made one. *)
Definition mapped (S : Sys) : list (option Z * option Z) :=
  match sys_open S =? -1, sys_fstat S with
  | false, Some n => if sys_mmap S =? MAP_FAILED then [] else [(Some (sys_mmap S), Some n)]
  | _, _ => []
  end.

Ltac life S Ho :=
  unfold named_life, default_life, FileLoader_load, mapped, FileLoader_default; cbn [fd addr fsize Z.eqb negb];
  rewrite !(proj2 (Z.eqb_neq (sys_open S) (-1)) Ho); destruct (sys_fstat S) as [n|]; [destruct (sys_mmap S =? MAP_FAILED)|];
  unfold closes, unmaps, FileLoader_destroy; cbn -[Z.eqb]; rewrite ?(proj2 (Z.eqb_neq (sys_open S) (-1)) Ho); cbn -[Z.eqb];
  rewrite ?Z.eqb_refl; cbn -[Z.eqb].

(** An object with a name gives back what it was given, once. *)
Lemma named_life_balanced S : sys_open S <> -1 ->
  closes (sys_open S) (fst (named_life S)) = 1%nat /\ unmaps (fst (named_life S)) = mapped S /\
  (snd (named_life S) = None <-> mapped S <> []).
Proof. intros Ho. life S Ho; (split; [done|]); (split; [done|]); split; done. Qed.

(** An object without a name does so when [load] succeeds; else it closes the descriptor
    twice, and unmaps what it never mapped. *)
Lemma default_life_releases S : sys_open S <> -1 ->
  (mapped S <> [] -> closes (sys_open S) (fst (default_life S)) = 1%nat /\ unmaps (fst (default_life S)) = mapped S /\
    snd (default_life S) = None) /\
  (mapped S = [] -> closes (sys_open S) (fst (default_life S)) = 2%nat /\ unmaps (fst (default_life S)) <> mapped S /\
    snd (default_life S) <> None).
Proof. intros Ho. life S Ho; split; intros E; done. Qed.

(** C37: An object made with a file name closes its descriptor once and unmaps what it mapped,
    whatever system call fails, and its constructor throws unless the file is mapped.  An
    object [load] is called on does so when the load succeeds; when [fstat] or [mmap] fails (for
    an empty file [mmap] does), the error is thrown as well, but the destructor closes the
    descriptor that [load] has closed, and unmaps addresses it never got. *)
Theorem FileLoader_releases S : sys_open S <> -1 ->
  (closes (sys_open S) (fst (named_life S)) = 1%nat /\ unmaps (fst (named_life S)) = mapped S /\
   (snd (named_life S) = None <-> mapped S <> [])) /\
  (mapped S <> [] -> closes (sys_open S) (fst (default_life S)) = 1%nat /\ unmaps (fst (default_life S)) = mapped S /\
    snd (default_life S) = None) /\
  (mapped S = [] -> closes (sys_open S) (fst (default_life S)) = 2%nat /\ unmaps (fst (default_life S)) <> mapped S /\
    snd (default_life S) <> None).
Proof.
  intros Ho. split; [by apply named_life_balanced|by apply default_life_releases].
Qed.

(** A file that [mmap] refuses. *)
Lemma FileLoader_releases_witness : let S := mkSys 3 (Some 0) MAP_FAILED in
  fst (default_life S) = [SysOpen; SysFstat 3; SysMmap 0 3; SysClose 3; SysMunmap (Some MAP_FAILED) (Some 0); SysClose 3] /\
  closes 3 (fst (default_life S)) = 2%nat.
Proof.
  split; [reflexivity|].
  destruct (FileLoader_releases (mkSys 3 (Some 0) MAP_FAILED) ltac:(discriminate)) as (_ & _ & H). exact (proj1 (H eq_refl)).
Defined.
