(* ===== verification/BinFile.v ===== *)
(** The reader of the binary container format of [.zkey] and [.wtns] files:
    [src/binfile_utils.cpp] and [src/binfile_utils.hpp].

    A file is four type bytes, a version, a number of sections, and the sections,
    each a type, a size and that many bytes.  The reader keeps a cursor into the
    mapped file and, per section type, the list of sections of that type in file
    order.  A pointer into the file is its offset from [addr]; offsets are 64-bit
    and wrap.  An access outside the mapped bytes is [Undefined]. *)

From stdpp Require Import gmap.
From S2P Require Import Prelude Limbs Mpz.

(** ** Results *)

(** The exceptions of this layer, with what their messages say. *)
Inductive file_error :=
| FileTooShort
| InvalidFileType (expected found : list Z)
| InvalidVersion (maxVersion version : Z)
| TooShortForSections (nSections : Z)
| SectionInvalid (i pos size : Z)
| SectionDoesNotExist (sectionId : Z)
| SectionPosTooBig (count sectionPos : Z)
| AlreadyReading
| InvalidSectionSize
| FilePosTooBig (size new_pos : Z)
| NotGroth16.

(** The C++ class of an exception. *)
Inductive exn_class := range_error | invalid_argument.

Definition error_class (e : file_error) : exn_class :=
  match e with
  | InvalidFileType _ _ | InvalidVersion _ _ | NotGroth16 => invalid_argument
  | _ => range_error
  end.

Inductive outcome (A : Type) :=
| Val (a : A)
| Throw (e : file_error)
| Undefined.
Arguments Val {A} a.
Arguments Throw {A} e.
Arguments Undefined {A}.

(** ** State *)

Record FileSection := mkSection { start : Z; ssize : Z }.

Record BinFile := mkBinFile {
  data : list Z;
  size : Z;
  pos : Z;
  sections : gmap Z (list FileSection);
  ftype : list Z;
  version : Z;
  readingSection : option FileSection
}.

Definition M (A : Type) : Type := State BinFile (outcome A).

Definition mret {A} (a : A) : M A := sret (Val a).
Definition mbind {A B} (m : M A) (k : A -> M B) : M B := fun s =>
  match m s with
  | (s', Val a) => k a s'
  | (s', Throw e) => (s', Throw e)
  | (s', Undefined) => (s', Undefined)
  end.
Definition throw {A} (e : file_error) : M A := sret (Throw e).
Definition undefined {A} : M A := sret Undefined.
Definition gets {A} (f : BinFile -> A) : M A := fun s => (s, Val (f s)).
Definition modify (f : BinFile -> BinFile) : M unit := fun s => (f s, Val tt).

Declare Scope file_scope.
Delimit Scope file_scope with file.
Notation "x <- e ;; k" := (mbind e (fun x => k))
  (at level 60, e at next level, right associativity, only parsing) : file_scope.
Notation "e ;;; k" := (mbind e (fun _ => k))
  (at level 60, right associativity, only parsing) : file_scope.
#[local] Open Scope file_scope.

Definition set_pos (p : Z) (f : BinFile) : BinFile :=
  mkBinFile (data f) (size f) p (sections f) (ftype f) (version f) (readingSection f).
Definition set_sections (s : gmap Z (list FileSection)) (f : BinFile) : BinFile :=
  mkBinFile (data f) (size f) (pos f) s (ftype f) (version f) (readingSection f).
Definition set_type (t : list Z) (f : BinFile) : BinFile :=
  mkBinFile (data f) (size f) (pos f) (sections f) t (version f) (readingSection f).
Definition set_version (v : Z) (f : BinFile) : BinFile :=
  mkBinFile (data f) (size f) (pos f) (sections f) (ftype f) v (readingSection f).
Definition set_reading (r : option FileSection) (f : BinFile) : BinFile :=
  mkBinFile (data f) (size f) (pos f) (sections f) (ftype f) (version f) r.

(** ** Reading memory *)

(** The [n] bytes at offset [p], when they are all inside the file. *)
Definition bytes_at (d : list Z) (p : Z) (n : nat) : option (list Z) :=
  if (0 <=? p) && (p + Z.of_nat n <=? Z.of_nat (length d))
  then Some (take n (drop (Z.to_nat p) d)) else None.

(** [*((T * )((u_int64_t)addr + pos))] for an [n]-byte [T] on a little-endian host. *)
Definition load (n : nat) (p : Z) : M Z :=
  d <- gets data ;;
  match bytes_at d p n with
  | Some bs => mret (le_value bs)
  | None => undefined
  end.

Definition readU32LE : M Z :=
  p <- gets pos ;; sz <- gets size ;;
  let new_pos := u64 (p + 4) in
  if new_pos >? sz then throw (FilePosTooBig sz new_pos)
  else res <- load 4 p ;; modify (set_pos new_pos) ;;; mret res.

Definition readU64LE : M Z :=
  p <- gets pos ;; sz <- gets size ;;
  let new_pos := u64 (p + 8) in
  if new_pos >? sz then throw (FilePosTooBig sz new_pos)
  else res <- load 8 p ;; modify (set_pos new_pos) ;;; mret res.

(** Returns the pointer; nothing is accessed. *)
Definition read (len : Z) : M Z :=
  p <- gets pos ;; sz <- gets size ;;
  let new_pos := u64 (p + len) in
  if new_pos >? sz then throw (FilePosTooBig sz new_pos)
  else modify (set_pos new_pos) ;;; mret p.

(** ** Parsing the section table *)

Definition headerSize : Z := 12.
Definition minSectionSize : Z := 12.

(** [sections[sType].push_back(s)]; the keys are [int]s. *)
Definition push_section (sType : Z) (s : FileSection) (m : gmap Z (list FileSection)) :
    gmap Z (list FileSection) :=
  <[i32 sType := default [] (m !! i32 sType) ++ [s]]> m.

(** The loop over the sections [i], [i + 1], ..., [n] of them. *)
Fixpoint readSections (n : nat) (i : Z) : M unit :=
  match n with
  | O => mret tt
  | S n =>
      sType <- readU32LE ;;
      sSize <- readU64LE ;;
      p <- gets pos ;; secs <- gets sections ;;
      modify (set_sections (push_section sType (mkSection p sSize) secs)) ;;;
      modify (set_pos (u64 (p + sSize))) ;;;
      p' <- gets pos ;; sz <- gets size ;;
      if p' >? sz then throw (SectionInvalid i p' sz)
      else readSections n (i + 1)
  end.

Definition readFileData (_type : list Z) (maxVersion : Z) : M unit :=
  sz <- gets size ;;
  if sz <? headerSize then throw FileTooShort
  else
    d <- gets data ;;
    match bytes_at d 0 4 with
    | None => undefined
    | Some t =>
        modify (set_type t) ;;;
        modify (set_pos 4) ;;;
        if negb (bool_decide (t = _type)) then throw (InvalidFileType _type t)
        else
          v <- readU32LE ;;
          modify (set_version v) ;;;
          if v >? maxVersion then throw (InvalidVersion maxVersion v)
          else
            nSections <- readU32LE ;;
            if sz <? u64 (headerSize + nSections * minSectionSize)
            then throw (TooShortForSections nSections)
            else
              readSections (Z.to_nat nSections) 0 ;;;
              modify (set_pos 0) ;;;
              modify (set_reading None)
    end.

(** The constructor from a buffer: the fields a constructor leaves
    uninitialised are given as they are. *)
Definition openBinFile (fileData : list Z) (_type : list Z) (maxVersion : Z) : BinFile * outcome unit :=
  readFileData _type maxVersion
    (mkBinFile fileData (Z.of_nat (length fileData)) 0 ∅ [] 0 None).

(** ** Access to sections *)

Definition lookup_section (sectionId sectionPos : Z) : M FileSection :=
  secs <- gets sections ;;
  match secs !! i32 sectionId with
  | None => throw (SectionDoesNotExist sectionId)
  | Some l =>
      match l !! Z.to_nat sectionPos with
      | None => throw (SectionPosTooBig (Z.of_nat (length l)) sectionPos)
      | Some s => mret s
      end
  end.

Definition startReadSection (sectionId sectionPos : Z) : M unit :=
  s <- lookup_section sectionId sectionPos ;;
  r <- gets readingSection ;;
  match r with
  | Some _ => throw AlreadyReading
  | None =>
      modify (set_pos (start s)) ;;;
      modify (set_reading (Some s))
  end.

Definition endReadSection (check : bool) : M unit :=
  (if check then
     p <- gets pos ;; r <- gets readingSection ;;
     match r with
     | None => undefined
     | Some s => if negb (u64 (p - start s) =? ssize s) then throw InvalidSectionSize else mret tt
     end
   else mret tt) ;;;
  modify (set_reading None).

Definition getSectionData (sectionId sectionPos : Z) : M Z :=
  s <- lookup_section sectionId sectionPos ;; mret (start s).

Definition getSectionSize (sectionId sectionPos : Z) : M Z :=
  s <- lookup_section sectionId sectionPos ;; mret (ssize s).
