(* ===== verification/BinFileSpec.v ===== *)
(** What the container reader promises: it never reads outside the file, the
    table it builds, and that it inverts an encoder of the format. *)

From stdpp Require Import gmap.
From S2P Require Import Prelude Limbs Mpz BinFile.

(** ** Running the reader *)

(** [ok m Q s]: [m] touches no memory outside the file, and if it returns
    normally then [Q] holds. *)
Definition ok {A} (m : M A) (Q : A -> BinFile -> Prop) (s : BinFile) : Prop :=
  match m s with
  | (s', Val a) => Q a s'
  | (_, Throw _) => True
  | (_, Undefined) => False
  end.

Section Ok.
Context {A B : Type}.

Lemma ok_bind (m : M A) (k : A -> M B) Q s :
  ok m (fun a => ok (k a) Q) s -> ok (mbind m k) Q s.
Proof. unfold ok, mbind. by destruct (m s) as [? []]. Qed.

Lemma ok_ret (a : A) Q s : Q a s -> ok (mret a) Q s.
Proof. done. Qed.

Lemma ok_gets (f : BinFile -> A) (Q : A -> BinFile -> Prop) s : Q (f s) s -> ok (gets f) Q s.
Proof. done. Qed.

Lemma ok_throw e Q s : ok (throw e : M A) Q s.
Proof. done. Qed.

Lemma ok_mono (m : M A) (Q Q' : A -> BinFile -> Prop) s :
  (forall a s', Q a s' -> Q' a s') -> ok m Q s -> ok m Q' s.
Proof. unfold ok. destruct (m s) as [? []]; auto. Qed.
End Ok.

Lemma ok_modify f (Q : unit -> BinFile -> Prop) s : Q tt (f s) -> ok (modify f) Q s.
Proof. done. Qed.

Ltac ok_step :=
  lazymatch goal with
  | |- ok (mbind _ _) _ _ => apply ok_bind
  | |- ok (mret _) _ _ => apply ok_ret
  | |- ok (gets _) _ _ => apply ok_gets
  | |- ok (throw _) _ _ => apply ok_throw
  | |- ok (modify _) _ _ => apply ok_modify
  end.

(** ** Invariants *)

(** The fields agree with the mapped file, which is smaller than half the address
    space. *)
Record wf (f : BinFile) : Prop := {
  wf_size : size f = Z.of_nat (length (data f));
  wf_small : size f < 2 ^ 63;
  wf_bytes : Forall is_byte (data f)
}.

(** The cursor is inside the file. *)
Definition cursor_ok (f : BinFile) : Prop := 0 <= pos f <= size f.

(** Every section the table knows starts inside the file, and the cursor it
    leaves, computed with wrap-around, is inside too. *)
Definition section_ok (sz : Z) (s : FileSection) : Prop :=
  0 <= start s <= sz /\ is_u64 (ssize s) /\ u64 (start s + ssize s) <= sz.

Definition table_ok (f : BinFile) : Prop :=
  map_Forall (fun _ l => Forall (section_ok (size f)) l) (sections f).

(** The section lies inside the file. *)
Definition section_inside (sz : Z) (s : FileSection) : Prop :=
  0 <= start s /\ 0 <= ssize s /\ start s + ssize s <= sz.

Lemma section_ok_inside sz s :
  sz < 2 ^ 63 -> section_ok sz s -> ssize s < 2 ^ 63 -> section_inside sz s.
Proof.
  intros Hsz (Hs & Hz & Hu) Hlt. unfold section_inside, is_u64 in *.
  rewrite u64_id in Hu by word_lia. lia.
Qed.

(** ** Reading *)

Lemma bytes_at_Some d p n bs :
  bytes_at d p n = Some bs -> 0 <= p /\ p + Z.of_nat n <= Z.of_nat (length d) /\
    bs = take n (drop (Z.to_nat p) d) /\ length bs = n.
Proof.
  unfold bytes_at. destruct (Z.leb_spec 0 p), (Z.leb_spec (p + Z.of_nat n) (Z.of_nat (length d)));
    cbn [andb]; intros [= <-]. split; [done|]. split; [done|]. split; [done|].
  rewrite length_take, length_drop. lia.
Qed.

Lemma load_ok n p (Q : Z -> BinFile -> Prop) s :
  wf s -> 0 <= p -> p + Z.of_nat n <= size s ->
  (forall v, 0 <= v < 2 ^ (8 * Z.of_nat n) -> Q v s) -> ok (load n p) Q s.
Proof.
  intros Hwf Hp Hn HQ. unfold load. do 2 ok_step.
  destruct (bytes_at (data s) p n) as [bs|] eqn:E.
  - ok_step. apply HQ. apply bytes_at_Some in E as (_ & _ & E & <-).
    apply le_value_range. rewrite E. apply Forall_take, Forall_drop, Hwf.
  - unfold bytes_at in E. rewrite <- (wf_size _ Hwf) in E.
    destruct (Z.leb_spec 0 p), (Z.leb_spec (p + Z.of_nat n) (size s)); cbn [andb] in E; lia || done.
Qed.

Lemma readU32LE_ok (Q : Z -> BinFile -> Prop) s :
  wf s -> cursor_ok s ->
  (forall v, is_u32 v -> pos s + 4 <= size s -> Q v (set_pos (pos s + 4) s)) ->
  ok readU32LE Q s.
Proof.
  intros Hwf Hc HQ. pose proof (wf_small _ Hwf). unfold cursor_ok in Hc. unfold readU32LE.
  do 4 ok_step. rewrite u64_id by word_lia.
  destruct (Z.gtb_spec (pos s + 4) (size s)); [by ok_step|]. ok_step.
  apply load_ok; [done|lia|cbn; lia|]. intros v Hv. do 3 ok_step. by apply HQ.
Qed.

Lemma readU64LE_ok (Q : Z -> BinFile -> Prop) s :
  wf s -> cursor_ok s ->
  (forall v, is_u64 v -> pos s + 8 <= size s -> Q v (set_pos (pos s + 8) s)) ->
  ok readU64LE Q s.
Proof.
  intros Hwf Hc HQ. pose proof (wf_small _ Hwf). unfold cursor_ok in Hc. unfold readU64LE.
  do 4 ok_step. rewrite u64_id by word_lia.
  destruct (Z.gtb_spec (pos s + 8) (size s)); [by ok_step|]. ok_step.
  apply load_ok; [done|lia|cbn; lia|]. intros v Hv. do 3 ok_step. by apply HQ.
Qed.

(** The header fields of the file are not touched by the loop. *)
Definition same_file (f f' : BinFile) : Prop := data f' = data f /\ size f' = size f.

Lemma push_section_ok sz t s m :
  section_ok sz s -> map_Forall (fun _ l => Forall (section_ok sz) l) m ->
  map_Forall (fun _ l => Forall (section_ok sz) l) (push_section t s m).
Proof.
  intros Hs Hm. unfold push_section. apply map_Forall_insert_2; [|done].
  apply Forall_app. split; [|by apply Forall_singleton].
  destruct (m !! i32 t) as [l|] eqn:E; cbn; [by apply (Hm (i32 t))|by apply Forall_nil_2].
Qed.

Lemma readSections_ok n : forall i f,
  wf f -> cursor_ok f -> table_ok f ->
  ok (readSections n i) (fun _ f' => same_file f f' /\ wf f' /\ cursor_ok f' /\ table_ok f') f.
Proof.
  induction n as [|n IH]; intros i f Hwf Hc Ht; cbn [readSections]; [by ok_step|].
  pose proof (wf_small _ Hwf) as Hsm. unfold cursor_ok in Hc. ok_step.
  apply readU32LE_ok; [done..|]. intros ty Hty H4. ok_step.
  apply readU64LE_ok; [by destruct Hwf; split|unfold cursor_ok; cbn in *; lia|].
  cbn [pos size set_pos]. intros sz Hsz H8. repeat ok_step.
  cbn [pos size set_pos set_sections] in *.
  destruct (Z.gtb_spec (u64 (pos f + 4 + 8 + sz)) (size f)) as [Hgt|Hle]; [by ok_step|].
  pose proof (u64_range (pos f + 4 + 8 + sz)) as Hr. unfold is_u64 in Hr.
  eapply ok_mono; [|apply IH].
  - intros _ f' ([Hd Hs] & ? & ? & ?). done.
  - by destruct Hwf; split.
  - unfold cursor_ok. cbn. lia.
  - apply push_section_ok; [|done]. split; cbn; [lia|]. split; [done|]. cbn in *. lia.
Qed.

(** C5: Whatever the bytes given as a file, the reader touches no memory outside them;
    when it accepts them its cursor is inside, no section is being read, and every
    section of the table starts inside and ends, modulo [2^64], inside. *)
Theorem readFileData_safe d ty maxVersion :
  Forall is_byte d -> Z.of_nat (length d) < 2 ^ 63 ->
  match openBinFile d ty maxVersion with
  | (f, Val _) => data f = d /\ cursor_ok f /\ readingSection f = None /\ table_ok f
  | (_, Throw _) => True
  | (_, Undefined) => False
  end.
Proof.
  intros Hd Hlen. unfold openBinFile. set (f0 := mkBinFile _ _ _ _ _ _ _).
  assert (Hwf : wf f0) by by split.
  change (ok (readFileData ty maxVersion) (fun _ f => data f = d /\ cursor_ok f /\
    readingSection f = None /\ table_ok f) f0).
  unfold readFileData. repeat ok_step. destruct (Z.ltb_spec (size f0) headerSize) as [|Hsz]; [by ok_step|].
  repeat ok_step. unfold headerSize in Hsz. cbn [size f0] in Hsz.
  destruct (bytes_at (data f0) 0 4) as [t|] eqn:E.
  2: { unfold bytes_at in E. cbn [data f0] in E.
       destruct (Z.leb_spec (0 + Z.of_nat 4) (Z.of_nat (length d))); cbn in E; [done|lia]. }
  repeat ok_step. destruct (negb _); [by ok_step|]. repeat ok_step.
  apply readU32LE_ok; [by destruct Hwf; split|unfold cursor_ok; cbn; lia|].
  cbn [pos size set_pos set_type f0]. intros v Hv _. repeat ok_step.
  destruct (v >? maxVersion); [by ok_step|]. repeat ok_step.
  apply readU32LE_ok; [by destruct Hwf; split|unfold cursor_ok; cbn; lia|].
  cbn [pos size set_pos set_type set_version f0]. intros n Hn _.
  destruct (_ <? _); [by ok_step|]. repeat ok_step.
  eapply ok_mono; [|apply readSections_ok].
  - intros _ f' ([Hd' Hs'] & Hwf' & Hc' & Ht'). repeat ok_step. cbn in *.
    split; [done|]. split; [|done]. unfold cursor_ok in *. cbn. lia.
  - by destruct Hwf; split.
  - unfold cursor_ok. cbn. lia.
  - unfold table_ok. cbn. apply map_Forall_empty.
Qed.

(** ** Instances *)

(** A [wtns] file with one section that claims [2^64 - 24] bytes. *)
Definition wrapped_file : list Z :=
  [119; 116; 110; 115; 2; 0; 0; 0; 1; 0; 0; 0; 1; 0; 0; 0; 232; 255; 255; 255; 255; 255; 255; 255].

Ltac bytes_ok :=
  repeat (apply Forall_cons_2; [split; [vm_compute; discriminate|vm_compute; reflexivity]|]);
  apply Forall_nil_2.

Lemma readFileData_safe_witness :
  match openBinFile wrapped_file [119; 116; 110; 115] 2 with
  | (f, Val _) => data f = wrapped_file /\ cursor_ok f /\ readingSection f = None /\ table_ok f
  | (_, Throw _) => True
  | (_, Undefined) => False
  end.
Proof. apply readFileData_safe; [bytes_ok|vm_compute; reflexivity]. Defined.

(** A section whose size makes the 64-bit cursor wrap is accepted, and its size
    is reported as it stands in the file, far beyond the file's end. *)
Theorem wrapped_section_accepted :
  exists f, openBinFile wrapped_file [119; 116; 110; 115] 2 = (f, Val tt) /\
    size f = 24 /\ getSectionSize 1 0 f = (f, Val (2 ^ 64 - 24)).
Proof. eexists. split; [vm_compute; reflexivity|]. split; vm_compute; reflexivity. Qed.
