(* ===== verification/BinFileFormat.v ===== *)
(** The container format: an encoder, and the proof that the reader inverts it. *)

From stdpp Require Import gmap.
From S2P Require Import Prelude Limbs Mpz BinFile BinFileSpec.

(** ** The encoder *)

Definition encode_section (s : Z * list Z) : list Z :=
  le_bytes 4 (fst s) ++ le_bytes 8 (Z.of_nat (length (snd s))) ++ snd s.

Definition encode_file (ty : list Z) (v : Z) (secs : list (Z * list Z)) : list Z :=
  ty ++ le_bytes 4 v ++ le_bytes 4 (Z.of_nat (length secs)) ++ concat (map encode_section secs).

(** The payloads of one section type, in file order. *)
Definition payloads (id : Z) (secs : list (Z * list Z)) : list (list Z) :=
  map snd (filter (fun s => i32 (fst s) = i32 id) secs).

(** The bytes of a section of a file. *)
Definition section_bytes (d : list Z) (s : FileSection) : list Z :=
  take (Z.to_nat (ssize s)) (drop (Z.to_nat (start s)) d).

(** What a well-formed file description is. *)
Definition describable (ty : list Z) (v : Z) (secs : list (Z * list Z)) : Prop :=
  length ty = 4%nat /\ is_u32 v /\ is_u32 (Z.of_nat (length secs)) /\
  Forall (fun s => is_u32 (fst s)) secs /\
  Z.of_nat (length (encode_file ty v secs)) < 2 ^ 63.

(** ** Reading what was encoded *)

(** The cursor of [f] is at the end of [pre] in [pre ++ rest]. *)
Definition at_cursor (f : BinFile) (pre rest : list Z) : Prop :=
  data f = pre ++ rest /\ pos f = Z.of_nat (length pre) /\
  size f = Z.of_nat (length (data f)) /\ size f < 2 ^ 63.

Lemma bytes_at_app (pre bs post : list Z) :
  bytes_at (pre ++ bs ++ post) (Z.of_nat (length pre)) (length bs) = Some bs.
Proof.
  unfold bytes_at. rewrite !length_app.
  destruct (Z.leb_spec 0 (Z.of_nat (length pre))); [|lia].
  destruct (Z.leb_spec (Z.of_nat (length pre) + Z.of_nat (length bs))
    (Z.of_nat (length pre + (length bs + length post)))); [|lia]. cbn [andb].
  by rewrite Nat2Z.id, drop_app_length, take_app_length.
Qed.

Lemma at_cursor_step f pre bs rest n :
  at_cursor f pre (bs ++ rest) -> n = Z.of_nat (length bs) ->
  u64 (pos f + n) = pos f + n /\ (u64 (pos f + n) >? size f) = false /\
  at_cursor (set_pos (pos f + n) f) (pre ++ bs) rest.
Proof.
  intros (Hd & Hp & Hs & Hsm) ->. rewrite Hd, !length_app in Hs.
  assert (Hid : u64 (pos f + Z.of_nat (length bs)) = pos f + Z.of_nat (length bs)) by (apply u64_id; word_lia).
  rewrite Hid. split; [done|]. split; [lia|].
  split; [cbn; by rewrite Hd, app_assoc|]. split; [cbn; rewrite length_app; lia|].
  cbn. rewrite Hd, !length_app. lia.
Qed.

Lemma readU32LE_at f pre v rest :
  at_cursor f pre (le_bytes 4 v ++ rest) -> is_u32 v ->
  readU32LE f = (set_pos (pos f + 4) f, Val v) /\
  at_cursor (set_pos (pos f + 4) f) (pre ++ le_bytes 4 v) rest.
Proof.
  intros Hf Hv. destruct (at_cursor_step f pre _ rest 4 Hf) as (Hu & Hle & Hc);
    [by rewrite le_bytes_length|]. split; [|done].
  destruct Hf as (Hd & Hp & _). unfold readU32LE, mbind, gets. rewrite Hle, Hu.
  unfold load, mbind, gets. rewrite Hd, Hp.
  pose proof (bytes_at_app pre (le_bytes 4 v) rest) as Hb. rewrite le_bytes_length in Hb.
  rewrite Hb. unfold mret, sret, modify. by rewrite le_value_bytes.
Qed.

Lemma readU64LE_at f pre v rest :
  at_cursor f pre (le_bytes 8 v ++ rest) -> is_u64 v ->
  readU64LE f = (set_pos (pos f + 8) f, Val v) /\
  at_cursor (set_pos (pos f + 8) f) (pre ++ le_bytes 8 v) rest.
Proof.
  intros Hf Hv. destruct (at_cursor_step f pre _ rest 8 Hf) as (Hu & Hle & Hc);
    [by rewrite le_bytes_length|]. split; [|done].
  destruct Hf as (Hd & Hp & _). unfold readU64LE, mbind, gets. rewrite Hle, Hu.
  unfold load, mbind, gets. rewrite Hd, Hp.
  pose proof (bytes_at_app pre (le_bytes 8 v) rest) as Hb. rewrite le_bytes_length in Hb.
  rewrite Hb. unfold mret, sret, modify. by rewrite le_value_bytes.
Qed.

Lemma read_at f pre bs rest n :
  at_cursor f pre (bs ++ rest) -> n = Z.of_nat (length bs) ->
  read n f = (set_pos (pos f + n) f, Val (Z.of_nat (length pre))) /\
  at_cursor (set_pos (pos f + n) f) (pre ++ bs) rest.
Proof.
  intros Hf Hn. destruct (at_cursor_step f pre _ rest n Hf Hn) as (Hu & Hle & Hc). split; [|done].
  destruct Hf as (_ & Hp & _). unfold read, mbind, gets. rewrite Hle, Hu.
  unfold mret, sret, modify. by rewrite Hp.
Qed.

(** The table the loop builds from the sections that start at offset [off]. *)
Fixpoint table_of (off : Z) (secs : list (Z * list Z)) (m : gmap Z (list FileSection)) :
    gmap Z (list FileSection) :=
  match secs with
  | [] => m
  | (t, p) :: secs =>
      table_of (off + 12 + Z.of_nat (length p)) secs
        (push_section t (mkSection (off + 12) (Z.of_nat (length p))) m)
  end.

Lemma encode_section_length s : length (encode_section s) = (12 + length (snd s))%nat.
Proof. unfold encode_section. rewrite !length_app, !le_bytes_length. lia. Qed.

Lemma readSections_at secs : forall i f pre,
  at_cursor f pre (concat (map encode_section secs)) ->
  Forall (fun s => is_u32 (fst s)) secs ->
  exists p, readSections (length secs) i f =
    (set_sections (table_of (Z.of_nat (length pre)) secs (sections f)) (set_pos p f), Val tt).
Proof.
  induction secs as [|[t bs] secs IH]; intros i f pre Hf Hts.
  { exists (pos f). destruct f. done. }
  inversion_clear Hts as [|? ? Ht Hts']. cbn [fst] in Ht.
  cbn [map concat] in Hf. unfold encode_section at 1 in Hf. cbn [fst snd] in Hf.
  rewrite <- !app_assoc in Hf. destruct (readU32LE_at _ _ _ _ Hf Ht) as [E1 H1].
  set (f1 := set_pos (pos f + 4) f) in *.
  assert (Hlen : is_u64 (Z.of_nat (length bs))).
  { destruct Hf as (Hd & _ & Hs & Hsm). rewrite Hd, !length_app in Hs. word_lia. }
  destruct (readU64LE_at _ _ _ _ H1 Hlen) as [E2 H2].
  set (f2 := set_pos (pos f1 + 8) f1) in *.
  set (sec := mkSection (pos f2) (Z.of_nat (length bs))).
  set (f3 := set_sections (push_section t sec (sections f2)) f2).
  assert (H3 : at_cursor f3 ((pre ++ le_bytes 4 t) ++ le_bytes 8 (Z.of_nat (length bs)))
    (bs ++ concat (map encode_section secs))) by exact H2.
  destruct (at_cursor_step f3 _ bs _ _ H3 eq_refl) as (Hu & Hle & H4).
  destruct (IH (i + 1) _ _ H4 Hts') as [p E]. exists p.
  cbn [readSections length]. unfold mbind at 1. rewrite E1. unfold mbind at 1. rewrite E2.
  rewrite Hu in Hle. set (f4 := set_pos (pos f3 + Z.of_nat (length bs)) f3) in *.
  assert (H43 : set_pos (u64 (pos f2 + Z.of_nat (length bs))) f3 = f4).
  { change (pos f2) with (pos f3). by rewrite Hu. }
  unfold mbind, gets, modify. fold sec f3. rewrite H43.
  change (pos f4 >? size f4) with (pos f3 + Z.of_nat (length bs) >? size f3). rewrite Hle, E.
  f_equal. destruct Hf as (_ & Hp & _).
  assert (Hsecs : sections f4 = push_section t (mkSection (Z.of_nat (length pre) + 12) (Z.of_nat (length bs))) (sections f)).
  { cbn [f4 f3 f2 f1 sections set_sections set_pos]. unfold sec, f2, f1. cbn [pos set_pos].
    do 2 f_equal. lia. }
  rewrite Hsecs, !length_app, !le_bytes_length. cbn [table_of].
  replace (Z.of_nat (length pre + 4 + 8 + length bs)) with (Z.of_nat (length pre) + 12 + Z.of_nat (length bs)) by lia.
  done.
Qed.

(** *** The table as a function of the description *)

(** The sections of type [id] among those that start at offset [off]. *)
Fixpoint sections_of (id off : Z) (secs : list (Z * list Z)) : list FileSection :=
  match secs with
  | [] => []
  | (t, p) :: secs =>
      (if decide (i32 t = i32 id) then [mkSection (off + 12) (Z.of_nat (length p))] else []) ++
      sections_of id (off + 12 + Z.of_nat (length p)) secs
  end.

Lemma table_of_lookup id secs : forall off m,
  default [] (table_of off secs m !! i32 id) = default [] (m !! i32 id) ++ sections_of id off secs.
Proof.
  induction secs as [|[t p] secs IH]; intros off m; cbn [table_of sections_of];
    [by rewrite app_nil_r|].
  rewrite IH, app_assoc. f_equal. unfold push_section. case_decide as E.
  - rewrite E. by rewrite lookup_insert_eq.
  - rewrite lookup_insert_ne by done. by rewrite app_nil_r.
Qed.

(** The bytes of those sections are the payloads. *)
Lemma sections_of_bytes id secs : forall pre,
  map (section_bytes (pre ++ concat (map encode_section secs)))
    (sections_of id (Z.of_nat (length pre)) secs) = payloads id secs.
Proof.
  unfold payloads.
  induction secs as [|[t p] secs IH]; intros pre; [done|].
  cbn [sections_of map concat]. rewrite map_app, app_assoc.
  specialize (IH (pre ++ encode_section (t, p))). rewrite length_app, encode_section_length in IH.
  cbn [snd] in IH.
  replace (Z.of_nat (length pre) + 12 + Z.of_nat (length p)) with (Z.of_nat (length pre + (12 + length p))) by lia.
  rewrite IH, filter_cons. cbn [fst]. case_decide as E; [|done].
  cbn [map app snd]. f_equal. unfold section_bytes. cbn [start ssize].
  change (encode_section (t, p)) with (le_bytes 4 t ++ le_bytes 8 (Z.of_nat (length p)) ++ p).
  rewrite <- !app_assoc, !Nat2Z.id.
  replace (pre ++ le_bytes 4 t ++ le_bytes 8 (Z.of_nat (length p)) ++ p ++ concat (map encode_section secs))
    with ((pre ++ le_bytes 4 t ++ le_bytes 8 (Z.of_nat (length p))) ++ p ++ concat (map encode_section secs))
    by (by rewrite <- !app_assoc).
  rewrite drop_app_length', take_app_length; [done|].
  rewrite !length_app, !le_bytes_length. lia.
Qed.

(** Those sections lie inside the file. *)
Lemma sections_of_inside id secs : forall off sz,
  0 <= off -> off + Z.of_nat (length (concat (map encode_section secs))) <= sz ->
  Forall (section_inside sz) (sections_of id off secs).
Proof.
  induction secs as [|[t p] secs IH]; intros off sz Hoff Hsz; [by apply Forall_nil_2|].
  cbn [map concat] in Hsz. rewrite length_app, encode_section_length in Hsz. cbn [snd] in Hsz.
  cbn [sections_of]. apply Forall_app. split; [|apply IH; lia].
  case_decide; [|by apply Forall_nil_2]. apply Forall_singleton.
  unfold section_inside. cbn [start ssize]. lia.
Qed.

(** Reading the header and the table of an encoded file. *)
Lemma openBinFile_at ty v secs maxVersion :
  describable ty v secs -> v <= maxVersion ->
  let d := encode_file ty v secs in
  openBinFile d ty maxVersion =
    (mkBinFile d (Z.of_nat (length d)) 0 (table_of 12 secs ∅) ty v None, Val tt).
Proof.
  intros (Hty & Hv & Hn & Hts & Hlen) Hmax d. unfold openBinFile. fold d in Hlen.
  set (f0 := mkBinFile _ _ _ _ _ _ _).
  assert (Hd : d = ty ++ le_bytes 4 v ++ le_bytes 4 (Z.of_nat (length secs)) ++
    concat (map encode_section secs)) by done.
  assert (Hl : length d = (12 + length (concat (map encode_section secs)))%nat).
  { rewrite Hd, !length_app, !le_bytes_length, Hty. lia. }
  set (f1 := set_pos 4 (set_type ty f0)).
  assert (H1 : at_cursor f1 ty (le_bytes 4 v ++ le_bytes 4 (Z.of_nat (length secs)) ++
    concat (map encode_section secs))).
  { split; [done|]. split; [cbn; by rewrite Hty|]. done. }
  destruct (readU32LE_at _ _ _ _ H1 Hv) as [E2 H2]. set (f2 := set_pos _ f1) in *.
  set (f2' := set_version v f2).
  assert (H2' : at_cursor f2' (ty ++ le_bytes 4 v) (le_bytes 4 (Z.of_nat (length secs)) ++
    concat (map encode_section secs))) by exact H2.
  destruct (readU32LE_at _ _ _ _ H2' Hn) as [E3 H3]. set (f3 := set_pos _ f2') in *.
  destruct (readSections_at secs 0 f3 _ H3 Hts) as [p E4].
  rewrite !length_app, !le_bytes_length, Hty in E4. change (Z.of_nat (4 + 4 + 4)) with 12 in E4.
  assert (Hcount : (Z.of_nat (length d) <? u64 (12 + Z.of_nat (length secs) * 12)) = false).
  { unfold is_u32 in Hn. rewrite u64_id by word_lia. apply Z.ltb_ge. rewrite Hl.
    assert (length secs * 12 <= length (concat (map encode_section secs)))%nat; [|lia].
    clear. induction secs as [|s secs IH]; cbn [map concat length]; [lia|].
    rewrite length_app, encode_section_length. lia. }
  unfold readFileData, mbind at 1, gets at 1. change (size f0) with (Z.of_nat (length d)).
  unfold headerSize, minSectionSize. destruct (Z.ltb_spec (Z.of_nat (length d)) 12) as [|_]; [lia|].
  unfold mbind at 1, gets at 1. change (data f0) with d.
  pose proof (bytes_at_app [] ty (le_bytes 4 v ++ le_bytes 4 (Z.of_nat (length secs)) ++
    concat (map encode_section secs))) as Hb.
  rewrite Hty in Hb. cbn [app length] in Hb. rewrite <- Hd in Hb. change (Z.of_nat 0) with 0 in Hb.
  rewrite Hb. unfold mbind at 1, modify at 1. unfold mbind at 1, modify at 1. fold f1.
  rewrite bool_decide_eq_true_2 by done. cbn [negb].
  unfold mbind at 1. rewrite E2. unfold mbind at 1, modify at 1. fold f2'.
  destruct (Z.gtb_spec v maxVersion) as [|_]; [lia|].
  unfold mbind at 1. rewrite E3. rewrite Hcount. unfold mbind at 1. rewrite Nat2Z.id, E4.
  done.
Qed.

(** The file read back, the lemma the header readers build on. *)
Lemma openBinFile_encoded ty v secs maxVersion :
  describable ty v secs -> v <= maxVersion -> Forall is_byte (encode_file ty v secs) ->
  let d := encode_file ty v secs in
  exists f, openBinFile d ty maxVersion = (f, Val tt) /\
    wf f /\ data f = d /\ version f = v /\ ftype f = ty /\ readingSection f = None /\
    forall id, map (section_bytes d) (default [] (sections f !! i32 id)) = payloads id secs /\
      Forall (section_inside (size f)) (default [] (sections f !! i32 id)).
Proof.
  intros Hdesc Hmax Hbytes d. eexists. split; [by apply openBinFile_at|].
  destruct Hdesc as (Hty & Hv & Hn & Hts & Hlen). fold d in Hlen.
  split; [by split|]. do 4 (split; [done|]).
  intros id. cbn [sections size]. rewrite table_of_lookup, lookup_empty. cbn [default app].
  set (pre := ty ++ le_bytes 4 v ++ le_bytes 4 (Z.of_nat (length secs))).
  assert (Hd : d = pre ++ concat (map encode_section secs)) by (unfold d, encode_file, pre; by rewrite <- !app_assoc).
  assert (Hpre : Z.of_nat (length pre) = 12) by (unfold pre; rewrite !length_app, !le_bytes_length; lia).
  split.
  - fold d. rewrite Hd, <- Hpre. apply sections_of_bytes.
  - apply sections_of_inside; [done|]. fold d. rewrite Hd, length_app. lia.
Qed.

(** C16: The reader inverts the encoder of the format: for every type, version not above
    the maximum and list of sections, it accepts the encoded file and its table
    gives, per section type and in file order, sections inside the file that hold
    exactly the payloads. *)
Theorem read_encoded_file ty v secs maxVersion :
  describable ty v secs -> v <= maxVersion -> Forall is_byte (encode_file ty v secs) ->
  let d := encode_file ty v secs in
  exists f, openBinFile d ty maxVersion = (f, Val tt) /\
    wf f /\ data f = d /\ version f = v /\ ftype f = ty /\ readingSection f = None /\
    forall id, map (section_bytes d) (default [] (sections f !! i32 id)) = payloads id secs /\
      Forall (section_inside (size f)) (default [] (sections f !! i32 id)).
Proof. apply openBinFile_encoded. Qed.

(** ** Instance *)

Definition demo_sections : list (Z * list Z) := [(1, [7; 8]); (2, [1; 2; 3]); (1, [9])].

Lemma demo_describable : describable [119; 116; 110; 115] 2 demo_sections.
Proof.
  split; [reflexivity|]. split; [split; [discriminate|reflexivity]|].
  split; [split; [discriminate|reflexivity]|]. split; [|vm_compute; reflexivity].
  repeat (apply Forall_cons_2; [split; [discriminate|reflexivity]|]). apply Forall_nil_2.
Qed.

Lemma read_encoded_file_witness :
  let d := encode_file [119; 116; 110; 115] 2 demo_sections in
  exists f, openBinFile d [119; 116; 110; 115] 2 = (f, Val tt) /\
    wf f /\ data f = d /\ version f = 2 /\ ftype f = [119; 116; 110; 115] /\ readingSection f = None /\
    forall id, map (section_bytes d) (default [] (sections f !! i32 id)) = payloads id demo_sections /\
      Forall (section_inside (size f)) (default [] (sections f !! i32 id)).
Proof.
  apply read_encoded_file; [apply demo_describable|lia|].
  vm_compute. bytes_ok.
Defined.
