(* ===== verification/FileHeaders.v ===== *)
(** The headers of the two file kinds the prover reads: [src/zkey_utils.cpp] and
    [src/wtns_utils.cpp]. *)

From stdpp Require Import gmap.
From S2P Require Import Prelude Limbs Mpz BinFile.

#[local] Open Scope file_scope.

(** [ZKeyUtils::Header]; the [vk_] pointers are offsets into the file. *)
Record ZKeyHeader := mkZKeyHeader {
  n8q : Z;
  qPrime : Z;
  n8r : Z;
  rPrime : Z;
  nVars : Z;
  nPublic : Z;
  domainSize : Z;
  nCoefs : Z;
  vk_alpha1 : Z;
  vk_beta1 : Z;
  vk_beta2 : Z;
  vk_gamma2 : Z;
  vk_delta1 : Z;
  vk_delta2 : Z
}.

(** [WtnsUtils::Header]. *)
Record WtnsHeader := mkWtnsHeader { n8 : Z; prime : Z; wtns_nVars : Z }.

Section Headers.
Context {MZ : Mpz}.

(** [mpz_import(rop, n, -1, 1, -1, 0, f->read(n))]: [n] bytes, least significant
    first. *)
Definition import_number (n : Z) : M Z :=
  p <- read n ;;
  d <- gets data ;;
  match bytes_at d p (Z.to_nat n) with
  | Some bs => mret (mpz_import_bytes bs)
  | None => undefined
  end.

Definition zkey_loadHeader : M ZKeyHeader :=
  startReadSection 1 0 ;;;
  protocol <- readU32LE ;;
  if negb (protocol =? 1) then throw NotGroth16
  else
    endReadSection true ;;;
    startReadSection 2 0 ;;;
    n8q <- readU32LE ;;
    qPrime <- import_number n8q ;;
    n8r <- readU32LE ;;
    rPrime <- import_number n8r ;;
    nVars <- readU32LE ;;
    nPublic <- readU32LE ;;
    domainSize <- readU32LE ;;
    vk_alpha1 <- read (u32 (n8q * 2)) ;;
    vk_beta1 <- read (u32 (n8q * 2)) ;;
    vk_beta2 <- read (u32 (n8q * 4)) ;;
    vk_gamma2 <- read (u32 (n8q * 4)) ;;
    vk_delta1 <- read (u32 (n8q * 2)) ;;
    vk_delta2 <- read (u32 (n8q * 4)) ;;
    endReadSection true ;;;
    sz <- getSectionSize 4 0 ;;
    let divisor := u32 (12 + n8r) in
    if divisor =? 0 then undefined
    else mret (mkZKeyHeader n8q qPrime n8r rPrime nVars nPublic domainSize (sz / divisor)
                 vk_alpha1 vk_beta1 vk_beta2 vk_gamma2 vk_delta1 vk_delta2).

Definition wtns_loadHeader : M WtnsHeader :=
  startReadSection 1 0 ;;;
  n8 <- readU32LE ;;
  prime <- import_number n8 ;;
  nVars <- readU32LE ;;
  endReadSection true ;;;
  mret (mkWtnsHeader n8 prime nVars).
End Headers.
