(* ===== verification/FileHeadersSpec.v ===== *)
(** The header readers invert encoders of the headers, and stay inside the file. *)

From stdpp Require Import gmap.
From S2P Require Import Prelude Limbs Mpz BinFile BinFileSpec BinFileFormat FileHeaders.

(** ** Section protocol *)

(** The section [id] of [f] that a read starts with holds the bytes [bs]. *)
Definition first_section (f : BinFile) (id : Z) (bs : list Z) : Prop :=
  exists s l, sections f !! i32 id = Some (s :: l) /\
    section_inside (size f) s /\ section_bytes (data f) s = bs.

Lemma section_bytes_length d s :
  section_inside (Z.of_nat (length d)) s -> Z.of_nat (length (section_bytes d s)) = ssize s.
Proof.
  intros (H1 & H2 & H3). unfold section_bytes. rewrite length_take, length_drop. lia.
Qed.

(** A read that starts: the cursor is at the section's bytes. *)
Lemma startReadSection_at f id bs :
  wf f -> first_section f id bs -> readingSection f = None ->
  exists s pre rest,
    let f' := set_reading (Some s) (set_pos (start s) f) in
    startReadSection id 0 f = (f', Val tt) /\ at_cursor f' pre (bs ++ rest) /\
    start s = Z.of_nat (length pre) /\ ssize s = Z.of_nat (length bs).
Proof.
  intros Hwf (s & l & Hs & Hin & Hb) Hr.
  exists s, (take (Z.to_nat (start s)) (data f)),
    (drop (Z.to_nat (ssize s)) (drop (Z.to_nat (start s)) (data f))).
  pose proof Hin as (H1 & H2 & H3). rewrite (wf_size _ Hwf) in H3, Hin.
  assert (Hpre : start s = Z.of_nat (length (take (Z.to_nat (start s)) (data f))))
    by (rewrite length_take; lia).
  split; [|split; [|split; [done|]]].
  - unfold startReadSection, lookup_section, mbind, gets. rewrite Hs.
    change ((s :: l) !! Z.to_nat 0) with (Some s). unfold mret, sret. by rewrite Hr.
  - split; [|split; [done|split; [apply Hwf|apply Hwf]]].
    cbn [data set_reading set_pos]. subst bs. unfold section_bytes.
    by rewrite take_drop, take_drop.
  - subst bs. symmetry. by apply section_bytes_length.
Qed.

(** A read that ends at the end of its section. *)
Lemma endReadSection_at f pre bs rest s n :
  at_cursor f (pre ++ bs) rest -> readingSection f = Some s ->
  start s = Z.of_nat (length pre) -> ssize s = n -> n = Z.of_nat (length bs) ->
  endReadSection true f = (set_reading None f, Val tt).
Proof.
  intros (Hd & Hp & Hs & Hsm) Hr Hst Hsz ->. unfold endReadSection, mbind, gets. rewrite Hr.
  rewrite length_app in Hp. rewrite Hd, !length_app in Hs.
  replace (u64 (pos f - start s)) with (ssize s) by (rewrite u64_id by word_lia; lia).
  rewrite Z.eqb_refl. done.
Qed.

Section HeaderSpec.
Context {MZ : Mpz} {ML : MpzLaws MZ}.

Lemma import_number_at f pre n v rest :
  at_cursor f pre (le_bytes (Z.to_nat n) v ++ rest) -> 0 <= n -> 0 <= v < 2 ^ (8 * n) ->
  import_number n f = (set_pos (pos f + n) f, Val v) /\
  at_cursor (set_pos (pos f + n) f) (pre ++ le_bytes (Z.to_nat n) v) rest.
Proof.
  intros Hf Hn Hv. destruct (read_at f pre _ rest n Hf) as [E Hc];
    [rewrite le_bytes_length; lia|]. split; [|done].
  unfold import_number, mbind. rewrite E. unfold gets. cbn [data set_pos].
  destruct Hf as (Hd & Hp & _). rewrite Hd.
  pose proof (bytes_at_app pre (le_bytes (Z.to_nat n) v) rest) as Hb.
  rewrite le_bytes_length in Hb. rewrite Hb. unfold mret, sret.
  rewrite mpz_import_bytes_spec by apply le_bytes_byte.
  by rewrite le_value_bytes by (rewrite Z2Nat.id; lia).
Qed.

(** *** Witness headers *)

Definition encode_wtns_header (h : WtnsHeader) : list Z :=
  le_bytes 4 (n8 h) ++ le_bytes (Z.to_nat (n8 h)) (prime h) ++ le_bytes 4 (wtns_nVars h).

Definition wtns_header_ok (h : WtnsHeader) : Prop :=
  is_u32 (n8 h) /\ 0 <= prime h < 2 ^ (8 * n8 h) /\ is_u32 (wtns_nVars h).

Lemma wtns_loadHeader_at f h :
  wf f -> readingSection f = None -> first_section f 1 (encode_wtns_header h) ->
  wtns_header_ok h ->
  exists p, wtns_loadHeader f = (set_reading None (set_pos p f), Val h).
Proof.
  intros Hwf Hr Hsec (Hn8 & Hprime & Hvars).
  destruct (startReadSection_at _ _ _ Hwf Hsec Hr) as (s & pre & rest & E0 & H0 & Hst & Hsz).
  set (f0 := set_reading _ _) in *. unfold encode_wtns_header in H0. rewrite <- !app_assoc in H0.
  destruct (readU32LE_at _ _ _ _ H0 Hn8) as [E1 H1]. set (f1 := set_pos _ f0) in *.
  unfold is_u32 in Hn8.
  destruct (import_number_at _ _ _ _ _ H1) as [E2 H2]; [lia|done|]. set (f2 := set_pos _ f1) in *.
  destruct (readU32LE_at _ _ _ _ H2 Hvars) as [E3 H3]. set (f3 := set_pos _ f2) in *.
  rewrite <- !app_assoc in H3.
  pose proof (endReadSection_at f3 pre _ rest s _ H3 eq_refl Hst Hsz eq_refl) as E4.
  exists (pos f3). unfold wtns_loadHeader, mbind. rewrite E0, E1, E2, E3, E4. by destruct h.
Qed.

(** *** Proving-key headers *)

(** What a proving key's header describes, the points as byte strings. *)
Record ZKeyDesc := mkZKeyDesc {
  d_n8q : Z; d_q : Z; d_n8r : Z; d_r : Z;
  d_nVars : Z; d_nPublic : Z; d_domainSize : Z;
  d_alpha1 : list Z; d_beta1 : list Z; d_beta2 : list Z;
  d_gamma2 : list Z; d_delta1 : list Z; d_delta2 : list Z
}.

Definition encode_zkey_header (d : ZKeyDesc) : list Z :=
  le_bytes 4 (d_n8q d) ++ le_bytes (Z.to_nat (d_n8q d)) (d_q d) ++
  le_bytes 4 (d_n8r d) ++ le_bytes (Z.to_nat (d_n8r d)) (d_r d) ++
  le_bytes 4 (d_nVars d) ++ le_bytes 4 (d_nPublic d) ++ le_bytes 4 (d_domainSize d) ++
  d_alpha1 d ++ d_beta1 d ++ d_beta2 d ++ d_gamma2 d ++ d_delta1 d ++ d_delta2 d.

(** Sizes fit their 32-bit fields, also when multiplied by four, and points have
    the sizes the reader assumes. *)
Definition zkey_desc_ok (d : ZKeyDesc) : Prop :=
  0 <= d_n8q d < 2 ^ 30 /\ 0 <= d_n8r d < 2 ^ 31 /\
  0 <= d_q d < 2 ^ (8 * d_n8q d) /\ 0 <= d_r d < 2 ^ (8 * d_n8r d) /\
  is_u32 (d_nVars d) /\ is_u32 (d_nPublic d) /\ is_u32 (d_domainSize d) /\
  Z.of_nat (length (d_alpha1 d)) = 2 * d_n8q d /\ Z.of_nat (length (d_beta1 d)) = 2 * d_n8q d /\
  Z.of_nat (length (d_beta2 d)) = 4 * d_n8q d /\ Z.of_nat (length (d_gamma2 d)) = 4 * d_n8q d /\
  Z.of_nat (length (d_delta1 d)) = 2 * d_n8q d /\ Z.of_nat (length (d_delta2 d)) = 4 * d_n8q d.

(** The header [h] read from the bytes [data] says what [d] describes, [coefs]
    being the size of the coefficient section. *)
Definition header_describes (data : list Z) (coefs : Z) (h : ZKeyHeader) (d : ZKeyDesc) : Prop :=
  n8q h = d_n8q d /\ qPrime h = d_q d /\ n8r h = d_n8r d /\ rPrime h = d_r d /\
  nVars h = d_nVars d /\ nPublic h = d_nPublic d /\ domainSize h = d_domainSize d /\
  nCoefs h = coefs / (12 + d_n8r d) /\
  bytes_at data (vk_alpha1 h) (length (d_alpha1 d)) = Some (d_alpha1 d) /\
  bytes_at data (vk_beta1 h) (length (d_beta1 d)) = Some (d_beta1 d) /\
  bytes_at data (vk_beta2 h) (length (d_beta2 d)) = Some (d_beta2 d) /\
  bytes_at data (vk_gamma2 h) (length (d_gamma2 d)) = Some (d_gamma2 d) /\
  bytes_at data (vk_delta1 h) (length (d_delta1 d)) = Some (d_delta1 d) /\
  bytes_at data (vk_delta2 h) (length (d_delta2 d)) = Some (d_delta2 d).

Lemma bytes_at_cursor f pre bs rest :
  at_cursor f pre (bs ++ rest) -> bytes_at (data f) (Z.of_nat (length pre)) (length bs) = Some bs.
Proof. intros (-> & _). apply bytes_at_app. Qed.

Lemma zkey_protocol_at f :
  wf f -> readingSection f = None -> first_section f 1 (le_bytes 4 1) ->
  exists p s, (startReadSection 1 0 f = (s, Val tt)) /\
    (readU32LE s = (set_pos p s, Val 1)) /\
    (endReadSection true (set_pos p s) = (set_pos p f, Val tt)).
Proof.
  intros Hwf Hr Hsec.
  destruct (startReadSection_at _ _ _ Hwf Hsec Hr) as (s & pre & rest & E0 & H0 & Hst & Hsz).
  set (f0 := set_reading _ _) in *.
  destruct (readU32LE_at _ _ _ _ H0) as [E1 H1]; [unfold is_u32; lia|].
  set (f1 := set_pos _ f0) in *.
  exists (pos f0 + 4), f0. split; [done|]. split; [done|].
  change (set_pos (pos f0 + 4) f0) with f1.
  erewrite (endReadSection_at f1 pre _ rest s _ H1 eq_refl Hst Hsz eq_refl).
  f_equal. unfold f1, f0, set_pos, set_reading. cbn. by rewrite <- Hr.
Qed.

Lemma getSectionSize_at f id bs :
  wf f -> first_section f id bs ->
  getSectionSize id 0 f = (f, Val (Z.of_nat (length bs))).
Proof.
  intros Hwf (s & l & Hs & Hin & <-). unfold getSectionSize, lookup_section, mbind, gets.
  rewrite Hs. change ((s :: l) !! Z.to_nat 0) with (Some s). unfold mret, sret.
  by rewrite section_bytes_length by (rewrite <- (wf_size _ Hwf); done).
Qed.

Lemma read_point_at f pre bs k n rest :
  at_cursor f pre (bs ++ rest) -> Z.of_nat (length bs) = k * n ->
  0 <= n < 2 ^ 30 -> 0 <= k <= 4 ->
  read (u32 (n * k)) f = (set_pos (pos f + u32 (n * k)) f, Val (Z.of_nat (length pre))) /\
  at_cursor (set_pos (pos f + u32 (n * k)) f) (pre ++ bs) rest /\
  bytes_at (data f) (Z.of_nat (length pre)) (length bs) = Some bs.
Proof.
  intros Hf Hl Hn Hk. pose proof (bytes_at_cursor _ _ _ _ Hf).
  destruct (read_at f pre bs rest (u32 (n * k)) Hf) as [E Hc]; [|done].
  rewrite Hl, u32_id; [ring|]. unfold is_u32. change (2 ^ 30) with 1073741824 in Hn.
  fold_pows. nia.
Qed.

Lemma zkey_loadHeader_at f d coefs :
  wf f -> readingSection f = None -> zkey_desc_ok d ->
  first_section f 1 (le_bytes 4 1) -> first_section f 2 (encode_zkey_header d) ->
  first_section f 4 coefs ->
  exists f' h, zkey_loadHeader f = (f', Val h) /\
    header_describes (data f) (Z.of_nat (length coefs)) h d.
Proof.
  intros Hwf Hr (Hnq & Hnr & Hq & Hrr & Hv1 & Hv2 & Hv3 & L1 & L2 & L3 & L4 & L5 & L6) S1 S2 S4.
  destruct (zkey_protocol_at f Hwf Hr S1) as (p & s1 & Ea & Eb & Ec).
  destruct (startReadSection_at (set_pos p f) 2 _ ltac:(by destruct Hwf; split) S2 Hr)
    as (s & pre & rest & E0 & H0 & Hst & Hsz).
  set (f0 := set_reading _ _) in *. unfold encode_zkey_header in H0. rewrite <- !app_assoc in H0.
  destruct (readU32LE_at _ _ _ _ H0) as [E1 H1]; [unfold is_u32; lia|]. set (f1 := set_pos _ f0) in *.
  destruct (import_number_at _ _ _ _ _ H1) as [E2 H2]; [lia|done|]. set (f2 := set_pos _ f1) in *.
  destruct (readU32LE_at _ _ _ _ H2) as [E3 H3]; [unfold is_u32; lia|]. set (f3 := set_pos _ f2) in *.
  destruct (import_number_at _ _ _ _ _ H3) as [E4 H4]; [lia|done|]. set (f4 := set_pos _ f3) in *.
  destruct (readU32LE_at _ _ _ _ H4) as [E5 H5]; [done|]. set (f5 := set_pos _ f4) in *.
  destruct (readU32LE_at _ _ _ _ H5) as [E6 H6]; [done|]. set (f6 := set_pos _ f5) in *.
  destruct (readU32LE_at _ _ _ _ H6) as [E7 H7]; [done|]. set (f7 := set_pos _ f6) in *.
  destruct (read_point_at _ _ _ 2 (d_n8q d) _ H7) as (E8 & H8 & B1); [done..|lia|]. set (f8 := set_pos _ f7) in *.
  destruct (read_point_at _ _ _ 2 (d_n8q d) _ H8) as (E9 & H9 & B2); [done..|lia|]. set (f9 := set_pos _ f8) in *.
  destruct (read_point_at _ _ _ 4 (d_n8q d) _ H9) as (E10 & H10 & B3); [done..|lia|]. set (f10 := set_pos _ f9) in *.
  destruct (read_point_at _ _ _ 4 (d_n8q d) _ H10) as (E11 & H11 & B4); [done..|lia|]. set (f11 := set_pos _ f10) in *.
  destruct (read_point_at _ _ _ 2 (d_n8q d) _ H11) as (E12 & H12 & B5); [done..|lia|]. set (f12 := set_pos _ f11) in *.
  destruct (read_point_at _ _ _ 4 (d_n8q d) _ H12) as (E13 & H13 & B6); [done..|lia|]. set (f13 := set_pos _ f12) in *.
  rewrite <- !app_assoc in H13.
  pose proof (endReadSection_at f13 pre _ rest s _ H13 eq_refl Hst Hsz eq_refl) as E14.
  pose proof (getSectionSize_at (set_reading None f13) 4 coefs ltac:(by destruct Hwf; split) S4) as E15.
  eexists _, _. split.
  - unfold zkey_loadHeader, mbind. rewrite Ea, Eb. cbn [negb Z.eqb Pos.eqb].
    rewrite Ec, E0, E1, E2, E3, E4, E5, E6, E7, E8, E9, E10, E11, E12, E13, E14, E15.
    rewrite u32_id by word_lia. destruct (Z.eqb_spec (12 + d_n8r d) 0); [lia|reflexivity].
  - by repeat split.
Qed.

(** *** From encoded files *)

Lemma first_section_encoded f id bs bss :
  map (section_bytes (data f)) (default [] (sections f !! i32 id)) = bs :: bss ->
  Forall (section_inside (size f)) (default [] (sections f !! i32 id)) ->
  first_section f id bs.
Proof.
  destruct (sections f !! i32 id) as [[|s l]|] eqn:E; cbn [default map]; intros Hb Hin;
    try discriminate Hb. injection Hb as Hb _. inversion_clear Hin. by exists s, l.
Qed.

(** C28: A proving-key file that describes a Groth16 header opens, and the header
    read from it has the described sizes, primes and counts, points to the
    described curve points, and counts the coefficients of section 4. *)
Theorem zkey_file_roundtrip v secs d coefs rest1 rest2 rest4 maxVersion ty :
  describable ty v secs -> v <= maxVersion -> Forall is_byte (encode_file ty v secs) ->
  zkey_desc_ok d -> payloads 1 secs = le_bytes 4 1 :: rest1 ->
  payloads 2 secs = encode_zkey_header d :: rest2 -> payloads 4 secs = coefs :: rest4 ->
  exists f f' h, openBinFile (encode_file ty v secs) ty maxVersion = (f, Val tt) /\
    zkey_loadHeader f = (f', Val h) /\
    header_describes (encode_file ty v secs) (Z.of_nat (length coefs)) h d.
Proof.
  intros Hdesc Hv Hb Hd P1 P2 P4.
  destruct (openBinFile_encoded ty v secs maxVersion Hdesc Hv Hb)
    as (f & Ho & Hwf & Hdata & _ & _ & Hr & Hsec).
  pose proof (Hsec 1) as [S1 I1]. pose proof (Hsec 2) as [S2 I2]. pose proof (Hsec 4) as [S4 I4].
  rewrite <- Hdata in S1, S2, S4. rewrite P1 in S1. rewrite P2 in S2. rewrite P4 in S4.
  destruct (zkey_loadHeader_at f d coefs) as (f' & h & Hl & Hh);
    try done; try (by eapply first_section_encoded).
  exists f, f', h. split; [done|]. split; [done|]. by rewrite <- Hdata.
Qed.

(** A witness file that describes a header opens and gives that header back. *)
Theorem wtns_file_roundtrip v secs h rest1 maxVersion ty :
  describable ty v secs -> v <= maxVersion -> Forall is_byte (encode_file ty v secs) ->
  wtns_header_ok h -> payloads 1 secs = encode_wtns_header h :: rest1 ->
  exists f f', openBinFile (encode_file ty v secs) ty maxVersion = (f, Val tt) /\
    wtns_loadHeader f = (f', Val h).
Proof.
  intros Hdesc Hv Hb Hh P1.
  destruct (openBinFile_encoded ty v secs maxVersion Hdesc Hv Hb)
    as (f & Ho & Hwf & Hdata & _ & _ & Hr & Hsec).
  pose proof (Hsec 1) as [S1 I1]. rewrite <- Hdata, P1 in S1.
  destruct (wtns_loadHeader_at f h) as [p Hl]; try done; [by eapply first_section_encoded|].
  by exists f, (set_reading None (set_pos p f)).
Qed.

(** *** Safety on arbitrary files *)

Definition readable (f : BinFile) : Prop := wf f /\ cursor_ok f /\ table_ok f.

Lemma lookup_section_ok id p (Q : FileSection -> BinFile -> Prop) f :
  readable f -> (forall s, section_ok (size f) s -> Q s f) -> ok (lookup_section id p) Q f.
Proof.
  intros (_ & _ & Ht) HQ. unfold lookup_section. do 2 ok_step.
  destruct (sections f !! i32 id) as [l|] eqn:E; [|by ok_step].
  destruct (l !! Z.to_nat p) as [s|] eqn:El; [|by ok_step]. ok_step. apply HQ.
  specialize (Ht _ _ E). by eapply Forall_lookup_1 in Ht.
Qed.

Lemma startReadSection_ok id p (Q : unit -> BinFile -> Prop) f :
  readable f ->
  (forall s g, readable g -> readingSection g = Some s -> size g = size f -> Q tt g) ->
  ok (startReadSection id p) Q f.
Proof.
  intros Hf HQ. unfold startReadSection. ok_step. apply lookup_section_ok; [done|].
  intros s (Hs & _). destruct Hf as (Hwf & _ & Ht). repeat ok_step.
  destruct (readingSection f); [by ok_step|]. repeat ok_step. apply (HQ s); [|done..].
  split; [by destruct Hwf; split|]. split; [exact Hs|exact Ht].
Qed.

Lemma readable_move f p : readable f -> 0 <= p <= size f -> readable (set_pos p f).
Proof. intros (Hwf & _ & Ht) Hp. split; [by destruct Hwf; split|]. by split. Qed.

Lemma readU32LE_safe (Q : Z -> BinFile -> Prop) f :
  readable f ->
  (forall v g, is_u32 v -> readable g -> readingSection g = readingSection f ->
     size g = size f -> Q v g) -> ok readU32LE Q f.
Proof.
  intros Hf HQ. pose proof Hf as (Hwf & Hc & Ht). apply readU32LE_ok; [done..|].
  intros v Hv Hle. apply HQ; try done. apply readable_move; [done|]. unfold cursor_ok in Hc. lia.
Qed.

Lemma read_safe n (Q : Z -> BinFile -> Prop) f :
  readable f -> 0 <= n < 2 ^ 32 ->
  (forall p g, 0 <= p -> p + n <= size f -> readable g -> readingSection g = readingSection f ->
     size g = size f -> Q p g) -> ok (read n) Q f.
Proof.
  intros Hf Hn HQ. pose proof Hf as (Hwf & Hc & Ht). pose proof (wf_small _ Hwf).
  unfold cursor_ok in Hc. unfold read. repeat ok_step. rewrite u64_id by word_lia.
  destruct (Z.gtb_spec (pos f + n) (size f)); [by ok_step|]. repeat ok_step.
  apply HQ; try done; [lia..|]. apply readable_move; [done|lia].
Qed.

Lemma import_number_safe n (Q : Z -> BinFile -> Prop) f :
  readable f -> 0 <= n < 2 ^ 32 ->
  (forall v g, readable g -> readingSection g = readingSection f -> size g = size f ->
     n <= size f -> Q v g) ->
  ok (import_number n) Q f.
Proof.
  intros Hf Hn HQ. unfold import_number. ok_step. apply read_safe; [done..|].
  intros p g Hp Hle Hg Hr Hs. do 2 ok_step. destruct Hg as (Hwf & Hg).
  destruct (bytes_at (data g) p (Z.to_nat n)) eqn:E.
  - ok_step. apply HQ; try done. lia.
  - unfold bytes_at in E. rewrite <- (wf_size _ Hwf), Z2Nat.id, Hs in E by lia.
    destruct (Z.leb_spec 0 p), (Z.leb_spec (p + n) (size f)); cbn [andb] in E; lia || done.
Qed.

Lemma endReadSection_safe (Q : unit -> BinFile -> Prop) f :
  readable f -> readingSection f <> None ->
  (forall g, readable g -> size g = size f -> Q tt g) -> ok (endReadSection true) Q f.
Proof.
  intros (Hwf & Hc & Ht) Hr HQ. unfold endReadSection. repeat ok_step. destruct (readingSection f); [|done].
  destruct (negb _); [by ok_step|]. repeat ok_step. apply HQ; [|done].
  split; [by destruct Hwf; split|]. by split.
Qed.

(** One call of a header reader. *)
Ltac safe_step :=
  lazymatch goal with
  | |- ok (mbind _ _) _ _ => apply ok_bind
  | |- ok (startReadSection _ _) _ _ => apply startReadSection_ok; [done|]
  | |- ok readU32LE _ _ => apply readU32LE_safe; [done|]
  | |- ok (read _) _ _ => apply read_safe; [done|apply u32_range|]
  | |- ok (import_number _) _ _ => apply import_number_safe; [done|eassumption|]
  | |- ok (endReadSection true) _ _ => apply endReadSection_safe; [done|congruence|]
  | |- ok (if negb ?b then throw _ else _) _ _ => destruct (negb b); [by ok_step|]
  | |- ok (mret _) _ _ => ok_step; done
  end; intros.

(** On any file the reader has accepted (smaller than 4 GiB), both header readers
    touch no memory outside the file and leave a readable file, whatever its
    sections hold. *)
Theorem loadHeader_safe f :
  readable f -> size f < 2 ^ 32 - 12 ->
  ok zkey_loadHeader (fun _ g => readable g) f /\ ok wtns_loadHeader (fun _ g => readable g) f.
Proof.
  intros Hf Hsz. pose proof (u32_range) as Hu. unfold is_u32 in Hu.
  split; [unfold zkey_loadHeader|unfold wtns_loadHeader]; repeat safe_step.
  unfold getSectionSize. ok_step. apply lookup_section_ok; [done|]. intros sec _. ok_step.
  match goal with |- context [12 + ?n] =>
    rewrite (u32_id (12 + n)) by (unfold is_u32 in *; fold_pows; lia);
    destruct (Z.eqb_spec (12 + n) 0); [unfold is_u32 in *; lia|]
  end. by ok_step.
Qed.
End HeaderSpec.

(** ** Instances *)

Section Witnesses.
Definition demo_zkey_type : list Z := [122; 107; 101; 121].

Definition demo_zkey : ZKeyDesc :=
  mkZKeyDesc 1 7 1 5 10 2 16 [1; 2] [3; 4] [5; 6; 7; 8] [9; 10; 11; 12] [13; 14] [15; 16; 17; 18].

Definition demo_zkey_sections : list (Z * list Z) :=
  [(1, le_bytes 4 1); (2, encode_zkey_header demo_zkey); (4, replicate 26 0)].

Ltac closed := first [reflexivity | split; [vm_compute; discriminate|vm_compute; reflexivity]].

Lemma demo_zkey_describable : describable demo_zkey_type 1 demo_zkey_sections.
Proof.
  split; [reflexivity|]. do 2 (split; [closed|]). split; [|vm_compute; reflexivity].
  repeat (apply Forall_cons_2; [closed|]). apply Forall_nil_2.
Qed.

Lemma zkey_file_roundtrip_witness :
  exists f f' h, openBinFile (encode_file demo_zkey_type 1 demo_zkey_sections) demo_zkey_type 1 = (f, Val tt) /\
    zkey_loadHeader f = (f', Val h) /\
    header_describes (encode_file demo_zkey_type 1 demo_zkey_sections)
      (Z.of_nat (length (replicate 26 0))) h demo_zkey.
Proof.
  eapply (zkey_file_roundtrip 1 demo_zkey_sections demo_zkey (replicate 26 0));
    [apply demo_zkey_describable|lia|vm_compute; bytes_ok| |reflexivity..].
  repeat (split; [closed|]). closed.
Defined.

Definition demo_wtns : WtnsHeader := mkWtnsHeader 2 65521 3.

Lemma demo_wtns_describable :
  describable [119; 116; 110; 115] 2 [(1, encode_wtns_header demo_wtns)].
Proof.
  split; [reflexivity|]. do 2 (split; [closed|]). split; [|vm_compute; reflexivity].
  repeat (apply Forall_cons_2; [closed|]). apply Forall_nil_2.
Qed.

Lemma wtns_file_roundtrip_witness :
  exists f f', openBinFile (encode_file [119; 116; 110; 115] 2 [(1, encode_wtns_header demo_wtns)])
      [119; 116; 110; 115] 2 = (f, Val tt) /\ wtns_loadHeader f = (f', Val demo_wtns).
Proof.
  eapply wtns_file_roundtrip;
    [apply demo_wtns_describable|lia|vm_compute; bytes_ok| |reflexivity].
  repeat (split; [closed|]). closed.
Defined.

(** A file whose table lists a section that is too short to be a header. *)
Definition short_file : BinFile :=
  mkBinFile [1; 0; 0; 0; 5] 5 0 {[1 := [mkSection 0 2]]} [] 1 None.

Lemma loadHeader_safe_witness :
  ok zkey_loadHeader (fun _ g => readable g) short_file /\
  ok wtns_loadHeader (fun _ g => readable g) short_file.
Proof.
  apply loadHeader_safe; [|vm_compute; reflexivity]. split; [|split].
  - split; [reflexivity|vm_compute; reflexivity|bytes_ok].
  - split; [reflexivity|vm_compute; discriminate].
  - unfold table_ok. cbn [sections short_file]. apply map_Forall_singleton, Forall_singleton.
    split; [split; vm_compute; discriminate|]. split; [closed|vm_compute; discriminate].
Defined.
End Witnesses.
