(* ===== verification/Group.v ===== *)
(** What scalar multiplication needs of a group: an abelian group as the reference,
    multiples of its elements, and the interface a class of points offers, an
    element of the class standing for an element of the group. *)

From S2P Require Import Prelude.

(** ** The reference *)

Class AbGroup (G : Type) := {
  gzero : G;
  gplus : G -> G -> G;
  gopp : G -> G
}.

Class AbGroupLaws (G : Type) `{AbGroup G} : Prop := {
  gplus_assoc x y z : gplus x (gplus y z) = gplus (gplus x y) z;
  gplus_comm x y : gplus x y = gplus y x;
  gplus_0_l x : gplus gzero x = x;
  gplus_opp_r x : gplus x (gopp x) = gzero
}.

(** [n] times [x], and [n] times for an integer. *)
Fixpoint nmul {G} `{AbGroup G} (n : nat) (x : G) : G :=
  match n with O => gzero | S n => gplus x (nmul n x) end.

Definition zmul {G} `{AbGroup G} (n : Z) (x : G) : G :=
  if 0 <=? n then nmul (Z.to_nat n) x else gopp (nmul (Z.to_nat (- n)) x).

(** The sum of a list. *)
Definition gsum {G} `{AbGroup G} (l : list G) : G := foldr gplus gzero l.

Section GroupLemmas.
Context {G : Type} `{GL : AbGroupLaws G}.

Lemma gplus_0_r x : gplus x gzero = x.
Proof. by rewrite gplus_comm, gplus_0_l. Qed.

Lemma gplus_opp_l x : gplus (gopp x) x = gzero.
Proof. by rewrite gplus_comm, gplus_opp_r. Qed.

Lemma gplus_cancel_l x y z : gplus x y = gplus x z -> y = z.
Proof.
  intros E. rewrite <- (gplus_0_l y), <- (gplus_0_l z), <- (gplus_opp_l x).
  by rewrite <- !gplus_assoc, E.
Qed.

Lemma gplus_swap x y z : gplus x (gplus y z) = gplus y (gplus x z).
Proof. by rewrite gplus_assoc, (gplus_comm x y), <- gplus_assoc. Qed.

Lemma gplus_exchange x y z w : gplus (gplus x y) (gplus z w) = gplus (gplus x z) (gplus y w).
Proof. by rewrite <- !gplus_assoc, (gplus_swap y z). Qed.

Lemma gopp_unique x y : gplus x y = gzero -> y = gopp x.
Proof. intros E. apply (gplus_cancel_l x). by rewrite E, gplus_opp_r. Qed.

Lemma gopp_zero : gopp gzero = gzero.
Proof. symmetry. apply gopp_unique. apply gplus_0_l. Qed.

Lemma gopp_plus x y : gopp (gplus x y) = gplus (gopp x) (gopp y).
Proof.
  symmetry. apply gopp_unique. by rewrite gplus_exchange, !gplus_opp_r, gplus_0_l.
Qed.

Lemma gopp_opp x : gopp (gopp x) = x.
Proof. symmetry. apply gopp_unique, gplus_opp_l. Qed.

Lemma nmul_add n m x : nmul (n + m) x = gplus (nmul n x) (nmul m x).
Proof.
  induction n as [|n IH]; cbn [nmul Nat.add]; [by rewrite gplus_0_l|].
  by rewrite IH, gplus_assoc.
Qed.

Lemma nmul_zero n : nmul n gzero = gzero.
Proof. induction n as [|n IH]; cbn [nmul]; [done|by rewrite IH, gplus_0_l]. Qed.

Lemma nmul_plus n x y : nmul n (gplus x y) = gplus (nmul n x) (nmul n y).
Proof.
  induction n as [|n IH]; cbn [nmul]; [by rewrite gplus_0_l|]. by rewrite IH, gplus_exchange.
Qed.

(** *** Integer multiples *)

Lemma zmul_nat n x : zmul (Z.of_nat n) x = nmul n x.
Proof. unfold zmul. destruct (Z.leb_spec 0 (Z.of_nat n)); [by rewrite Nat2Z.id|lia]. Qed.

Lemma zmul_0 x : zmul 0 x = gzero.
Proof. done. Qed.
Lemma zmul_1 x : zmul 1 x = x.
Proof. cbn. apply gplus_0_r. Qed.

Lemma zmul_opp n x : zmul (- n) x = gopp (zmul n x).
Proof.
  unfold zmul. destruct (Z.leb_spec 0 n), (Z.leb_spec 0 (- n)); try lia.
  - assert (n = 0) as -> by lia. symmetry. apply gopp_zero.
  - by rewrite Z.opp_involutive.
  - by rewrite gopp_opp.
Qed.

Lemma zmul_succ n x : zmul (n + 1) x = gplus x (zmul n x).
Proof.
  unfold zmul. destruct (Z.leb_spec 0 n), (Z.leb_spec 0 (n + 1)); try lia.
  - replace (Z.to_nat (n + 1)) with (S (Z.to_nat n)) by lia. done.
  - assert (n = -1) as -> by lia. change (gzero = gplus x (gopp (gplus x gzero))).
    by rewrite gplus_0_r, gplus_opp_r.
  - replace (Z.to_nat (- n)) with (S (Z.to_nat (- (n + 1)))) by lia. cbn [nmul].
    by rewrite gopp_plus, gplus_assoc, gplus_opp_r, gplus_0_l.
Qed.

Lemma zmul_add_nat n m x : zmul (Z.of_nat n + m) x = gplus (nmul n x) (zmul m x).
Proof.
  induction n as [|n IH]; [cbn [nmul]; by rewrite gplus_0_l|].
  replace (Z.of_nat (S n) + m) with (Z.of_nat n + m + 1) by lia.
  by rewrite zmul_succ, IH, gplus_assoc.
Qed.

Lemma zmul_add n m x : zmul (n + m) x = gplus (zmul n x) (zmul m x).
Proof.
  destruct (Z.le_ge_cases 0 n).
  - replace n with (Z.of_nat (Z.to_nat n)) by lia. by rewrite zmul_add_nat, zmul_nat.
  - apply (gplus_cancel_l (zmul (- n) x)).
    rewrite gplus_assoc, zmul_opp, gplus_opp_l, gplus_0_l, <- zmul_opp.
    replace (- n) with (Z.of_nat (Z.to_nat (- n))) by lia. rewrite zmul_nat, <- zmul_add_nat.
    f_equal. lia.
Qed.

Lemma zmul_plus n x y : zmul n (gplus x y) = gplus (zmul n x) (zmul n y).
Proof. unfold zmul. case_match; rewrite nmul_plus; [done|apply gopp_plus]. Qed.

Lemma zmul_zero n : zmul n gzero = gzero.
Proof. unfold zmul. case_match; rewrite nmul_zero; [done|apply gopp_zero]. Qed.

Lemma zmul_double n x : zmul (2 * n) x = gplus (zmul n x) (zmul n x).
Proof. rewrite <- zmul_add. f_equal. lia. Qed.

Lemma zmul_mul n m x : zmul (n * m) x = zmul n (zmul m x).
Proof.
  assert (Hnat : forall n, zmul (Z.of_nat n * m) x = zmul (Z.of_nat n) (zmul m x)).
  { clear n. intros n. induction n as [|n IH]; [done|].
    replace (Z.of_nat (S n) * m) with (Z.of_nat n * m + m) by lia.
    replace (Z.of_nat (S n)) with (Z.of_nat n + 1) by lia.
    by rewrite zmul_succ, zmul_add, IH, gplus_comm. }
  destruct (Z.le_ge_cases 0 n).
  - replace n with (Z.of_nat (Z.to_nat n)) by lia. apply Hnat.
  - replace (n * m) with (- (Z.of_nat (Z.to_nat (- n)) * m))
      by (rewrite Z2Nat.id by lia; ring).
    rewrite zmul_opp, Hnat, <- zmul_opp. f_equal. lia.
Qed.

(** *** Sums *)

Lemma gsum_app l1 l2 : gsum (l1 ++ l2) = gplus (gsum l1) (gsum l2).
Proof.
  induction l1 as [|x l1 IH]; cbn; [by rewrite gplus_0_l|].
  unfold gsum in IH. by rewrite IH, gplus_assoc.
Qed.

Lemma gsum_plus {A} (f g : A -> G) l :
  gsum (map (fun a => gplus (f a) (g a)) l) = gplus (gsum (map f l)) (gsum (map g l)).
Proof.
  induction l as [|a l IH]; cbn; [by rewrite gplus_0_l|].
  unfold gsum in IH. by rewrite IH, gplus_exchange.
Qed.

Lemma zmul_gsum n l : zmul n (gsum l) = gsum (map (zmul n) l).
Proof.
  induction l as [|x l IH]; cbn; [apply zmul_zero|]. unfold gsum in IH. by rewrite zmul_plus, IH.
Qed.

Lemma gsum_zeros {A} (l : list A) : gsum (map (fun _ => gzero) l) = gzero.
Proof. induction l as [|x l IH]; cbn; [done|]. unfold gsum in IH. by rewrite IH, gplus_0_l. Qed.
End GroupLemmas.

(** ** The interface of a class of points

    [Out] is the type of accumulators, [In] the one of the points added to them:
    [Curve::add] and [Curve::sub] exist for both kinds of second argument. *)

Class PointOps (In Out : Type) := {
  pt_zero : Out;
  pt_dbl : Out -> Out;
  pt_add : Out -> In -> Out;
  pt_sub : Out -> In -> Out
}.

(** Each point stands for an element of the group, and the operations for its
    operations, on the points that are valid. *)
Class PointSem (G In Out : Type) `{AbGroup G} `{PointOps In Out} := {
  in_ok : In -> Prop;
  out_ok : Out -> Prop;
  in_val : In -> G;
  out_val : Out -> G
}.

Class PointLaws (G In Out : Type) `{PointSem G In Out} : Prop := {
  pt_zero_law : out_ok pt_zero /\ out_val pt_zero = gzero;
  pt_dbl_law r : out_ok r ->
    out_ok (pt_dbl r) /\ out_val (pt_dbl r) = gplus (out_val r) (out_val r);
  pt_add_law r b : out_ok r -> in_ok b ->
    out_ok (pt_add r b) /\ out_val (pt_add r b) = gplus (out_val r) (in_val b);
  pt_sub_law r b : out_ok r -> in_ok b ->
    out_ok (pt_sub r b) /\ out_val (pt_sub r b) = gplus (out_val r) (gopp (in_val b))
}.

(** A curve: accumulators of type [Pt] to which affine points and other accumulators
    are added. *)
Class CurveOps (Affine Pt : Type) := {
  mixed_ops :: PointOps Affine Pt;
  pt_plus : Pt -> Pt -> Pt
}.

Class CurveLaws (G Affine Pt : Type) `{AbGroup G} {C : CurveOps Affine Pt}
    {S : PointSem G Affine Pt} : Prop := {
  mixed_laws :: PointLaws G Affine Pt;
  pt_plus_law r s : out_ok r -> out_ok s ->
    out_ok (pt_plus r s) /\ out_val (pt_plus r s) = gplus (out_val r) (out_val s)
}.

(** ** Instance: the integers *)

#[export] Instance Z_group : AbGroup Z := {| gzero := 0; gplus := Z.add; gopp := Z.opp |}.
#[export] Instance Z_group_laws : AbGroupLaws Z.
Proof. split; cbn; intros; lia. Qed.

Definition Z_points : PointOps Z Z :=
  {| pt_zero := 0; pt_dbl r := 2 * r; pt_add := Z.add; pt_sub := Z.sub |}.
Definition Z_sem : @PointSem Z Z Z _ Z_points :=
  @Build_PointSem Z Z Z _ Z_points (fun _ => True) (fun _ => True) (fun x => x) (fun x => x).
Lemma Z_point_laws : @PointLaws Z Z Z _ Z_points Z_sem.
Proof. split; cbn; intros; split; trivial; lia. Qed.

Definition Z_curve : CurveOps Z Z := {| mixed_ops := Z_points; pt_plus := Z.add |}.
Lemma Z_curve_laws : @CurveLaws Z Z Z _ Z_curve Z_sem.
Proof. split; [apply Z_point_laws|]. cbn. by split. Qed.
