(* ===== verification/Naf.v ===== *)
(** Scalar multiplication by the non-adjacent form: [naf.cpp] and the template
    [nafMulByScalar] of [exp.hpp].  The table is computed by the code's own loop;
    a read outside the scalar or outside the digits is [None]. *)

From S2P Require Import Prelude Mpz Group.

(** ** The table of digits *)

(** One round of the inner loop of [buildNafTable]: the digit (2 stands for -1),
    [last] and [carry]. *)
Definition naf_round (last cur carry : bool) : Z * bool * bool :=
  if last then
    if cur then
      if carry then (1, false, true) else (2, false, true)
    else
      if carry then (2, false, true) else (1, false, false)
  else
    if cur then
      if carry then (0, false, true) else (0, true, false)
    else
      if carry then (0, true, false) else (0, false, false).

(** The rounds [i], ..., [7], [n] of them. *)
Fixpoint naf_rounds (n : nat) (i inp : Z) (last carry : bool) : list Z * bool * bool :=
  match n with
  | O => ([], last, carry)
  | S n =>
      let cur := negb (Z.land inp (Z.shiftl 1 (i + 1)) =? 0) in
      let '(d, last, carry) := naf_round last cur carry in
      let '(res, last, carry) := naf_rounds n (i + 1) inp last carry in
      (d :: res, last, carry)
  end.

Definition naf_entry (inp : Z) : Z :=
  let carry := negb (Z.land inp 0x200 =? 0) in
  let last := negb (Z.land inp 1 =? 0) in
  let '(res, last, carry) := naf_rounds 8 0 inp last carry in
  let r64 := le_value res in
  let r64 := if carry then Z.lor r64 0x4 else r64 in
  if last then Z.lor r64 0x8 else r64.

(** [buildNafTable] *)
Definition NAFTable : list Z := map naf_entry (seqZ 0 1024).

(** ** The digits of a scalar *)

(** The index into the table, from the bytes at [i] and [i + 1]. *)
Definition naf_index (scalar : list Z) (scalarSize i : Z) (last carry : bool) : option Z :=
  let st := if last then 1 else 0 in
  st ← (if i <? scalarSize
        then b ← scalar !! Z.to_nat i; Some (st + Z.land b 0xFE) else Some st);
  st ← (if i <? u32 (scalarSize - 1)
        then b ← scalar !! Z.to_nat (i + 1); Some (st + Z.shiftl (Z.land b 1) 8) else Some st);
  Some (if carry then st + 0x200 else st).

(** The rounds [i], ... of the loop of [buildNaf], [n] of them. *)
Fixpoint naf_words (n : nat) (scalar : list Z) (scalarSize i : Z) (last carry : bool) :
    option (list Z) :=
  match n with
  | O => Some []
  | S n =>
      st ← naf_index scalar scalarSize i last carry;
      rs ← NAFTable !! Z.to_nat st;
      let carry := negb (Z.land rs 4 =? 0) in
      let last := negb (Z.land rs 8 =? 0) in
      r ← naf_words n scalar scalarSize (i + 1) last carry;
      Some (le_bytes 8 (Z.land rs 0x0303030303030303) ++ r)
  end.

Definition buildNaf (scalar : list Z) (scalarSize : Z) : option (list Z) :=
  b ← scalar !! 0%nat;
  naf_words (Z.to_nat (u32 (scalarSize + 2))) scalar scalarSize 0 (negb (Z.land b 1 =? 0)) false.

(** ** Scalar multiplication *)

Section Multiplication.
Context {In Out : Type} {PO : PointOps In Out}.

(** [while ((i >= 0) && (naf[i] == 0)) i--;] from [i = n - 1]. *)
Fixpoint skip_zeros (naf : list Z) (n : nat) : option nat :=
  match n with
  | O => Some 0%nat
  | S n => d ← naf !! n; if d =? 0 then skip_zeros naf n else Some (S n)
  end.

(** [while (i >= 0) { ... }] from [i = n - 1]. *)
Fixpoint naf_loop (naf : list Z) (base : In) (n : nat) (r : Out) : option Out :=
  match n with
  | O => Some r
  | S n =>
      d ← naf !! n;
      let r := pt_dbl r in
      let r := if d =? 1 then pt_add r base else if d =? 2 then pt_sub r base else r in
      naf_loop naf base n r
  end.

Definition nafMulByScalar (base : In) (scalar : list Z) (scalarSize : Z) : option Out :=
  let nBits := i32 (u32 (scalarSize * 8 + 2)) in
  naf ← buildNaf scalar scalarSize;
  n ← skip_zeros naf (Z.to_nat nBits);
  naf_loop naf base n pt_zero.
End Multiplication.

(** ** The value of digits *)

Definition digit (d : Z) : Z := if d =? 2 then -1 else d.

Fixpoint naf_value (ds : list Z) : Z :=
  match ds with [] => 0 | d :: ds => digit d + 2 * naf_value ds end.

(** No two neighbours are both non-zero; [prev] tells whether the digit before is. *)
Fixpoint sparse (prev : bool) (ds : list Z) : bool :=
  match ds with
  | [] => true
  | d :: ds => negb (prev && negb (d =? 0)) && sparse (negb (d =? 0)) ds
  end.

Definition is_digit (d : Z) : bool := (d =? 0) || (d =? 1) || (d =? 2).

Lemma naf_value_app l1 l2 :
  naf_value (l1 ++ l2) = naf_value l1 + 2 ^ Z.of_nat (length l1) * naf_value l2.
Proof.
  induction l1 as [|d l1 IH]; cbn [naf_value app length]; [lia|].
  rewrite IH, Nat2Z.inj_succ, Z.pow_succ_r by lia. ring.
Qed.

Lemma naf_value_zeros n : naf_value (replicate n 0) = 0.
Proof. induction n as [|n IH]; cbn [naf_value replicate]; [done|]. rewrite IH. done. Qed.

(** Whether the last digit is non-zero. *)
Fixpoint busy_end (prev : bool) (ds : list Z) : bool :=
  match ds with [] => prev | d :: ds => busy_end (negb (d =? 0)) ds end.

Lemma sparse_app p l1 l2 :
  sparse p (l1 ++ l2) = sparse p l1 && sparse (busy_end p l1) l2.
Proof.
  revert p. induction l1 as [|d l1 IH]; intros p; cbn [sparse busy_end app]; [done|].
  by rewrite IH, andb_assoc.
Qed.

(** ** What an entry of the table holds *)

Definition entry_digits (rs : Z) : list Z := le_bytes 8 (Z.land rs 0x0303030303030303).
Definition entry_last (rs : Z) : bool := negb (Z.land rs 8 =? 0).
Definition entry_carry (rs : Z) : bool := negb (Z.land rs 4 =? 0).

(** The digits and the flags stand for the same number as the index, no flag is
    both, and the digits are sparse, also across the flags. *)
Definition entry_ok (st rs : Z) : bool :=
  (st mod 512 + 2 * (st / 512) =?
    naf_value (entry_digits rs) + 256 * (b2z (entry_last rs) + 2 * b2z (entry_carry rs))) &&
  negb (entry_last rs && entry_carry rs) &&
  forallb is_digit (entry_digits rs) &&
  sparse (Z.even st) (entry_digits rs) &&
  negb (busy_end false (entry_digits rs) && entry_last rs).

Lemma table_checked : forallb (fun st => entry_ok st (naf_entry st)) (seqZ 0 1024) = true.
Proof. vm_compute. reflexivity. Qed.

Lemma table_lookup st :
  0 <= st < 1024 -> exists rs, NAFTable !! Z.to_nat st = Some rs /\ rs = naf_entry st /\
    entry_ok st rs = true.
Proof.
  intros Hst. exists (naf_entry st).
  assert (Hs : seqZ 0 1024 !! Z.to_nat st = Some st).
  { apply lookup_seqZ. lia. }
  unfold NAFTable. rewrite list_lookup_fmap, Hs. split; [done|]. split; [done|].
  apply (proj1 (forallb_forall _ _) table_checked).
  by eapply list_elem_of_In, list_elem_of_lookup_2.
Qed.

(** ** The digits of a scalar *)

Lemma land_1 b : Z.land b 1 = b mod 2.
Proof. change 1 with (Z.ones 1). by rewrite Z.land_ones by lia. Qed.

Lemma land_fe b : is_byte b -> Z.land b 0xFE = b - b mod 2.
Proof.
  intros Hb.
  assert (H : forallb (fun x => Z.land x 0xFE =? x - x mod 2) (seqZ 0 256) = true)
    by (vm_compute; reflexivity).
  apply Z.eqb_eq. apply (proj1 (forallb_forall _ _) H), list_elem_of_In, elem_of_seqZ.
  unfold is_byte in Hb. lia.
Qed.

(** What is left to write at the byte [i]: the flags, and the bytes from [i] on
    without their first bit, which is in the flags. *)
Definition left_over (scalar : list Z) (i : nat) (last carry : bool) : Z :=
  let v := le_value (drop i scalar) in b2z last + 2 * b2z carry + (v - v mod 2).

Lemma le_value_drop s i b :
  s !! i = Some b -> le_value (drop i s) = b + 256 * le_value (drop (S i) s).
Proof. intros H. by rewrite (drop_S s b i H). Qed.

Lemma le_value_mod2 s i b :
  s !! i = Some b -> le_value (drop i s) mod 2 = b mod 2.
Proof.
  intros H. rewrite (le_value_drop s i b H). rewrite Zplus_mod.
  replace (256 * le_value (drop (S i) s)) with (128 * le_value (drop (S i) s) * 2) by ring.
  by rewrite Z.mod_mul, Z.add_0_r, Z.mod_mod by lia.
Qed.

(** Inside the scalar the index holds the flags, the byte without its first bit and
    the first bit of the next byte. *)
Lemma naf_index_spec s i last carry :
  Forall is_byte s -> (i < length s)%nat -> Z.of_nat (length s) < 2 ^ 28 ->
  exists st, naf_index s (Z.of_nat (length s)) (Z.of_nat i) last carry = Some st /\
    0 <= st < 1024 /\ Z.even st = negb last /\
    st mod 512 + 2 * (st / 512) + 256 * left_over s (S i) false false =
      left_over s i last carry.
Proof.
  intros Hs Hi Hlen. destruct (lookup_lt_is_Some_2 s i Hi) as [b Hb].
  assert (Hbyte : is_byte b) by (by eapply Forall_lookup_1).
  unfold naf_index. rewrite (proj2 (Z.ltb_lt (Z.of_nat i) (Z.of_nat (length s)))) by lia.
  rewrite Nat2Z.id, Hb.
  cbn [mbind option_bind]. rewrite land_fe by done.
  rewrite u32_id by word_lia. unfold left_over.
  rewrite (le_value_mod2 s i b Hb), (le_value_drop s i b Hb).
  pose proof (Z.mod_pos_bound b 2 ltac:(lia)). pose proof (Z.div_mod b 2 ltac:(lia)).
  unfold is_byte in Hbyte.
  set (V := le_value (drop (S i) s)).
  assert (Hnext : exists c, 0 <= c <= 1 /\ V mod 2 = c /\
    (if Z.of_nat i <? Z.of_nat (length s) - 1
     then b' ← s !! Z.to_nat (Z.of_nat i + 1);
       Some ((if last then 1 else 0) + (b - b mod 2) + Z.shiftl (Z.land b' 1) 8)
     else Some ((if last then 1 else 0) + (b - b mod 2))) =
    Some ((if last then 1 else 0) + (b - b mod 2) + 256 * c)).
  { destruct (Z.ltb_spec (Z.of_nat i) (Z.of_nat (length s) - 1)) as [Hl|Hl].
    - destruct (lookup_lt_is_Some_2 s (S i) ltac:(lia)) as [b' Hb'].
      exists (b' mod 2). split; [pose proof (Z.mod_pos_bound b' 2); lia|].
      split; [by apply le_value_mod2|].
      replace (Z.to_nat (Z.of_nat i + 1)) with (S i) by lia. rewrite Hb'. cbn [mbind option_bind].
      rewrite land_1, Z.shiftl_mul_pow2 by lia. f_equal. change (2 ^ 8) with 256. ring.
    - exists 0. split; [lia|]. split.
      + unfold V. rewrite drop_ge by lia. done.
      + f_equal. ring. }
  destruct Hnext as (c & Hc & HV & ->). cbn [mbind option_bind].
  set (h := b / 2) in *. set (l := b mod 2) in *. unfold b2z. rewrite HV.
  assert (Hst : forall st C L : Z, st = L + 2 * h + 256 * c + 512 * C -> 0 <= L <= 1 ->
    0 <= C <= 1 -> 0 <= st < 1024 /\ Z.even st = negb (L =? 1) /\
    st mod 512 + 2 * (st / 512) = L + 2 * h + 256 * c + 2 * C).
  { intros st C L -> HL HC. split; [lia|]. split.
    - assert (HL' : L = 0 \/ L = 1) by lia.
      rewrite !Z.even_add, !Z.even_mul. by destruct HL' as [-> | ->].
    - Z.div_mod_to_equations. lia. }
  eexists. split; [reflexivity|].
  destruct (Hst (if carry then (if last then 1 else 0) + (b - l) + 256 * c + 512
                 else (if last then 1 else 0) + (b - l) + 256 * c)
    (if carry then 1 else 0) (if last then 1 else 0)) as (H1 & H2 & H3);
    [destruct carry; lia|destruct last; lia|destruct carry; lia|].
  split; [exact H1|]. split; [rewrite H2; by destruct last|]. rewrite H3.
  destruct last, carry; lia.
Qed.

Lemma sparse_weaken p q ds : (q = true -> p = true) -> sparse p ds = true -> sparse q ds = true.
Proof.
  destruct ds as [|d ds]; [done|]. cbn [sparse]. intros Hpq [H1 H2]%andb_true_iff.
  rewrite H2, andb_true_r. destruct q; [|done]. by rewrite (Hpq eq_refl) in H1.
Qed.

(** The words past the scalar: what the flags still hold, and zeros. *)
Lemma naf_words_end s last carry :
  (0 < length s)%nat -> Z.of_nat (length s) < 2 ^ 28 -> last && carry = false ->
  exists ds, naf_words 2 s (Z.of_nat (length s)) (Z.of_nat (length s)) last carry =
      Some (ds ++ replicate 14 0) /\ length ds = 2%nat /\
    naf_value ds = b2z last + 2 * b2z carry /\ forallb is_digit ds = true /\
    sparse (negb last) ds = true.
Proof.
  intros Hpos Hlen Hlc.
  assert (E : forall i last carry, Z.of_nat (length s) <= i ->
    naf_index s (Z.of_nat (length s)) i last carry =
      Some ((if last then 1 else 0) + if carry : bool then 512 else 0)).
  { intros i l c Hi. unfold naf_index. rewrite u32_id by word_lia.
    rewrite (proj2 (Z.ltb_ge i (Z.of_nat (length s)))) by lia. cbn [mbind option_bind].
    rewrite (proj2 (Z.ltb_ge i (Z.of_nat (length s) - 1))) by lia. cbn [mbind option_bind].
    by destruct l, c. }
  assert (T0 : NAFTable !! Z.to_nat 0 = Some 0) by (vm_compute; reflexivity).
  assert (T1 : NAFTable !! Z.to_nat 1 = Some 1) by (vm_compute; reflexivity).
  assert (T2 : NAFTable !! Z.to_nat 512 = Some 256) by (vm_compute; reflexivity).
  destruct last, carry; try discriminate Hlc; cbn [naf_words]; rewrite E by lia; cbn [mbind option_bind];
    change (1 + 0) with 1; change (0 + 0) with 0; change (0 + 512) with 512;
    rewrite ?T0, ?T1, ?T2; cbn [mbind option_bind]; rewrite E by lia; cbn [mbind option_bind];
    [change (Z.to_nat _) with (Z.to_nat 0)..]; rewrite T0; cbn [mbind option_bind];
    [exists [1; 0]|exists [0; 1]|exists [0; 0]]; repeat split.
Qed.

Lemma naf_words_spec s k i last carry :
  Forall is_byte s -> (0 < length s)%nat -> Z.of_nat (length s) < 2 ^ 28 ->
  (i + k = length s)%nat -> last && carry = false ->
  exists ds, naf_words (k + 2) s (Z.of_nat (length s)) (Z.of_nat i) last carry =
      Some (ds ++ replicate 14 0) /\ length ds = (8 * k + 2)%nat /\
    naf_value ds = left_over s i last carry /\ forallb is_digit ds = true /\
    sparse (negb last) ds = true.
Proof.
  intros Hs Hpos Hlen. revert i last carry. induction k as [|k IH]; intros i last carry Hik Hlc.
  - assert (i = length s) as -> by lia.
    destruct (naf_words_end s last carry Hpos Hlen Hlc) as (ds & E & H1 & H2 & H3 & H4).
    exists ds. split; [exact E|]. split; [done|]. split; [|done].
    unfold left_over. rewrite drop_ge by lia. cbn [le_value]. change (0 - 0 mod 2) with 0. lia.
  - destruct (naf_index_spec s i last carry Hs) as (st & E & Hst & Heven & Hval); [lia..|].
    destruct (table_lookup st Hst) as (rs & Ht & _ & Hok).
    unfold entry_ok in Hok. rewrite !andb_true_iff, Z.eqb_eq, negb_true_iff in Hok.
    destruct Hok as ((((Hv & Hf) & Hd) & Hsp) & Hend).
    destruct (IH (S i) (entry_last rs) (entry_carry rs)) as (ds & Ew & H1 & H2 & H3 & H4);
      [lia|done|].
    exists (entry_digits rs ++ ds). change (S k + 2)%nat with (S (k + 2)). cbn [naf_words].
    rewrite E. cbn [mbind option_bind]. rewrite Ht. cbn [mbind option_bind].
    fold (entry_last rs) (entry_carry rs) (entry_digits rs).
    replace (Z.of_nat i + 1) with (Z.of_nat (S i)) by lia. rewrite Ew. cbn [mbind option_bind].
    rewrite app_assoc. split; [done|].
    assert (Hl : length (entry_digits rs) = 8%nat) by apply le_bytes_length.
    split; [rewrite length_app; lia|]. split.
    { rewrite naf_value_app, Hl, H2, <- Hval, Hv. change (2 ^ Z.of_nat 8) with 256.
      unfold left_over. cbn [b2z]. lia. }
    split; [by rewrite forallb_app, Hd|].
    rewrite sparse_app, <- Heven, Hsp. cbn [andb]. eapply sparse_weaken; [|exact H4].
    intros Hb. rewrite negb_true_iff in Hend.
    apply negb_true_iff. destruct (entry_last rs); [|done].
    rewrite andb_true_r in Hend. rewrite <- Hend, <- Hb.
    by destruct (entry_digits rs).
Qed.

(** The digits of a scalar. *)
Lemma buildNaf_spec s :
  Forall is_byte s -> (0 < length s)%nat -> Z.of_nat (length s) < 2 ^ 28 ->
  exists ds, buildNaf s (Z.of_nat (length s)) = Some (ds ++ replicate 14 0) /\
    length ds = (8 * length s + 2)%nat /\ naf_value ds = le_value s /\
    forallb is_digit ds = true /\ sparse false ds = true.
Proof.
  intros Hs Hpos Hlen. destruct (lookup_lt_is_Some_2 s 0 Hpos) as [b Hb].
  destruct (naf_words_spec s (length s) 0 (negb (Z.land b 1 =? 0)) false)
    as (ds & E & H1 & H2 & H3 & H4); [done..|by rewrite andb_false_r|].
  exists ds. unfold buildNaf. rewrite Hb. cbn [mbind option_bind].
  rewrite u32_id by word_lia.
  replace (Z.to_nat (Z.of_nat (length s) + 2)) with (length s + 2)%nat by lia.
  split; [exact E|]. split; [done|]. split.
  - rewrite H2. unfold left_over. rewrite (le_value_mod2 s 0 b Hb), drop_0, land_1.
    pose proof (Z.mod_pos_bound b 2 ltac:(lia)).
    destruct (Z.eqb_spec (b mod 2) 0) as [->|]; cbn [negb b2z]; lia.
  - split; [done|]. by eapply sparse_weaken, H4.
Qed.

(** ** Scalar multiplication *)

Lemma naf_value_take_S ds n d :
  ds !! n = Some d -> naf_value (take (S n) ds) = naf_value (take n ds) + 2 ^ Z.of_nat n * digit d.
Proof.
  intros H. rewrite (take_S_r _ _ _ H), naf_value_app, length_take. cbn [naf_value].
  apply lookup_lt_Some in H. rewrite Nat.min_l by lia. ring.
Qed.

Lemma skip_zeros_spec ds n :
  (n <= length ds)%nat -> exists m, skip_zeros ds n = Some m /\ (m <= n)%nat /\
    naf_value (take m ds) = naf_value (take n ds).
Proof.
  induction n as [|n IH]; intros Hn; cbn [skip_zeros]; [by exists 0%nat|].
  destruct (lookup_lt_is_Some_2 ds n ltac:(lia)) as [d Hd]. rewrite Hd. cbn [mbind option_bind].
  destruct (Z.eqb_spec d 0) as [->|]; [|by exists (S n)].
  destruct (IH ltac:(lia)) as (m & E & Hm & Hv). exists m. split; [done|]. split; [lia|].
  rewrite Hv, (naf_value_take_S ds n 0 Hd). cbn [digit Z.eqb]. lia.
Qed.

Section MultiplicationSpec.
Context {G In Out : Type} `{PL : PointLaws G In Out} {GL : AbGroupLaws G}.

Lemma naf_step_spec base d r :
  is_digit d = true -> in_ok base -> out_ok r ->
  let r1 := pt_dbl r in
  let r2 := if d =? 1 then pt_add r1 base else if d =? 2 then pt_sub r1 base else r1 in
  out_ok r2 /\ out_val r2 = gplus (zmul 2 (out_val r)) (zmul (digit d) (in_val base)).
Proof.
  intros Hd Hb Hr r1. destruct (pt_dbl_law r Hr) as [Hr1 E1]. fold r1 in Hr1, E1.
  assert (E2 : out_val r1 = zmul 2 (out_val r)) by (rewrite E1; change 2 with (2 * 1); by rewrite zmul_double, !zmul_1).
  unfold is_digit in Hd. rewrite !orb_true_iff, !Z.eqb_eq in Hd.
  destruct Hd as [[-> | ->] | ->]; cbn [Z.eqb Pos.eqb digit].
  - split; [done|]. by rewrite E2, zmul_0, gplus_0_r.
  - destruct (pt_add_law r1 base Hr1 Hb) as [? ->]. split; [done|]. by rewrite E2, zmul_1.
  - destruct (pt_sub_law r1 base Hr1 Hb) as [? ->]. split; [done|].
    by rewrite E2, (zmul_opp 1), zmul_1.
Qed.

Lemma naf_loop_spec ds base n r :
  (n <= length ds)%nat -> forallb is_digit ds = true -> in_ok base -> out_ok r ->
  exists r', naf_loop ds base n r = Some r' /\ out_ok r' /\
    out_val r' = gplus (zmul (2 ^ Z.of_nat n) (out_val r))
                       (zmul (naf_value (take n ds)) (in_val base)).
Proof.
  intros Hn Hds Hb. revert r. induction n as [|n IH]; intros r Hr.
  - exists r. cbn [naf_loop take naf_value]. rewrite zmul_0, gplus_0_r.
    change (2 ^ Z.of_nat 0) with 1. by rewrite zmul_1.
  - cbn [naf_loop]. destruct (lookup_lt_is_Some_2 ds n ltac:(lia)) as [d Hd].
    rewrite Hd. cbn [mbind option_bind].
    assert (Hdig : is_digit d = true).
    { apply (proj1 (forallb_forall _ _) Hds). by eapply list_elem_of_In, list_elem_of_lookup_2. }
    destruct (naf_step_spec base d r Hdig Hb Hr) as [Hok Hv]. cbn zeta in Hok, Hv.
    destruct (IH ltac:(lia) _ Hok) as (r' & E & Hr' & Hv'). exists r'.
    split; [exact E|]. split; [done|]. rewrite Hv', Hv, (naf_value_take_S ds n d Hd).
    rewrite zmul_plus, <- !zmul_mul, zmul_add, <- gplus_assoc.
    replace (2 ^ Z.of_nat n * 2) with (2 ^ Z.of_nat (S n)) by (rewrite Nat2Z.inj_succ, Z.pow_succ_r; lia).
    f_equal. apply gplus_comm.
Qed.

(** The product with any scalar, the lemma multi-scalar multiplication builds on. *)
Lemma nafMulByScalar_spec base scalar :
  in_ok base -> Forall is_byte scalar -> (0 < length scalar)%nat ->
  Z.of_nat (length scalar) < 2 ^ 27 ->
  exists r, nafMulByScalar base scalar (Z.of_nat (length scalar)) = Some r /\ out_ok r /\
    out_val r = zmul (le_value scalar) (in_val base).
Proof.
  intros Hb Hs Hpos Hlen. change (2 ^ 27) with 134217728 in Hlen.
  destruct (buildNaf_spec scalar Hs Hpos) as (ds & E & Hl & Hv & Hd & _); [lia|].
  unfold nafMulByScalar. rewrite E. cbn [mbind option_bind].
  rewrite u32_id, i32_id by word_lia.
  replace (Z.to_nat (Z.of_nat (length scalar) * 8 + 2)) with (length ds) by lia.
  destruct (skip_zeros_spec (ds ++ replicate 14 0) (length ds)) as (m & Em & Hm & Hvm);
    [rewrite length_app; lia|].
  rewrite Em. cbn [mbind option_bind].
  destruct pt_zero_law as [Hz Ez].
  destruct (naf_loop_spec (ds ++ replicate 14 0) base m pt_zero) as (r & Er & Hr & Hvr);
    [rewrite length_app; lia|by rewrite forallb_app, Hd|done..|].
  exists r. split; [exact Er|]. split; [done|].
  rewrite Hvr, Ez, zmul_zero, gplus_0_l, Hvm, take_app_length. by rewrite Hv.
Qed.

(** Multiplication by the non-adjacent form is multiplication by the little-endian
    number the scalar's bytes hold: no digit or byte outside the arrays is read, and
    the result is a valid point that stands for that multiple of the base, in any
    abelian group the point class implements. *)
Theorem nafMulByScalar_correct base scalar :
  in_ok base -> Forall is_byte scalar -> (0 < length scalar)%nat ->
  Z.of_nat (length scalar) < 2 ^ 27 ->
  exists r, nafMulByScalar base scalar (Z.of_nat (length scalar)) = Some r /\ out_ok r /\
    out_val r = zmul (le_value scalar) (in_val base).
Proof. apply nafMulByScalar_spec. Qed.
End MultiplicationSpec.

(** ** Instance *)

Lemma nafMulByScalar_correct_witness :
  exists r, @nafMulByScalar Z Z Z_points 5 [57; 3] 2 = Some r /\ True /\ r = zmul 825 (5 : Z).
Proof.
  apply (@nafMulByScalar_correct Z Z Z _ Z_points Z_sem Z_point_laws Z_group_laws 5 [57; 3]);
    [exact I| |cbn; lia|reflexivity].
  repeat (apply Forall_cons_2; [split; [discriminate|reflexivity]|]). apply Forall_nil_2.
Defined.

(** The digits of 825, least significant first. *)
Example naf_of_825 : naf_value (default [] (buildNaf [57; 3] 2)) = 825.
Proof. vm_compute. reflexivity. Qed.
