(* ===== verification/Loops.v ===== *)
(** Counted loops of stateful code and arrays whose cells may be uninitialised. *)

From stdpp Require Import sets.
From S2P Require Import Prelude.

(** ** Loops

    A loop over the indices [l] whose body changes the state [S]; [None] is a body
    that reads or writes where it may not. *)

Fixpoint for_each {I S} (l : list I) (body : I -> S -> option S) (s : S) : option S :=
  match l with [] => Some s | i :: l => s ← body i s; for_each l body s end.

(** [for (i = n - 1; i >= 0; i--)] *)
Definition down (n : Z) : list Z := rev (seqZ 0 n).

Lemma for_each_app {I S} l1 l2 (body : I -> S -> option S) s :
  for_each (l1 ++ l2) body s = s ← for_each l1 body s; for_each l2 body s.
Proof.
  revert s. induction l1 as [|i l1 IH]; intros s; cbn [for_each app mbind option_bind]; [done|].
  destruct (body i s); cbn [mbind option_bind]; [apply IH|done].
Qed.

Lemma seqZ_1 m : seqZ m 1 = [m].
Proof. rewrite seqZ_cons, seqZ_nil by lia. done. Qed.

Lemma seqZ_snoc n : seqZ 0 (Z.of_nat (S n)) = seqZ 0 (Z.of_nat n) ++ [Z.of_nat n].
Proof.
  replace (Z.of_nat (S n)) with (Z.of_nat n + 1) by lia.
  by rewrite seqZ_app, Z.add_0_l, seqZ_1 by lia.
Qed.

Lemma down_S n : down (Z.of_nat (S n)) = Z.of_nat n :: down (Z.of_nat n).
Proof. unfold down. by rewrite seqZ_snoc, rev_app_distr. Qed.

(** Invariants of loops that count up and down. *)
Lemma for_each_range {S} (P : Z -> S -> Prop) b n (body : Z -> S -> option S) s :
  0 <= n -> P b s ->
  (forall i s, b <= i < b + n -> P i s -> exists s', body i s = Some s' /\ P (i + 1) s') ->
  exists s', for_each (seqZ b n) body s = Some s' /\ P (b + n) s'.
Proof.
  intros Hn. replace n with (Z.of_nat (Z.to_nat n)) by lia.
  generalize (Z.to_nat n). clear n Hn. intros n. revert b s.
  induction n as [|n IH]; intros b s H0 Hstep.
  - exists s. by rewrite Z.add_0_r.
  - rewrite seqZ_cons by lia. cbn [for_each].
    destruct (Hstep b s) as (s1 & E & Hp); [lia|done|]. rewrite E. cbn [mbind option_bind].
    replace (Z.pred (Z.of_nat (Datatypes.S n))) with (Z.of_nat n) by lia.
    replace (b + Z.of_nat (Datatypes.S n)) with (Z.succ b + Z.of_nat n) by lia.
    apply IH; [exact Hp|]. intros i s2 Hi. apply Hstep. lia.
Qed.

Lemma for_each_up {S} (P : Z -> S -> Prop) n (body : Z -> S -> option S) s :
  0 <= n -> P 0 s ->
  (forall i s, 0 <= i < n -> P i s -> exists s', body i s = Some s' /\ P (i + 1) s') ->
  exists s', for_each (seqZ 0 n) body s = Some s' /\ P n s'.
Proof. intros Hn. by apply (for_each_range P 0 n). Qed.

Lemma for_each_down {S} (P : Z -> S -> Prop) n (body : Z -> S -> option S) s :
  0 <= n -> P n s ->
  (forall i s, 0 <= i < n -> P (i + 1) s -> exists s', body i s = Some s' /\ P i s') ->
  exists s', for_each (down n) body s = Some s' /\ P 0 s'.
Proof.
  intros Hn. replace n with (Z.of_nat (Z.to_nat n)) by lia.
  generalize (Z.to_nat n). clear n Hn. intros n H0 Hstep. revert s H0.
  induction n as [|n IH]; intros s H0; [by exists s|].
  rewrite down_S. cbn [for_each].
  destruct (Hstep (Z.of_nat n) s) as (s1 & E & Hp); [lia| |].
  { by replace (Z.of_nat n + 1) with (Z.of_nat (Datatypes.S n)) by lia. }
  rewrite E. cbn [mbind option_bind]. apply IH; [|done]. intros; apply Hstep; lia || done.
Qed.

(** A loop over distinct indices in any order, each body establishing its own part
    and leaving the others'. *)
Lemma for_each_any {I S} (Inv : S -> Prop) (P : I -> S -> Prop) l (body : I -> S -> option S) s :
  NoDup l -> Inv s ->
  (forall i s, i ∈ l -> Inv s -> exists s', body i s = Some s' /\ Inv s' /\ P i s' /\
    forall k, k ∈ l -> k <> i -> P k s -> P k s') ->
  exists s', for_each l body s = Some s' /\ Inv s' /\ forall i, i ∈ l -> P i s'.
Proof.
  intros Hnd Hinv Hstep.
  assert (H : forall l2 l1 s, l = l1 ++ l2 -> Inv s -> (forall i, i ∈ l1 -> P i s) ->
    exists s', for_each l2 body s = Some s' /\ Inv s' /\ forall i, i ∈ l -> P i s').
  { induction l2 as [|i l2 IH]; intros l1 s0 Hl Hi Hp.
    - exists s0. split; [done|]. split; [done|]. intros i. rewrite Hl, app_nil_r. apply Hp.
    - destruct (Hstep i s0) as (s1 & E & Hi1 & Hp1 & Hk); [subst l; set_solver|done|].
      cbn [for_each]. rewrite E. cbn [mbind option_bind].
      apply (IH (l1 ++ [i])); [by rewrite <- app_assoc|done|].
      intros k. rewrite elem_of_app, list_elem_of_singleton. intros [Hkl | ->]; [|done].
      apply Hk; [subst l; set_solver| |by apply Hp].
      intros ->. subst l. apply list.NoDup_app in Hnd as (_ & Hd & _). apply (Hd i Hkl). set_solver. }
  apply (H l [] s); [done|done|]. intros i Hi. by apply elem_of_nil in Hi.
Qed.

(** ** Arrays

    [new T[n]] leaves the cells uninitialised ([None]); reading such a cell, and any
    access out of range, is undefined. *)

Notation array A := (list (option A)).

Definition new_array {A} (n : Z) : array A := replicate (Z.to_nat n) None.

Definition array_get {A} (a : array A) (i : Z) : option A :=
  if 0 <=? i then mjoin (a !! Z.to_nat i) else None.

Definition array_set {A} (a : array A) (i : Z) (x : A) : option (array A) :=
  if (0 <=? i) && (i <? Z.of_nat (length a)) then Some (<[Z.to_nat i := Some x]> a) else None.

Section Arrays.
Context {A : Type}.
Implicit Types a : array A.

Lemma new_array_length n : 0 <= n -> Z.of_nat (length (@new_array A n)) = n.
Proof. intros H. unfold new_array. rewrite length_replicate. lia. Qed.

Lemma array_set_ok a i x :
  0 <= i < Z.of_nat (length a) ->
  exists a', array_set a i x = Some a' /\ length a' = length a /\ array_get a' i = Some x /\
    forall k, k <> i -> array_get a' k = array_get a k.
Proof.
  intros Hi. unfold array_set. rewrite (proj2 (Z.leb_le 0 i)), (proj2 (Z.ltb_lt _ _)) by lia.
  eexists. split; [reflexivity|]. split; [apply length_insert|]. unfold array_get. split.
  - rewrite (proj2 (Z.leb_le 0 i)) by lia. by rewrite list_lookup_insert_eq by lia.
  - intros k Hk. destruct (Z.leb_spec 0 k); [|done]. by rewrite list_lookup_insert_ne by lia.
Qed.

Lemma array_get_range a i x : array_get a i = Some x -> 0 <= i < Z.of_nat (length a).
Proof.
  unfold array_get. destruct (Z.leb_spec 0 i); [|done]. intros Hx.
  destruct (a !! Z.to_nat i) eqn:Hi; [|done]. apply lookup_lt_Some in Hi. lia.
Qed.
End Arrays.
