(* ===== verification/Parallel.v ===== *)
(** The thread pool of [depends/ffiasm/c/misc.hpp]: how [divideWork] cuts a range, and
    [parallelFor] as a system of threads, the calling thread and the pool's workers,
    whose steps are what one of them does between two synchronisations.  Jobs are
    logged with the thread that ran them. *)

From S2P Require Import Prelude.

(** ** Cutting a range into jobs *)

Record JobRange := mkJobRange { job_begin : Z; job_end : Z }.

#[export] Instance JobRange_eq_dec : EqDecision JobRange.
Proof. solve_decision. Defined.

Definition chunksPerThread : Z := 4.

(** The rounds [i], ... of the loop, [n] of them. *)
Fixpoint cut_jobs (n : nat) (i minJobSize elementRest jobBegin : Z) : list JobRange :=
  match n with
  | O => []
  | S n =>
      let jobSize := i64 minJobSize in
      let jobSize := if i <? elementRest then jobSize + 1 else jobSize in
      let jobEnd := jobBegin + jobSize in
      mkJobRange jobBegin jobEnd :: cut_jobs n (i + 1) minJobSize elementRest jobEnd
  end.

(** [None]: the division by the number of chunks is undefined. *)
Definition divideWork (begin end_ threadCount : Z) : option (list JobRange) :=
  let elementCount := u64 (end_ - begin) in
  let chunkCount := Z.min (u64 (threadCount * chunksPerThread)) elementCount in
  if chunkCount =? 0 then None
  else
    let minJobSize := elementCount / chunkCount in
    let elementRest := elementCount mod chunkCount in
    Some (cut_jobs (Z.to_nat chunkCount) 0 minJobSize elementRest begin).

(** The indices of a job. *)
Definition job_range (j : JobRange) : list Z := seqZ (job_begin j) (job_end j - job_begin j).

Lemma cut_jobs_length n i s r b : length (cut_jobs n i s r b) = n.
Proof. revert i b. induction n as [|n IH]; intros i b; cbn [cut_jobs length]; [done|by rewrite IH]. Qed.

Lemma cut_jobs_cover n i s r b :
  0 <= s < 2 ^ 63 -> 0 <= i ->
  concat (map job_range (cut_jobs n i s r b)) =
    seqZ b (Z.of_nat n * s + Z.max 0 (Z.min (Z.of_nat n) (r - i))).
Proof.
  intros Hs. revert i b. induction n as [|n IH]; intros i b Hi.
  - cbn [cut_jobs map concat]. rewrite Z.max_l by lia. done.
  - cbn [cut_jobs map concat]. rewrite i64_id by lia.
    set (k := if i <? r then s + 1 else s).
    assert (Hk : k = s + (if i <? r then 1 else 0)) by (unfold k; case_match; lia).
    rewrite IH by lia. unfold job_range at 1. cbn [job_begin job_end].
    replace (b + k - b) with k by ring. rewrite <- seqZ_app by (rewrite ?Hk; case_match; lia).
    f_equal. rewrite Hk. destruct (Z.ltb_spec i r); lia.
Qed.

(** The jobs are consecutive ranges that cover [begin, ..., end - 1] once each. *)
Lemma divideWork_cover begin end_ threadCount :
  begin < end_ -> end_ - begin < 2 ^ 63 -> 1 <= threadCount -> threadCount * 4 < 2 ^ 64 ->
  exists jobs, divideWork begin end_ threadCount = Some jobs /\
    concat (map job_range jobs) = seqZ begin (end_ - begin) /\
    Z.of_nat (length jobs) = Z.min (4 * threadCount) (end_ - begin) /\
    Forall (fun j => job_begin j < job_end j) jobs.
Proof.
  intros Hlt Hn Ht Ht4. unfold divideWork, chunksPerThread. rewrite !u64_id by word_lia.
  set (n := end_ - begin) in *. set (c := Z.min _ _). assert (Hc : 0 < c) by lia.
  destruct (Z.eqb_spec c 0); [lia|]. eexists. split; [done|].
  assert (Hs : 1 <= n / c) by (apply Z.div_le_lower_bound; lia).
  assert (Hs' : n / c <= n) by (apply Z.div_le_upper_bound; nia).
  pose proof (Z.mod_pos_bound n c Hc). split; [|split].
  - rewrite cut_jobs_cover by lia. f_equal. rewrite Z2Nat.id, Z.sub_0_r by lia.
    rewrite Z.min_r, Z.max_r by lia. symmetry. rewrite (Z.div_mod n c) at 1 by lia. ring.
  - rewrite cut_jobs_length. lia.
  - generalize (Z.to_nat c) 0 begin. intros m. induction m as [|m IH]; intros i b; [apply Forall_nil_2|].
    cbn [cut_jobs]. rewrite i64_id by lia. apply Forall_cons_2; [|apply IH].
    cbn. case_match; lia.
Qed.

(** ** The threads

    A worker: waiting without a job, with a job submitted to it, popping the queue,
    or about to run a job it popped. *)
Inductive wstate (J : Type) :=
| WIdle | WJob (j : J) | WDrain | WRun (j : J).

(** The calling thread: pushing the job [k], submitting the job [k] to the worker
    [k], running its own job, popping the queue, running a popped job, waiting for
    the worker [k], past the end. *)
Inductive mstate (J : Type) :=
| MPush (k : nat) | MSubmit (k : nat) | MOwn | MDrain | MRun (j : J) | MWait (k : nat) | MDone.

#[global] Arguments WIdle {J}. #[global] Arguments WJob {J} _.
#[global] Arguments WDrain {J}. #[global] Arguments WRun {J} _.
#[global] Arguments MPush {J} _. #[global] Arguments MSubmit {J} _. #[global] Arguments MOwn {J}.
#[global] Arguments MDrain {J}. #[global] Arguments MRun {J} _. #[global] Arguments MWait {J} _.
#[global] Arguments MDone {J}.

Record Pool (J : Type) := mkPool {
  queue : list J;
  pool_workers : list (wstate J);
  caller : mstate J;
  (** The jobs run so far with the [threadId] they were given. *)
  ran : list (J * nat)
}.
#[global] Arguments mkPool {J} _ _ _ _.
#[global] Arguments queue {J} _. #[global] Arguments pool_workers {J} _.
#[global] Arguments caller {J} _. #[global] Arguments ran {J} _.

Section Pool.
Context {J : Type} (jobs : list J) (threadCount : nat).
(** [parallelFor] empties the queue after its own job, [parallelBlock] does not. *)
Context (drains : bool).

(** One step of [ThreadWorker::worker], the worker [i]. *)
Definition worker_thread_step (i : nat) (p : Pool J) : option (Pool J) :=
  match pool_workers p !! i with
  | None | Some WIdle => None
  | Some (WJob j) | Some (WRun j) =>
      Some (mkPool (queue p) (<[i := WDrain]> (pool_workers p)) (caller p) (ran p ++ [(j, i)]))
  | Some WDrain =>
      match queue p with
      | j :: q => Some (mkPool q (<[i := WRun j]> (pool_workers p)) (caller p) (ran p))
      | [] => Some (mkPool [] (<[i := WIdle]> (pool_workers p)) (caller p) (ran p))
      end
  end.

(** One step of the thread that called [parallelFor]. *)
Definition caller_step (p : Pool J) : option (Pool J) :=
  let go m := Some (mkPool (queue p) (pool_workers p) m (ran p)) in
  match caller p with
  | MPush k =>
      match jobs !! k with
      | Some j => Some (mkPool (queue p ++ [j]) (pool_workers p) (MPush (S k)) (ran p))
      | None => go (MSubmit 0)
      end
  | MSubmit k =>
      if (k <? threadCount - 1)%nat then
        match jobs !! k, pool_workers p !! k with
        | Some j, Some (WIdle | WJob _) =>
            Some (mkPool (queue p) (<[k := WJob j]> (pool_workers p)) (MSubmit (S k)) (ran p))
        | _, _ => None
        end
      else go MOwn
  | MOwn =>
      match jobs !! (threadCount - 1)%nat with
      | Some j =>
          Some (mkPool (queue p) (pool_workers p) (if drains then MDrain else MWait 0)
                  (ran p ++ [(j, (threadCount - 1)%nat)]))
      | None => None
      end
  | MDrain =>
      match queue p with
      | j :: q => Some (mkPool q (pool_workers p) (MRun j) (ran p))
      | [] => go (MWait 0)
      end
  | MRun j =>
      Some (mkPool (queue p) (pool_workers p) MDrain (ran p ++ [(j, (threadCount - 1)%nat)]))
  | MWait k =>
      if (k <? threadCount - 1)%nat then
        match pool_workers p !! k with
        | Some WIdle => go (MWait (S k))
        | _ => None
        end
      else go MDone
  | MDone => None
  end.

(** [None]: the caller moves, [Some i]: the worker [i]. *)
Definition pool_step (t : option nat) (p : Pool J) : option (Pool J) :=
  match t with None => caller_step p | Some i => worker_thread_step i p end.

Fixpoint pool_run (ts : list (option nat)) (p : Pool J) : option (Pool J) :=
  match ts with
  | [] => Some p
  | t :: ts => match pool_step t p with Some p' => pool_run ts p' | None => None end
  end.

(** A call with [nWorkers] waiting workers. *)
Definition pool_start (nWorkers : nat) : Pool J :=
  mkPool [] (replicate nWorkers WIdle) (MPush threadCount) [].

(** ** Every job is run once *)

Definition worker_jobs (w : wstate J) : list J :=
  match w with WJob j | WRun j => [j] | _ => [] end.

(** What the calling thread has still to hand out or run. *)
Definition caller_jobs (m : mstate J) : list J :=
  match m with
  | MPush k => take threadCount jobs ++ drop k jobs
  | MSubmit k => drop k (take threadCount jobs)
  | MOwn => drop (threadCount - 1) (take threadCount jobs)
  | MRun j => [j]
  | _ => []
  end.

Definition pending_jobs (p : Pool J) : list J :=
  caller_jobs (caller p) ++ queue p ++ concat (map worker_jobs (pool_workers p)).

(** From which worker on the workers are known to be idle, and up to which. *)
Definition untouched (m : mstate J) : nat :=
  match m with MPush _ => 0 | MSubmit k => k | _ => threadCount - 1 end%nat.
Definition waited (m : mstate J) : nat :=
  match m with MWait k => k | MDone => (threadCount - 1)%nat | _ => 0%nat end.

Definition phase_ok (m : mstate J) : Prop :=
  match m with
  | MPush k => (threadCount <= k <= length jobs)%nat
  | MSubmit k | MWait k => (k <= threadCount - 1)%nat
  | _ => True
  end.

Record pool_inv (nWorkers : nat) (p : Pool J) : Prop := {
  inv_jobs : map fst (ran p) ++ pending_jobs p ≡ₚ jobs;
  inv_ids : Forall (fun r => (snd r < threadCount)%nat) (ran p);
  inv_phase : phase_ok (caller p);
  inv_length : length (pool_workers p) = nWorkers;
  inv_idle i : (i < nWorkers)%nat ->
    (untouched (caller p) <= i)%nat \/ (i < waited (caller p))%nat ->
    pool_workers p !! i = Some WIdle;
  inv_queue : match caller p with MWait _ | MDone => queue p = [] | _ => True end;
  inv_block : drains = false -> queue p = []
}.

(** An upper bound of the steps left, as a list to count. *)
Definition worker_ticks (w : wstate J) : list unit :=
  match w with WIdle => [] | WDrain => [tt] | WJob _ | WRun _ => [tt; tt] end.

Definition caller_weight (m : mstate J) : nat :=
  match m with
  | MDone => 0
  | MWait k => 1 + (threadCount - 1 - k)
  | MDrain => 1 + threadCount
  | MRun _ | MOwn => 2 + threadCount
  | MSubmit k => 3 + threadCount + 3 * (threadCount - 1 - k)
  | MPush k => 4 + threadCount + 3 * (threadCount - 1) + 3 * (length jobs - k)
  end.

Definition pool_weight (p : Pool J) : nat :=
  caller_weight (caller p) + 2 * length (queue p) +
  length (concat (map worker_ticks (pool_workers p))).

Context (Hcount : (1 <= threadCount <= length jobs)%nat).
(** Without draining there is nothing to queue. *)
Context (Hdrains : drains = false -> length jobs = threadCount).

Lemma worker_split {A} (f : wstate J -> list A) l i w w' :
  l !! i = Some w ->
  exists l1 l2, concat (map f l) = l1 ++ f w ++ l2 /\
    concat (map f (<[i := w']> l)) = l1 ++ f w' ++ l2.
Proof.
  intros H. exists (concat (map f (take i l))), (concat (map f (drop (S i) l))).
  assert (Hi : (i < length l)%nat) by (by eapply lookup_lt_Some).
  split.
  - rewrite <- (take_drop_middle l i w H) at 1. by rewrite map_app, concat_app.
  - rewrite insert_take_drop by done. by rewrite map_app, concat_app.
Qed.

(** A worker's step keeps the invariant and is one step less to go. *)
Lemma worker_thread_step_inv nWorkers i p p' :
  pool_inv nWorkers p -> worker_thread_step i p = Some p' ->
  pool_inv nWorkers p' /\ (pool_weight p' < pool_weight p)%nat.
Proof.
  intros [Hj Hi Hp Hl Hw Hq Hblock] Hstep. unfold worker_thread_step in Hstep.
  destruct (pool_workers p !! i) as [w|] eqn:Hwi; [|done].
  assert (Hin : (i < nWorkers)%nat) by (rewrite <- Hl; by eapply lookup_lt_Some).
  assert (Hbusy : w <> WIdle -> (waited (caller p) <= i < untouched (caller p))%nat).
  { intros Hne. destruct (decide (untouched (caller p) <= i \/ i < waited (caller p))%nat) as [H|H];
      [|lia]. specialize (Hw i Hin H). congruence. }
  assert (Hothers : forall w' k, w <> WIdle -> (k < nWorkers)%nat ->
    (untouched (caller p) <= k)%nat \/ (k < waited (caller p))%nat ->
    <[i := w']> (pool_workers p) !! k = Some WIdle).
  { intros w' k Hne Hk H. rewrite list_lookup_insert_ne by (specialize (Hbusy Hne); lia). by apply Hw. }
  assert (Hid : w <> WIdle -> (i < threadCount)%nat).
  { intros Hne. specialize (Hbusy Hne). destruct (caller p); cbn in *; lia. }
  destruct w as [|j| |j]; [done| | |].
  1,3: injection Hstep as <-;
    destruct (worker_split worker_jobs _ i _ WDrain Hwi) as (l1 & l2 & E1 & E2);
    destruct (worker_split worker_ticks _ i _ WDrain Hwi) as (k1 & k2 & E3 & E4);
    (split; [split; cbn; try done|]);
    [ etrans; [|exact Hj]; unfold pending_jobs; cbn; rewrite E1, E2, map_app; cbn; solve_Permutation
    | apply Forall_app; split; [done|]; apply Forall_cons_2; [by apply Hid|apply Forall_nil_2]
    | by rewrite length_insert | intros; by apply Hothers
    | unfold pool_weight; cbn; rewrite E3, E4, !length_app; cbn; lia ].
  destruct (queue p) as [|j q] eqn:Eq; injection Hstep as <-.
  - destruct (worker_split worker_jobs _ i _ WIdle Hwi) as (l1 & l2 & E1 & E2).
    destruct (worker_split worker_ticks _ i _ WIdle Hwi) as (k1 & k2 & E3 & E4).
    split; [split; cbn; try done|].
    + etrans; [|exact Hj]. unfold pending_jobs. cbn. by rewrite E1, E2, Eq.
    + by rewrite length_insert.
    + intros; by apply Hothers.
    + unfold pool_weight. cbn. rewrite E3, E4, Eq, !length_app. cbn. lia.
  - destruct (worker_split worker_jobs _ i _ (WRun j) Hwi) as (l1 & l2 & E1 & E2).
    destruct (worker_split worker_ticks _ i _ (WRun j) Hwi) as (k1 & k2 & E3 & E4).
    split; [split; cbn; try done|].
    + etrans; [|exact Hj]. unfold pending_jobs. cbn. rewrite E1, E2, Eq. cbn. solve_Permutation.
    + by rewrite length_insert.
    + intros; by apply Hothers.
    + by destruct (caller p).
    + intros Hd. by specialize (Hblock Hd).
    + unfold pool_weight. cbn. rewrite E3, E4, Eq, !length_app. cbn. lia.
Qed.

#[local] Arguments Nat.ltb : simpl never.
#[local] Arguments Nat.sub : simpl never.

(** The conditions on the phase, the idle workers and the queue. *)
Ltac side := first [lia
  | let i := fresh in let H := fresh in
    intros i ? H; destruct H;
    match goal with Hw : forall _, _ -> _ \/ _ -> _ |- _ => apply Hw; lia | _ => lia end
  | let H := fresh in intros H;
    match goal with
    | Hb : drains = false -> _ |- _ => first [exact (Hb H) | discriminate (Hb H)]
    end].

(** So does a step of the calling thread. *)
Lemma caller_step_inv nWorkers p p' :
  (threadCount - 1 <= nWorkers)%nat ->
  pool_inv nWorkers p -> caller_step p = Some p' ->
  pool_inv nWorkers p' /\ (pool_weight p' < pool_weight p)%nat.
Proof.
  intros Hn [Hj Hi Hp Hl Hw Hq Hblock] Hstep. unfold caller_step in Hstep.
  destruct p as [q ws c r]. unfold pending_jobs in Hj. cbn in *.
  assert (Htake : length (take threadCount jobs) = threadCount) by (rewrite length_take; lia).
  destruct c as [k|k| | |j|k|]; cbn in *; [| | | | | |done].
  - destruct (jobs !! k) as [j|] eqn:E; injection Hstep as <-.
    + assert (k < length jobs)%nat by (by eapply lookup_lt_Some).
      split; [split; cbn; try done|unfold pool_weight; cbn; rewrite length_app; cbn; lia].
      * etrans; [|exact Hj]. unfold pending_jobs. cbn. rewrite (drop_S jobs j k E). solve_Permutation.
      * lia.
      * intros Hd. specialize (Hdrains Hd). lia.
    + apply lookup_ge_None in E.
      split; [split; cbn; try done|unfold pool_weight; cbn; lia].
      * etrans; [|exact Hj]. unfold pending_jobs. cbn.
        rewrite (drop_ge jobs k) by lia. by rewrite drop_0, app_nil_r.
      * lia.
  - destruct (Nat.ltb_spec k (threadCount - 1)) as [Hk|Hk].
    + destruct (lookup_lt_is_Some_2 jobs k ltac:(lia)) as [j E]. rewrite E in Hstep.
      assert (Hidle : ws !! k = Some WIdle) by (apply Hw; lia). rewrite Hidle in Hstep.
      injection Hstep as <-.
      destruct (worker_split worker_jobs _ k _ (WJob j) Hidle) as (l1 & l2 & E1 & E2).
      destruct (worker_split worker_ticks _ k _ (WJob j) Hidle) as (k1 & k2 & E3 & E4).
      split; [split; cbn; try done|].
      * etrans; [|exact Hj]. unfold pending_jobs. cbn. rewrite E1, E2.
        rewrite (drop_S (take threadCount jobs) j k)
          by (rewrite lookup_take_Some; split; [done|lia]).
        cbn. solve_Permutation.
      * by rewrite length_insert.
      * intros i' Hi' [H|H]; [|lia]. rewrite list_lookup_insert_ne by lia. apply Hw; lia.
      * unfold pool_weight. cbn. rewrite E3, E4, !length_app. cbn. lia.
    + injection Hstep as <-. split; [split; cbn; try done|unfold pool_weight; cbn; lia].
      * etrans; [|exact Hj]. unfold pending_jobs. cbn. by replace k with (threadCount - 1)%nat by lia.
      * intros i' Hi' [H|H]; [|lia]. apply Hw; lia.
  - destruct (jobs !! (threadCount - 1)%nat) as [j|] eqn:E; [|done]. injection Hstep as <-.
    assert (Hown : drop (threadCount - 1) (take threadCount jobs) = [j]).
    { rewrite (drop_S _ j) by (rewrite lookup_take_Some; split; [done|lia]).
      by rewrite drop_ge by lia. }
    rewrite Hown in Hj.
    assert (Hids : Forall (fun x => (snd x < threadCount)%nat) (r ++ [(j, (threadCount - 1)%nat)])).
    { apply Forall_app; split; [done|]. apply Forall_cons_2; [cbn; lia|apply Forall_nil_2]. }
    assert (Hperm : map fst (r ++ [(j, (threadCount - 1)%nat)]) ++ q ++ concat (map worker_jobs ws) ≡ₚ jobs)
      by (etrans; [|exact Hj]; rewrite map_app; cbn; solve_Permutation).
    destruct drains eqn:Ed.
    + split; [split; cbn; try done|unfold pool_weight; cbn; lia]. by rewrite Ed.
    + rewrite (Hblock eq_refl) in Hperm |- *.
      split; [split; cbn; try done; side|unfold pool_weight; cbn; lia].
  - destruct q as [|j q]; injection Hstep as <-.
    + split; [split; cbn; try done; side|unfold pool_weight; cbn; lia].
    + split; [split; cbn; try done; side|unfold pool_weight; cbn; lia].
  - injection Hstep as <-. split; [split; cbn; try done|unfold pool_weight; cbn; lia].
    + etrans; [|exact Hj]. unfold pending_jobs. rewrite map_app. cbn. solve_Permutation.
    + apply Forall_app; split; [done|]. apply Forall_cons_2; [cbn; lia|apply Forall_nil_2].
  - destruct (Nat.ltb_spec k (threadCount - 1)) as [Hk|Hk].
    + destruct (ws !! k) as [[| | |]|] eqn:E; try done. injection Hstep as <-.
      split; [split; cbn; try done|unfold pool_weight; cbn; lia].
      intros i' Hi' [H|H]; [apply Hw; lia|].
      destruct (decide (i' = k)) as [->|]; [done|]. apply Hw; lia.
    + injection Hstep as <-. split; [split; cbn; try done|unfold pool_weight; cbn; lia].
      intros i' Hi' [H|H]; apply Hw; lia.
Qed.
(** ** From the start to the end *)

Lemma idle_jobs n : concat (map worker_jobs (replicate n WIdle)) = [].
Proof. induction n as [|n IH]; [done|exact IH]. Qed.

Lemma pool_start_inv nWorkers : (threadCount - 1 <= nWorkers)%nat -> pool_inv nWorkers (pool_start nWorkers).
Proof.
  intros Hn. split; cbn; try done.
  - unfold pending_jobs. cbn. rewrite take_drop.
    by rewrite idle_jobs, app_nil_r.
  - lia.
  - by rewrite length_replicate.
  - intros i Hi _. by apply lookup_replicate_2.
Qed.

Lemma pool_run_inv nWorkers ts p p' :
  (threadCount - 1 <= nWorkers)%nat -> pool_inv nWorkers p -> pool_run ts p = Some p' ->
  pool_inv nWorkers p' /\ (length ts + pool_weight p' <= pool_weight p)%nat.
Proof.
  intros Hn. revert p. induction ts as [|t ts IH]; intros p Hp; cbn [pool_run].
  - intros [= <-]. split; [done|cbn; lia].
  - destruct (pool_step t p) as [p1|] eqn:E; [|done]. intros Hrun.
    assert (Hp1 : pool_inv nWorkers p1 /\ (pool_weight p1 < pool_weight p)%nat).
    { destruct t as [i|]; [by eapply worker_thread_step_inv|by eapply caller_step_inv]. }
    destruct Hp1 as [Hp1 Hlt]. destruct (IH p1 Hp1 Hrun). split; [done|cbn; lia].
Qed.

(** Until the caller is past the end somebody can move. *)
Lemma pool_progress nWorkers p :
  (threadCount - 1 <= nWorkers)%nat -> pool_inv nWorkers p -> caller p <> MDone ->
  exists t p', pool_step t p = Some p'.
Proof.
  intros Hn [Hj Hi Hp Hl Hw Hq Hblock] Hd. destruct p as [q ws c r]. cbn in *.
  destruct c as [k|k| | |j|k|]; [..|done];
    try (exists None; cbn; repeat case_match; eexists; reflexivity).
  - exists None. cbn. destruct (Nat.ltb_spec k (threadCount - 1)) as [Hk|Hk]; [|by eexists].
    destruct (lookup_lt_is_Some_2 jobs k ltac:(lia)) as [j ->].
    rewrite (Hw k) by (cbn; lia). by eexists.
  - exists None. cbn. destruct (lookup_lt_is_Some_2 jobs (threadCount - 1) ltac:(lia)) as [j ->].
    by eexists.
  - destruct (Nat.ltb_spec k (threadCount - 1)) as [Hk|Hk].
    + destruct (lookup_lt_is_Some_2 ws k ltac:(lia)) as [w Hwk].
      destruct w as [|j| |j].
      * exists None. cbn. rewrite (proj2 (Nat.ltb_lt k (threadCount - 1))) by done. rewrite Hwk. by eexists.
      * exists (Some k). cbn. unfold worker_thread_step. cbn. rewrite Hwk. by eexists.
      * exists (Some k). cbn. unfold worker_thread_step. cbn. rewrite Hwk. destruct q; by eexists.
      * exists (Some k). cbn. unfold worker_thread_step. cbn. rewrite Hwk. by eexists.
    + exists None. cbn. rewrite (proj2 (Nat.ltb_ge k (threadCount - 1))) by done. by eexists.
Qed.

(** Past the end every job has run once and the pool is as it was. *)
Lemma pool_done nWorkers p :
  pool_inv nWorkers p -> caller p = MDone ->
  map fst (ran p) ≡ₚ jobs /\ Forall (fun r => (snd r < threadCount)%nat) (ran p) /\
  queue p = [] /\ pool_workers p = replicate nWorkers WIdle.
Proof.
  intros [Hj Hi Hp Hl Hw Hq Hblock] Hd. rewrite Hd in *. cbn in *.
  assert (Hws : pool_workers p = replicate nWorkers WIdle).
  { apply list_eq. intros i. destruct (decide (i < nWorkers)%nat) as [H|H].
    - rewrite lookup_replicate_2 by done. apply Hw; [done|lia].
    - rewrite !lookup_ge_None_2 by (rewrite ?length_replicate; lia). done. }
  split; [|done]. etrans; [|exact Hj]. unfold pending_jobs. rewrite Hd, Hq, Hws. cbn.
  by rewrite idle_jobs, app_nil_r.
Qed.
End Pool.

(** ** The calls

    What [parallelFor] does before the threads run: nothing for an empty range, or
    the jobs and the number of threads that take part. *)
Inductive call (J : Type) := NoCall | Call (jobs : list J) (threadCount : nat) | UndefinedCall.
#[global] Arguments NoCall {J}. #[global] Arguments Call {J} _ _. #[global] Arguments UndefinedCall {J}.

Definition parallelFor (begin end_ nThreads : Z) : call JobRange :=
  if begin >=? end_ then NoCall
  else
    match divideWork begin end_ nThreads with
    | None => UndefinedCall
    | Some jobs =>
        let jobCount := Z.of_nat (length jobs) in
        Call jobs (Z.to_nat (Z.min nThreads jobCount))
    end.

(** The job [k] is [func(nThreads, k)]. *)
Definition parallelBlock (nThreads : Z) : call Z :=
  Call (seqZ 0 nThreads) (Z.to_nat nThreads).

(** A pool of [nThreads] threads has one worker less. *)
Definition pool_of (nThreads : Z) (threadCount : nat) {J} : Pool J :=
  pool_start threadCount (Z.to_nat (nThreads - 1)).

(** The logs a call can leave behind. *)
Definition call_log {J} (drains : bool) (nThreads : Z) (c : call J) (log : list (J * nat)) : Prop :=
  match c with
  | NoCall => log = []
  | Call jobs threadCount => exists ts p,
      pool_run jobs threadCount drains ts (pool_of nThreads threadCount) = Some p /\
      caller p = MDone /\ log = ran p
  | UndefinedCall => False
  end.

(** Every run of a call is bounded, never stuck before its end, and at its end every
    job has run once, on a thread of the pool, which is as it was before. *)
Definition call_correct {J} (drains : bool) (nThreads : Z) (jobs : list J) (threadCount : nat) : Prop :=
  forall ts p, pool_run jobs threadCount drains ts (pool_of nThreads threadCount) = Some p ->
    (length ts <= 4 * length jobs + 1)%nat /\
    (caller p <> MDone -> exists t p', pool_step jobs threadCount drains t p = Some p') /\
    (caller p = MDone ->
      map fst (ran p) ≡ₚ jobs /\ Forall (fun r => Z.of_nat (snd r) < nThreads) (ran p) /\
      queue p = [] /\ pool_workers p = replicate (Z.to_nat (nThreads - 1)) WIdle).

Lemma call_correct_intro {J} drains nThreads (jobs : list J) threadCount :
  (1 <= threadCount <= length jobs)%nat -> Z.of_nat threadCount <= nThreads ->
  (drains = false -> length jobs = threadCount) ->
  call_correct drains nThreads jobs threadCount.
Proof.
  intros Hc Hn Hd ts p Hrun.
  assert (Hw : (threadCount - 1 <= Z.to_nat (nThreads - 1))%nat) by lia.
  assert (Hstart : pool_inv jobs threadCount drains _ (pool_start threadCount _))
    by (by eapply pool_start_inv).
  eapply pool_run_inv in Hrun as [Hinv Hlen]; [|done..]. clear Hstart.
  split; [|split].
  - assert (pool_weight jobs threadCount (pool_start threadCount (Z.to_nat (nThreads - 1))) <=
      4 * length jobs + 1)%nat; [|unfold pool_of in *; lia].
    unfold pool_weight, pool_start. cbn.
    replace (length (concat _)) with 0%nat; [lia|].
    generalize (Z.to_nat (nThreads - 1)). intros n. by induction n as [|n IH]; [|exact IH].
  - intros Hnd. by eapply pool_progress.
  - intros Hdone. eapply pool_done in Hinv as (H1 & H2 & H3 & H4); [|done..].
    split; [done|]. split; [|done].
    eapply Forall_impl; [|exact H2]. intros r Hr. cbn in Hr. lia.
Qed.

Lemma parallelFor_call begin end_ nThreads :
  begin < end_ -> is_i32 begin -> is_i32 end_ -> 1 <= nThreads < 2 ^ 32 ->
  exists jobs threadCount, parallelFor begin end_ nThreads = Call jobs threadCount /\
    concat (map job_range jobs) = seqZ begin (end_ - begin) /\
    (1 <= threadCount <= length jobs)%nat /\ Z.of_nat threadCount <= nThreads.
Proof.
  intros Hlt Hb He Hn. unfold is_i32 in *. fold_pows.
  destruct (divideWork_cover begin end_ nThreads) as (jobs & E & Hc & Hl & _); [fold_pows; lia..|].
  exists jobs, (Z.to_nat (Z.min nThreads (Z.of_nat (length jobs)))).
  unfold parallelFor. rewrite E, Z.geb_leb, (proj2 (Z.leb_gt end_ begin)) by lia.
  split; [done|]. split; [done|]. lia.
Qed.

(** What a user of [parallelFor] builds on: the jobs run are a rearrangement of
    ranges that cover the indices, each on a thread of the pool. *)
Lemma parallelFor_log begin end_ nThreads log :
  begin <= end_ -> is_i32 begin -> is_i32 end_ -> 1 <= nThreads < 2 ^ 32 ->
  call_log true nThreads (parallelFor begin end_ nThreads) log ->
  concat (map (fun r => job_range (fst r)) log) ≡ₚ seqZ begin (end_ - begin) /\
  Forall (fun r => Z.of_nat (snd r) < nThreads) log.
Proof.
  intros Hle Hb He Hn Hlog. destruct (decide (begin = end_)) as [->|Hne].
  - unfold parallelFor in Hlog. rewrite Z.geb_leb, Z.leb_refl in Hlog. cbn in Hlog. subst log.
    rewrite Z.sub_diag. done.
  - destruct (parallelFor_call begin end_ nThreads) as (jobs & tc & E & Hc & Htc & Hn'); [lia|done..|].
    rewrite E in Hlog. destruct Hlog as (ts & p & Hrun & Hdone & ->).
    assert (Hd : true = false -> length jobs = tc) by done.
    destruct (call_correct_intro true nThreads jobs tc Htc Hn' Hd ts p Hrun) as (_ & _ & H).
    destruct (H Hdone) as (H1 & H2 & _). split; [|done].
    rewrite <- Hc, <- H1, map_map. done.
Qed.

(** C29: [parallelFor] on a non-empty range cuts it into consecutive jobs that cover
    every index once; whatever the interleaving of the calling thread and the
    workers, the call ends within four steps per job and one, nobody waits for ever
    before that, and at the end every job has run exactly once on a thread of the
    pool, whose queue and workers are as before.  The same holds of
    [parallelBlock] and its one job per thread. *)
Theorem parallelFor_correct begin end_ nThreads :
  begin < end_ -> is_i32 begin -> is_i32 end_ -> 1 <= nThreads < 2 ^ 32 ->
  (exists jobs threadCount, parallelFor begin end_ nThreads = Call jobs threadCount /\
    concat (map job_range jobs) = seqZ begin (end_ - begin) /\
    call_correct true nThreads jobs threadCount) /\
  (exists jobs threadCount, parallelBlock nThreads = Call jobs threadCount /\
    jobs = seqZ 0 nThreads /\ call_correct false nThreads jobs threadCount).
Proof.
  intros Hlt Hb He Hn. split.
  - destruct (parallelFor_call begin end_ nThreads) as (jobs & tc & E & Hc & Htc & Hn'); [done..|].
    exists jobs, tc. split; [done|]. split; [done|]. by apply call_correct_intro.
  - eexists _, _. split; [reflexivity|]. split; [done|].
    assert (Hl : length (seqZ 0 nThreads) = Z.to_nat nThreads) by apply length_seqZ.
    apply call_correct_intro; rewrite ?Hl; lia.
Qed.

Lemma parallelFor_correct_witness :
  (exists jobs threadCount, parallelFor 3 20 2 = Call jobs threadCount /\
    concat (map job_range jobs) = seqZ 3 17 /\ call_correct true 2 jobs threadCount) /\
  (exists jobs threadCount, parallelBlock 2 = Call jobs threadCount /\
    jobs = seqZ 0 2 /\ call_correct false 2 jobs threadCount).
Proof.
  apply (parallelFor_correct 3 20 2); [reflexivity|split; [discriminate|reflexivity]..].
Defined.

(** The jobs of a small range: two threads, eight jobs, the first one longer. *)
Example jobs_of_17 :
  match parallelFor 3 20 2 with
  | Call jobs t => (map (fun j => (job_begin j, job_end j)) jobs, t)
  | _ => ([], 0%nat)
  end = ([(3, 6); (6, 8); (8, 10); (10, 12); (12, 14); (14, 16); (16, 18); (18, 20)], 2%nat).
Proof. vm_compute. reflexivity. Qed.
