(* ===== verification/ThreadWorker.v ===== *)
(** One worker of the thread pool of [depends/ffiasm/c/misc.hpp], at the level of its mutex and
    its two condition variables: the thread [ThreadWorker::worker], the calls [submit] and
    [wait] of the pool, and the destructor.  [Parallel] has the jobs; here a job is one
    run of the function with everything its queue gives the worker, and what matters
    is that it is run once, and that no thread waits for ever.  The states are finitely many,
    so the invariants are checked on all of them. *)

From S2P Require Import Prelude.

(** ** Construction *)

(** [defaultThreadCount]; [hardware_concurrency] is what the system reports. *)
Definition defaultThreadCount (hardware_concurrency : Z) : Z :=
  if hardware_concurrency =? 0 then 1 else hardware_concurrency.

(** [ThreadPool(_nThreads)]: the number of threads, and of workers. *)
Definition ThreadPool_new (hardware_concurrency _nThreads : Z) : Z * Z :=
  let nThreads := if _nThreads =? 0 then defaultThreadCount hardware_concurrency else _nThreads in
  (nThreads, u64 (nThreads - 1)).

Lemma ThreadPool_new_some hc n : 0 <= hc -> 0 <= n < 2 ^ 32 -> hc < 2 ^ 32 ->
  1 <= fst (ThreadPool_new hc n) /\ snd (ThreadPool_new hc n) = fst (ThreadPool_new hc n) - 1.
Proof.
  intros H1 H2 H3. unfold ThreadPool_new, defaultThreadCount. cbn [fst snd].
  destruct (Z.eqb_spec n 0), (Z.eqb_spec hc 0); (split; [lia|]); rewrite u64_id by word_lia; lia.
Qed.

(** ** The threads *)

Inductive thread := Worker | Client.

(** Where [worker] is: before it locks, at the predicate of [occupied.wait], about to
    release the mutex and sleep (one step), asleep, past the wait, at the job, at
    [job = nullptr], at [finished.notify_one], past its end. *)
Inductive wpc := WLock | WTest | WBlock | WSleep | WAwake | WRunJob | WClear | WNotify | WExit.

(** Where the pool's thread is: between calls; in [submit]: before it locks, at the
    assignment, at [occupied.notify_one]; in [wait]: the same places as above; in the destructor:
    at [stop = true], at the notification, in [thread.join]; past its end. *)
Inductive cpc := CIdle | CSubmit | CSet | CNotify | CLock | CTest | CBlock | CSleep | CStop | CStopNotify | CJoin | CDone.

(** [job] tells whether the member holds a function; [runs] counts the runs of the job
    submitted last. *)
Record Pair := mkPair {
  worker_at : wpc;
  client_at : cpc;
  mutex : option thread;
  job : bool;
  stop : bool;
  runs : nat
}.

#[export] Instance thread_eq_dec : EqDecision thread.
Proof. solve_decision. Defined.
#[export] Instance wpc_eq_dec : EqDecision wpc.
Proof. solve_decision. Defined.
#[export] Instance cpc_eq_dec : EqDecision cpc.
Proof. solve_decision. Defined.
#[export] Instance Pair_eq_dec : EqDecision Pair.
Proof. solve_decision. Defined.

(** A new worker; the job before the first one counts as run. *)
Definition Pair_new : Pair := mkPair WLock CIdle None false false 1.

(** [occupied.notify_one()] and [finished.notify_one()]: a sleeping thread has to lock again. *)
Definition notify_occupied (w : wpc) : wpc := match w with WSleep => WLock | w => w end.
Definition notify_finished (c : cpc) : cpc := match c with CSleep => CLock | c => c end.

(** A step of [ThreadWorker::worker]. *)
Definition worker_steps (s : Pair) : list Pair :=
  let go w := mkPair w (client_at s) (mutex s) (job s) (stop s) (runs s) in
  let unlock w := mkPair w (client_at s) None (job s) (stop s) (runs s) in
  match worker_at s with
  | WLock => match mutex s with None => [mkPair WTest (client_at s) (Some Worker) (job s) (stop s) (runs s)] | _ => [] end
  | WTest => [go (if job s || stop s then WAwake else WBlock)]
  | WBlock => [unlock WSleep]
  | WSleep => []
  | WAwake => if stop s then [unlock WExit] else [go WRunJob]
  | WRunJob => [mkPair WClear (client_at s) (mutex s) (job s) (stop s) (S (runs s))]
  | WClear => [mkPair WNotify (client_at s) None false (stop s) (runs s)]
  | WNotify => [mkPair WLock (notify_finished (client_at s)) (mutex s) (job s) (stop s) (runs s)]
  | WExit => []
  end.

(** A step of the pool's thread, which submits, waits, and submits again or destroys the
    worker. *)
Definition client_steps (s : Pair) : list Pair :=
  let go c := mkPair (worker_at s) c (mutex s) (job s) (stop s) (runs s) in
  let lock c := match mutex s with None => [mkPair (worker_at s) c (Some Client) (job s) (stop s) (runs s)] | _ => [] end in
  let unlock c := mkPair (worker_at s) c None (job s) (stop s) (runs s) in
  match client_at s with
  | CIdle => [go CSubmit; go CStop]
  | CSubmit => lock CSet
  | CSet => [mkPair (worker_at s) CNotify None true (stop s) 0]
  | CNotify => [mkPair (notify_occupied (worker_at s)) CLock (mutex s) (job s) (stop s) (runs s)]
  | CLock => lock CTest
  | CTest => [if negb (job s) then unlock CIdle else go CBlock]
  | CBlock => [unlock CSleep]
  | CSleep => []
  | CStop => [mkPair (worker_at s) CStopNotify (mutex s) (job s) true (runs s)]
  | CStopNotify => [mkPair (notify_occupied (worker_at s)) CJoin (mutex s) (job s) (stop s) (runs s)]
  | CJoin => match worker_at s with WExit => [go CDone] | _ => [] end
  | CDone => []
  end.

Definition steps (s : Pair) : list Pair := worker_steps s ++ client_steps s.

(** A sleeping thread may wake up without a notification; it need not. *)
Definition spurious (s : Pair) : list Pair :=
  match worker_at s with WSleep => [mkPair WLock (client_at s) (mutex s) (job s) (stop s) (runs s)] | _ => [] end ++
  match client_at s with CSleep => [mkPair (worker_at s) CLock (mutex s) (job s) (stop s) (runs s)] | _ => [] end.

Inductive reaches : Pair -> Pair -> Prop :=
| reaches_refl s : reaches s s
| reaches_step s s' t : reaches s s' -> t ∈ steps s' ++ spurious s' -> reaches s t.

(** ** All states *)

Definition member (s : Pair) (l : list Pair) : bool := existsb (fun t => bool_decide (s = t)) l.
Definition add_new (l new : list Pair) : list Pair := fold_left (fun l s => if member s l then l else s :: l) new l.

(** The states within [n] rounds of the given ones. *)
Fixpoint explore (n : nat) (l : list Pair) : list Pair :=
  match n with O => l | S n => explore n (add_new l (flat_map (fun s => steps s ++ spurious s) l)) end.

Definition states : list Pair := Eval vm_compute in explore 40 [Pair_new].

Definition closed (l : list Pair) : bool := forallb (fun s => forallb (fun t => member t l) (steps s ++ spurious s)) l.

Lemma member_In s l : member s l = true <-> s ∈ l.
Proof.
  unfold member. rewrite existsb_exists, list_elem_of_In. split.
  - by intros (t & Ht & ->%bool_decide_eq_true).
  - intros H. exists s. split; [done|by apply bool_decide_eq_true].
Qed.

Lemma states_closed : closed states = true.
Proof. vm_compute. reflexivity. Qed.
Lemma states_new : member Pair_new states = true.
Proof. vm_compute. reflexivity. Qed.

Lemma reaches_states s : reaches Pair_new s -> s ∈ states.
Proof.
  remember Pair_new as s0 eqn:E. induction 1 as [s|s s' t _ IH Ht]; subst; [by apply member_In, states_new|].
  pose proof states_closed as Hc. unfold closed in Hc. rewrite forallb_forall in Hc.
  specialize (Hc s' ltac:(by apply list_elem_of_In, IH)). rewrite forallb_forall in Hc.
  apply member_In, Hc. by apply list_elem_of_In.
Qed.

(** A property checked on all states holds of the reachable ones. *)
Lemma everywhere (f : Pair -> bool) s : forallb f states = true -> reaches Pair_new s -> f s = true.
Proof. intros Hf Hs%reaches_states. rewrite forallb_forall in Hf. by apply Hf, list_elem_of_In. Qed.

(** *** Runs that stay within a call *)

(** The states a thread goes through, each one step after the one before. *)
Fixpoint chain (B : Pair -> bool) (s : Pair) (l : list Pair) : Prop :=
  match l with [] => True | t :: l => B s = true /\ t ∈ steps s /\ chain B t l end.

Definition round (B : Pair -> bool) (l : list Pair) : list Pair := add_new [] (flat_map steps (List.filter B l)).

Fixpoint ends_within (B : Pair -> bool) (n : nat) (l : list Pair) : bool :=
  match n with O => bool_decide (List.filter B l = []) | S n => ends_within B n (round B l) end.

Lemma add_new_In new : forall l s, s ∈ l \/ s ∈ new -> s ∈ add_new l new.
Proof.
  unfold add_new. induction new as [|t new IH]; cbn [fold_left]; intros l s [H|H]; [done|by apply not_elem_of_nil in H|..].
  - apply IH. left. destruct (member t l); [done|by right].
  - apply elem_of_cons in H as [->|H]; [|by apply IH; right]. apply IH. left.
    destruct (member t l) eqn:E; [by apply member_In|left].
Qed.

Lemma chain_ends B n : forall l s t, ends_within B n l = true -> s ∈ l -> chain B s t -> (length t <= n)%nat.
Proof.
  induction n as [|n IH]; cbn [ends_within]; intros l s [|x t] He Hs; cbn [chain length]; try lia; intros (HB & Hx & Hc).
  - apply bool_decide_eq_true in He. assert (Hin : In s (List.filter B l)) by (apply filter_In; by split; [apply list_elem_of_In|]).
    by rewrite He in Hin.
  - apply le_n_S. eapply IH; [exact He| |exact Hc]. apply add_new_In. right. apply list_elem_of_In, in_flat_map. exists s.
    split; [apply filter_In; split; [by apply list_elem_of_In|done]|by apply list_elem_of_In].
Qed.

(** ** The protocol *)

Definition worker_holds (w : wpc) : bool := match w with WTest | WBlock | WAwake | WRunJob | WClear => true | _ => false end.
Definition client_holds (c : cpc) : bool := match c with CSet | CTest | CBlock => true | _ => false end.

Definition in_call (s : Pair) : bool :=
  match client_at s with CSubmit | CSet | CNotify | CLock | CTest | CBlock | CSleep => true | _ => false end.
Definition in_destructor (s : Pair) : bool := match client_at s with CStop | CStopNotify | CJoin => true | _ => false end.

(** The destructor waits for a worker that sleeps. *)
Definition hangs (s : Pair) : bool :=
  bool_decide (client_at s = CJoin) && bool_decide (worker_at s = WSleep) && stop s && bool_decide (steps s = []).

Definition well (s : Pair) : bool :=
  bool_decide (mutex s = if worker_holds (worker_at s) then Some Worker else if client_holds (client_at s) then Some Client else None) &&
  negb (worker_holds (worker_at s) && client_holds (client_at s)) && (runs s <=? 1)%nat &&
  (negb (bool_decide (client_at s = CIdle)) || negb (job s) && (runs s =? 1)%nat) &&
  (negb (bool_decide (steps s = [])) || bool_decide (client_at s = CDone) || hangs s).

Lemma well_everywhere : forallb well states = true.
Proof. vm_compute. reflexivity. Qed.
Lemma calls_end : ends_within in_call 21 states = true.
Proof. vm_compute. reflexivity. Qed.
Lemma destructor_ends : ends_within in_destructor 10 states = true.
Proof. vm_compute. reflexivity. Qed.

(** The run in which the worker has read [stop] before the destructor sets it, and sleeps after
    it was notified. *)
Definition lost_wakeup : list Pair :=
  [mkPair WTest CIdle (Some Worker) false false 1; mkPair WBlock CIdle (Some Worker) false false 1;
   mkPair WBlock CStop (Some Worker) false false 1; mkPair WBlock CStopNotify (Some Worker) false true 1;
   mkPair WBlock CJoin (Some Worker) false true 1; mkPair WSleep CJoin None false true 1].

Lemma chain_reaches B l : forall s u, reaches s u -> chain B u l -> reaches s (fold_left (fun _ t => t) l u).
Proof.
  induction l as [|x l IH]; intros s u Hu; cbn [chain fold_left]; [done|]. intros (_ & Hx & Hc).
  apply IH; [|done]. eapply reaches_step; [exact Hu|]. apply elem_of_app. by left.
Qed.

(** C32: The protocol of a worker and the thread of the pool, in every state they can reach,
    spurious wake-ups included: the mutex is held by one of them at most, where its code says
    so; a job is run once at most, and once exactly when [wait] returns; [submit] and [wait]
    return within 21 steps of the two threads; no state is stuck before the end but one kind,
    of the destructor: it ends within ten steps, or waits for ever in [thread.join] for a
    worker that has seen [stop] unset before and sleeps after the notification. *)
Theorem worker_protocol_correct s : reaches Pair_new s ->
  (mutex s = Some Worker <-> worker_holds (worker_at s) = true) /\
  (mutex s = Some Client <-> client_holds (client_at s) = true) /\
  (runs s <= 1)%nat /\ (client_at s = CIdle -> job s = false /\ runs s = 1%nat) /\
  (forall l, chain in_call s l -> (length l <= 21)%nat) /\
  (forall l, chain in_destructor s l -> (length l <= 10)%nat) /\
  (steps s = [] -> client_at s = CDone \/ (client_at s = CJoin /\ worker_at s = WSleep /\ stop s = true)) /\
  (exists t, reaches Pair_new t /\ hangs t = true).
Proof.
  intros Hs. pose proof (everywhere well s well_everywhere Hs) as Hw. unfold well in Hw.
  apply andb_true_iff in Hw as [[[[Hm%bool_decide_eq_true Hx]%andb_true_iff Hr%Nat.leb_le]%andb_true_iff Hi]%andb_true_iff He].
  apply negb_true_iff in Hx. rewrite Hm. split; [|split; [|split; [exact Hr|split; [|split; [|split; [|split]]]]]].
  - destruct (worker_holds _), (client_holds _); by split.
  - destruct (worker_holds _), (client_holds _); by split.
  - intros Hc. rewrite bool_decide_eq_true_2 in Hi by done. apply andb_true_iff in Hi as [Hj%negb_true_iff Hn%Nat.eqb_eq]. by split.
  - intros l. by apply (chain_ends _ _ _ _ _ calls_end), reaches_states.
  - intros l. by apply (chain_ends _ _ _ _ _ destructor_ends), reaches_states.
  - intros H0. rewrite (bool_decide_eq_true_2 (steps s = [])) in He by done. cbn [negb orb] in He.
    apply orb_true_iff in He as [Hd%bool_decide_eq_true|Hh]; [by left|right].
    unfold hangs in Hh. apply andb_true_iff in Hh as [[[H1%bool_decide_eq_true H2%bool_decide_eq_true]%andb_true_iff H3]%andb_true_iff _]. done.
  - exists (mkPair WSleep CJoin None false true 1). split; [|reflexivity].
    apply (chain_reaches (fun _ => true) lost_wakeup Pair_new Pair_new (reaches_refl _)). cbn [chain lost_wakeup].
    repeat (split; [reflexivity|]; split; [apply member_In; vm_compute; reflexivity|]). exact I.
Qed.

Lemma worker_protocol_correct_witness : reaches Pair_new Pair_new /\ exists t, reaches Pair_new t /\ hangs t = true.
Proof. split; [constructor|]. apply (worker_protocol_correct Pair_new). constructor. Defined.
