(* ===== verification/Schedule.v ===== *)
(** Loops run by the thread pool: the body of a parallel loop along a log of the pool,
    and what such a loop establishes whatever the log. *)

From stdpp Require Import sets.
From S2P Require Import Prelude Loops Parallel.

(** [threadPool.parallelFor(..., [&] (begin, end, t) { for (i = begin; i < end; i++) body })],
    [log] being what the threads did. *)
Definition run_log {S} (log : list (JobRange * nat)) (body : Z -> Z -> S -> option S) : S -> option S :=
  for_each log (fun '(job, t) => for_each (job_range job) (body (Z.of_nat t))).

(** [threadPool.parallelBlock([&] (nThreads, idThread) { body })]. *)
Definition run_block {S} (log : list (Z * nat)) (body : Z -> S -> option S) : S -> option S :=
  for_each log (fun '(idThread, _) => body idThread).

(** ** The indices of a log *)

(** The indices a log goes through, with the thread of each. *)
Definition log_indices (log : list (JobRange * nat)) : list (Z * Z) :=
  concat (map (fun r => map (fun i => (i, Z.of_nat (snd r))) (job_range (fst r))) log).

Lemma run_log_indices {S} log (body : Z -> Z -> S -> option S) s :
  run_log log body s = for_each (log_indices log) (fun it => body (snd it) (fst it)) s.
Proof.
  unfold run_log, log_indices. revert s.
  induction log as [|[job t] log IH]; intros s; cbn [for_each map concat]; [done|].
  rewrite for_each_app. cbn [fst snd].
  assert (E : forall l s, for_each l (body (Z.of_nat t)) s =
    for_each (map (fun i => (i, Z.of_nat t)) l) (fun it => body (snd it) (fst it)) s).
  { induction l as [|i l IHl]; intros s'; cbn [for_each map fst snd]; [done|].
    destruct (body (Z.of_nat t) i s'); cbn [mbind option_bind]; [apply IHl|done]. }
  rewrite E. destruct (for_each _ _ s); cbn [mbind option_bind]; [apply IH|done].
Qed.

Lemma log_indices_fst log :
  map fst (log_indices log) = concat (map (fun r => job_range (fst r)) log).
Proof.
  unfold log_indices. induction log as [|[job t] log IH]; cbn [map concat]; [done|].
  rewrite map_app, IH. f_equal. rewrite map_map. cbn. apply map_id.
Qed.

Lemma log_indices_snd log it : it ∈ log_indices log -> exists r, r ∈ log /\ snd it = Z.of_nat (snd r).
Proof.
  unfold log_indices. induction log as [|r log IH]; cbn [map concat].
  - intros H. by apply elem_of_nil in H.
  - rewrite elem_of_app. intros [H|H].
    + apply list_elem_of_In, in_map_iff in H as (i & <- & _). exists r. split; [apply list_elem_of_here|done].
    + destruct (IH H) as (r' & Hr & E). exists r'. split; [by apply list_elem_of_further|done].
Qed.

(** ** What a loop establishes

    Each body finds what it needs ([Q]), which no other body takes away, establishes
    its own part ([P]) and leaves the others'. *)
Lemma run_log_steps {S} (Inv : S -> Prop) (Q P : Z -> S -> Prop) nThreads b n log body (s : S) :
  concat (map (fun r => job_range (fst r)) log) ≡ₚ seqZ b n ->
  Forall (fun r => Z.of_nat (snd r) < nThreads) log -> Inv s ->
  (forall i, b <= i < b + n -> Q i s) ->
  (forall i t s, b <= i < b + n -> 0 <= t < nThreads -> Inv s -> Q i s ->
    exists s', body t i s = Some s' /\ Inv s' /\ P i s' /\
      forall k, b <= k < b + n -> k <> i -> (Q k s -> Q k s') /\ (P k s -> P k s')) ->
  exists s', run_log log body s = Some s' /\ Inv s' /\ forall i, b <= i < b + n -> P i s'.
Proof.
  intros Hperm Hids Hinv Hq Hstep. rewrite run_log_indices. rewrite <- log_indices_fst in Hperm.
  assert (Hnd : NoDup (map fst (log_indices log))) by (rewrite Hperm; apply NoDup_seqZ).
  assert (Hin : forall it, it ∈ log_indices log -> b <= fst it < b + n /\ 0 <= snd it < nThreads).
  { intros it Hit. split.
    - apply elem_of_seqZ. rewrite <- Hperm. by apply list_elem_of_fmap_2.
    - destruct (log_indices_snd _ _ Hit) as (r & Hr & ->).
      split; [lia|]. by eapply list.Forall_forall in Hids. }
  assert (Hl : forall i, b <= i < b + n -> exists t, (i, t) ∈ log_indices log).
  { intros i Hi. assert (H : i ∈ map fst (log_indices log)) by (rewrite Hperm; by apply elem_of_seqZ).
    apply list_elem_of_fmap in H as ([k t] & -> & Ht). by exists t. }
  assert (H : forall l s, (forall it, it ∈ l -> it ∈ log_indices log) -> NoDup (map fst l) -> Inv s ->
    (forall i, i ∈ map fst l -> Q i s) -> (forall i, b <= i < b + n -> i ∈ map fst l \/ P i s) ->
    exists s', for_each l (fun it => body (snd it) (fst it)) s = Some s' /\ Inv s' /\
      forall i, b <= i < b + n -> P i s').
  { clear s Hinv Hq Hperm Hnd Hl. induction l as [|[i t] l IH]; intros s Hsub Hnd Hinv Hq Hp.
    - exists s. split; [done|]. split; [done|]. intros i Hi.
      destruct (Hp i Hi) as [H|]; [by apply elem_of_nil in H|done].
    - cbn [map fst] in *. apply list.NoDup_cons in Hnd as [Hni Hnd].
      destruct (Hin (i, t)) as [Hi Ht]; [apply Hsub, list_elem_of_here|].
      destruct (Hstep i t s Hi Ht Hinv) as (s1 & E & Hinv1 & Hp1 & Hk); [apply Hq, list_elem_of_here|].
      cbn [for_each fst snd]. rewrite E. cbn [mbind option_bind].
      apply IH; [intros; apply Hsub; by apply list_elem_of_further|done|done| |].
      + intros k Hkl. assert (k <> i) by (by intros ->).
        assert (b <= k < b + n).
        { apply list_elem_of_fmap in Hkl as (it & -> & Hit). apply Hin, Hsub. by apply list_elem_of_further. }
        apply Hk; [done..|]. apply Hq. by apply list_elem_of_further.
      + intros k Hkr. destruct (decide (k = i)) as [->|Hne]; [by right|].
        destruct (Hp k Hkr) as [H|H]; [|right; by apply Hk].
        apply elem_of_cons in H as [|]; [done|by left]. }
  apply H; [done|done|done| |].
  - intros i Hi. apply Hq. apply elem_of_seqZ. by rewrite <- Hperm.
  - intros i Hi. left. destruct (Hl i Hi) as [t Ht]. change i with (fst (i, t)). by apply list_elem_of_fmap_2.
Qed.

(** Without anything to find. *)
Lemma run_log_spec {S} (Inv : S -> Prop) (P : Z -> S -> Prop) nThreads n log body (s : S) :
  concat (map (fun r => job_range (fst r)) log) ≡ₚ seqZ 0 n ->
  Forall (fun r => Z.of_nat (snd r) < nThreads) log -> Inv s ->
  (forall i t s, 0 <= i < n -> 0 <= t < nThreads -> Inv s ->
    exists s', body t i s = Some s' /\ Inv s' /\ P i s' /\ forall k, k <> i -> P k s -> P k s') ->
  exists s', run_log log body s = Some s' /\ Inv s' /\ forall i, 0 <= i < n -> P i s'.
Proof.
  intros Hperm Hids Hinv Hstep.
  eapply (run_log_steps Inv (fun _ _ => True) P nThreads 0 n); [done..|].
  intros i t s0 Hi Ht Hs _. destruct (Hstep i t s0 Hi Ht Hs) as (s' & E & Hs' & Hp & Hk).
  exists s'. split; [done|]. split; [done|]. split; [done|]. intros k _ Hne. split; [done|by apply Hk].
Qed.

(** A complete call of [parallelFor]. *)
Lemma parallelFor_steps {S} (Inv : S -> Prop) (Q P : Z -> S -> Prop) nThreads begin end_ log body (s : S) :
  begin <= end_ -> is_i32 begin -> is_i32 end_ -> 1 <= nThreads < 2 ^ 32 ->
  call_log true nThreads (parallelFor begin end_ nThreads) log -> Inv s ->
  (forall i, begin <= i < end_ -> Q i s) ->
  (forall i t s, begin <= i < end_ -> 0 <= t < nThreads -> Inv s -> Q i s ->
    exists s', body t i s = Some s' /\ Inv s' /\ P i s' /\
      forall k, begin <= k < end_ -> k <> i -> (Q k s -> Q k s') /\ (P k s -> P k s')) ->
  exists s', run_log log body s = Some s' /\ Inv s' /\ forall i, begin <= i < end_ -> P i s'.
Proof.
  intros Hle Hb He Hn Hlog Hinv Hq Hstep.
  destruct (parallelFor_log begin end_ nThreads log) as [Hperm Hids]; [done..|].
  assert (Hr : forall i, begin <= i < begin + (end_ - begin) <-> begin <= i < end_) by lia.
  destruct (run_log_steps Inv Q P nThreads begin (end_ - begin) log body s) as (s' & E & Hi & Hp);
    [done|done|done|intros i Hi; apply Hq; lia| |].
  - intros i t s0 Hi Ht Hs HQ. destruct (Hstep i t s0) as (s' & E & Hs' & Hp & Hk); [lia|done..|].
    exists s'. split; [done|]. split; [done|]. split; [done|]. intros k Hk'. apply Hk. lia.
  - exists s'. split; [done|]. split; [done|]. intros i Hi'. apply Hp. lia.
Qed.

(** What the jobs of a [parallelBlock] are. *)
Lemma parallelBlock_log nThreads log :
  1 <= nThreads < 2 ^ 32 -> call_log false nThreads (parallelBlock nThreads) log ->
  map fst log ≡ₚ seqZ 0 nThreads.
Proof.
  intros Hn Hlog. unfold parallelBlock in Hlog. destruct Hlog as (ts & p & Hrun & Hdone & ->).
  assert (Hl : length (seqZ 0 nThreads) = Z.to_nat nThreads) by apply length_seqZ.
  assert (H : call_correct false nThreads (seqZ 0 nThreads) (Z.to_nat nThreads))
    by (apply call_correct_intro; rewrite ?Hl; lia).
  destruct (H _ _ Hrun) as (_ & _ & Hd). by destruct (Hd Hdone).
Qed.

(** A block whose jobs each establish their part and take nothing away. *)
Lemma parallelBlock_steps {S} (Inv : S -> Prop) (P : Z -> S -> Prop) nThreads log body (s : S) :
  1 <= nThreads < 2 ^ 32 -> call_log false nThreads (parallelBlock nThreads) log -> Inv s ->
  (forall t s, 0 <= t < nThreads -> Inv s ->
    exists s', body t s = Some s' /\ Inv s' /\ P t s' /\ forall k, P k s -> P k s') ->
  exists s', run_block log body s = Some s' /\ Inv s' /\ forall t, 0 <= t < nThreads -> P t s'.
Proof.
  intros Hn Hlog Hinv Hstep. apply parallelBlock_log in Hlog; [|done].
  assert (H : forall log s, (forall t, t ∈ map fst log -> 0 <= t < nThreads) -> Inv s ->
    (forall t, 0 <= t < nThreads -> t ∈ map fst log \/ P t s) ->
    exists s', run_block log body s = Some s' /\ Inv s' /\ forall t, 0 <= t < nThreads -> P t s').
  { clear log s Hlog Hinv. unfold run_block.
    induction log as [|[t w] log IH]; intros s Hin Hinv Hp; cbn [for_each map fst] in *.
    - exists s. split; [done|]. split; [done|]. intros t Ht.
      destruct (Hp t Ht) as [H|]; [by apply elem_of_nil in H|done].
    - destruct (Hstep t s) as (s1 & E & Hinv1 & Hp1 & Hk); [apply Hin, list_elem_of_here|done|].
      rewrite E. cbn [mbind option_bind]. apply IH; [|done|].
      + intros k Hkl. apply Hin. by apply list_elem_of_further.
      + intros k Hkr. destruct (Hp k Hkr) as [H|H]; [|right; by apply Hk].
        apply elem_of_cons in H as [->|]; [by right|by left]. }
  apply H; [|done|]; intros t; rewrite Hlog, elem_of_seqZ; [lia|]. intros Ht. left. lia.
Qed.

(** ** The schedule of one thread

    With a pool of one thread the caller runs every job itself. *)
Section Alone.
Context {J : Type} (drains : bool).

Fixpoint caller_runs (n : nat) (jobs : list J) (threadCount : nat) (p : Pool J) : Pool J :=
  match n with
  | O => p
  | S n =>
      match caller_step jobs threadCount drains p with
      | Some p' => caller_runs n jobs threadCount p'
      | None => p
      end
  end.

Definition alone_pool (jobs : list J) (threadCount : nat) : Pool J :=
  caller_runs (4 * length jobs + 1) jobs threadCount (pool_of 1 threadCount).

Definition alone_log (c : call J) : list (J * nat) :=
  match c with Call jobs threadCount => ran (alone_pool jobs threadCount) | _ => [] end.

Definition alone_done (c : call J) : Prop :=
  match c with
  | NoCall => True
  | Call jobs threadCount => caller (alone_pool jobs threadCount) = MDone
  | UndefinedCall => False
  end.

Lemma alone_call_log c : alone_done c -> call_log drains 1 c (alone_log c).
Proof.
  destruct c as [|jobs tc|]; cbn; [done| |done]. intros Hdone.
  assert (H : forall n p, exists ts, pool_run jobs tc drains ts p = Some (caller_runs n jobs tc p)).
  { induction n as [|n IH]; intros p; cbn [caller_runs]; [by exists []|].
    destruct (caller_step jobs tc drains p) as [p'|] eqn:E; [|by exists []].
    destruct (IH p') as [ts Hts]. exists (None :: ts). cbn [pool_run pool_step]. by rewrite E. }
  destruct (H (4 * length jobs + 1)%nat (pool_of 1 tc)) as [ts Hts].
  exists ts. eexists. split; [exact Hts|]. by split.
Qed.
End Alone.
