(* ===== verification/Msm.v ===== *)
(** Multi-scalar multiplication by buckets: the class [MSM] of
    [depends/ffiasm/c/msm.cpp] and [msm.hpp], over a curve interface.  The two parallel
    loops are run along a log of the thread pool, that is, in the order and on the
    threads the log says; cells of the arrays the code allocates are uninitialised
    until they are written. *)

From S2P Require Import Prelude Mpz Group Naf Loops Parallel Schedule.

(** ** Sizes *)

Definition MIN_CHUNK_SIZE_BITS : Z := 3.
Definition MAX_CHUNK_SIZE_BITS : Z := 16.

Definition calcChunkCount (scalarSize bitsPerChunk : Z) : Z :=
  u64 (u64 (scalarSize * 8 - 1) / bitsPerChunk + 1).

Definition calcAddsCount (nPoints scalarSize bitsPerChunk : Z) : Z :=
  u64 (calcChunkCount scalarSize bitsPerChunk *
       u64 (nPoints + Z.shiftl 1 bitsPerChunk + bitsPerChunk + 1)).

(** One round of the loop of [calcBitsPerChunk]. *)
Definition better_bits (n scalarSize : Z) (best : Z * Z) (k : Z) : Z * Z :=
  let '(minAdds, bitsPerChunk) := best in
  let curAdds := calcAddsCount n scalarSize k in
  if curAdds <? minAdds then (curAdds, k) else (minAdds, bitsPerChunk).

Definition calcBitsPerChunk (n scalarSize : Z) : Z :=
  let bitsPerChunk := MIN_CHUNK_SIZE_BITS in
  let minAdds := calcAddsCount n scalarSize bitsPerChunk in
  snd (fold_left (better_bits n scalarSize)
         (seqZ (MIN_CHUNK_SIZE_BITS + 1) (MAX_CHUNK_SIZE_BITS - MIN_CHUNK_SIZE_BITS))
         (minAdds, bitsPerChunk)).

Definition calcBucketCount (bitsPerChunk : Z) : Z := Z.shiftl 1 (bitsPerChunk - 1).

(** ** Digits *)

(** A 64-bit load from the scalars. *)
Definition load_u64 (scalars : list Z) (p : Z) : option Z :=
  if p + 8 <=? Z.of_nat (length scalars)
  then Some (le_value (take 8 (drop (Z.to_nat p) scalars))) else None.

(** [None]: a load outside the scalars, or a shift by the width of the word. *)
Definition getBucketIndex (scalars : list Z) (scalarSize bitsPerChunk scalarIdx chunkIdx : Z) :
    option Z :=
  let bitStart := u64 (chunkIdx * bitsPerChunk) in
  let byteStart := bitStart / 8 in
  let efectiveBitsPerChunk := bitsPerChunk in
  let byteStart := if byteStart >? u64 (scalarSize - 8) then u64 (scalarSize - 8) else byteStart in
  let efectiveBitsPerChunk :=
    if u64 (bitStart + bitsPerChunk) >? u64 (scalarSize * 8) then u64 (u64 (scalarSize * 8) - bitStart)
    else efectiveBitsPerChunk in
  let shift := u64 (bitStart - u64 (byteStart * 8)) in
  v ← load_u64 scalars (u64 (u64 (scalarIdx * scalarSize) + byteStart));
  if (shift >=? 64) || (efectiveBitsPerChunk >=? 64) then None
  else
    let v := Z.shiftr v shift in
    let v := Z.land v (u64 (Z.shiftl 1 efectiveBitsPerChunk - 1)) in
    Some v.

(** The body of the first loop for the scalar [i]: its digits go to the row [i]. *)
Definition slice_scalar (scalars : list Z) (scalarSize bitsPerChunk nChunks nBuckets i : Z)
    (slicedScalars : array Z) : option (array Z) :=
  r ← for_each (seqZ 0 nChunks)
    (fun j '(slicedScalars, carry) =>
      v ← getBucketIndex scalars scalarSize bitsPerChunk i j;
      let bucketIndex := i32 (u64 (v + carry)) in
      let '(bucketIndex, carry) :=
        if u64 bucketIndex >=? nBuckets
        then (i32 (u64 (bucketIndex - nBuckets * 2)), 1) else (bucketIndex, 0) in
      slicedScalars ← array_set slicedScalars (u64 (u64 (i * nChunks) + j)) bucketIndex;
      Some (slicedScalars, carry))
    (slicedScalars, 0);
  Some (fst r).

(** ** Buckets *)

Section Run.
Context {Affine Pt : Type} {C : CurveOps Affine Pt}.

(** [g.copy(buckets[i], g.zero())] for every bucket. *)
Definition clear_buckets (nBuckets off : Z) (bucketMatrix : array Pt) : option (array Pt) :=
  for_each (seqZ 0 nBuckets) (fun i m => array_set m (off + i) pt_zero) bucketMatrix.

(** The bucket of each point for the chunk [j]. *)
Definition fill_buckets (bases : list Affine) (slicedScalars : array Z) (nChunks nPoints off j : Z)
    (bucketMatrix : array Pt) : option (array Pt) :=
  for_each (seqZ 0 nPoints)
    (fun i m =>
      bucketIndex ← array_get slicedScalars (u64 (u64 (i * nChunks) + j));
      if bucketIndex >? 0 then
        b ← array_get m (off + (bucketIndex - 1));
        base ← bases !! Z.to_nat i;
        array_set m (off + (bucketIndex - 1)) (pt_add b base)
      else if bucketIndex <? 0 then
        b ← array_get m (off + (- bucketIndex - 1));
        base ← bases !! Z.to_nat i;
        array_set m (off + (- bucketIndex - 1)) (pt_sub b base)
      else Some m)
    bucketMatrix.

(** The sum of the buckets, each as often as its index says. *)
Definition reduce_buckets (nBuckets off : Z) (bucketMatrix : array Pt) : option Pt :=
  t ← array_get bucketMatrix (off + (nBuckets - 1));
  r ← for_each (down (nBuckets - 1))
    (fun i '(t, tmp) =>
      b ← array_get bucketMatrix (off + i);
      let tmp := pt_plus tmp b in
      let t := pt_plus t tmp in
      Some (t, tmp))
    (t, t);
  Some (fst r).

(** The body of the second loop for the chunk [j] on the thread [numThread]. *)
Definition sum_chunk (bases : list Affine) (slicedScalars : array Z) (nChunks nBuckets nPoints : Z)
    (numThread j : Z) (s : array Pt * array Pt) : option (array Pt * array Pt) :=
  let '(bucketMatrix, chunks) := s in
  let off := numThread * nBuckets in
  m ← clear_buckets nBuckets off bucketMatrix;
  m ← fill_buckets bases slicedScalars nChunks nPoints off j m;
  t ← reduce_buckets nBuckets off m;
  chunks ← array_set chunks j t;
  Some (m, chunks).

(** The last loops: [bitsPerChunk] doublings, then the next chunk. *)
Definition combine_chunks (bitsPerChunk nChunks : Z) (chunks : array Pt) : option Pt :=
  r ← array_get chunks (nChunks - 1);
  for_each (down (nChunks - 1))
    (fun j r =>
      c ← array_get chunks j;
      Some (pt_plus (Nat.iter (Z.to_nat bitsPerChunk) pt_dbl r) c))
    r.

(** [MSM::run], [log1] and [log2] being what its two parallel loops did. *)
Definition msm_run (nThreads : Z) (log1 log2 : list (JobRange * nat)) (bases : list Affine)
    (scalars : list Z) (scalarSize n : Z) : option Pt :=
  let nPoints := n in
  let bitsPerChunk := calcBitsPerChunk nPoints scalarSize in
  if nPoints =? 0 then Some pt_zero
  else if nPoints =? 1 then
    base ← bases !! 0%nat;
    nafMulByScalar base (take (Z.to_nat scalarSize) scalars) scalarSize
  else
    let nChunks := calcChunkCount scalarSize bitsPerChunk in
    let nBuckets := calcBucketCount bitsPerChunk in
    let matrixSize := u64 (nThreads * nBuckets) in
    let nSlices := u64 (nChunks * nPoints) in
    slicedScalars ← run_log log1
      (fun _ => slice_scalar scalars scalarSize bitsPerChunk nChunks nBuckets) (new_array nSlices);
    r ← run_log log2 (sum_chunk bases slicedScalars nChunks nBuckets nPoints)
      (new_array matrixSize, new_array nChunks);
    combine_chunks bitsPerChunk nChunks (snd r).
End Run.
