(* ===== verification/MultiExp.v ===== *)
(** The multi-exponentiation behind [Curve::multiMulByScalar]: the class
    [ParallelMultiexp] of [depends/ffiasm/c/multiexp.cpp] and [multiexp.hpp], and [log2]
    of [misc.cpp].  Each thread adds the points to accumulators of its own, one per
    value of a chunk of bits; the rows of the threads are packed into one, and the row
    is reduced by halves.  The loops are OpenMP loops: a log says in which order and on
    which threads the rounds were run, without OpenMP in their order and on thread 0. *)

From S2P Require Import Prelude Mpz Group Naf Loops Parallel Schedule Msm.

Definition PME2_PACK_FACTOR : Z := 2.
Definition PME2_MAX_CHUNK_SIZE_BITS : Z := 16.
Definition PME2_MIN_CHUNK_SIZE_BITS : Z := 2.

(** ** [log2] of [misc.cpp] *)

Definition tab32 : list Z :=
  [ 0;  9;  1; 10; 13; 21;  2; 29;
   11; 14; 16; 18; 22; 25;  3; 30;
    8; 12; 20; 28; 15; 17; 24;  7;
   19; 27; 23;  6; 26;  5;  4; 31].

Definition smear (value d : Z) : Z := Z.lor value (Z.shiftr value d).

Definition log2 (value : Z) : Z :=
  let value := smear value 1 in
  let value := smear value 2 in
  let value := smear value 4 in
  let value := smear value 8 in
  let value := smear value 16 in
  nth (Z.to_nat (Z.shiftr (u32 (value * 0x07C4ACDD)) 27)) tab32 0.

(** ** Chunks of bits *)

(** [None]: a load outside the scalars, or a shift that C++ does not define ([1] is an
    [int]). *)
Definition getChunk (scalars : list Z) (scalarSize bitsPerChunk scalarIdx chunkIdx : Z) : option Z :=
  let bitStart := u64 (chunkIdx * bitsPerChunk) in
  let byteStart := bitStart / 8 in
  let efectiveBitsPerChunk := bitsPerChunk in
  let byteStart := if byteStart >? u64 (scalarSize - 8) then u64 (scalarSize - 8) else byteStart in
  let efectiveBitsPerChunk :=
    if u64 (bitStart + bitsPerChunk) >? u64 (scalarSize * 8) then u64 (u64 (scalarSize * 8) - bitStart)
    else efectiveBitsPerChunk in
  let shift := u64 (bitStart - u64 (byteStart * 8)) in
  v ← load_u64 scalars (u64 (u64 (scalarIdx * scalarSize) + byteStart));
  if (shift >=? 64) || (efectiveBitsPerChunk >=? 31) then None
  else
    let v := Z.shiftr v shift in
    let v := Z.land v (u64 (Z.shiftl 1 efectiveBitsPerChunk - 1)) in
    Some v.

(** The chunk and accumulator sizes of [multiexp]. *)
Definition me_bitsPerChunk (n : Z) : Z :=
  let bitsPerChunk := log2 (u32 (n / PME2_PACK_FACTOR)) in
  let bitsPerChunk := if bitsPerChunk >? PME2_MAX_CHUNK_SIZE_BITS then PME2_MAX_CHUNK_SIZE_BITS else bitsPerChunk in
  if bitsPerChunk <? PME2_MIN_CHUNK_SIZE_BITS then PME2_MIN_CHUNK_SIZE_BITS else bitsPerChunk.

Definition me_nChunks (scalarSize bitsPerChunk : Z) : Z := u64 (u64 (scalarSize * 8 - 1) / bitsPerChunk + 1).

(** ** OpenMP loops *)

(** The rounds in the order they were run, each with its thread. *)
Notation omp_log := (list (Z * Z)).

(** [#pragma omp parallel for] with the rounds [b, ..., b + n - 1]. *)
Definition omp_runs (nThreads b n : Z) (log : omp_log) : Prop :=
  map fst log ≡ₚ seqZ b n /\ Forall (fun r => 0 <= snd r < nThreads) log.

Definition omp_for {S} (log : omp_log) (body : Z -> Z -> S -> option S) : S -> option S :=
  for_each log (fun '(i, idThread) => body idThread i).

(** ** Points *)

(** The tests for zero of a curve, and a point whose bytes are all zero. *)
Class ZeroOps (Affine Pt : Type) := {
  aff_isZero : Affine -> bool;
  pt_isZero : Pt -> bool;
  pt_bytes0 : Pt
}.

Section Multiexp.
Context {Affine Pt : Type} {C : CurveOps Affine Pt} {Z0 : ZeroOps Affine Pt}.

(** [g.copy(accs[i].p, g.zero())] *)
Definition initAccs (log : omp_log) (accs : array Pt) : option (array Pt) :=
  omp_for log (fun _ i accs => array_set accs i pt_zero) accs.

(** [g.add(accs[k].p, accs[k].p, bases[i])] for the chunk of the scalar [i]. *)
Definition add_to_acc (base : Affine) (accsPerChunk idThread chunkValue : Z) (accs : array Pt) : option (array Pt) :=
  if chunkValue =? 0 then Some accs
  else
    let k := u64 (u64 (idThread * accsPerChunk) + chunkValue) in
    acc ← array_get accs k;
    array_set accs k (pt_add acc base).

Definition process_point (bases : list Affine) (scalars : list Z) (scalarSize bitsPerChunk accsPerChunk idChunk : Z)
    (idThread i : Z) (accs : array Pt) : option (array Pt) :=
  base ← bases !! Z.to_nat i;
  if aff_isZero base then Some accs
  else
    chunkValue ← getChunk scalars scalarSize bitsPerChunk i idChunk;
    add_to_acc base accsPerChunk idThread chunkValue accs.

Definition processChunk (bases : list Affine) (scalars : list Z) (scalarSize bitsPerChunk accsPerChunk : Z)
    (log : omp_log) (idChunk : Z) (accs : array Pt) : option (array Pt) :=
  omp_for log (process_point bases scalars scalarSize bitsPerChunk accsPerChunk idChunk) accs.

(** [i > len * nX + mod]: whether the sizes leave the point [i] out. *)
Definition left_out (nX : Z) (size : list Z) (i : Z) : option bool :=
  if nX =? 0 then None
  else
    let mod_ := u32 (i mod nX) in
    s ← size !! Z.to_nat mod_;
    let len := u32 (s - 1) in
    Some (i >? u64 (u64 (len * nX) + mod_)).

(** The second [processChunk]: column [i % nX] has [size[i % nX]] points. *)
Definition processChunk_sizes (nX : Z) (size : list Z) (bases : list Affine) (scalars : list Z)
    (scalarSize bitsPerChunk accsPerChunk : Z) (log : omp_log) (idChunk : Z) (accs : array Pt) : option (array Pt) :=
  omp_for log
    (fun idThread i accs =>
      out ← left_out nX size i;
      if out : bool then Some accs
      else process_point bases scalars scalarSize bitsPerChunk accsPerChunk idChunk idThread i accs) accs.

(** The accumulators of the other threads go to those of the first. *)
Definition pack_acc (nThreads accsPerChunk i : Z) (accs : array Pt) : option (array Pt) :=
  for_each (seqZ 1 (nThreads - 1))
    (fun j accs =>
      let k := u64 (u64 (j * accsPerChunk) + i) in
      p ← array_get accs k;
      if pt_isZero p then Some accs
      else
        acc ← array_get accs i;
        accs ← array_set accs i (pt_plus acc p);
        array_set accs k pt_zero) accs.

Definition packThreads (nThreads accsPerChunk : Z) (log : omp_log) (accs : array Pt) : option (array Pt) :=
  omp_for log (fun _ => pack_acc nThreads accsPerChunk) accs.

(** The upper half onto the lower one, its sum per thread. *)
Definition reduce_pair (ndiv2 idThread i : Z) (s : array Pt * array Pt) : option (array Pt * array Pt) :=
  let '(accs, sall) := s in
  p ← array_get accs (ndiv2 + i);
  if pt_isZero p then Some (accs, sall)
  else
    acc ← array_get accs i;
    accs ← array_set accs i (pt_plus acc p);
    t ← array_get sall idThread;
    sall ← array_set sall idThread (pt_plus t p);
    accs ← array_set accs (ndiv2 + i) pt_zero;
    Some (accs, sall).

(** [g.dbl(accs[k].p, accs[k].p)] and [g.add(accs[k].p, accs[k].p, q)]. *)
Definition dbl_acc (k : Z) (accs : array Pt) : option (array Pt) :=
  a ← array_get accs k; array_set accs k (pt_dbl a).
Definition plus_acc (k : Z) (q : Pt) (accs : array Pt) : option (array Pt) :=
  a ← array_get accs k; array_set accs k (pt_plus a q).

(** [logs] has the log of the loop of each depth. *)
Fixpoint reduce (nThreads : Z) (logs : nat -> omp_log) (nBits : nat) (accs : array Pt) : option (Pt * array Pt) :=
  match nBits with
  | O => None
  | S O =>
      res ← array_get accs 1;
      accs ← array_set accs 1 pt_zero;
      Some (res, accs)
  | S nBits1 =>
      let ndiv2 := Z.shiftl 1 (Z.of_nat nBits1) in
      let sall := replicate (Z.to_nat nThreads) (Some pt_bytes0) in
      s ← omp_for (logs nBits) (reduce_pair ndiv2) (accs, sall);
      let '(accs, sall) := s in
      accs ← for_each (seqZ 0 nThreads) (fun i accs => q ← array_get sall i; plus_acc ndiv2 q accs) accs;
      r ← reduce nThreads logs nBits1 accs;
      let '(p1, accs) := r in
      accs ← for_each (seqZ 0 (Z.of_nat nBits1)) (fun _ => dbl_acc ndiv2) accs;
      a ← array_get accs ndiv2;
      let res := pt_plus p1 a in
      accs ← array_set accs ndiv2 pt_zero;
      Some (res, accs)
  end.

(** What the loops of a call did. *)
Record MultiexpLogs := mkMultiexpLogs {
  init_accs_log : omp_log;
  process_log : Z -> omp_log;
  pack_log : Z -> omp_log;
  reduce_log : Z -> nat -> omp_log
}.

(** Both functions [multiexp], which differ in the [processChunk] they call:
    [process bitsPerChunk accsPerChunk log idChunk accs]. *)
Definition multiexp_with (process : Z -> Z -> omp_log -> Z -> array Pt -> option (array Pt))
    (nThreads : Z) (L : MultiexpLogs) (bases : list Affine) (scalars : list Z) (scalarSize n : Z) : option Pt :=
  if n =? 0 then Some pt_zero
  else if n =? 1 then
    base ← bases !! 0%nat;
    nafMulByScalar base (take (Z.to_nat scalarSize) scalars) scalarSize
  else
    let bitsPerChunk := me_bitsPerChunk n in
    let nChunks := me_nChunks scalarSize bitsPerChunk in
    let accsPerChunk := Z.shiftl 1 bitsPerChunk in
    let chunkResults := new_array nChunks in
    let accs := new_array (u64 (nThreads * accsPerChunk)) in
    accs ← initAccs (init_accs_log L) accs;
    r ← for_each (seqZ 0 nChunks)
      (fun i '(accs, chunkResults) =>
        accs ← process bitsPerChunk accsPerChunk (process_log L i) i accs;
        accs ← packThreads nThreads accsPerChunk (pack_log L i) accs;
        r ← reduce nThreads (reduce_log L i) (Z.to_nat bitsPerChunk) accs;
        let '(res, accs) := r in
        chunkResults ← array_set chunkResults i res;
        Some (accs, chunkResults))
      (accs, chunkResults);
    combine_chunks bitsPerChunk nChunks (snd r).

Definition multiexp nThreads L bases scalars scalarSize n : option Pt :=
  multiexp_with (processChunk bases scalars scalarSize) nThreads L bases scalars scalarSize n.

Definition multiexp_sizes nThreads L bases scalars scalarSize n nx x : option Pt :=
  multiexp_with (processChunk_sizes nx x bases scalars scalarSize) nThreads L bases scalars scalarSize n.
End Multiexp.

(** What the program relies on of OpenMP: each loop runs its rounds, on the threads it has. *)
Record omp_logs_ok (nThreads n accsPerChunk nChunks : Z) (L : MultiexpLogs) : Prop := {
  ol_init : omp_runs nThreads 0 (nThreads * accsPerChunk) (init_accs_log L);
  ol_process i : 0 <= i < nChunks -> omp_runs nThreads 0 n (process_log L i);
  ol_pack i : 0 <= i < nChunks -> omp_runs nThreads 0 accsPerChunk (pack_log L i);
  ol_reduce i k : 0 <= i < nChunks -> (1 <= k)%nat -> omp_runs nThreads 1 (2 ^ (Z.of_nat k - 1) - 1) (reduce_log L i k)
}.
