(* ===== verification/MsmDigits.v ===== *)
(** The digits the bucket method works with: what [getBucketIndex] reads is a window
    of the scalar, and the signed digits [slice_scalar] writes stand for it. *)

From S2P Require Import Prelude Mpz Group Naf Loops Parallel Msm.

(** ** Parts of a little-endian number *)

Lemma le_value_app l1 l2 :
  le_value (l1 ++ l2) = le_value l1 + 2 ^ (8 * Z.of_nat (length l1)) * le_value l2.
Proof.
  induction l1 as [|x l1 IH]; cbn [le_value app length]; [rewrite Z.mul_0_r; lia|].
  rewrite IH. replace (8 * Z.of_nat (S (length l1))) with (8 + 8 * Z.of_nat (length l1)) by lia.
  rewrite Z.pow_add_r by lia. ring.
Qed.

Lemma le_value_split l k :
  Forall is_byte l -> (k <= length l)%nat ->
  le_value (take k l) = le_value l mod 2 ^ (8 * Z.of_nat k) /\
  le_value (drop k l) = le_value l / 2 ^ (8 * Z.of_nat k).
Proof.
  intros Hl Hk. assert (Ht : length (take k l) = k) by (rewrite length_take; lia).
  pose proof (le_value_range (take k l) ltac:(by apply Forall_take)) as Hr. rewrite Ht in Hr.
  pose proof (le_value_app (take k l) (drop k l)) as E. rewrite take_drop, Ht in E.
  rewrite E, Z.mul_comm. assert (0 < 2 ^ (8 * Z.of_nat k)) by (apply Z.pow_pos_nonneg; lia).
  rewrite Z.mod_add, Z.div_add by lia. rewrite Z.mod_small, Z.div_small by lia. lia.
Qed.

(** A window of bits below the top of a word. *)
Lemma window_of_word x w sh e :
  0 <= sh -> 0 <= e -> sh + e <= w ->
  (x mod 2 ^ w / 2 ^ sh) mod 2 ^ e = (x / 2 ^ sh) mod 2 ^ e.
Proof.
  intros Hsh He Hw. rewrite (Z.div_mod x (2 ^ w)) at 2 by (apply Z.pow_nonzero; lia).
  replace (2 ^ w * (x / 2 ^ w) + x mod 2 ^ w)
    with (x mod 2 ^ w + (2 ^ (w - sh - e) * (x / 2 ^ w) * 2 ^ e) * 2 ^ sh).
  - rewrite Z.div_add by (apply Z.pow_nonzero; lia). by rewrite Z.mod_add by (apply Z.pow_nonzero; lia).
  - replace (2 ^ w) with (2 ^ (w - sh - e) * 2 ^ e * 2 ^ sh) at 3; [ring|].
    rewrite <- !Z.pow_add_r by lia. f_equal. lia.
Qed.

(** ** Sizes *)

Record msm_sizes (scalarSize bitsPerChunk nChunks : Z) : Prop := {
  size_scalar : 8 <= scalarSize < 2 ^ 24;
  size_bits : 2 <= bitsPerChunk <= 16;
  size_low : bitsPerChunk * (nChunks - 1) < 8 * scalarSize;
  size_high : 8 * scalarSize <= bitsPerChunk * nChunks
}.

Lemma calcChunkCount_sizes scalarSize b :
  8 <= scalarSize < 2 ^ 24 -> 2 <= b <= 16 ->
  msm_sizes scalarSize b (calcChunkCount scalarSize b).
Proof.
  intros Hs Hb. change (2 ^ 24) with 16777216 in Hs. unfold calcChunkCount.
  rewrite (u64_id (scalarSize * 8 - 1)) by word_lia.
  pose proof (Z.div_mod (scalarSize * 8 - 1) b ltac:(lia)).
  pose proof (Z.mod_pos_bound (scalarSize * 8 - 1) b ltac:(lia)).
  assert (0 <= (scalarSize * 8 - 1) / b <= scalarSize * 8) by nia.
  rewrite u64_id by word_lia. split; [by change (2 ^ 24) with 16777216|done|nia|nia].
Qed.

Lemma calcBitsPerChunk_range n scalarSize : 3 <= calcBitsPerChunk n scalarSize <= 16.
Proof.
  unfold calcBitsPerChunk.
  assert (H : forall l best, Forall (fun k => 3 <= k <= 16) l -> 3 <= snd best <= 16 ->
    3 <= snd (fold_left (better_bits n scalarSize) l best) <= 16).
  { induction l as [|k l IH]; intros best Hl Hb; [done|]. apply list.Forall_cons in Hl as [Hk Hl].
    apply IH; [done|]. unfold better_bits. destruct best as [a bits]. cbn zeta. by case_match. }
  apply H; [|split; discriminate]. apply list.Forall_forall. intros k Hk.
  apply elem_of_seqZ in Hk. unfold MIN_CHUNK_SIZE_BITS, MAX_CHUNK_SIZE_BITS in Hk. lia.
Qed.

(** ** Windows of a scalar *)

Definition window (b s : Z) (j : Z) : Z := (s / 2 ^ (b * j)) mod 2 ^ b.

Lemma window_range b s j : 0 <= b -> 0 <= window b s j < 2 ^ b.
Proof. intros Hb. apply Z.mod_pos_bound. apply Z.pow_pos_nonneg; lia. Qed.

Section Windows.
Context (scalars : list Z) (scalarSize b m n : Z) (Hsizes : msm_sizes scalarSize b m).
Context (Hbytes : Forall is_byte scalars).
Context (Hlen : Z.of_nat (length scalars) = n * scalarSize) (Hn : 0 <= n < 2 ^ 31).

(** The bytes of the scalar [i]. *)
Definition row (i : Z) : list Z :=
  take (Z.to_nat scalarSize) (drop (Z.to_nat (i * scalarSize)) scalars).

Lemma row_length i : 0 <= i < n -> Z.of_nat (length (row i)) = scalarSize.
Proof.
  intros Hi. destruct Hsizes. unfold row. rewrite length_take, length_drop.
  assert (i * scalarSize + scalarSize <= n * scalarSize) by nia. lia.
Qed.

Lemma row_bytes i : Forall is_byte (row i).
Proof. by apply Forall_take, Forall_drop. Qed.

Lemma row_range i : 0 <= i < n -> 0 <= le_value (row i) < 2 ^ (8 * scalarSize).
Proof. intros Hi. rewrite <- (row_length i Hi). apply le_value_range, row_bytes. Qed.

(** A word of a scalar. *)
Lemma load_row i p :
  0 <= i < n -> 0 <= p <= scalarSize - 8 ->
  load_u64 scalars (i * scalarSize + p) = Some (le_value (row i) / 2 ^ (8 * p) mod 2 ^ 64).
Proof.
  intros Hi Hp. destruct Hsizes as [Hs _ _ _]. pose proof (row_length i Hi) as Hr.
  assert (i * scalarSize + scalarSize <= n * scalarSize) by nia.
  unfold load_u64. destruct (Z.leb_spec (i * scalarSize + p + 8) (Z.of_nat (length scalars))); [|lia].
  assert (E : take 8 (drop (Z.to_nat (i * scalarSize + p)) scalars) =
    take 8 (drop (Z.to_nat p) (row i))).
  { unfold row. rewrite skipn_firstn_comm, take_take, drop_drop.
    rewrite Nat.min_l by lia. f_equal. f_equal. nia. }
  rewrite E. f_equal.
  destruct (le_value_split (drop (Z.to_nat p) (row i)) 8) as [-> _];
    [by apply Forall_drop, row_bytes|rewrite length_drop; lia|].
  destruct (le_value_split (row i) (Z.to_nat p)) as [_ ->]; [apply row_bytes|lia|].
  by rewrite Z2Nat.id by lia.
Qed.

Lemma getBucketIndex_spec i j :
  0 <= i < n -> 0 <= j < m ->
  getBucketIndex scalars scalarSize b i j = Some (window b (le_value (row i)) j).
Proof.
  intros Hi Hj. pose proof Hsizes as [Hs Hb Hlo Hhi].
  change (2 ^ 24) with 16777216 in Hs. change (2 ^ 31) with 2147483648 in Hn.
  assert (Hbj : 0 <= b * j <= b * (m - 1)) by nia.
  assert (Hm : 0 <= m <= 2 ^ 27) by (change (2 ^ 27) with 134217728; nia).
  unfold getBucketIndex. rewrite (Z.mul_comm j b).
  rewrite (u64_id (b * j)), (u64_id (scalarSize - 8)), (u64_id (scalarSize * 8)),
    (u64_id (b * j + b)), (u64_id (scalarSize * 8 - b * j)) by word_lia.
  assert (Hin : 0 <= i * scalarSize < 2 ^ 55) by (change (2 ^ 55) with 36028797018963968; nia).
  change (2 ^ 55) with 36028797018963968 in Hin.
  rewrite (u64_id (i * scalarSize)) by word_lia.
  set (p := if _ >? _ then _ else _). set (e := if _ >? _ then _ else b).
  pose proof (Z.div_mod (b * j) 8 ltac:(lia)). pose proof (Z.mod_pos_bound (b * j) 8 ltac:(lia)).
  assert (Hp : 0 <= p <= scalarSize - 8 /\ 8 * p <= b * j)
    by (unfold p; destruct (Z.gtb_spec (b * j / 8) (scalarSize - 8)); lia).
  assert (He : 0 <= e <= 16 /\ b * j - 8 * p + e <= 64 /\ e = Z.min b (8 * scalarSize - b * j)).
  { unfold e, p. destruct (Z.gtb_spec (b * j / 8) (scalarSize - 8)),
      (Z.gtb_spec (b * j + b) (scalarSize * 8)); lia. }
  destruct He as (He & Hshift & Hemin).
  rewrite (u64_id (p * 8)), (u64_id (b * j - p * 8)), (u64_id (i * scalarSize + p)) by word_lia.
  rewrite load_row by lia. cbn [mbind option_bind].
  rewrite Z.geb_leb, (proj2 (Z.leb_gt 64 (b * j - p * 8))) by lia.
  rewrite Z.geb_leb, (proj2 (Z.leb_gt 64 e)) by lia. cbn [orb]. f_equal.
  assert (Hones : u64 (Z.shiftl 1 e - 1) = Z.ones e).
  { rewrite Z.ones_equiv, Z.shiftl_1_l, <- Z.sub_1_r. apply u64_id. unfold is_u64.
    assert (0 < 2 ^ e <= 2 ^ 16) by (split; [apply Z.pow_pos_nonneg|apply Z.pow_le_mono_r]; lia).
    change (2 ^ 16) with 65536 in *. fold_pows. lia. }
  rewrite Hones, Z.land_ones, Z.shiftr_div_pow2 by lia.
  rewrite window_of_word by lia.
  rewrite Z.div_div by (apply Z.pow_nonzero || apply Z.pow_pos_nonneg; lia).
  rewrite <- Z.pow_add_r by lia. replace (8 * p + (b * j - p * 8)) with (b * j) by ring.
  unfold window. destruct (Z.le_ge_cases b (8 * scalarSize - b * j)); [by rewrite Hemin, Z.min_l|].
  rewrite Hemin, Z.min_r by lia. pose proof (row_range i Hi) as Hr.
  assert (Hsmall : 0 <= le_value (row i) / 2 ^ (b * j) < 2 ^ (8 * scalarSize - b * j)).
  { split; [apply Z.div_pos; [lia|apply Z.pow_pos_nonneg; lia]|].
    apply Z.div_lt_upper_bound; [apply Z.pow_pos_nonneg; lia|].
    rewrite <- Z.pow_add_r by lia. replace (b * j + _) with (8 * scalarSize) by ring. lia. }
  assert (2 ^ (8 * scalarSize - b * j) <= 2 ^ b) by (apply Z.pow_le_mono_r; lia).
  by rewrite !Z.mod_small by lia.
Qed.
End Windows.

(** ** Signed digits *)

(** The carry into the window [j], and the digit there. *)
Fixpoint carry_at (b s : Z) (j : nat) : Z :=
  match j with
  | O => 0
  | S j => if window b s (Z.of_nat j) + carry_at b s j >=? 2 ^ (b - 1) then 1 else 0
  end.

Definition digit_at (b s : Z) (j : nat) : Z :=
  window b s (Z.of_nat j) + carry_at b s j - 2 ^ b * carry_at b s (S j).

(** What the first digits stand for. *)
Fixpoint digits_value (b s : Z) (j : nat) : Z :=
  match j with O => 0 | S j => digits_value b s j + 2 ^ (b * Z.of_nat j) * digit_at b s j end.

Lemma carry_at_range b s j : 0 <= carry_at b s j <= 1.
Proof. destruct j; cbn [carry_at]; [lia|]. case_match; lia. Qed.

Lemma digit_at_range b s j :
  1 <= b -> - 2 ^ (b - 1) <= digit_at b s j < 2 ^ (b - 1).
Proof.
  intros Hb. unfold digit_at. cbn [carry_at].
  pose proof (window_range b s (Z.of_nat j) ltac:(lia)). pose proof (carry_at_range b s j).
  assert (E : 2 ^ b = 2 * 2 ^ (b - 1)) by (rewrite <- Z.pow_succ_r by lia; f_equal; lia).
  destruct (Z.geb_spec (window b s (Z.of_nat j) + carry_at b s j) (2 ^ (b - 1))); lia.
Qed.

Lemma digits_value_spec b s j :
  0 <= b -> digits_value b s j = s mod 2 ^ (b * Z.of_nat j) - 2 ^ (b * Z.of_nat j) * carry_at b s j.
Proof.
  intros Hb. induction j as [|j IH].
  - cbn [digits_value carry_at]. rewrite Z.mul_0_r. change (2 ^ 0) with 1. rewrite Z.mod_1_r. lia.
  - cbn [digits_value]. rewrite IH. unfold digit_at, window.
    replace (b * Z.of_nat (S j)) with (b * Z.of_nat j + b) by lia.
    set (B := b * Z.of_nat j). assert (0 <= B) by (unfold B; lia).
    rewrite Z.pow_add_r by lia.
    rewrite Z.rem_mul_r by (apply Z.pow_nonzero || apply Z.pow_pos_nonneg; lia). ring.
Qed.

(** Without a carry out of the last window the digits stand for the scalar. *)
Lemma digits_value_all b s m :
  0 <= b -> 0 <= s < 2 ^ (b * Z.of_nat m) -> carry_at b s m = 0 -> digits_value b s m = s.
Proof. intros Hb Hs Hc. rewrite digits_value_spec, Hc, Z.mod_small by lia. lia. Qed.

(** Two spare bits at the top leave no carry. *)
Lemma no_last_carry scalarSize b m s :
  msm_sizes scalarSize b m -> 3 <= b -> 0 <= s < 2 ^ (8 * scalarSize - 2) -> carry_at b s (Z.to_nat m) = 0.
Proof.
  intros [Hs Hb Hlo Hhi] Hb3 Hlt. change (2 ^ 24) with 16777216 in Hs.
  assert (Hm : 1 <= m) by nia.
  replace (Z.to_nat m) with (S (Z.to_nat (m - 1))) by lia. cbn [carry_at].
  rewrite Z2Nat.id by lia. pose proof (carry_at_range b s (Z.to_nat (m - 1))).
  set (B := b * (m - 1)) in *.
  assert (Hw : window b s (m - 1) = s / 2 ^ B /\ s / 2 ^ B + 1 < 2 ^ (b - 1)).
  { unfold window. fold B. assert (HB : 0 <= B) by (unfold B; nia).
    assert (Hb2 : 2 ^ b = 2 * 2 ^ (b - 1)) by (rewrite <- Z.pow_succ_r by lia; f_equal; lia).
    assert (Hb4 : 2 ^ (b - 1) = 2 * 2 ^ (b - 2)) by (rewrite <- Z.pow_succ_r by lia; f_equal; lia).
    assert (H2 : 2 ^ 1 <= 2 ^ (b - 2)) by (apply Z.pow_le_mono_r; lia). change (2 ^ 1) with 2 in H2.
    assert (Hq : 0 <= s / 2 ^ B < 2 ^ (b - 2)).
    { split; [apply Z.div_pos; [lia|apply Z.pow_pos_nonneg; lia]|].
      apply Z.div_lt_upper_bound; [apply Z.pow_pos_nonneg; lia|]. rewrite <- Z.pow_add_r by lia.
      eapply Z.lt_le_trans; [apply Hlt|]. apply Z.pow_le_mono_r; [lia|]. unfold B; nia. }
    rewrite Z.mod_small by lia. split; [done|lia]. }
  destruct Hw as [-> Hw]. rewrite Z.geb_leb, (proj2 (Z.leb_gt _ _)) by lia. done.
Qed.

(** ** The first loop *)

Lemma i32_u64 x : i32 (u64 x) = i32 x.
Proof. word_lia. Qed.

Lemma chunk_count_bound scalarSize b m : msm_sizes scalarSize b m -> 1 <= m < 2 ^ 26.
Proof.
  intros [Hs Hb Hlo Hhi]. change (2 ^ 24) with 16777216 in Hs.
  change (2 ^ 26) with 67108864. nia.
Qed.

Section Slices.
Context (scalars : list Z) (scalarSize b m n : Z) (Hsizes : msm_sizes scalarSize b m).
Context (Hbytes : Forall is_byte scalars).
Context (Hlen : Z.of_nat (length scalars) = n * scalarSize) (Hn : 0 <= n < 2 ^ 31).

(** Row [i] of the digits. *)
Definition row_sliced (i : Z) (a : array Z) : Prop :=
  forall j, (j < Z.to_nat m)%nat ->
    array_get a (i * m + Z.of_nat j) = Some (digit_at b (le_value (row scalars scalarSize i)) j).

Lemma slice_scalar_spec i a :
  0 <= i < n -> Z.of_nat (length a) = n * m ->
  exists a', slice_scalar scalars scalarSize b m (calcBucketCount b) i a = Some a' /\
    length a' = length a /\ row_sliced i a' /\
    forall k, k <> i -> row_sliced k a -> row_sliced k a'.
Proof.
  intros Hi Ha. pose proof (chunk_count_bound _ _ _ Hsizes) as Hm. pose proof Hsizes as [_ Hb _ _].
  change (2 ^ 26) with 67108864 in Hm. change (2 ^ 31) with 2147483648 in Hn.
  set (s := le_value (row scalars scalarSize i)).
  set (P := fun j (st : array Z * Z) => length (fst st) = length a /\
    snd st = carry_at b s (Z.to_nat j) /\
    (forall k, (k < Z.to_nat j)%nat -> array_get (fst st) (i * m + Z.of_nat k) = Some (digit_at b s k)) /\
    (forall p, ~ (i * m <= p < i * m + m) -> array_get (fst st) p = array_get a p)).
  assert (Hloop : P 0 (a, 0)) by (split; [done|]; split; [done|]; split; [cbn; lia|done]).
  assert (Hpow : 2 <= 2 ^ (b - 1) <= 32768 /\ 2 ^ b = 2 * 2 ^ (b - 1)).
  { split; [|rewrite <- Z.pow_succ_r by lia; f_equal; lia].
    change 2 with (2 ^ 1) at 1. change 32768 with (2 ^ 15). split; apply Z.pow_le_mono_r; lia. }
  assert (Hbucket : calcBucketCount b = 2 ^ (b - 1)) by (unfold calcBucketCount; by rewrite Z.shiftl_1_l).
  unfold slice_scalar.
  eapply (for_each_up P m) in Hloop as ((a' & c) & E & Hl & Hc & Hrow & Hout); [|lia|].
  - rewrite E. cbn [mbind option_bind fst]. exists a'. split; [done|]. split; [done|].
    split; [exact Hrow|]. intros k Hk Hsk j Hj. cbn [fst] in Hout.
    rewrite Hout; [by apply Hsk|]. intros Hp. apply Hk. nia.
  - clear E || idtac. intros j (a1 & c) Hj (Hl & Hc & Hrow & Hout). cbn [fst snd] in *.
    rewrite (getBucketIndex_spec scalars scalarSize b m n) by done.
    fold s. cbn [mbind option_bind]. rewrite Hbucket.
    pose proof (window_range b s j ltac:(lia)) as Hw. pose proof (carry_at_range b s (Z.to_nat j)).
    assert (Hin : 0 <= i * m <= (n - 1) * m) by nia.
    assert ((n - 1) * m <= 2147483647 * 67108864) by nia.
    rewrite (i32_u64 (_ + _)), (i32_id (_ + _)), (u64_id (_ + c)) by word_lia.
    assert (Hd : (if window b s j + c >=? 2 ^ (b - 1)
        then (i32 (u64 (window b s j + c - 2 ^ (b - 1) * 2)), 1) else (window b s j + c, 0)) =
      (digit_at b s (Z.to_nat j), carry_at b s (S (Z.to_nat j)))).
    { unfold digit_at. cbn [carry_at]. rewrite Z2Nat.id, <- Hc by lia.
      destruct (Z.geb_spec (window b s j + c) (2 ^ (b - 1))).
      - rewrite i32_u64, i32_id by word_lia. f_equal. lia.
      - f_equal. lia. }
    rewrite Hd. rewrite (u64_id (i * m)), (u64_id (i * m + j)) by word_lia.
    destruct (array_set_ok a1 (i * m + j) (digit_at b s (Z.to_nat j))) as (a2 & E & Hl2 & Hg & Ho);
      [rewrite Hl, Ha; nia|].
    rewrite E. cbn [mbind option_bind]. eexists. split; [reflexivity|].
    unfold P. replace (Z.to_nat (j + 1)) with (S (Z.to_nat j)) by lia.
    split; [cbn [fst]; congruence|]. split; [done|]. cbn [fst]. split.
    + intros k Hk. destruct (decide (k = Z.to_nat j)) as [->|Hne].
      * by rewrite Z2Nat.id by lia.
      * rewrite Ho by lia. apply Hrow. lia.
    + intros p Hp. rewrite Ho by lia. by apply Hout.
Qed.
End Slices.
