(* ===== verification/MsmSpec.v ===== *)
(** Multi-scalar multiplication computes the sum of the multiples: the buckets of a
    chunk hold what its digits say, their weighted sum is the chunk's share, and the
    shares add up, on every schedule of the thread pool. *)

From S2P Require Import Prelude Mpz Group Naf Loops Parallel Schedule Msm MsmDigits.

(** ** Sums *)

Section Sums.
Context {G : Type} `{GL : AbGroupLaws G}.

(** [s * x0 + (s + 1) * x1 + ...] *)
Fixpoint wsum (s : Z) (l : list G) : G :=
  match l with [] => gzero | x :: l => gplus (zmul s x) (wsum (s + 1) l) end.

Lemma wsum_succ s l : wsum (s + 1) l = gplus (wsum s l) (gsum l).
Proof.
  revert s. induction l as [|x l IH]; intros s; cbn [wsum gsum foldr].
  - by rewrite gplus_0_l.
  - fold (gsum l). rewrite zmul_succ, IH, (gplus_comm x), gplus_exchange. done.
Qed.

Lemma wsum_insert s l k x d :
  l !! k = Some x -> wsum s (<[k := gplus x d]> l) = gplus (wsum s l) (zmul (s + Z.of_nat k) d).
Proof.
  revert s k. induction l as [|y l IH]; intros s k Hk; [done|].
  destruct k as [|k].
  - injection Hk as ->. cbn [insert list_insert wsum].
    rewrite Z.add_0_r, zmul_plus, <- !gplus_assoc. f_equal. apply gplus_comm.
  - change (wsum s (y :: <[k := gplus x d]> l) = gplus (wsum s (y :: l)) (zmul (s + Z.of_nat (S k)) d)).
    cbn [wsum]. rewrite (IH (s + 1) k Hk), gplus_assoc. do 2 f_equal. lia.
Qed.

Lemma wsum_zeros s n : wsum s (replicate n gzero) = gzero.
Proof.
  revert s. induction n as [|n IH]; intros s; cbn [wsum replicate]; [done|].
  by rewrite zmul_zero, IH, gplus_0_l.
Qed.

Lemma gsum_swap {A B} (f : A -> B -> G) la lb :
  gsum (map (fun a => gsum (map (f a) lb)) la) = gsum (map (fun b => gsum (map (fun a => f a b) la)) lb).
Proof.
  induction la as [|a la IH]; cbn [map].
  - cbn [gsum foldr]. symmetry. apply gsum_zeros.
  - cbn [gsum foldr]. fold (gsum (map (fun a => gsum (map (f a) lb)) la)). rewrite IH.
    symmetry. apply (gsum_plus (f a) (fun b => gsum (map (fun a => f a b) la))).
Qed.

Lemma gsum_seqZ_snoc (f : Z -> G) n :
  gsum (map f (seqZ 0 (Z.of_nat (S n)))) = gplus (gsum (map f (seqZ 0 (Z.of_nat n)))) (f (Z.of_nat n)).
Proof. rewrite seqZ_snoc, map_app, gsum_app. cbn. by rewrite gplus_0_r. Qed.

Lemma gsum_ext {A} (f g : A -> G) l : (forall a, a ∈ l -> f a = g a) -> gsum (map f l) = gsum (map g l).
Proof. intros Hfg. f_equal. apply map_ext_in. intros a Ha. apply Hfg. by apply list_elem_of_In. Qed.

(** The digits of a scalar times a point. *)
Lemma digits_zmul b s m (x : G) :
  gsum (map (fun j => zmul (2 ^ (b * j)) (zmul (digit_at b s (Z.to_nat j)) x)) (seqZ 0 (Z.of_nat m))) =
  zmul (digits_value b s m) x.
Proof.
  induction m as [|m IH]; [done|]. rewrite gsum_seqZ_snoc, IH. cbn [digits_value].
  by rewrite Nat2Z.id, <- zmul_mul, zmul_add.
Qed.
End Sums.

(** ** The buckets of a chunk *)

Section Buckets.
Context {G Affine Pt : Type} `{CL : CurveLaws G Affine Pt} {GL : AbGroupLaws G}.
Implicit Types m : array Pt.

(** The cells from [off] on hold the buckets [B], which are valid and add up to [w]. *)
Record buckets (m : array Pt) (len : nat) (off nBuckets : Z) (B : list Pt) (w : G) : Prop := {
  bk_array : length m = len;
  bk_length : Z.of_nat (length B) = nBuckets;
  bk_cells k : (k < length B)%nat -> array_get m (off + Z.of_nat k) = B !! k;
  bk_ok : Forall out_ok B;
  bk_sum : wsum 1 (map out_val B) = w
}.

Lemma clear_buckets_spec m nBuckets off :
  0 <= off -> 0 <= nBuckets -> off + nBuckets <= Z.of_nat (length m) ->
  exists m', clear_buckets nBuckets off m = Some m' /\
    buckets m' (length m) off nBuckets (replicate (Z.to_nat nBuckets) pt_zero) gzero.
Proof.
  intros Hoff Hn Hlen. unfold clear_buckets. destruct pt_zero_law as [Hz Ez].
  destruct (for_each_up (fun i m' => length m' = length m /\
      forall k, (k < Z.to_nat i)%nat -> array_get m' (off + Z.of_nat k) = Some pt_zero)
    nBuckets (fun i m => array_set m (off + i) pt_zero) m) as (m' & E & Hl & Hc).
  - done.
  - split; [done|]. cbn. lia.
  - intros i m1 Hi [Hl Hc]. destruct (array_set_ok m1 (off + i) pt_zero) as (m2 & E & Hl2 & Hg & Ho); [lia|].
    exists m2. split; [done|]. split; [congruence|]. intros k Hk.
    destruct (decide (Z.of_nat k = i)) as [->|]; [done|]. rewrite Ho by lia. apply Hc. lia.
  - exists m'. split; [done|]. split; [done|rewrite length_replicate; lia| | |].
    + intros k Hk. rewrite length_replicate in Hk. rewrite Hc by done. by rewrite lookup_replicate_2.
    + by apply Forall_replicate.
    + rewrite map_replicate || idtac. change (map out_val) with (fmap (M := list) (@out_val G Affine Pt _ _ _)).
      rewrite fmap_replicate, Ez. apply wsum_zeros.
Qed.

(** Adding [d] to the bucket [k]. *)
Lemma bucket_update m len off nBuckets B w k (d : G) (op : Pt -> Pt) :
  buckets m len off nBuckets B w -> 0 <= off -> off + nBuckets <= Z.of_nat len -> 0 <= k < nBuckets ->
  (forall p, out_ok p -> out_ok (op p) /\ out_val (op p) = gplus (out_val p) d) ->
  exists p m' B', array_get m (off + k) = Some p /\ array_set m (off + k) (op p) = Some m' /\
    buckets m' len off nBuckets B' (gplus w (zmul (k + 1) d)).
Proof.
  intros [Hl HB Hc Hok Hw] Hoff Hlen Hk Hop.
  destruct (lookup_lt_is_Some_2 B (Z.to_nat k) ltac:(lia)) as [p Hp].
  assert (Hpok : out_ok p) by (by eapply Forall_lookup_1).
  destruct (Hop p Hpok) as [Hqok Hqv].
  destruct (array_set_ok m (off + k) (op p)) as (m' & E & Hl' & Hg & Ho); [lia|].
  exists p, m', (<[Z.to_nat k := op p]> B).
  split; [rewrite <- Hp, <- Hc by lia; f_equal; lia|]. split; [done|].
  split; [congruence|by rewrite length_insert| | |].
  - intros j Hj. rewrite length_insert in Hj. destruct (decide (j = Z.to_nat k)) as [->|Hne].
    + rewrite list_lookup_insert_eq by done. rewrite <- Hg. f_equal. lia.
    + rewrite list_lookup_insert_ne by done. rewrite Ho by lia. by apply Hc.
  - by apply Forall_insert.
  - change (map out_val) with (fmap (M := list) (@out_val G Affine Pt _ _ _)) in *.
    rewrite list_fmap_insert, Hqv. rewrite (wsum_insert 1 _ _ (out_val p)) by (by rewrite list_lookup_fmap, Hp).
    rewrite <- Hw. do 2 f_equal. lia.
Qed.

(** Every point goes to the bucket of its digit. *)
Lemma fill_buckets_spec bases slicedScalars nChunks nPoints off j m len nBuckets B (D : Z -> Z) (V : Z -> G) :
  0 <= nPoints -> buckets m len off nBuckets B gzero -> 0 <= off -> off + nBuckets <= Z.of_nat len ->
  (forall i, 0 <= i < nPoints -> array_get slicedScalars (u64 (u64 (i * nChunks) + j)) = Some (D i)) ->
  (forall i, 0 <= i < nPoints -> - nBuckets <= D i <= nBuckets) ->
  (forall i, 0 <= i < nPoints -> exists base, bases !! Z.to_nat i = Some base /\ in_ok base /\ in_val base = V i) ->
  exists m' B', fill_buckets bases slicedScalars nChunks nPoints off j m = Some m' /\
    buckets m' len off nBuckets B' (gsum (map (fun i => zmul (D i) (V i)) (seqZ 0 nPoints))).
Proof.
  intros Hn Hb Hoff Hlen HD Hrange HV. unfold fill_buckets.
  destruct (for_each_up (fun i m' => exists B', buckets m' len off nBuckets B'
      (gsum (map (fun i => zmul (D i) (V i)) (seqZ 0 i)))) nPoints
    (fun i m => bucketIndex ← array_get slicedScalars (u64 (u64 (i * nChunks) + j));
      if bucketIndex >? 0 then
        b ← array_get m (off + (bucketIndex - 1)); base ← bases !! Z.to_nat i;
        array_set m (off + (bucketIndex - 1)) (pt_add b base)
      else if bucketIndex <? 0 then
        b ← array_get m (off + (- bucketIndex - 1)); base ← bases !! Z.to_nat i;
        array_set m (off + (- bucketIndex - 1)) (pt_sub b base)
      else Some m) m) as (m' & E & B' & Hb'); [done|by exists B| |by exists m', B'].
  intros i m1 Hi [B1 Hb1]. rewrite HD by done. cbn [mbind option_bind].
  destruct (HV i Hi) as (base & Hbase & Hok & Hval). specialize (Hrange i Hi).
  assert (Hsum : gsum (map (fun i => zmul (D i) (V i)) (seqZ 0 (i + 1))) =
    gplus (gsum (map (fun i => zmul (D i) (V i)) (seqZ 0 i))) (zmul (D i) (V i))).
  { replace (i + 1) with (Z.of_nat (S (Z.to_nat i))) by lia. rewrite gsum_seqZ_snoc.
    by rewrite Z2Nat.id by lia. }
  rewrite Hsum. destruct (Z.gtb_spec (D i) 0) as [Hpos|Hneg].
  - destruct (bucket_update m1 len off nBuckets B1 _ (D i - 1) (V i) (fun p => pt_add p base) Hb1)
      as (p & m2 & B2 & Eg & Es & Hb2); [done|done|lia| |].
    { intros p Hp. rewrite <- Hval. by apply pt_add_law. }
    rewrite Eg. cbn [mbind option_bind]. rewrite Hbase. cbn [mbind option_bind].
    exists m2. split; [done|]. exists B2. by replace (D i - 1 + 1) with (D i) in Hb2 by lia.
  - destruct (Z.ltb_spec (D i) 0) as [Hlt|Hge].
    + destruct (bucket_update m1 len off nBuckets B1 _ (- D i - 1) (gopp (V i)) (fun p => pt_sub p base) Hb1)
        as (p & m2 & B2 & Eg & Es & Hb2); [done|done|lia| |].
      { intros p Hp. rewrite <- Hval. by apply pt_sub_law. }
      rewrite Eg. cbn [mbind option_bind]. rewrite Hbase. cbn [mbind option_bind].
      exists m2. split; [done|]. exists B2. replace (- D i - 1 + 1) with (- D i) in Hb2 by lia.
      assert (Ez : zmul (- D i) (gopp (V i)) = zmul (D i) (V i)).
      { change (gopp (V i)) with (gopp (V i)). rewrite <- (zmul_1 (V i)) at 1.
        rewrite <- zmul_opp, <- zmul_mul. f_equal. lia. }
      by rewrite Ez in Hb2.
    + exists m1. split; [done|]. exists B1. replace (D i) with 0 by lia. by rewrite zmul_0, gplus_0_r.
Qed.

(** The running sums give every bucket its weight. *)
Lemma reduce_buckets_spec m len off nBuckets B w :
  buckets m len off nBuckets B w -> 1 <= nBuckets ->
  exists t, reduce_buckets nBuckets off m = Some t /\ out_ok t /\ out_val t = w.
Proof.
  intros [Hl HB Hc Hok Hw] Hn. unfold reduce_buckets.
  assert (Hget : forall k, 0 <= k < nBuckets -> exists p, array_get m (off + k) = Some p /\
    B !! Z.to_nat k = Some p /\ out_ok p).
  { intros k Hk. destruct (lookup_lt_is_Some_2 B (Z.to_nat k) ltac:(lia)) as [p Hp]. exists p.
    split; [rewrite <- Hp, <- Hc by lia; f_equal; lia|]. split; [done|]. by eapply Forall_lookup_1. }
  assert (Hdrop : forall k p, B !! k = Some p ->
    map out_val (drop k B) = out_val p :: map out_val (drop (S k) B)).
  { intros k p Hp. by rewrite (drop_S B p k Hp). }
  destruct (Hget (nBuckets - 1)) as (p & E & Hp & Hpok); [lia|]. rewrite E. cbn [mbind option_bind].
  set (P := fun i (s : Pt * Pt) => out_ok (fst s) /\ out_ok (snd s) /\
    out_val (fst s) = wsum 1 (map out_val (drop (Z.to_nat i) B)) /\
    out_val (snd s) = gsum (map out_val (drop (Z.to_nat i) B))).
  destruct (for_each_down P (nBuckets - 1)
    (fun i '(t, tmp) => b ← array_get m (off + i);
      let tmp := pt_plus tmp b in let t := pt_plus t tmp in Some (t, tmp)) (p, p))
    as ((t & tmp) & Eloop & Ht & Htmp & Hvt & Hvtmp).
  - lia.
  - unfold P. cbn [fst snd]. rewrite (Hdrop _ _ Hp), drop_ge by lia. cbn [map wsum gsum foldr].
    by rewrite zmul_1, !gplus_0_r.
  - intros i [t tmp] Hi (Ht & Htmp & Hvt & Hvtmp). cbn [fst snd] in *.
    destruct (Hget i) as (b & Eb & Hb & Hbok); [lia|]. rewrite Eb. cbn [mbind option_bind].
    destruct (pt_plus_law tmp b Htmp Hbok) as [Hok1 Hv1].
    destruct (pt_plus_law t (pt_plus tmp b) Ht Hok1) as [Hok2 Hv2].
    eexists. split; [reflexivity|]. unfold P. cbn [fst snd]. split; [done|]. split; [done|].
    replace (Z.to_nat (i + 1)) with (S (Z.to_nat i)) in * by lia.
    rewrite (Hdrop _ _ Hb). cbn [wsum gsum foldr]. fold (gsum (map out_val (drop (S (Z.to_nat i)) B))).
    rewrite Hv2, Hv1, Hvt, Hvtmp. split; [|apply gplus_comm].
    rewrite zmul_1, (wsum_succ 1), (gplus_comm _ (out_val b)).
    by rewrite gplus_assoc, (gplus_comm _ (out_val b)), gplus_assoc.
  - cbn [mbind option_bind] in Eloop. rewrite Eloop. cbn [mbind option_bind fst snd] in *. exists t. split; [done|]. split; [done|].
    rewrite Hvt. done.
Qed.
End Buckets.

(** ** The sum *)

Lemma concat_row {A} (rows : list (list A)) k i r :
  Forall (fun r => length r = k) rows -> rows !! i = Some r ->
  take k (drop (i * k) (concat rows)) = r.
Proof.
  intros Hr. revert i. induction Hr as [|r0 rows Hl Hr IH]; intros i Hi; [done|].
  destruct i as [|i]; cbn [concat].
  - injection Hi as ->. cbn [Nat.mul]. rewrite drop_0, <- Hl. apply take_app_length.
  - replace (S i * k)%nat with (length r0 + i * k)%nat by (rewrite Hl; lia).
    rewrite drop_app_add. by apply IH.
Qed.

Lemma map_seqZ_lookup {A B} (f : Z -> B) (g : A -> B) l :
  (forall i x, l !! i = Some x -> f (Z.of_nat i) = g x) ->
  map f (seqZ 0 (Z.of_nat (length l))) = map g l.
Proof.
  intros Hfg. apply list_eq. intros i.
  change (map f) with (fmap (M := list) f). change (map g) with (fmap (M := list) g).
  rewrite !list_lookup_fmap. destruct (l !! i) as [x|] eqn:E; cbn.
  - rewrite lookup_seqZ_lt by (apply lookup_lt_Some in E; lia). rewrite Z.add_0_l. cbn.
    by rewrite (Hfg i x E).
  - by rewrite lookup_seqZ_ge by (apply lookup_ge_None in E; lia).
Qed.

Section MsmSpec.
Context {G Affine Pt : Type} `{CL : CurveLaws G Affine Pt} {GL : AbGroupLaws G}.

(** One chunk, on any thread. *)
Lemma sum_chunk_spec bases slicedScalars nThreads nChunks nBuckets nPoints (D : Z -> Z -> Z) (V : Z -> G) j t s :
  0 <= nPoints -> 1 <= nBuckets -> 0 <= t < nThreads -> 0 <= j < nChunks ->
  (Z.of_nat (length (fst s)) = nThreads * nBuckets /\ Z.of_nat (length (snd s)) = nChunks) ->
  (forall i, 0 <= i < nPoints -> array_get slicedScalars (u64 (u64 (i * nChunks) + j)) = Some (D i j)) ->
  (forall i, 0 <= i < nPoints -> - nBuckets <= D i j <= nBuckets) ->
  (forall i, 0 <= i < nPoints -> exists base, bases !! Z.to_nat i = Some base /\ in_ok base /\ in_val base = V i) ->
  exists s', sum_chunk bases slicedScalars nChunks nBuckets nPoints t j s = Some s' /\
    (Z.of_nat (length (fst s')) = nThreads * nBuckets /\ Z.of_nat (length (snd s')) = nChunks) /\
    (exists p : Pt, array_get (snd s') j = Some p /\ out_ok p /\
      out_val p = gsum (map (fun i => zmul (D i j) (V i)) (seqZ 0 nPoints))) /\
    forall k, k <> j -> array_get (snd s') k = array_get (snd s) k.
Proof.
  intros Hn HB Ht Hj [Hm Hc] HD Hrange HV. destruct s as [m chunks]. cbn [fst snd] in *.
  unfold sum_chunk. assert (Hoff : 0 <= t * nBuckets) by nia.
  assert (Hend : t * nBuckets + nBuckets <= Z.of_nat (length m)) by nia.
  destruct (clear_buckets_spec m nBuckets (t * nBuckets)) as (m1 & E1 & Hb1); [done|lia|done|].
  rewrite E1. cbn [mbind option_bind].
  destruct (fill_buckets_spec bases slicedScalars nChunks nPoints (t * nBuckets) j m1 (length m) nBuckets
    _ (fun i => D i j) V Hn Hb1 Hoff Hend HD Hrange HV) as (m2 & B2 & E2 & Hb2).
  rewrite E2. cbn [mbind option_bind].
  destruct (reduce_buckets_spec _ _ _ _ _ _ Hb2 HB) as (p & E3 & Hp & Hv).
  rewrite E3. cbn [mbind option_bind].
  destruct (array_set_ok chunks j p) as (ch & E4 & Hl4 & Hg4 & Ho4); [lia|].
  rewrite E4. cbn [mbind option_bind]. eexists. split; [reflexivity|]. cbn [fst snd].
  split; [|split; [by exists p|done]]. destruct Hb2. lia.
Qed.

Lemma dbl_iter n r :
  out_ok r -> out_ok (Nat.iter n pt_dbl r) /\ out_val (Nat.iter n pt_dbl r) = zmul (2 ^ Z.of_nat n) (out_val r).
Proof.
  intros Hr. induction n as [|n [IH1 IH2]]; cbn [Nat.iter nat_rect].
  - split; [done|]. change (2 ^ Z.of_nat 0) with 1. by rewrite zmul_1.
  - destruct (pt_dbl_law _ IH1) as [H1 H2]. split; [done|]. unfold Nat.iter in H2, IH2. rewrite H2, IH2.
    rewrite <- zmul_double. f_equal. rewrite Nat2Z.inj_succ, Z.pow_succ_r by lia. ring.
Qed.

Lemma combine_chunks_spec b nChunks chunks (X : Z -> G) :
  0 <= b -> 1 <= nChunks ->
  (forall j, 0 <= j < nChunks -> exists p : Pt, array_get chunks j = Some p /\ out_ok p /\ out_val p = X j) ->
  exists r, combine_chunks b nChunks chunks = Some r /\ out_ok r /\
    out_val r = gsum (map (fun j => zmul (2 ^ (b * j)) (X j)) (seqZ 0 nChunks)).
Proof.
  intros Hb Hn Hch. unfold combine_chunks.
  destruct (Hch (nChunks - 1)) as (p & E & Hp & Hv); [lia|]. rewrite E. cbn [mbind option_bind].
  set (f := fun j => zmul (2 ^ (b * j)) (X j)).
  set (P := fun i r => out_ok r /\
    zmul (2 ^ (b * i)) (out_val r) = gsum (map f (seqZ i (nChunks - i)))).
  destruct (for_each_down P (nChunks - 1)
    (fun j r => c ← array_get chunks j; Some (pt_plus (Nat.iter (Z.to_nat b) pt_dbl r) c)) p)
    as (r & Er & Hr & Hvr).
  - lia.
  - split; [done|]. replace (nChunks - (nChunks - 1)) with 1 by lia. rewrite seqZ_1. cbn [map gsum foldr].
    by rewrite gplus_0_r, Hv.
  - intros i r Hi [Hr Hvr]. destruct (Hch i) as (c & Ec & Hc & Hvc); [lia|].
    rewrite Ec. cbn [mbind option_bind]. eexists. split; [reflexivity|].
    destruct (dbl_iter (Z.to_nat b) r Hr) as [Hd Hvd].
    destruct (pt_plus_law _ c Hd Hc) as [Hok Hval]. split; [done|].
    rewrite Hval, Hvd, Hvc, zmul_plus, <- zmul_mul, <- Z.pow_add_r by lia.
    rewrite Z2Nat.id by lia. replace (b * i + b) with (b * (i + 1)) by ring. rewrite Hvr.
    rewrite (seqZ_cons i) by lia. cbn [map gsum foldr].
    replace (Z.pred (nChunks - i)) with (nChunks - (i + 1)) by lia. apply gplus_comm.
  - exists r. split; [exact Er|]. split; [done|].
    rewrite Z.mul_0_r, Z.sub_0_r in Hvr. change (2 ^ 0) with 1 in Hvr. by rewrite zmul_1 in Hvr.
Qed.

(** What the code assumes of its input: scalars of [scalarSize] bytes whose two top
    bits are clear, and valid points. *)
Definition term_ok (scalarSize : Z) (t : list Z * Affine) : Prop :=
  Z.of_nat (length (fst t)) = scalarSize /\ Forall is_byte (fst t) /\
  le_value (fst t) < 2 ^ (8 * scalarSize - 2) /\ in_ok (snd t).

Section Terms.
Context (terms : list (list Z * Affine)) (scalarSize nThreads : Z).
Context (Hsize : 8 <= scalarSize < 2 ^ 24) (Hterms : Forall (term_ok scalarSize) terms).
Context (Hlength : Z.of_nat (length terms) < 2 ^ 31) (Hthreads : 1 <= nThreads < 2 ^ 32).

Let n := Z.of_nat (length terms).
Let b := calcBitsPerChunk n scalarSize.
Let m := calcChunkCount scalarSize b.
Let scalars := concat (map fst terms).
Let bases := map snd terms.

Lemma terms_sizes : msm_sizes scalarSize b m.
Proof. apply calcChunkCount_sizes; [done|pose proof (calcBitsPerChunk_range n scalarSize); lia]. Qed.

Lemma terms_bytes : Forall is_byte scalars.
Proof.
  unfold scalars. clear -Hterms. induction Hterms as [|t l Ht Hl IH]; cbn; [apply Forall_nil_2|].
  apply Forall_app. split; [apply Ht|by apply IH].
Qed.

Lemma terms_length : Z.of_nat (length scalars) = n * scalarSize.
Proof.
  unfold scalars, n. clear -Hterms. induction Hterms as [|t l Ht Hl IH]; cbn; [lia|].
  rewrite length_app. destruct Ht as [Hl' _]. specialize (IH Hl). lia.
Qed.

Lemma terms_row i t : terms !! i = Some t -> row scalars scalarSize (Z.of_nat i) = fst t.
Proof.
  intros Hi. unfold row, scalars.
  replace (Z.to_nat (Z.of_nat i * scalarSize)) with (i * Z.to_nat scalarSize)%nat by lia.
  apply concat_row.
  - apply Forall_map. eapply Forall_impl; [|exact Hterms]. intros t' (Hl & _). lia.
  - change (map fst terms) with (fst <$> terms). by rewrite list_lookup_fmap, Hi.
Qed.

Lemma terms_lookup i : 0 <= i < n -> exists t, terms !! Z.to_nat i = Some t /\ term_ok scalarSize t.
Proof.
  intros Hi. destruct (lookup_lt_is_Some_2 terms (Z.to_nat i)) as [t Ht]; [unfold n in Hi; lia|].
  exists t. split; [done|]. by eapply Forall_lookup_1.
Qed.

(** Every digit is written, whatever the schedule. *)
Lemma first_loop log :
  0 < n -> call_log true nThreads (parallelFor 0 n nThreads) log ->
  exists a, run_log log (fun _ => slice_scalar scalars scalarSize b m (calcBucketCount b))
      (new_array (u64 (m * n))) = Some a /\
    forall i, 0 <= i < n -> row_sliced scalars scalarSize b m i a.
Proof.
  intros Hn Hlog. pose proof terms_sizes as Hs. pose proof (chunk_count_bound _ _ _ Hs) as Hm.
  change (2 ^ 26) with 67108864 in Hm. assert (Hn' : 0 <= n < 2 ^ 31) by (unfold n; lia).
  destruct (parallelFor_log 0 n nThreads log) as [Hperm Hids];
    [lia|by split|unfold is_i32; lia|lia|done|].
  rewrite Z.sub_0_r in Hperm.
  assert (Hcells : 0 <= m * n < 2 ^ 57)
    by (change (2 ^ 57) with 144115188075855872; change (2 ^ 31) with 2147483648 in Hn'; nia).
  change (2 ^ 57) with 144115188075855872 in Hcells. rewrite u64_id by word_lia.
  destruct (run_log_spec (fun a : array Z => Z.of_nat (length a) = n * m)
    (row_sliced scalars scalarSize b m) nThreads n log
    (fun _ => slice_scalar scalars scalarSize b m (calcBucketCount b)) (new_array (m * n)))
    as (a & E & _ & Ha); [done|done|rewrite new_array_length by lia; ring| |by exists a].
  intros i t a Hi Ht Ha.
  destruct (slice_scalar_spec scalars scalarSize b m n Hs terms_bytes terms_length Hn' i a Hi Ha)
    as (a' & E & Hl & Hrow & Hk).
  exists a'. split; [done|]. split; [congruence|]. by split.
Qed.

Let D (i j : Z) : Z := digit_at b (le_value (row scalars scalarSize i)) (Z.to_nat j).
Let V (i : Z) : G := from_option (fun t => in_val (snd t)) gzero (terms !! Z.to_nat i).

(** Every chunk is summed, whatever the schedule. *)
Lemma second_loop log a :
  0 < n -> call_log true nThreads (parallelFor 0 m nThreads) log ->
  (forall i, 0 <= i < n -> row_sliced scalars scalarSize b m i a) ->
  exists s, run_log log (sum_chunk bases a m (calcBucketCount b) n)
      (new_array (u64 (nThreads * calcBucketCount b)), new_array m) = Some s /\
    forall j, 0 <= j < m -> exists p : Pt, array_get (snd s) j = Some p /\ out_ok p /\
      out_val p = gsum (map (fun i => zmul (D i j) (V i)) (seqZ 0 n)).
Proof.
  intros Hn Hlog Ha. pose proof terms_sizes as Hs. pose proof (chunk_count_bound _ _ _ Hs) as Hm.
  change (2 ^ 26) with 67108864 in Hm. pose proof (calcBitsPerChunk_range n scalarSize : 3 <= b <= 16) as Hb.
  assert (Hn' : 0 <= n < 2 ^ 31) by (unfold n; lia). change (2 ^ 31) with 2147483648 in Hn'.
  destruct (parallelFor_log 0 m nThreads log) as [Hperm Hids];
    [lia|by split|unfold is_i32; fold_pows; lia|lia|done|].
  rewrite Z.sub_0_r in Hperm.
  assert (Hbucket : calcBucketCount b = 2 ^ (b - 1)) by (unfold calcBucketCount; by rewrite Z.shiftl_1_l).
  assert (Hpow : 4 <= 2 ^ (b - 1) <= 32768).
  { change 4 with (2 ^ 2). change 32768 with (2 ^ 15). split; apply Z.pow_le_mono_r; lia. }
  assert (Hmatrix : 0 <= nThreads * calcBucketCount b <= 2 ^ 32 * 32768) by (rewrite Hbucket; nia).
  rewrite u64_id by word_lia.
  eapply (run_log_spec (fun s : array Pt * array Pt =>
      Z.of_nat (length (fst s)) = nThreads * calcBucketCount b /\ Z.of_nat (length (snd s)) = m)
    (fun j s => exists p : Pt, array_get (snd s) j = Some p /\ out_ok p /\
      out_val p = gsum (map (fun i => zmul (D i j) (V i)) (seqZ 0 n)))
    nThreads m log (sum_chunk bases a m (calcBucketCount b) n)) in Hperm as (s & E & _ & Hp);
    [by exists s|done|cbn [fst snd]; rewrite !new_array_length by lia; done|].
  intros j t s Hj Ht Hs0.
  destruct (sum_chunk_spec bases a nThreads m (calcBucketCount b) n D V j t s)
    as (s' & E & Hinv & Hp & Hk); [lia|lia|done|done|done| | | |].
  - intros i Hi. rewrite (u64_id (i * m)), (u64_id (i * m + j)) by (unfold is_u64; fold_pows; nia).
    specialize (Ha i Hi (Z.to_nat j) ltac:(lia)). by rewrite Z2Nat.id in Ha by lia.
  - intros i Hi. unfold D. rewrite Hbucket.
    pose proof (digit_at_range b (le_value (row scalars scalarSize i)) (Z.to_nat j)). lia.
  - intros i Hi. destruct (terms_lookup i Hi) as (tm & Htm & Hok). exists (snd tm).
    unfold bases, V. change (map snd terms) with (snd <$> terms). rewrite list_lookup_fmap, Htm.
    split; [done|]. split; [apply Hok|done].
  - exists s'. split; [done|]. split; [done|]. split; [done|].
    intros k Hne (p & Hg & Hok). exists p. by rewrite Hk.
Qed.

(** The shares of the chunks are the multiples of the points. *)
Lemma chunks_sum :
  gsum (map (fun j => zmul (2 ^ (b * j)) (gsum (map (fun i => zmul (D i j) (V i)) (seqZ 0 n)))) (seqZ 0 m)) =
  gsum (map (fun t => zmul (le_value (fst t)) (in_val (snd t))) terms).
Proof.
  pose proof terms_sizes as Hs. pose proof (chunk_count_bound _ _ _ Hs) as Hm.
  rewrite (gsum_ext _ (fun j => gsum (map (fun i => zmul (2 ^ (b * j)) (zmul (D i j) (V i))) (seqZ 0 n))))
    by (intros j _; rewrite zmul_gsum; f_equal; apply map_map).
  rewrite gsum_swap. unfold n. f_equal. apply map_seqZ_lookup. intros i t Ht.
  replace m with (Z.of_nat (Z.to_nat m)) by lia. unfold D, V. rewrite digits_zmul.
  rewrite Nat2Z.id, Ht. cbn [from_option].
  assert (Hok : term_ok scalarSize t) by (by eapply Forall_lookup_1).
  rewrite (terms_row i t Ht). destruct Hok as (Hl & Hb & Hv & _).
  pose proof (le_value_range _ Hb) as Hrange.
  rewrite (digits_value_all b _ (Z.to_nat m)); [done|pose proof (size_bits _ _ _ Hs); lia| |].
  - split; [lia|]. eapply Z.lt_le_trans; [apply Hrange|]. apply Z.pow_le_mono_r; [lia|].
    rewrite Hl, Z2Nat.id by lia. apply (size_high _ _ _ Hs).
  - eapply no_last_carry; [exact Hs|exact (proj1 (calcBitsPerChunk_range n scalarSize))|lia].
Qed.

Lemma msm_run_spec log1 log2 :
  (2 <= n -> call_log true nThreads (parallelFor 0 n nThreads) log1 /\
             call_log true nThreads (parallelFor 0 m nThreads) log2) ->
  exists r, msm_run nThreads log1 log2 bases scalars scalarSize n = Some r /\ out_ok r /\
    out_val r = gsum (map (fun t => zmul (le_value (fst t)) (in_val (snd t))) terms).
Proof.
  intros Hlogs. unfold msm_run. fold b. fold m.
  destruct (Z.eqb_spec n 0) as [H0|H0].
  { assert (terms = []) as -> by (by apply length_zero_iff_nil; unfold n in H0; lia).
    destruct pt_zero_law as [Hz Ez]. by exists pt_zero. }
  destruct (Z.eqb_spec n 1) as [H1|H1].
  { destruct (terms_lookup 0) as (t & Ht & Hl & Hb & _ & Hok); [lia|]. change (Z.to_nat 0) with 0%nat in Ht.
    assert (terms = [t]) as E.
    { destruct terms as [|t' [|]]; cbn in Ht, H1; [done|congruence|unfold n in H1; cbn in H1; lia]. }
    unfold bases, scalars. rewrite E. cbn [map concat app lookup list_lookup mbind option_bind].
    rewrite app_nil_r, take_ge by lia. rewrite <- Hl.
    destruct (nafMulByScalar_spec (snd t) (fst t) Hok Hb) as (r & Er & Hr & Hv);
      [lia|change (2 ^ 24) with 16777216 in Hsize; change (2 ^ 27) with 134217728; lia|].
    exists r. split; [exact Er|]. split; [done|]. cbn [gsum foldr]. by rewrite gplus_0_r. }
  destruct Hlogs as [Hlog1 Hlog2]; [unfold n in *; lia|]. assert (Hn : 0 < n) by (unfold n in *; lia).
  destruct (first_loop log1 Hn Hlog1) as (a & Ea & Ha). rewrite Ea. cbn [mbind option_bind].
  destruct (second_loop log2 a Hn Hlog2 Ha) as (s & Es & Hp). rewrite Es. cbn [mbind option_bind].
  pose proof terms_sizes as Hs. pose proof (chunk_count_bound _ _ _ Hs).
  destruct (combine_chunks_spec b m (snd s) _ ltac:(pose proof (size_bits _ _ _ Hs); lia) ltac:(lia) Hp)
    as (r & Er & Hr & Hv).
  exists r. split; [done|]. split; [done|]. by rewrite Hv, chunks_sum.
Qed.
End Terms.
End MsmSpec.

(** C12: For scalars of at least eight bytes whose two top bits are clear (as those of
    residues of the 254-bit field are) and any valid points, the bucket method
    returns the sum of the multiples of the points, for every number of threads and
    every schedule of its two parallel loops; it reads no byte outside the scalars,
    no uninitialised cell and no index out of range. *)
Theorem msm_run_correct {G Affine Pt : Type} `{CL : CurveLaws G Affine Pt} {GL : AbGroupLaws G}
    (terms : list (list Z * Affine)) scalarSize nThreads log1 log2 :
  8 <= scalarSize < 2 ^ 24 -> Forall (term_ok scalarSize) terms ->
  Z.of_nat (length terms) < 2 ^ 31 -> 1 <= nThreads < 2 ^ 32 ->
  let n := Z.of_nat (length terms) in
  let nChunks := calcChunkCount scalarSize (calcBitsPerChunk n scalarSize) in
  (2 <= n -> call_log true nThreads (parallelFor 0 n nThreads) log1 /\
             call_log true nThreads (parallelFor 0 nChunks nThreads) log2) ->
  exists r, msm_run nThreads log1 log2 (map snd terms) (concat (map fst terms)) scalarSize n = Some r /\
    out_ok r /\ out_val r = gsum (map (fun t => zmul (le_value (fst t)) (in_val (snd t))) terms).
Proof. intros. by apply msm_run_spec. Qed.

(** ** Instance: integers, two threads *)

Definition demo_terms : list (list Z * Z) :=
  [([200; 1; 0; 0; 0; 0; 0; 37], 3); ([255; 255; 255; 255; 255; 255; 255; 63], -2)].

(** The calling thread does all it can before the worker does its job. *)
Definition demo_schedule (k : nat) : list (option nat) :=
  replicate k None ++ [Some 0%nat; Some 0%nat; None; None].

Definition demo_log (hi : Z) (k : nat) : list (JobRange * nat) :=
  match parallelFor 0 hi 2 with
  | Call jobs tc => from_option ran [] (pool_run jobs tc true (demo_schedule k) (pool_of 2 tc))
  | _ => []
  end.

Lemma demo_terms_ok : Forall (@term_ok Z Z Z _ Z_curve Z_sem 8) demo_terms.
Proof.
  repeat (apply Forall_cons_2; [split; [reflexivity|]; split;
    [repeat (apply Forall_cons_2; [split; [discriminate|reflexivity]|]); apply Forall_nil_2|];
    split; [reflexivity|exact I]|]). apply Forall_nil_2.
Qed.

Lemma msm_run_correct_witness :
  exists r, @msm_run Z Z Z_curve 2 (demo_log 2 5) (demo_log 22 23) (map snd demo_terms)
      (concat (map fst demo_terms)) 8 2 = Some r /\ True /\
    r = gsum (map (fun t => zmul (le_value (fst t)) (snd t)) demo_terms).
Proof.
  apply (@msm_run_correct Z Z Z _ Z_curve Z_sem Z_curve_laws Z_group_laws demo_terms 8 2
    (demo_log 2 5) (demo_log 22 23)).
  - split; [discriminate|reflexivity].
  - apply demo_terms_ok.
  - reflexivity.
  - split; [discriminate|reflexivity].
  - intros _. split.
    + exists (demo_schedule 5). eexists. split; [vm_compute; reflexivity|]. split; vm_compute; reflexivity.
    + exists (demo_schedule 23). eexists. split; [vm_compute; reflexivity|]. split; vm_compute; reflexivity.
Defined.

(** The two spare bits are needed: the carry out of the last chunk is dropped, so the
    sum of twice [2 ^ 72 - 1] times 1 comes out as -2. *)
Example msm_lost_carry :
  @msm_run Z Z Z_curve 2 (demo_log 2 5) (demo_log 24 23) [1; 1] (replicate 18 255) 9 2 = Some (-2).
Proof. vm_compute. reflexivity. Qed.
