(* ===== verification/Primes.v ===== *)
(** The two moduli of the generated field libraries are prime: trial division for
    small numbers, Pocklington's criterion with evaluated certificates for the others. *)

From Stdlib Require Import Zdivisibility ZstarDef ZstarBase Zmod.
From S2P Require Import Prelude.

(** ** Trial division *)

(** No number from [d] up to the square root of [n] divides [n]. *)
Fixpoint no_divisor (fuel : nat) (d n : Z) : bool :=
  if n <? d * d then true
  else if n mod d =? 0 then false
  else match fuel with O => false | S fuel => no_divisor fuel (d + 1) n end.

Lemma no_divisor_sound fuel d n :
  2 <= d -> no_divisor fuel d n = true -> forall k, d <= k -> k * k <= n -> ~ (k | n).
Proof.
  revert d. induction fuel as [|fuel IH]; intros d Hd; cbn [no_divisor];
    destruct (Z.ltb_spec n (d * d)) as [Hlt|Hge]; intros H k Hk Hkn; try (nia || done);
    destruct (Z.eqb_spec (n mod d) 0) as [E|E]; try done.
  destruct (decide (k = d)) as [->|Hne].
  - intros Hdiv. apply E. by apply Z.mod_divide; [lia|].
  - apply (IH (d + 1)); [lia|done|lia|done].
Qed.

(** A divisor or its cofactor is below the square root. *)
Lemma prime_by_roots n :
  1 < n -> (forall k, 2 <= k -> k * k <= n -> ~ (k | n)) -> Z.prime n.
Proof.
  intros Hn H. split; [done|]. intros k Hk [c Hc].
  assert (2 <= c) by nia. destruct (Z.le_gt_cases (k * k) n) as [Hle|Hgt].
  - apply (H k); [lia|done|by exists c].
  - apply (H c); [done|nia|]. exists k. lia.
Qed.

Definition small_prime (fuel : nat) (n : Z) : bool := (1 <? n) && no_divisor fuel 2 n.

Lemma small_prime_sound fuel n : small_prime fuel n = true -> Z.prime n.
Proof.
  unfold small_prime. intros [H1 H2]%andb_prop. apply Z.ltb_lt in H1.
  apply prime_by_roots; [done|]. by apply (no_divisor_sound fuel 2 n).
Qed.

(** A number that is not prime has a prime divisor below its root. *)
Lemma prime_divisor n : 1 < n -> exists p, Z.prime p /\ (p | n).
Proof.
  intros Hn. assert (H : forall m, 0 <= m -> forall n, 1 < n <= m -> exists p, Z.prime p /\ (p | n)).
  { clear n Hn. apply (natlike_ind (fun m => forall n, 1 < n <= m -> exists p, Z.prime p /\ (p | n))); [lia|].
    intros m Hm IH n Hn. destruct (decide (Exists (fun k => n mod k = 0) (seqZ 2 (n - 2)))) as [Hex|Hno].
    - apply list.Exists_exists in Hex as (k & Hk & Hd). apply elem_of_seqZ in Hk.
      apply Z.mod_divide in Hd; [|lia].
      destruct (IH k) as (p & Hp & Hpk); [lia|]. exists p. split; [done|by etrans].
    - exists n. split; [|done]. split; [lia|]. intros k Hk Hd. apply Hno, list.Exists_exists.
      exists k. split; [apply elem_of_seqZ; lia|]. by apply Z.mod_divide; [lia|]. }
  by apply (H n); [lia|].
Qed.

Lemma prime_by_prime_roots n :
  1 < n -> (forall p, Z.prime p -> (p | n) -> n < p * p) -> Z.prime n.
Proof.
  intros Hn H. apply prime_by_roots; [done|]. intros k Hk Hkn Hd.
  destruct (prime_divisor k ltac:(lia)) as (p & Hp & Hpk).
  assert (n < p * p) by (apply H; [done|by etrans]).
  pose proof (Z.prime_ge_2 p Hp). assert (p <= k) by (apply Z.divide_pos_le; [lia|done]). nia.
Qed.

(** ** Powers modulo a number *)

Fixpoint powmod (n a : Z) (e : positive) : Z :=
  match e with
  | xH => a mod n
  | xO e => let r := powmod n a e in (r * r) mod n
  | xI e => let r := powmod n a e in (((r * r) mod n) * a) mod n
  end.

Lemma powmod_spec n a e : powmod n a e = a ^ Zpos e mod n.
Proof.
  induction e as [e IH|e IH|]; cbn [powmod].
  - rewrite IH, Pos2Z.inj_xI, Z.pow_add_r, Z.pow_twice_r, Z.pow_1_r by lia.
    rewrite <- Zmult_mod, Zmult_mod_idemp_l. done.
  - by rewrite IH, Pos2Z.inj_xO, Z.pow_twice_r, <- Zmult_mod.
  - by rewrite Z.pow_1_r.
Qed.

(** ** Pocklington's criterion *)

(** [g] is a power of the prime [l] times a number [l] does not divide. *)
Lemma prime_part l g : Z.prime l -> 0 < g -> exists j h, 0 <= j /\ g = l ^ j * h /\ ~ (l | h).
Proof.
  intros Hl. pose proof (Z.prime_ge_2 l Hl). intros Hg.
  assert (H0 : forall m, 0 <= m -> forall g, 0 < g <= m -> exists j h, 0 <= j /\ g = l ^ j * h /\ ~ (l | h)).
  { clear g Hg. apply (natlike_ind (fun m => forall g, 0 < g <= m -> _)); [lia|].
    intros m Hm IH g Hg. destruct (decide (g mod l = 0)) as [E|E].
    - apply Z.mod_divide in E as [k Hk]; [|lia]. destruct (IH k) as (j & h & Hj & Ek & Hh); [nia|].
      exists (j + 1), h. split; [lia|]. split; [|done]. rewrite Z.pow_add_r, Hk, Ek by lia. ring.
    - exists 0, g. split; [done|]. split; [ring|]. intros Hd. apply E. by apply Z.mod_divide; [lia|]. }
  by apply (H0 g); [lia|].
Qed.

(** A divisor that misses a factor [l ^ e] divides the number without one [l]. *)
Lemma divide_without l e m g :
  Z.prime l -> 1 <= e -> 0 < g -> (g | l ^ e * m) -> ~ (l ^ e | g) -> (g | l ^ (e - 1) * m).
Proof.
  intros Hl He Hg Hd Hnd. destruct (prime_part l g Hl Hg) as (j & h & Hj & -> & Hh).
  assert (Hje : j < e).
  { apply Z.nle_gt. intros Hle. apply Hnd. replace j with (e + (j - e)) by lia.
    rewrite Z.pow_add_r by lia. rewrite <- Z.mul_assoc. apply Z.divide_factor_l. }
  assert (Hc : Z.gcd h (l ^ e) = 1).
  { rewrite Z.gcd_comm. apply Z.coprime_pow_l; [lia|]. by apply Z.coprime_prime_l. }
  assert (Hm : (h | m)).
  { apply (Z.gauss h (l ^ e) m); [|done]. etrans; [|exact Hd]. apply Z.divide_factor_r. }
  replace (e - 1) with (j + (e - 1 - j)) by lia. rewrite Z.pow_add_r, <- Z.mul_assoc by lia.
  apply Z.mul_divide_mono_l. by apply Z.divide_mul_r.
Qed.

(** Powers that are one modulo a prime are closed under greatest common divisors. *)
Lemma pow_gcd_one p a x y :
  Z.prime p -> a mod p <> 0 -> 0 <= x -> 0 <= y ->
  a ^ x mod p = 1 -> a ^ y mod p = 1 -> forall z, 0 <= z -> (Z.gcd x y | z) -> a ^ z mod p = 1.
Proof.
  intros Hp Ha Hx Hy Hax Hay z Hz [k Hk]. pose proof (Z.prime_ge_2 p Hp).
  set (A := Zstar.of_Zmod (Zmod.of_Z p a)).
  assert (HA : Zstar.to_Zmod A = Zmod.of_Z p a).
  { apply Zstar.to_Zmod_of_Zmod. rewrite Zmod.to_Z_of_Z. pose proof (Z.mod_pos_bound a p ltac:(lia)).
    symmetry. apply Z.coprime_prime_small; [done|lia]. }
  assert (Hone : forall e, 0 <= e -> a ^ e mod p = 1 <-> Zstar.pow A e = Zstar.one).
  { intros e He. rewrite <- Zstar.to_Zmod_inj_iff, Zstar.to_Zmod_pow, HA, Zstar.to_Zmod_1.
    rewrite <- Zmod.of_Z_pow, <- Zmod.to_Z_inj_iff, Zmod.to_Z_of_Z, Zmod.to_Z_1_pos by lia. done. }
  apply Hone in Hax, Hay; [|done..]. apply Hone; [done|].
  destruct (Z.gcd_bezout x y (Z.gcd x y) eq_refl) as (u & v & Huv).
  rewrite Hk, <- Huv. replace (k * (u * x + v * y)) with (x * (k * u) + y * (k * v)) by ring.
  by rewrite Zstar.pow_add_r, !Zstar.pow_mul_r, Hax, Hay, !Zstar.pow_1_l, Zstar.mul_1_l.
Qed.

(** One prime power of the certificate. *)
Definition pock_factor (n a : Z) (le : Z * Z) : Prop :=
  let '(l, e) := le in
  Z.prime l /\ 1 <= e /\ (l ^ e | n - 1) /\ Z.gcd (a ^ ((n - 1) / l) mod n - 1) n = 1.

Lemma pock_divides n a l e p :
  1 < n -> pock_factor n a (l, e) -> a ^ (n - 1) mod n = 1 -> Z.prime p -> (p | n) -> (l ^ e | p - 1).
Proof.
  intros Hn (Hl & He & [m Hm] & Hg) Ha Hp [c Hc].
  pose proof (Z.prime_ge_2 p Hp). pose proof (Z.prime_ge_2 l Hl).
  assert (Hlp : 0 < l ^ e) by (apply Z.pow_pos_nonneg; lia).
  assert (Hdown : forall x, x mod p = (x mod n) mod p).
  { intros x. rewrite (Z.div_mod x n) at 1 by lia. rewrite Hc at 1.
    replace (c * p * (x / n) + x mod n) with (x mod n + c * (x / n) * p) by ring. by rewrite Z.mod_add by lia. }
  assert (Ha1 : a ^ (n - 1) mod p = 1) by (rewrite Hdown, Ha; apply Z.mod_small; lia).
  assert (Hap : a mod p <> 0).
  { intros E. revert Ha1. replace (n - 1) with (Z.succ (n - 2)) by lia. rewrite Z.pow_succ_r by lia.
    rewrite <- Zmult_mod_idemp_l, E, Z.mul_0_l, Z.mod_0_l by lia. done. }
  destruct (Zdivide_dec (l ^ e) (p - 1)) as [|Hnd]; [done|exfalso].
  assert (Hg0 : 0 < Z.gcd (n - 1) (p - 1)).
  { pose proof (Z.gcd_nonneg (n - 1) (p - 1)). assert (Z.gcd (n - 1) (p - 1) <> 0); [|lia].
    intros E%Z.gcd_eq_0_l. lia. }
  assert (Hgd : (Z.gcd (n - 1) (p - 1) | l ^ (e - 1) * m)).
  { apply divide_without; [done..| |].
    - replace (l ^ e * m) with (n - 1) by lia. apply Z.gcd_divide_l.
    - intros Hd. apply Hnd. etrans; [exact Hd|]. apply Z.gcd_divide_r. }
  assert (Equot : (n - 1) / l = l ^ (e - 1) * m).
  { rewrite Hm. replace e with (Z.succ (e - 1)) at 1 by lia. rewrite Z.pow_succ_r by lia.
    replace (m * (l * l ^ (e - 1))) with (l ^ (e - 1) * m * l) by ring. by rewrite Z.div_mul by lia. }
  assert (H1 : a ^ ((n - 1) / l) mod p = 1).
  { apply (pow_gcd_one p a (n - 1) (p - 1)); [done|done|lia|lia|done|by apply Z.fermat_nz| |by rewrite Equot].
    apply Z.div_pos; lia. }
  rewrite Hdown in H1.
  assert (Hpg : (p | Z.gcd (a ^ ((n - 1) / l) mod n - 1) n)).
  { apply Z.gcd_greatest; [|by exists c]. apply Z.mod_divide; [lia|].
    by rewrite Zminus_mod, H1, (Z.mod_small 1), Z.sub_diag, Z.mod_0_l by lia. }
  rewrite Hg in Hpg. apply Z.divide_pos_le in Hpg; lia.
Qed.

Definition factored (fs : list (Z * Z)) : Z := foldr (fun '(l, e) x => l ^ e * x) 1 fs.

(** Powers of different primes that divide a number divide it together. *)
Lemma factored_divides fs x :
  NoDup (map fst fs) -> Forall (fun '(l, e) => Z.prime l /\ 0 <= e /\ (l ^ e | x)) fs -> (factored fs | x).
Proof.
  assert (Hcop : forall l e fs, Z.prime l -> 0 <= e -> l ∉ map fst fs ->
    Forall (fun '(l, e) => Z.prime l /\ 0 <= e /\ (l ^ e | x)) fs -> Z.gcd (l ^ e) (factored fs) = 1).
  { intros l e gs Hl He. induction gs as [|[l' e'] gs IH]; intros Hni Hf; cbn [factored foldr].
    - apply Z.coprime_1_r.
    - cbn [map fst] in Hni. apply not_elem_of_cons in Hni as [Hne Hni].
      apply Forall_cons_1 in Hf as [(Hl' & He' & _) Hf]. apply Z.coprime_mul_r; [|by apply IH].
      apply Z.coprime_pow_l; [done|]. apply Z.coprime_pow_r; [done|]. apply Z.coprime_prime_l; [done|].
      intros Hd. apply Hne. by apply Z.divide_prime_prime. }
  induction fs as [|[l e] fs IH]; intros Hnd Hf; [apply Z.divide_1_l|].
  cbn [map fst] in Hnd. apply list.NoDup_cons in Hnd as [Hni Hnd].
  apply Forall_cons_1 in Hf as [(Hl & He & Hd) Hf]. cbn [factored foldr].
  destruct (IH Hnd Hf) as [c Hc]. destruct Hd as [b Hb].
  assert (Hb' : (factored fs | b)).
  { apply (Z.gauss _ (l ^ e)); [exists c; lia|]. rewrite Z.gcd_comm. by apply Hcop. }
  destruct Hb' as [k Hk]. exists k. rewrite Hb, Hk. ring_simplify. unfold factored. ring.
Qed.

Theorem pocklington n a fs :
  1 < n -> a ^ (n - 1) mod n = 1 -> NoDup (map fst fs) -> Forall (pock_factor n a) fs ->
  n <= factored fs * factored fs -> Z.prime n.
Proof.
  intros Hn Ha Hnd Hf Hbig. apply prime_by_prime_roots; [done|]. intros p Hp Hpn.
  pose proof (Z.prime_ge_2 p Hp).
  assert (Hd : (factored fs | p - 1)).
  { apply factored_divides; [done|]. eapply Forall_impl; [|exact Hf]. intros [l e] Hle.
    pose proof Hle as (Hl & He & _). split; [done|]. split; [lia|]. by apply (pock_divides n a l e p). }
  assert (Hpos : 0 < factored fs).
  { clear -Hf. induction Hf as [|[l e] fs (Hl & He & _) Hf IH]; [done|]. cbn [factored foldr].
    apply Z.mul_pos_pos; [|done]. apply Z.prime_ge_2 in Hl. apply Z.pow_pos_nonneg; lia. }
  apply Z.divide_pos_le in Hd; [|lia]. nia.
Qed.

(** ** Certificates *)

(** The checks of a certificate that are evaluated: the first power is computed on the
    way to the power that has to be one. *)
Definition pock_check (n a l e : Z) (fs : list (Z * Z)) : bool :=
  let ok le b := let '(l, e) := le in
    (1 <=? e) && (1 <? l) && (l <? n) && ((n - 1) mod l ^ e =? 0) && (Z.gcd (b - 1) n =? 1) in
  (1 <? n) && bool_decide (NoDup (map fst ((l, e) :: fs))) &&
  (n <=? factored ((l, e) :: fs) * factored ((l, e) :: fs)) &&
  (let b := powmod n a (Z.to_pos ((n - 1) / l)) in
   (powmod n b (Z.to_pos l) =? 1) && ok (l, e) b) &&
  forallb (fun le => ok le (powmod n a (Z.to_pos ((n - 1) / fst le)))) fs.

Lemma pock_check_sound n a l e fs :
  Forall Z.prime (l :: map fst fs) -> pock_check n a l e fs = true -> Z.prime n.
Proof.
  unfold pock_check. intros Hp H. rewrite !andb_true_iff in H.
  destruct H as ((((H1 & H2) & H3) & (H4 & H5)) & H6).
  apply Z.ltb_lt in H1. apply bool_decide_eq_true in H2. apply Z.leb_le in H3. apply Z.eqb_eq in H4.
  assert (Hok : forall l e, Z.prime l ->
    (1 <=? e) && (1 <? l) && (l <? n) && ((n - 1) mod l ^ e =? 0) &&
    (Z.gcd (powmod n a (Z.to_pos ((n - 1) / l)) - 1) n =? 1) = true ->
    pock_factor n a (l, e) /\ 0 < (n - 1) / l).
  { clear l e H2 H3 H4 H5 H6 Hp. intros l e Hl H. rewrite !andb_true_iff in H.
    destruct H as ((((He & Hl1) & Hln) & Hd) & Hg).
    apply Z.leb_le in He. apply Z.ltb_lt in Hl1, Hln. apply Z.eqb_eq in Hd, Hg.
    assert (0 < l ^ e) by (apply Z.pow_pos_nonneg; lia).
    assert (0 < (n - 1) / l) by (apply Z.div_str_pos; lia). split; [|done].
    split; [done|]. split; [done|]. split; [apply Z.mod_divide; [lia|done]|].
    by rewrite powmod_spec, Z2Pos.id in Hg by lia. }
  apply Forall_cons_1 in Hp as [Hl Hp]. rewrite <- !andb_true_iff in H5. apply (Hok l e Hl) in H5 as [H5 Hq].
  assert (Hf : Forall (pock_factor n a) ((l, e) :: fs)).
  { apply Forall_cons_2; [done|]. clear -H6 Hp Hok. induction fs as [|[l e] fs IH]; [apply Forall_nil_2|].
    cbn [map fst forallb] in *. apply Forall_cons_1 in Hp as [Hl Hp]. apply andb_prop in H6 as [H6 Hr].
    apply Forall_cons_2; [|by apply IH]. by apply Hok. }
  apply (pocklington n a ((l, e) :: fs)); [done| |done|done|done].
  pose proof (Z.prime_ge_2 l Hl). destruct H5 as (_ & He & Hd & _).
  rewrite !powmod_spec, !Z2Pos.id, Z.mod_pow_l, <- Z.pow_mul_r in H4 by lia.
  assert (Hln : (l | n - 1)).
  { etrans; [|exact Hd]. replace e with (Z.succ (e - 1)) by lia. rewrite Z.pow_succ_r by lia.
    apply Z.divide_factor_l. }
  destruct Hln as [c Hc]. rewrite Hc, Z.div_mul in H4 by lia. by rewrite Hc.
Qed.

(** Proves a number prime: by trial division, or by its certificate and its factors'. *)
Ltac by_trial fuel := apply (small_prime_sound fuel); vm_compute; reflexivity.
Ltac by_certificate a l e fs := apply (pock_check_sound _ a l e fs); [|vm_compute; reflexivity];
  cbn [map fst]; repeat apply Forall_cons_2; try apply Forall_nil_2.

Definition fr_modulus : Z :=
  21888242871839275222246405745257275088548364400416034343698204186575808495617.
Definition fq_modulus : Z :=
  21888242871839275222246405745257275088696311157297823662689037894645226208583.

Lemma prime_12048837557 : Z.prime 12048837557.
Proof. by_certificate 2 93001 1 [(661, 1)]; by_trial 310%nat. Qed.

Lemma prime_5156902474397 : Z.prime 5156902474397.
Proof. by_certificate 2 12048837557 1 (@nil (Z * Z)). apply prime_12048837557. Qed.

Lemma prime_1670836401704629 : Z.prime 1670836401704629.
Proof. by_certificate 2 5156902474397 1 (@nil (Z * Z)). apply prime_5156902474397. Qed.

Lemma prime_639533339 : Z.prime 639533339.
Proof. by_certificate 2 1637 1 [(853, 1)]; by_trial 50%nat. Qed.

Lemma prime_65865678001877903 : Z.prime 65865678001877903.
Proof. by_certificate 2 639533339 1 (@nil (Z * Z)). apply prime_639533339. Qed.

Lemma prime_93_bits : Z.prime 13818364434197438864469338081.
Proof. by_certificate 2 65865678001877903 1 (@nil (Z * Z)). apply prime_65865678001877903. Qed.

(** The order of the groups of the curve, with the number 5, which generates its powers
    of two. *)
Lemma fr_check : pock_check fr_modulus 5 2 28
  [(13818364434197438864469338081, 1); (1670836401704629, 1)] = true.
Proof. vm_compute. reflexivity. Qed.

Lemma fr_prime : Z.prime fr_modulus.
Proof.
  eapply pock_check_sound; [|apply fr_check]. cbn [map fst].
  repeat apply Forall_cons_2; try apply Forall_nil_2.
  - apply Z.prime_2.
  - apply prime_93_bits.
  - apply prime_1670836401704629.
Qed.

(** A certificate that starts with 2 has a base that is not a square. *)
Lemma pock_check_nonresidue n a e fs :
  1 < (n - 1) / 2 -> pock_check n a 2 e fs = true -> a ^ ((n - 1) / 2) mod n <> 1.
Proof.
  intros Hn H E. unfold pock_check in H. rewrite !andb_true_iff in H.
  destruct H as ((((H1 & _) & _) & (_ & (_ & H5))) & _). apply Z.ltb_lt in H1. apply Z.eqb_eq in H5.
  rewrite powmod_spec, Z2Pos.id, E, Z.sub_diag, Z.gcd_0_l in H5 by lia. lia.
Qed.

(** A square is a residue. *)
Lemma square_residue n a x :
  Z.prime n -> 2 < n -> a mod n <> 0 -> x * x mod n = a mod n -> a ^ (n / 2) mod n = 1.
Proof.
  intros Hn Hn2 Ha Hx. assert (Hodd : n = 2 * (n / 2) + 1).
  { pose proof (Z.div_mod n 2 ltac:(lia)). pose proof (Z.mod_pos_bound n 2 ltac:(lia)).
    assert (n mod 2 <> 0); [|lia]. intros E0. destruct Hn as [_ Hn]. apply (Hn 2); [lia|].
    by apply Z.mod_divide. }
  assert (0 <= n / 2) by (apply Z.div_pos; lia).
  rewrite <- Z.mod_pow_l, <- Hx, Z.mod_pow_l, <- (Z.pow_2_r x), <- Z.pow_mul_r by lia.
  replace (2 * (n / 2)) with (n - 1) by lia. apply Z.fermat_nz; [done|]. intros E. apply Ha.
  by rewrite <- Hx, <- Zmult_mod_idemp_l, E, Z.mul_0_l, Z.mod_0_l by lia.
Qed.

(** The least number from 2 on that is not a square modulo the order is 5. *)
Lemma fr_nonresidues :
  2 ^ (fr_modulus / 2) mod fr_modulus = 1 /\ 3 ^ (fr_modulus / 2) mod fr_modulus = 1 /\
  4 ^ (fr_modulus / 2) mod fr_modulus = 1 /\ 5 ^ (fr_modulus / 2) mod fr_modulus <> 1.
Proof.
  assert (Hs : forall a x, 0 < a < 5 -> (x * x mod fr_modulus =? a) = true ->
    a ^ (fr_modulus / 2) mod fr_modulus = 1).
  { intros a x Ha Hx%Z.eqb_eq. apply (square_residue _ _ x); [apply fr_prime|done| |].
    - rewrite Z.mod_small; [lia|]. unfold fr_modulus. lia.
    - rewrite Hx, Z.mod_small; [done|]. unfold fr_modulus. lia. }
  split; [|split; [|split]].
  - apply (Hs 2 6265726278199534483148339147879825670854228981575640389718095647651409606938); [lia|vm_compute; reflexivity].
  - apply (Hs 3 21888242871839275217838484774961031245711156914764510301779439637018554284970); [lia|vm_compute; reflexivity].
  - apply (Hs 4 2); [lia|vm_compute; reflexivity].
  - change (fr_modulus / 2) with ((fr_modulus - 1) / 2).
    eapply pock_check_nonresidue; [vm_compute; reflexivity|apply fr_check].
Qed.

Lemma prime_133_bits : Z.prime 13427688667394608761327070753331941386769.
Proof.
  by_certificate 2 173171039 1 [(4562087, 1); (1853641, 1)].
  - by_trial 13200%nat.
  - by_trial 2200%nat.
  - by_trial 1500%nat.
Qed.

(** The field of the coordinates of the curve. *)
Lemma fq_prime : Z.prime fq_modulus.
Proof.
  by_certificate 2 13427688667394608761327070753331941386769 1 (@nil (Z * Z)). apply prime_133_bits.
Qed.
