(* ===== verification/FqLibrary.v ===== *)
(** The library of the base field: [build/fq_raw_generic.cpp], [fq_generic.cpp], [fq.cpp] and
    [fq.hpp].  The generator writes both fields from one text: but for the names and for
    the constants of [Fq_params] these files are those of the scalar field, line by line,
    so every function is the one of that library with the constants of this one. *)

From S2P Require Import Prelude Limbs Gmp Mpz FrRaw FrElement FrElementWp FrArith FrMpz RawFr Primes.

Section Functions.
Context {G : Mpn} {MZ : Mpz}.

(** ** [fq_raw_generic.cpp] *)

Definition Fq_rawAdd := Fr_rawAdd (P := Fq_params).
Definition Fq_rawAddLS := Fr_rawAddLS (P := Fq_params).
Definition Fq_rawSub := Fr_rawSub (P := Fq_params).
Definition Fq_rawSubRegular := Fr_rawSubRegular.
Definition Fq_rawSubSL := Fr_rawSubSL (P := Fq_params).
Definition Fq_rawSubLS := Fr_rawSubLS (P := Fq_params).
Definition Fq_rawNeg := Fr_rawNeg (P := Fq_params).
Definition Fq_rawNegLS := Fr_rawNegLS (P := Fq_params).
Definition Fq_rawCopy := Fr_rawCopy.
Definition Fq_rawIsEq := Fr_rawIsEq.
Definition Fq_rawMMul := Fr_rawMMul (P := Fq_params).
Definition Fq_rawMMul1 := Fr_rawMMul1 (P := Fq_params).
Definition Fq_rawFromMontgomery := Fr_rawFromMontgomery (P := Fq_params).
Definition Fq_rawIsZero := Fr_rawIsZero.
Definition Fq_rawCmp := Fr_rawCmp.
Definition Fq_rawSwap := Fr_rawSwap.
Definition Fq_rawCopyS2L := Fr_rawCopyS2L (P := Fq_params).
Definition Fq_rawAnd := Fr_rawAnd (P := Fq_params).
Definition Fq_rawOr := Fr_rawOr (P := Fq_params).
Definition Fq_rawXor := Fr_rawXor (P := Fq_params).
Definition Fq_rawNot := Fr_rawNot (P := Fq_params).
Definition Fq_rawShl := Fr_rawShl (P := Fq_params).
Definition Fq_rawShr := Fr_rawShr.
Definition Fq_sub_q_if := sub_q_if (P := Fq_params).
Definition Fq_add_q_if := add_q_if (P := Fq_params).
Definition Fq_ge_q := ge_q (P := Fq_params).
Definition Fq_mask_top := mask_top (P := Fq_params).

(** ** [fq_generic.cpp] *)

Definition Fq_rawMSquare := Fr_rawMSquare (P := Fq_params).
Definition Fq_rawToMontgomery := Fr_rawToMontgomery (P := Fq_params).
Definition Fq_copy := Fr_copy.
Definition Fq_toNormal := Fr_toNormal (P := Fq_params).
Definition Fq_has_mul32_overflow := has_mul32_overflow.
Definition Fq_rawSMul := Fr_rawSMul.
Definition Fq_mul_s1s2 := mul_s1s2 (P := Fq_params).
Definition Fq_mul_l1nl2n := mul_l1nl2n (P := Fq_params).
Definition Fq_mul_l1nl2m := mul_l1nl2m (P := Fq_params).
Definition Fq_mul_l1ml2m := mul_l1ml2m (P := Fq_params).
Definition Fq_mul_l1ml2n := mul_l1ml2n (P := Fq_params).
Definition Fq_mul_l1ns2n := mul_l1ns2n (P := Fq_params).
Definition Fq_mul_s1nl2n := mul_s1nl2n (P := Fq_params).
Definition Fq_mul_l1ms2n := mul_l1ms2n (P := Fq_params).
Definition Fq_mul_s1nl2m := mul_s1nl2m (P := Fq_params).
Definition Fq_mul_l1ns2m := mul_l1ns2m (P := Fq_params).
Definition Fq_mul_l1ms2m := mul_l1ms2m (P := Fq_params).
Definition Fq_mul_s1ml2m := mul_s1ml2m (P := Fq_params).
Definition Fq_mul_s1ml2n := mul_s1ml2n (P := Fq_params).
Definition Fq_mul := Fr_mul (P := Fq_params).
Definition Fq_toLongNormal := Fr_toLongNormal (P := Fq_params).
Definition Fq_toMontgomery := Fr_toMontgomery (P := Fq_params).
Definition Fq_has_add32_overflow := has_add32_overflow.
Definition Fq_rawSSub := Fr_rawSSub.
Definition Fq_rawSAdd := Fr_rawSAdd.
Definition Fq_rawSNeg := Fr_rawSNeg.
Definition Fq_sub_s1s2 := sub_s1s2 (P := Fq_params).
Definition Fq_sub_l1nl2n := sub_l1nl2n (P := Fq_params).
Definition Fq_sub_l1nl2m := sub_l1nl2m (P := Fq_params).
Definition Fq_sub_l1ml2m := sub_l1ml2m (P := Fq_params).
Definition Fq_sub_l1ml2n := sub_l1ml2n (P := Fq_params).
Definition Fq_sub_s1l2n := sub_s1l2n (P := Fq_params).
Definition Fq_sub_l1ms2n := sub_l1ms2n (P := Fq_params).
Definition Fq_sub_s1nl2m := sub_s1nl2m (P := Fq_params).
Definition Fq_sub_l1ns2 := sub_l1ns2 (P := Fq_params).
Definition Fq_sub_l1ms2m := sub_l1ms2m (P := Fq_params).
Definition Fq_sub_s1ml2m := sub_s1ml2m (P := Fq_params).
Definition Fq_sub := Fr_sub (P := Fq_params).
Definition Fq_add_s1s2 := add_s1s2 (P := Fq_params).
Definition Fq_add_l1nl2n := add_l1nl2n (P := Fq_params).
Definition Fq_add_l1nl2m := add_l1nl2m (P := Fq_params).
Definition Fq_add_l1ml2m := add_l1ml2m (P := Fq_params).
Definition Fq_add_l1ml2n := add_l1ml2n (P := Fq_params).
Definition Fq_add_s1l2n := add_s1l2n (P := Fq_params).
Definition Fq_add_l1ms2n := add_l1ms2n (P := Fq_params).
Definition Fq_add_s1nl2m := add_s1nl2m (P := Fq_params).
Definition Fq_add_l1ns2 := add_l1ns2 (P := Fq_params).
Definition Fq_add_l1ms2m := add_l1ms2m (P := Fq_params).
Definition Fq_add_s1ml2m := add_s1ml2m (P := Fq_params).
Definition Fq_add := Fr_add (P := Fq_params).
Definition Fq_isTrue := Fr_isTrue.
Definition Fq_longNeg := Fr_longNeg (P := Fq_params).
Definition Fq_longNormal := Fr_longNormal (P := Fq_params).
Definition Fq_toInt := Fr_toInt (P := Fq_params).
Definition Fq_rlt_s1s2 := rlt_s1s2.
Definition Fq_rltRawL1L2 := rltRawL1L2.
Definition Fq_rltl1l2_n1 := rltl1l2_n1 (P := Fq_params).
Definition Fq_rltl1l2_p1 := rltl1l2_p1 (P := Fq_params).
Definition Fq_rltL1L2 := rltL1L2 (P := Fq_params).
Definition Fq_rlt_l1nl2n := rlt_l1nl2n (P := Fq_params).
Definition Fq_rlt_l1nl2m := rlt_l1nl2m (P := Fq_params).
Definition Fq_rlt_l1ml2m := rlt_l1ml2m (P := Fq_params).
Definition Fq_rlt_l1ml2n := rlt_l1ml2n (P := Fq_params).
Definition Fq_rlt_s1l2n := rlt_s1l2n (P := Fq_params).
Definition Fq_rlt_l1ms2 := rlt_l1ms2 (P := Fq_params).
Definition Fq_rlt_s1l2m := rlt_s1l2m (P := Fq_params).
Definition Fq_rlt_l1ns2 := rlt_l1ns2 (P := Fq_params).
Definition Fq_rlt := Fr_rlt (P := Fq_params).
Definition Fq_lt := Fr_lt (P := Fq_params).
Definition Fq_geq := Fr_geq (P := Fq_params).
Definition Fq_neg := Fr_neg (P := Fq_params).
Definition Fq_reqL1L2 := reqL1L2.
Definition Fq_req_s1s2 := req_s1s2.
Definition Fq_req_l1nl2n := req_l1nl2n.
Definition Fq_req_l1nl2m := req_l1nl2m (P := Fq_params).
Definition Fq_req_l1ml2m := req_l1ml2m.
Definition Fq_req_l1ml2n := req_l1ml2n (P := Fq_params).
Definition Fq_req_s1l2n := req_s1l2n (P := Fq_params).
Definition Fq_req_l1ms2 := req_l1ms2 (P := Fq_params).
Definition Fq_req_s1l2m := req_s1l2m (P := Fq_params).
Definition Fq_req_l1ns2 := req_l1ns2 (P := Fq_params).
Definition Fq_req := Fr_req (P := Fq_params).
Definition Fq_eq := Fr_eq (P := Fq_params).
Definition Fq_neq := Fr_neq (P := Fq_params).
Definition Fq_lor := Fr_lor.
Definition Fq_lnot := Fr_lnot.
Definition Fq_land := Fr_land.
Definition Fq_rgt_s1s2 := rgt_s1s2.
Definition Fq_rgtRawL1L2 := rgtRawL1L2.
Definition Fq_rgtl1l2_n1 := rgtl1l2_n1 (P := Fq_params).
Definition Fq_rgtl1l2_p1 := rgtl1l2_p1 (P := Fq_params).
Definition Fq_rgtL1L2 := rgtL1L2 (P := Fq_params).
Definition Fq_rgt_l1nl2n := rgt_l1nl2n (P := Fq_params).
Definition Fq_rgt_l1nl2m := rgt_l1nl2m (P := Fq_params).
Definition Fq_rgt_l1ml2m := rgt_l1ml2m (P := Fq_params).
Definition Fq_rgt_l1ml2n := rgt_l1ml2n (P := Fq_params).
Definition Fq_rgt_s1l2n := rgt_s1l2n (P := Fq_params).
Definition Fq_rgt_l1ms2 := rgt_l1ms2 (P := Fq_params).
Definition Fq_rgt_s1l2m := rgt_s1l2m (P := Fq_params).
Definition Fq_rgt_l1ns2 := rgt_l1ns2 (P := Fq_params).
Definition Fq_rgt := Fr_rgt (P := Fq_params).
Definition Fq_gt := Fr_gt (P := Fq_params).
Definition Fq_leq := Fr_leq (P := Fq_params).
Definition Fq_and_s1s2 := and_s1s2 (P := Fq_params).
Definition Fq_and_l1nl2n := and_l1nl2n (P := Fq_params).
Definition Fq_and_l1nl2m := and_l1nl2m (P := Fq_params).
Definition Fq_and_l1ml2m := and_l1ml2m (P := Fq_params).
Definition Fq_and_l1ml2n := and_l1ml2n (P := Fq_params).
Definition Fq_and_s1l2n := and_s1l2n (P := Fq_params).
Definition Fq_and_l1ms2 := and_l1ms2 (P := Fq_params).
Definition Fq_and_s1l2m := and_s1l2m (P := Fq_params).
Definition Fq_and_l1ns2 := and_l1ns2 (P := Fq_params).
Definition Fq_band := Fr_band (P := Fq_params).
Definition Fq_setzero := Fr_setzero.
Definition Fq_do_shlcl := do_shlcl (P := Fq_params).
Definition Fq_do_shlln := do_shlln (P := Fq_params).
Definition Fq_do_shl := do_shl (P := Fq_params).
Definition Fq_do_shrln := do_shrln.
Definition Fq_do_shrl := do_shrl (P := Fq_params).
Definition Fq_do_shr := do_shr (P := Fq_params).
Definition Fq_shr_big_shift := Fr_shr_big_shift (P := Fq_params).
Definition Fq_shr_long := Fr_shr_long (P := Fq_params).
Definition Fq_shr := Fr_shr (P := Fq_params).
Definition Fq_shl_big_shift := Fr_shl_big_shift (P := Fq_params).
Definition Fq_shl_long := Fr_shl_long (P := Fq_params).
Definition Fq_shl := Fr_shl (P := Fq_params).
Definition Fq_square := Fr_square (P := Fq_params).
Definition Fq_or_s1s2 := or_s1s2 (P := Fq_params).
Definition Fq_or_l1nl2n := or_l1nl2n (P := Fq_params).
Definition Fq_or_l1nl2m := or_l1nl2m (P := Fq_params).
Definition Fq_or_l1ml2m := or_l1ml2m (P := Fq_params).
Definition Fq_or_l1ml2n := or_l1ml2n (P := Fq_params).
Definition Fq_or_s1l2n := or_s1l2n (P := Fq_params).
Definition Fq_or_l1ms2 := or_l1ms2 (P := Fq_params).
Definition Fq_or_s1l2m := or_s1l2m (P := Fq_params).
Definition Fq_or_l1ns2 := or_l1ns2 (P := Fq_params).
Definition Fq_bor := Fr_bor (P := Fq_params).
Definition Fq_xor_s1s2 := xor_s1s2 (P := Fq_params).
Definition Fq_xor_l1nl2n := xor_l1nl2n (P := Fq_params).
Definition Fq_xor_l1nl2m := xor_l1nl2m (P := Fq_params).
Definition Fq_xor_l1ml2m := xor_l1ml2m (P := Fq_params).
Definition Fq_xor_l1ml2n := xor_l1ml2n (P := Fq_params).
Definition Fq_xor_s1l2n := xor_s1l2n (P := Fq_params).
Definition Fq_xor_l1ms2 := xor_l1ms2 (P := Fq_params).
Definition Fq_xor_s1l2m := xor_s1l2m (P := Fq_params).
Definition Fq_xor_l1ns2 := xor_l1ns2 (P := Fq_params).
Definition Fq_bxor := Fr_bxor (P := Fq_params).
Definition Fq_bnot := Fr_bnot (P := Fq_params).
Definition Fq_static_rawShl := rawShl (P := Fq_params).
Definition Fq_static_rawShr := rawShr.
Definition Fq_rawZero := Fr_rawZero.
Definition Fq_mul_by_short := mul_by_short (P := Fq_params).
Definition Fq_rlt_longs := rlt_longs (P := Fq_params).
Definition Fq_rgt_longs := rgt_longs (P := Fq_params).
Definition Fq_req_longs := req_longs.
Definition Fq_is_true := is_true.
Definition Fq_short_to_long := short_to_long (P := Fq_params).
Definition Fq_setShortValue := setShortValue.
Definition Fq_setLongValue := setLongValue (P := Fq_params).
Definition Fq_max_shift := max_shift.

(** ** [fq.cpp] *)

Definition Fq_q_mpz := q_mpz (P := Fq_params).
Definition Fq_toMpz := Fr_toMpz (P := Fq_params).
Definition Fq_fromMpz := Fr_fromMpz.
Definition Fq_str2element := Fr_str2element (P := Fq_params).
Definition Fq_element2str := Fr_element2str (P := Fq_params).
Definition Fq_idiv := Fr_idiv (P := Fq_params).
Definition Fq_mod := Fr_mod (P := Fq_params).
Definition Fq_pow := Fr_pow (P := Fq_params).
Definition Fq_inv := Fr_inv (P := Fq_params).
Definition Fq_div := Fr_div (P := Fq_params).
Definition RawFq_toMpz := RawFr_toMpz (P := Fq_params).
Definition RawFq_fromMpz := RawFr_fromMpz (P := Fq_params).
Definition RawFq_fromString := RawFr_fromString (P := Fq_params).
Definition RawFq_toString := RawFr_toString (P := Fq_params).
Definition RawFq_fromUI := RawFr_fromUI (P := Fq_params).
Definition RawFq_inv := RawFr_inv (P := Fq_params).
Definition RawFq_div := RawFr_div (P := Fq_params).
Definition RawFq_exp := RawFr_exp (P := Fq_params).
Definition RawFq_toRprBE := RawFr_toRprBE (P := Fq_params).
Definition RawFq_fromRprBE := RawFr_fromRprBE (P := Fq_params).
Definition RawFq_set := RawFr_set (P := Fq_params).
Definition RawFq_zero := RawFr_zero (P := Fq_params).
Definition RawFq_one := RawFr_one (P := Fq_params).
Definition RawFq_negOne := RawFr_negOne (P := Fq_params).
Definition Fq_exp_loop := exp_loop (P := Fq_params).

(** ** [fq.hpp] *)

Definition RawFq_copy := RawFr_copy.
Definition RawFq_add := RawFr_add (P := Fq_params).
Definition RawFq_sub := RawFr_sub (P := Fq_params).
Definition RawFq_mul := RawFr_mul (P := Fq_params).
Definition RawFq_neg := RawFr_neg (P := Fq_params).
Definition RawFq_square := RawFr_square (P := Fq_params).
Definition RawFq_eq := RawFr_eq.
Definition RawFq_isZero := RawFr_isZero.
Definition RawFq_toMontgomery := RawFr_toMontgomery (P := Fq_params).
Definition RawFq_fromMontgomery := RawFr_fromMontgomery (P := Fq_params).
End Functions.

(** ** The base field *)

(** The constants of the files are those of the prime of the curve. *)
Lemma Fq_prime_q : q (P := Fq_params) = fq_modulus.
Proof. vm_compute. reflexivity. Qed.

Section Spec.
Context {G : Mpn} {GL : MpnLaws G} {MZ : Mpz} {ML : MpzLaws MZ}.
#[local] Existing Instance Fq_params.

Lemma Fq_coprime v : 0 <= v < fq_modulus -> v <> 0 -> Z.gcd v q = 1.
Proof. intros Hv H0. rewrite Fq_prime_q, Z.gcd_comm. apply Z.coprime_prime_small; [apply fq_prime|lia]. Qed.

(** C34: The library of the base field computes in the field of the prime [fq_modulus]: the
    class [RawFq] on Montgomery elements, where every non-zero element has the inverse
    [RawFq_inv] computes, and the functions on tagged elements for products and
    quotients of any two of their representations. *)
Theorem Fq_library_correct (x y : Element) vx vy r a b m va vb :
  elem x vx -> elem y vy -> vy <> 0 -> repr (m (Cell a)) va -> repr (m (Cell b)) vb -> vb <> 0 ->
  (elem (RawFq_add x y) ((vx + vy) mod fq_modulus) /\ elem (RawFq_sub x y) ((vx - vy) mod fq_modulus) /\
   elem (RawFq_mul x y) ((vx * vy) mod fq_modulus) /\ elem (RawFq_neg x) ((- vx) mod fq_modulus) /\
   elem (RawFq_square x) ((vx * vx) mod fq_modulus) /\ RawFq_eq x y = (vx =? vy) /\
   exists z, (vy * z) mod fq_modulus = 1 /\ elem (RawFq_inv y) z /\ elem (RawFq_div x y) ((vx * z) mod fq_modulus)) /\
  computes r ((va * vb) mod fq_modulus) m (exec (Fq_mul (Cell r) (Cell a) (Cell b)) m) /\
  exists z, (vb * z) mod fq_modulus = 1 /\ computes r ((va * z) mod fq_modulus) m (exec (Fq_div (Cell r) (Cell a) (Cell b)) m).
Proof.
  intros Hx Hy Hvy Ha Hb Hvb. rewrite <- Fq_prime_q. pose proof Hy as [Hyr _]. pose proof (repr_range _ _ Hb) as Hbr.
  rewrite Fq_prime_q in Hyr, Hbr. split; [|split].
  - split; [by apply RawFr_add_spec|]. split; [by apply RawFr_sub_spec|]. split; [by apply RawFr_mul_spec|].
    split; [by apply RawFr_neg_spec|]. split; [by apply RawFr_square_spec|]. split; [by apply RawFr_eq_spec|].
    destruct (RawFr_inv_spec y vy Hy (Fq_coprime vy Hyr Hvy)) as (z & Hz & Hi).
    exists z. split; [done|]. split; [done|]. by apply RawFr_mul_spec.
  - apply stores_computes. by apply Fr_mul_stores.
  - destruct (Fr_div_correct r a b m va vb Ha Hb (Fq_coprime vb Hbr Hvb)) as (z & _ & Hz & _ & Hd). by exists z.
Qed.
End Spec.

(** ** Instance: 1000 and 7 times their Montgomery forms, -5 and a long Montgomery number *)
Section Witness.
#[local] Existing Instances Fq_params Mpn_reference Mpz_reference.

Definition fq_demo (v : Z) : Element := of_Z 4 (mont v).
Definition fq_demo_mem : mem := fun l =>
  match l with
  | Cell 0 => mkFrElement (-5) Fr_SHORT [1; 2; 3; 4]
  | Cell 1 => mkFrElement 0 Fr_LONGMONTGOMERY (of_Z 4 (mont 77))
  | _ => mkFrElement 0 Fr_LONG [0; 0; 0; 0]
  end.

Lemma fq_demo_ok v : 0 <= v < fq_modulus -> elem (fq_demo v) v.
Proof. intros Hv. split; [by rewrite Fq_prime_q|]. apply rep_of_Z, mont_range. Qed.

Lemma Fq_library_correct_witness :
  (exists z, (7 * z) mod fq_modulus = 1 /\ elem (RawFq_inv (fq_demo 7)) z) /\
  computes 0 (((fq_modulus - 5) * 77) mod fq_modulus) fq_demo_mem (exec (Fq_mul (Cell 0) (Cell 0) (Cell 1)) fq_demo_mem).
Proof.
  destruct (Fq_library_correct (fq_demo 1000) (fq_demo 7) 1000 7 0 0 1 fq_demo_mem (fq_modulus - 5) 77) as ((_ & _ & _ & _ & _ & _ & H1) & H2 & _).
  - apply fq_demo_ok. vm_compute. split; [discriminate|reflexivity].
  - apply fq_demo_ok. vm_compute. split; [discriminate|reflexivity].
  - discriminate.
  - apply repr_short; [reflexivity|split; [vm_compute; discriminate|vm_compute; reflexivity]|vm_compute; reflexivity].
  - apply repr_longmont; [reflexivity|split; [vm_compute; discriminate|vm_compute; reflexivity]|]. apply rep_of_Z, mont_range.
  - discriminate.
  - split; [|exact H2]. destruct H1 as (z & Hz & Hi & _). by exists z.
Defined.
End Witness.
