(* ===== verification/Field.v ===== *)
(** The interface of the field classes the curve and tower templates are instantiated
    with: their operations, the field their elements stand for, and the laws.  The
    Montgomery class [RawFr] (and [RawFq], the same code) is an instance. *)

From Stdlib Require Import Field Zmod.
From S2P Require Import Prelude Limbs Gmp Mpz FrRaw FrElement FrElementWp FrMpz RawFr.

(** ** Fields *)

Class KField (K : Type) := {
  k0 : K; k1 : K;
  kadd : K -> K -> K; kmul : K -> K -> K; ksub : K -> K -> K; kopp : K -> K;
  kdiv : K -> K -> K; kinv : K -> K;
  k_theory : field_theory k0 k1 kadd kmul ksub kopp kdiv kinv eq;
  k_dec : EqDecision K
}.
#[export] Existing Instance k_dec.

Declare Scope field_scope.
Delimit Scope field_scope with K.
Notation "0" := k0 : field_scope.
Notation "1" := k1 : field_scope.
Notation "x + y" := (kadd x y) : field_scope.
Notation "x - y" := (ksub x y) : field_scope.
Notation "x * y" := (kmul x y) : field_scope.
Notation "x / y" := (kdiv x y) : field_scope.
Notation "- x" := (kopp x) : field_scope.

(** ** The interface of a field class *)

Class FieldOps (E : Type) := {
  f_zero : E; f_one : E; f_negOne : E;
  f_add : E -> E -> E; f_sub : E -> E -> E; f_mul : E -> E -> E;
  f_neg : E -> E; f_square : E -> E; f_inv : E -> E; f_div : E -> E -> E;
  f_isZero : E -> bool; f_eq : E -> E -> bool
}.

(** The element [a] of the class stands for [x]. *)
Class FieldRep (K E : Type) := f_rep : E -> K -> Prop.

Class FieldLaws (K E : Type) `{KField K} `{FieldOps E} `{FieldRep K E} : Prop := {
  f_zero_rep : f_rep f_zero 0%K;
  f_one_rep : f_rep f_one 1%K;
  f_negOne_rep : f_rep f_negOne (- (1))%K;
  f_add_rep a b x y : f_rep a x -> f_rep b y -> f_rep (f_add a b) (x + y)%K;
  f_sub_rep a b x y : f_rep a x -> f_rep b y -> f_rep (f_sub a b) (x - y)%K;
  f_mul_rep a b x y : f_rep a x -> f_rep b y -> f_rep (f_mul a b) (x * y)%K;
  f_neg_rep a x : f_rep a x -> f_rep (f_neg a) (- x)%K;
  f_square_rep a x : f_rep a x -> f_rep (f_square a) (x * x)%K;
  f_inv_rep a x : f_rep a x -> x <> 0%K -> f_rep (f_inv a) (kinv x);
  f_div_rep a b x y : f_rep a x -> f_rep b y -> y <> 0%K -> f_rep (f_div a b) (x / y)%K;
  f_isZero_rep a x : f_rep a x -> f_isZero a = bool_decide (x = 0%K);
  f_eq_rep a b x y : f_rep a x -> f_rep b y -> f_eq a b = bool_decide (x = y)
}.

Create HintDb field_rep.
#[export] Hint Resolve f_zero_rep f_one_rep f_negOne_rep f_add_rep f_sub_rep f_mul_rep
  f_neg_rep f_square_rep : field_rep.

(** What an expression stands for, up to the equations of the field. *)
Lemma f_rep_eq {K E} `{FieldRep K E} a (x y : K) : f_rep a x -> x = y -> f_rep a y.
Proof. by intros ? <-. Qed.

(** ** Facts of fields *)

Section Facts.
Context {K : Type} {F : KField K}.
Add Field K_field : (k_theory (K := K)).
#[local] Open Scope field_scope.

Lemma k_integral x y : x * y = 0 -> x = 0 \/ y = 0.
Proof.
  intros Hxy. destruct (decide (x = 0)) as [|Hx]; [by left|right].
  transitivity (x * y / x); [by field|]. rewrite Hxy. by field.
Qed.

Lemma k_mul_nonzero x y : x <> 0 -> y <> 0 -> x * y <> 0.
Proof. intros Hx Hy [?|?]%k_integral; done. Qed.

Lemma k_sub_zero x y : x - y = 0 <-> x = y.
Proof.
  split; intros Hxy; [|rewrite Hxy; ring].
  transitivity (x - y + y); [ring|]. rewrite Hxy. ring.
Qed.

Lemma k_squares x y : x * x = y * y -> x = y \/ x = - y.
Proof.
  intros Hxy. destruct (k_integral (x - y) (x + y)) as [E|E].
  - transitivity (x * x - y * y); [ring|]. by apply k_sub_zero.
  - left. by apply k_sub_zero.
  - right. apply k_sub_zero. rewrite <- E. ring.
Qed.

Lemma k_one_nonzero : 1 <> 0.
Proof. apply (F_1_neq_0 (k_theory (K := K))). Qed.
End Facts.

#[export] Hint Resolve k_mul_nonzero k_one_nonzero : core.

(** ** Instance: residues *)

#[export] Instance RawFr_field {P : FieldParams} {G : Mpn} {MZ : Mpz} : FieldOps Element := {|
  f_zero := RawFr_zero; f_one := RawFr_one; f_negOne := RawFr_negOne;
  f_add := RawFr_add; f_sub := RawFr_sub; f_mul := RawFr_mul;
  f_neg := RawFr_neg; f_square := RawFr_square; f_inv := RawFr_inv; f_div := RawFr_div;
  f_isZero := RawFr_isZero; f_eq := RawFr_eq
|}.

Definition Zmod_field (m : Z) (Hm : Z.prime m) : KField (Zmod m).
Proof.
  refine {| k_theory := Zmod.field_theory m Hm |}.
  intros x y. destruct (decide (Zmod.to_Z x = Zmod.to_Z y)) as [E|E].
  - left. by apply Zmod.to_Z_inj.
  - right. by intros ->.
Defined.

(** [a] is the residue [x]. *)
Definition RawFr_rep {P : FieldParams} : FieldRep (Zmod q) Element := fun a x => elem a (Zmod.to_Z x).

Section Residues.
Context {P : FieldParams} {OK : FieldOk P} {G : Mpn} {GL : MpnLaws G} {MZ : Mpz} {ML : MpzLaws MZ}.
Context (Hq : Z.prime q).
#[local] Instance residues : KField (Zmod q) := Zmod_field q Hq.
#[local] Existing Instance RawFr_rep.

Lemma elem_cast a x y : elem a x -> x = y -> elem a y.
Proof. by intros ? <-. Qed.

Lemma residue_coprime (x : Zmod q) : x <> Zmod.zero -> Z.gcd (Zmod.to_Z x) q = 1.
Proof.
  intros Hx. apply Zmod.to_Z_nz in Hx. pose proof (Zmod.to_Z_range x). pose proof q_pos.
  rewrite Z.gcd_comm. apply Z.coprime_prime_small; [done|lia].
Qed.

Lemma RawFr_inverse a (x : Zmod q) :
  elem a (Zmod.to_Z x) -> x <> Zmod.zero -> elem (RawFr_inv a) (Zmod.to_Z (Zmod.inv x)).
Proof.
  intros Ha Hx. destruct (RawFr_inv_spec a _ Ha (residue_coprime x Hx)) as (y & Hy & Hi).
  eapply elem_cast; [exact Hi|].
  assert (E : Zmod.of_Z q y = Zmod.inv x).
  { apply (Zmod.mul_cancel_l_prime x _ _ Hq Hx). rewrite Zmod.mul_inv_same_r_prime by done.
    apply Zmod.to_Z_inj. rewrite Zmod.to_Z_mul, Zmod.to_Z_of_Z, Zmult_mod_idemp_r, Hy.
    by rewrite Zmod.to_Z_1, mod_1. }
  rewrite <- E, Zmod.to_Z_of_Z, Z.mod_small; [done|]. apply Hi.
Qed.

(** The Montgomery class implements the field of residues. *)
Lemma RawFr_field_laws : FieldLaws (Zmod q) Element.
Proof.
  split; unfold f_rep, RawFr_rep, residues, Zmod_field;
    cbn [k0 k1 kadd kmul ksub kopp kdiv kinv f_zero f_one f_negOne f_add f_sub f_mul f_neg f_square
      f_inv f_div f_isZero f_eq RawFr_field].
  - eapply elem_cast; [by apply RawFr_set_spec|]. by rewrite Zmod.to_Z_0, Z.mod_0_l by apply q_nonzero.
  - eapply elem_cast; [apply RawFr_one_spec|]. by rewrite Zmod.to_Z_1, mod_1.
  - eapply elem_cast; [apply RawFr_neg_spec, RawFr_one_spec|].
    by rewrite Zmod.to_Z_opp, Zmod.to_Z_1, mod_1.
  - intros a b x y Ha Hb. eapply elem_cast; [by apply RawFr_add_spec|]. by rewrite Zmod.to_Z_add.
  - intros a b x y Ha Hb. eapply elem_cast; [by apply RawFr_sub_spec|]. by rewrite Zmod.to_Z_sub.
  - intros a b x y Ha Hb. eapply elem_cast; [by apply RawFr_mul_spec|]. by rewrite Zmod.to_Z_mul.
  - intros a x Ha. eapply elem_cast; [by apply RawFr_neg_spec|]. by rewrite Zmod.to_Z_opp.
  - intros a x Ha. eapply elem_cast; [by apply RawFr_square_spec|]. by rewrite Zmod.to_Z_mul.
  - apply RawFr_inverse.
  - intros a b x y Ha Hb Hy. eapply elem_cast; [apply RawFr_mul_spec; [exact Ha|by apply RawFr_inverse]|].
    by rewrite <- Zmod.to_Z_mul, Zmod.mul_inv_r.
  - intros a x Ha. rewrite <- (bool_decide_ext _ _ (Zmod.to_Z_inj_iff x Zmod.zero)), Zmod.to_Z_0.
    destruct Ha as [Hx Ha]. unfold RawFr_isZero. rewrite (Fr_rawIsZero_spec _ _ Ha).
    destruct (bool_decide_reflect (Zmod.to_Z x = 0)) as [E|E].
    + by rewrite E.
    + apply Z.eqb_neq. intros E0. apply E. apply mont_inj; [done|pose proof q_bounds; lia|].
      by rewrite E0.
  - intros a b x y Ha Hb. rewrite (RawFr_eq_spec _ _ _ _ Ha Hb).
    rewrite <- (bool_decide_ext _ _ (Zmod.to_Z_inj_iff x y)).
    destruct (Z.eqb_spec (Zmod.to_Z x) (Zmod.to_Z y)) as [E|E];
      [by rewrite bool_decide_eq_true_2|by rewrite bool_decide_eq_false_2].
Qed.
End Residues.

(** ** Instance: a field is a field class for itself *)

Definition field_class {K} (F : KField K) : FieldOps K := {|
  f_zero := k0; f_one := k1; f_negOne := kopp k1;
  f_add := kadd; f_sub := ksub; f_mul := kmul;
  f_neg := kopp; f_square x := kmul x x; f_inv := kinv; f_div := kdiv;
  f_isZero x := bool_decide (x = k0); f_eq x y := bool_decide (x = y)
|}.

Definition field_class_rep {K} : FieldRep K K := fun a x => a = x.

Lemma field_class_laws {K} (F : KField K) : @FieldLaws K K F (field_class F) field_class_rep.
Proof. split; unfold f_rep, field_class_rep; cbn; by intros; subst. Qed.

Lemma prime_7 : Z.prime 7.
Proof.
  split; [lia|]. intros n Hn [k Hk].
  assert (n = 2 \/ n = 3 \/ n = 4 \/ n = 5 \/ n = 6) as [-> | [-> | [-> | [-> | ->]]]] by lia; lia.
Qed.

Definition F7 : KField (Zmod 7) := Zmod_field 7 prime_7.

Lemma F7_cases (P : Zmod 7 -> Prop) :
  Forall (fun i => P (Zmod.of_Z 7 i)) [0; 1; 2; 3; 4; 5; 6] -> forall x, P x.
Proof.
  intros H x. pose proof (Zmod.unsigned_pos_bound x ltac:(lia)).
  rewrite <- (Zmod.of_Z_to_Z x). apply (proj1 (list.Forall_forall _ _) H).
  assert (Zmod.to_Z x ∈ seqZ 0 7) by (apply elem_of_seqZ; lia). done.
Qed.
