(* ===== verification/Dft.v ===== *)
(** Powers and sums in a field, roots of unity of order a power of two, the discrete
    Fourier transform and bit reversal: the mathematics the transform of [fft.cpp]
    computes. *)

From Stdlib Require Import Field ArithRing.
From S2P Require Import Prelude Field.

(** [x ^ n] *)
Fixpoint kpow {K} `{KField K} (x : K) (n : nat) : K :=
  match n with O => 1%K | S n => (x * kpow x n)%K end.

(** [f 0 + ... + f (n - 1)] *)
Fixpoint ksum {K} `{KField K} (f : nat -> K) (n : nat) : K :=
  match n with O => 0%K | S n => (ksum f n + f n)%K end.

(** The transform of [x] of length [n] with the root [w]. *)
Definition dft {K} `{KField K} (w : K) (n : nat) (x : nat -> K) (i : nat) : K :=
  ksum (fun t => (kpow w (i * t) * x t)%K) n.

(** The [d] low bits of [x] in reversed order. *)
Fixpoint bitrev (d x : nat) : nat :=
  match d with O => O | S d => (bitrev d (x / 2) + (x mod 2) * 2 ^ d)%nat end.

Section Facts.
Context {K : Type} {F : KField K}.
Add Field K_field_dft : (k_theory (K := K)).
#[local] Open Scope field_scope.
Implicit Types (x y w : K) (f g : nat -> K) (n m k : nat).

(** ** Powers *)

Lemma kpow_add x n m : kpow x (n + m) = kpow x n * kpow x m.
Proof. induction n as [|n IH]; cbn [kpow Nat.add]; [ring|]. rewrite IH. ring. Qed.

Lemma kpow_one n : kpow 1 n = 1.
Proof. induction n as [|n IH]; cbn [kpow]; [done|]. rewrite IH. ring. Qed.

Lemma kpow_mul x n m : kpow x (n * m) = kpow (kpow x n) m.
Proof.
  induction m as [|m IH]; cbn [kpow]; [by rewrite Nat.mul_0_r|].
  by rewrite Nat.mul_succ_r, kpow_add, IH, (F_R (k_theory (K := K))).(Rmul_comm).
Qed.

Lemma kpow_mul_l x y n : kpow (x * y) n = kpow x n * kpow y n.
Proof. induction n as [|n IH]; cbn [kpow]; [ring|]. rewrite IH. ring. Qed.

Lemma kpow_nonzero x n : x <> 0 -> kpow x n <> 0.
Proof. intros Hx. induction n as [|n IH]; cbn [kpow]; auto. Qed.

Lemma kpow_inv x y n : x * y = 1 -> kpow x n * kpow y n = 1.
Proof. intros Hxy. by rewrite <- kpow_mul_l, Hxy, kpow_one. Qed.

(** ** Sums *)

Lemma ksum_ext f g n : (forall i, (i < n)%nat -> f i = g i) -> ksum f n = ksum g n.
Proof.
  intros H. induction n as [|n IH]; cbn [ksum]; [done|].
  rewrite IH by (intros; apply H; lia). by rewrite H by lia.
Qed.

Lemma ksum_plus f g n : ksum (fun i => f i + g i) n = ksum f n + ksum g n.
Proof. induction n as [|n IH]; cbn [ksum]; [ring|]. rewrite IH. ring. Qed.

Lemma ksum_scale c f n : ksum (fun i => c * f i) n = c * ksum f n.
Proof. induction n as [|n IH]; cbn [ksum]; [ring|]. rewrite IH. ring. Qed.

Lemma ksum_zero n : ksum (fun _ => 0) n = 0.
Proof. induction n as [|n IH]; cbn [ksum]; [done|]. rewrite IH. ring. Qed.

(** Even and odd terms. *)
Lemma ksum_halves f n :
  ksum f (2 * n) = ksum (fun i => f (2 * i)%nat) n + ksum (fun i => f (2 * i + 1)%nat) n.
Proof.
  induction n as [|n IH]; [cbn; ring|].
  replace (2 * S n)%nat with (S (S (2 * n))) by lia. cbn [ksum]. rewrite IH.
  rewrite (Nat.add_1_r (2 * n)). ring.
Qed.

Lemma ksum_swap (f : nat -> nat -> K) n m :
  ksum (fun i => ksum (f i) m) n = ksum (fun j => ksum (fun i => f i j) n) m.
Proof.
  induction n as [|n IH]; cbn [ksum].
  - induction m as [|m IHm]; cbn [ksum]; [done|]. rewrite <- IHm. ring.
  - rewrite IH, <- ksum_plus. done.
Qed.

(** A sum with a single term that is not zero. *)
Lemma ksum_single f n k :
  (k < n)%nat -> (forall i, (i < n)%nat -> i <> k -> f i = 0) -> ksum f n = f k.
Proof.
  induction n as [|n IH]; intros Hk Hz; [lia|]. cbn [ksum].
  destruct (decide (k = n)) as [->|Hne].
  - rewrite (ksum_ext f (fun _ => 0)) by (intros; apply Hz; lia). rewrite ksum_zero. ring.
  - rewrite IH by (first [lia | intros; apply Hz; lia]). rewrite (Hz n) by lia. ring.
Qed.

Lemma ksum_geometric x n : (x - 1) * ksum (kpow x) n = kpow x n - 1.
Proof.
  induction n as [|n IH]; cbn [ksum kpow]; [ring|].
  transitivity ((x - 1) * ksum (kpow x) n + (x - 1) * kpow x n); [ring|]. rewrite IH. ring.
Qed.

(** The integer [n] in the field. *)
Definition knat n : K := ksum (fun _ => 1) n.

Lemma knat_double n : knat (2 * n) = (1 + 1) * knat n.
Proof. unfold knat. rewrite ksum_halves. ring. Qed.

Lemma knat_pow2 d : knat (2 ^ d) = kpow (1 + 1) d.
Proof.
  induction d as [|d IH]; [cbn; ring|].
  rewrite Nat.pow_succ_r', knat_double, IH. done.
Qed.

Lemma knat_S n : knat (S n) = knat n + 1.
Proof. done. Qed.

Lemma knat_add n m : knat (n + m) = knat n + knat m.
Proof.
  induction m as [|m IH]; [rewrite Nat.add_0_r; cbn; ring|].
  rewrite Nat.add_succ_r, !knat_S, IH. ring.
Qed.

Lemma knat_mul n m : knat (n * m) = knat n * knat m.
Proof.
  induction m as [|m IH]; [rewrite Nat.mul_0_r; cbn; ring|].
  rewrite Nat.mul_succ_r, knat_S, knat_add, IH. ring.
Qed.

Lemma knat_pow n m : knat (n ^ m) = kpow (knat n) m.
Proof.
  induction m as [|m IH]; [cbn; ring|]. by rewrite Nat.pow_succ_r', knat_mul, IH.
Qed.

(** ** Roots of unity *)

(** [w] is a primitive [2 ^ d]-th root of unity. *)
Definition root2 (d : nat) (w : K) : Prop :=
  match d with O => w = 1 | S d => kpow w (2 ^ d) = - (1) end.

Lemma root2_one d w : root2 d w -> kpow w (2 ^ d) = 1.
Proof.
  destruct d as [|d]; cbn [root2]; intros H; [rewrite H; cbn; ring|].
  rewrite Nat.pow_succ_r', Nat.mul_comm, kpow_mul, H. cbn. ring.
Qed.

Lemma root2_square d w : root2 (S d) w -> root2 d (kpow w 2).
Proof.
  cbn [root2]. intros H. destruct d as [|d]; cbn [root2].
  - cbn [Nat.pow kpow] in *. transitivity ((w * 1) * (w * 1)); [ring|]. rewrite H. ring.
  - by rewrite <- kpow_mul, <- Nat.pow_succ_r'.
Qed.

Lemma root2_pow d e w : root2 (d + e) w -> root2 d (kpow w (2 ^ e)).
Proof.
  revert w. induction e as [|e IH]; intros w.
  - rewrite Nat.add_0_r. cbn. intros H. by replace (w * 1) with w by ring.
  - intros H. rewrite Nat.pow_succ_r', kpow_mul. apply IH, root2_square.
    by rewrite Nat.add_succ_r in H.
Qed.

Lemma root2_nonzero d w : root2 d w -> w <> 0.
Proof.
  intros H E. apply root2_one in H. rewrite E in H.
  assert (0 < 2 ^ d)%nat by (apply Nat.neq_0_lt_0, Nat.pow_nonzero; lia).
  destruct (2 ^ d)%nat as [|n]; [lia|]. cbn [kpow] in H.
  apply (k_one_nonzero (K := K)). rewrite <- H. ring.
Qed.

Lemma odd_part k : (0 < k)%nat -> exists a u, k = (2 ^ a * (2 * u + 1))%nat.
Proof.
  induction k as [k IH] using lt_wf_ind. intros Hk.
  destruct (Nat.Even_or_Odd k) as [[h Hh]|[h Hh]].
  - destruct (IH h) as (a & u & E); [lia..|]. exists (S a), u. rewrite Nat.pow_succ_r'. lia.
  - exists O, h. cbn. lia.
Qed.

Lemma kpow_minus_one_odd u : kpow (- (1)) (2 * u + 1) = - (1).
Proof.
  rewrite kpow_add, kpow_mul. replace (kpow (- (1)) 2) with 1 by (cbn; ring).
  rewrite kpow_one. cbn. ring.
Qed.

(** The order of a primitive root is no smaller than it should be. *)
Lemma root2_primitive d w k :
  1 + 1 <> 0 -> root2 d w -> (0 < k < 2 ^ d)%nat -> kpow w k <> 1.
Proof.
  intros H2 Hw Hk E. destruct (odd_part k) as (a & u & Ek); [lia|].
  assert (Ha : (a < d)%nat).
  { apply (Nat.pow_lt_mono_r_iff 2); [lia|]. nia. }
  destruct d as [|d]; [lia|]. cbn [root2] in Hw.
  assert (H1 : kpow w (k * 2 ^ (d - a)) = 1) by (by rewrite kpow_mul, E, kpow_one).
  replace (k * 2 ^ (d - a))%nat with (2 ^ d * (2 * u + 1))%nat in H1.
  2:{ rewrite Ek. replace d with (a + (d - a))%nat at 1 by lia. rewrite Nat.pow_add_r. ring. }
  rewrite kpow_mul, Hw, kpow_minus_one_odd in H1. apply H2.
  transitivity (1 - - (1)); [ring|]. rewrite H1. ring.
Qed.

(** The sum over the powers of a root that is not one. *)
Lemma root2_sum d w k :
  1 + 1 <> 0 -> root2 d w -> (k < 2 ^ d)%nat -> k <> O -> ksum (kpow (kpow w k)) (2 ^ d) = 0.
Proof.
  intros H2 Hw Hk Hk0.
  destruct (k_integral (kpow w k - 1) (ksum (kpow (kpow w k)) (2 ^ d))) as [E|E]; [| |done].
  - rewrite ksum_geometric, <- kpow_mul, Nat.mul_comm, kpow_mul, (root2_one d w Hw), kpow_one. ring.
  - exfalso. apply (proj1 (k_sub_zero _ _)) in E. revert E. apply (root2_primitive d); [done..|lia].
Qed.

(** ** Inversion *)

(** The transform with the inverse root undoes the transform, up to the length. *)
Lemma dft_inverse d w w' (x : nat -> K) i :
  1 + 1 <> 0 -> root2 d w -> root2 d w' -> w * w' = 1 -> (i < 2 ^ d)%nat ->
  dft w' (2 ^ d) (dft w (2 ^ d) x) i = kpow (1 + 1) d * x i.
Proof.
  intros H2 Hw Hw' Hinv Hi. unfold dft.
  transitivity (ksum (fun k => ksum (fun t => kpow w' (i * t) * kpow w (t * k)) (2 ^ d) * x k) (2 ^ d)).
  { rewrite (ksum_ext _ (fun t => ksum (fun k => kpow w' (i * t) * (kpow w (t * k) * x k)) (2 ^ d)))
      by (intros; by rewrite ksum_scale).
    rewrite ksum_swap. apply ksum_ext. intros k _.
    transitivity (x k * ksum (fun t => kpow w' (i * t) * kpow w (t * k)) (2 ^ d)); [|ring].
    rewrite <- ksum_scale. apply ksum_ext. intros t _. ring. }
  rewrite (ksum_single _ _ i Hi).
  - rewrite <- knat_pow2. unfold knat. f_equal. apply ksum_ext. intros t _.
    rewrite (Nat.mul_comm t i). rewrite <- kpow_mul_l. transitivity (kpow 1 (i * t)); [|apply kpow_one].
    f_equal. rewrite <- Hinv. ring.
  - intros k Hk Hne.
    assert (Z : ksum (fun t => kpow w' (i * t) * kpow w (t * k)) (2 ^ d) = 0); [|rewrite Z; ring].
    destruct (Nat.lt_ge_cases i k) as [Hlt|Hge].
    + rewrite <- (root2_sum d w (k - i)) by (done || lia). apply ksum_ext. intros t _.
      replace (t * k)%nat with (t * i + (k - i) * t)%nat by nia.
      rewrite kpow_add, (Nat.mul_comm t i), (kpow_mul w (k - i)).
      transitivity (kpow w (i * t) * kpow w' (i * t) * kpow (kpow w (k - i)) t); [ring|].
      rewrite kpow_inv by done. ring.
    + rewrite <- (root2_sum d w' (i - k)) by (done || lia). apply ksum_ext. intros t _.
      replace (i * t)%nat with ((i - k) * t + t * k)%nat by nia.
      rewrite kpow_add, (kpow_mul w' (i - k)).
      transitivity (kpow (kpow w' (i - k)) t * (kpow w (t * k) * kpow w' (t * k))); [ring|].
      rewrite kpow_inv by done. ring.
Qed.

(** The powers of the inverse root are those of the root, backwards. *)
Lemma dft_backwards d w w' (x : nat -> K) i :
  root2 d w -> w * w' = 1 -> (i <= 2 ^ d)%nat -> dft w (2 ^ d) x (2 ^ d - i) = dft w' (2 ^ d) x i.
Proof.
  intros Hw Hinv Hi. unfold dft. apply ksum_ext. intros t _. f_equal.
  transitivity (kpow w ((2 ^ d - i) * t) * (kpow w (i * t) * kpow w' (i * t))).
  { rewrite kpow_inv by done. ring. }
  transitivity (kpow w ((2 ^ d - i) * t + i * t) * kpow w' (i * t)); [rewrite kpow_add; ring|].
  replace ((2 ^ d - i) * t + i * t)%nat with (2 ^ d * t)%nat by nia.
  rewrite kpow_mul, (root2_one d w Hw), kpow_one. ring.
Qed.

Lemma root2_inverse d w w' : root2 d w -> w * w' = 1 -> root2 d w'.
Proof.
  intros Hw Hinv. destruct d as [|d]; cbn [root2] in *.
  - rewrite Hw in Hinv. rewrite <- Hinv. ring.
  - pose proof (kpow_inv w w' (2 ^ d) Hinv) as H. rewrite Hw in H.
    transitivity (- (- (1) * kpow w' (2 ^ d))); [ring|]. by rewrite H.
Qed.

(** ** The stages of the transform

    After [s] stages a block of [2 ^ s] cells holds the transform of the terms of one
    residue class modulo [2 ^ (d - s)]. *)
Definition stage (d s : nat) w (x y : nat -> K) : Prop :=
  forall b j, (b < 2 ^ (d - s))%nat -> (j < 2 ^ s)%nat ->
    y (b * 2 ^ s + j)%nat =
      dft (kpow w (2 ^ (d - s))) (2 ^ s) (fun t => x (bitrev (d - s) b + t * 2 ^ (d - s))%nat) j.

Lemma stage_first d w (x y : nat -> K) :
  (forall i, (i < 2 ^ d)%nat -> y i = x (bitrev d i)) -> stage d 0 w x y.
Proof.
  intros H b j Hb Hj. rewrite Nat.sub_0_r in *. assert (j = O) as -> by (cbn in Hj; lia).
  cbn [Nat.pow]. rewrite Nat.mul_1_r, Nat.add_0_r, H by done. unfold dft. cbn.
  rewrite Nat.add_0_r. ring.
Qed.

Lemma stage_last d w (x y : nat -> K) i :
  stage d d w x y -> (i < 2 ^ d)%nat -> y i = dft w (2 ^ d) x i.
Proof.
  intros H Hi. specialize (H O i). rewrite Nat.sub_diag in H. cbn [Nat.pow] in H.
  rewrite Nat.mul_0_l, Nat.add_0_l in H. rewrite H by (done || lia). unfold dft.
  apply ksum_ext. intros t _. cbn [kpow bitrev]. rewrite Nat.mul_1_r, Nat.add_0_l.
  by replace (w * 1) with w by ring.
Qed.

Lemma bitrev_even d b : bitrev (S d) (2 * b) = bitrev d b.
Proof.
  cbn [bitrev]. rewrite Nat.mul_comm, Nat.div_mul, Nat.Div0.mod_mul by lia. lia.
Qed.

Lemma bitrev_odd d b : bitrev (S d) (2 * b + 1) = (bitrev d b + 2 ^ d)%nat.
Proof.
  cbn [bitrev]. rewrite (Nat.mul_comm 2 b), Nat.div_add_l by lia.
  rewrite (Nat.add_comm (b * 2)), Nat.Div0.mod_add. cbn [Nat.div Nat.divmod Nat.modulo fst snd].
  change (1 / 2)%nat with O. change (1 mod 2)%nat with 1%nat. by rewrite Nat.add_0_r, Nat.mul_1_l.
Qed.

(** The butterflies make the next stage. *)
Lemma stage_step d s w (x y y' : nat -> K) :
  (s < d)%nat -> root2 d w -> stage d s w x y ->
  (forall b j, (b < 2 ^ (d - S s))%nat -> (j < 2 ^ s)%nat ->
    let t := kpow (kpow w (2 ^ (d - S s))) j * y (b * 2 ^ S s + j + 2 ^ s)%nat in
    let u := y (b * 2 ^ S s + j)%nat in
    y' (b * 2 ^ S s + j)%nat = t + u /\ y' (b * 2 ^ S s + j + 2 ^ s)%nat = u - t) ->
  stage d (S s) w x y'.
Proof.
  intros Hs Hw Hst Hy'. set (e := (d - S s)%nat) in *. set (v := kpow w (2 ^ e)) in *.
  assert (He : (d - s)%nat = S e) by (unfold e; lia).
  assert (Hv : root2 (S s) v) by (apply root2_pow; by replace (S s + e)%nat with d by (unfold e; lia)).
  assert (Hvs : kpow w (2 ^ (d - s)) = kpow v 2).
  { unfold v. rewrite He, Nat.pow_succ_r', Nat.mul_comm, kpow_mul. done. }
  assert (Hv2 : root2 s (kpow v 2)) by (by apply root2_square).
  assert (Hb2 : forall b, (b < 2 ^ e)%nat -> (2 * b + 1 < 2 ^ (d - s))%nat)
    by (intros b Hb; rewrite He, Nat.pow_succ_r'; lia).
  (* the transforms of the even and the odd terms *)
  set (E b j := dft (kpow v 2) (2 ^ s) (fun t => x (bitrev e b + 2 * t * 2 ^ e)%nat) j).
  set (O b j := dft (kpow v 2) (2 ^ s) (fun t => x (bitrev e b + (2 * t + 1) * 2 ^ e)%nat) j).
  assert (HE : forall b j, (b < 2 ^ e)%nat -> (j < 2 ^ s)%nat -> y (b * 2 ^ S s + j)%nat = E b j).
  { intros b j Hb Hj. rewrite Nat.pow_succ_r'. replace (b * (2 * 2 ^ s) + j)%nat with (2 * b * 2 ^ s + j)%nat by ring.
    rewrite (Hst (2 * b)%nat j) by (done || specialize (Hb2 b Hb); lia). rewrite Hvs, He, bitrev_even.
    apply ksum_ext. intros t _. rewrite Nat.pow_succ_r'. do 2 f_equal. ring. }
  assert (HO : forall b j, (b < 2 ^ e)%nat -> (j < 2 ^ s)%nat -> y (b * 2 ^ S s + j + 2 ^ s)%nat = O b j).
  { intros b j Hb Hj. rewrite Nat.pow_succ_r'.
    replace (b * (2 * 2 ^ s) + j + 2 ^ s)%nat with ((2 * b + 1) * 2 ^ s + j)%nat by ring.
    rewrite (Hst (2 * b + 1)%nat j) by (done || by apply Hb2). rewrite Hvs, He, bitrev_odd.
    apply ksum_ext. intros t _. rewrite Nat.pow_succ_r'. do 2 f_equal. ring. }
  assert (Hsplit : forall b j, dft v (2 ^ S s) (fun t => x (bitrev e b + t * 2 ^ e)%nat) j =
    dft (kpow v 2) (2 ^ s) (fun t => x (bitrev e b + 2 * t * 2 ^ e)%nat) j +
    kpow v j * dft (kpow v 2) (2 ^ s) (fun t => x (bitrev e b + (2 * t + 1) * 2 ^ e)%nat) j).
  { intros b j. unfold dft. rewrite Nat.pow_succ_r', ksum_halves, <- ksum_scale. f_equal; apply ksum_ext; intros t _.
    - rewrite <- kpow_mul. do 2 f_equal. ring.
    - replace (j * (2 * t + 1))%nat with (j + 2 * (j * t))%nat by ring. rewrite kpow_add, kpow_mul. ring. }
  intros b j Hb Hj. fold e in Hb |- *. fold v. rewrite Hsplit. fold (E b j). fold (O b j).
  rewrite Nat.pow_succ_r' in Hj. destruct (Nat.lt_ge_cases j (2 ^ s)) as [Hlt|Hge].
  - destruct (Hy' b j Hb Hlt) as [-> _]. rewrite HE, HO by done. ring.
  - set (i := (j - 2 ^ s)%nat). replace j with (i + 2 ^ s)%nat by (unfold i; lia).
    rewrite Nat.add_assoc. destruct (Hy' b i Hb) as [_ ->]; [unfold i; lia|].
    rewrite HE, HO by (done || unfold i; lia).
    assert (Hper : forall f, dft (kpow v 2) (2 ^ s) f (i + 2 ^ s) = dft (kpow v 2) (2 ^ s) f i).
    { intros f. unfold dft. apply ksum_ext. intros t _. f_equal.
      rewrite Nat.mul_add_distr_r, kpow_add, (kpow_mul _ (2 ^ s)), (root2_one s _ Hv2), kpow_one. ring. }
    unfold E, O. rewrite !Hper. rewrite kpow_add. cbn [root2] in Hv. rewrite Hv. ring.
Qed.
End Facts.
