(* ===== verification/Powers.v ===== *)
(** Powers with integer exponents in a field, and the Frobenius map of a field of prime
    characteristic: [x ^ p] is additive. *)

From Stdlib Require Import Field ArithRing.
From S2P Require Import Prelude Field Dft.

(** [x ^ e], for [e] of either sign *)
Definition zpow {K} `{KField K} (x : K) (e : Z) : K :=
  (kpow x (Z.to_nat e) / kpow x (Z.to_nat (- e)))%K.

(** The binomial coefficients. *)
Fixpoint binom (n k : nat) : nat :=
  match n, k with
  | _, O => 1
  | O, S _ => 0
  | S n, S k => binom n k + binom n (S k)
  end%nat.

(** ** Binomial coefficients *)

Lemma binom_big n k : (n < k)%nat -> binom n k = 0%nat.
Proof.
  revert k. induction n as [|n IH]; intros [|k] Hk; [lia|done|lia|]. cbn [binom].
  by rewrite !IH by lia.
Qed.

Lemma binom_diag n : binom n n = 1%nat.
Proof. induction n as [|n IH]; [done|]. cbn [binom]. rewrite IH, binom_big by lia. lia. Qed.

Lemma binom_0 n : binom n 0 = 1%nat.
Proof. by destruct n. Qed.

Lemma binom_absorb n k : (S k * binom (S n) (S k) = S n * binom n k)%nat.
Proof.
  revert k. induction n as [|n IH]; intros k.
  - destruct k as [|k]; [done|]. cbn [binom]. destruct k; cbn; lia.
  - destruct k as [|k].
    + specialize (IH 0%nat). change (binom (S (S n)) 1) with (binom (S n) 0 + binom (S n) 1)%nat.
      rewrite !binom_0 in *. lia.
    + change (binom (S (S n)) (S (S k))) with (binom (S n) (S k) + binom (S n) (S (S k)))%nat.
      pose proof (IH k). pose proof (IH (S k)). 
      change (binom (S n) (S k)) with (binom n k + binom n (S k))%nat in *. nia.
Qed.

(** A prime divides the coefficients of its row, the ends apart. *)
Lemma binom_prime p k :
  Z.prime (Z.of_nat p) -> (0 < k < p)%nat -> exists c, binom p k = (p * c)%nat.
Proof.
  intros Hp Hk. destruct p as [|n], k as [|k]; [lia..|]. pose proof (binom_absorb n k) as Ha.
  assert (Hd : (Z.of_nat (S n) | Z.of_nat (S k) * Z.of_nat (binom (S n) (S k)))).
  { exists (Z.of_nat (binom n k)). lia. }
  apply Z.divide_prime_mul in Hd; [|done]. destruct Hd as [Hd|[c Hc]].
  - apply Z.divide_pos_le in Hd; lia.
  - exists (Z.to_nat c). nia.
Qed.

(** [field], with the denominators found not to be zero. *)
Ltac kfield := field; repeat split; first [assumption | exact k_one_nonzero | auto].

Section Powers.
Context {K : Type} {F : KField K}.
Add Field K_field_pow : (k_theory (K := K)).
#[local] Open Scope field_scope.
Implicit Types (x y : K) (e f : Z) (n m : nat).

Lemma kpow_minus_one n : kpow (- (1) : K) (2 * n + 1) = - (1).
Proof.
  rewrite kpow_add, kpow_mul. replace (kpow (- (1)) 2) with (1 : K) by (cbn [kpow]; ring).
  rewrite kpow_one. cbn [kpow]. ring.
Qed.

Lemma kpow_positive x (e : positive) :
  kpow x (Pos.to_nat (xO e)) = kpow x (Pos.to_nat e) * kpow x (Pos.to_nat e) /\
  kpow x (Pos.to_nat (xI e)) = x * (kpow x (Pos.to_nat e) * kpow x (Pos.to_nat e)).
Proof.
  rewrite Pos2Nat.inj_xO, Pos2Nat.inj_xI. cbn [kpow]. rewrite <- kpow_add.
  replace (Pos.to_nat e + Pos.to_nat e)%nat with (2 * Pos.to_nat e)%nat by lia. done.
Qed.

(** ** Integer exponents *)

Lemma zpow_sub x n m : x <> 0 -> zpow x (Z.of_nat n - Z.of_nat m)%Z = kpow x n / kpow x m.
Proof.
  intros Hx. unfold zpow. pose proof (kpow_nonzero x m Hx). destruct (Nat.le_ge_cases m n) as [Hle|Hle].
  - replace (Z.to_nat (Z.of_nat n - Z.of_nat m)) with (n - m)%nat by lia.
    replace (Z.to_nat (- (Z.of_nat n - Z.of_nat m))) with 0%nat by lia.
    replace n with (n - m + m)%nat at 2 by lia. rewrite kpow_add. cbn [kpow]. kfield.
  - replace (Z.to_nat (Z.of_nat n - Z.of_nat m)) with 0%nat by lia.
    replace (Z.to_nat (- (Z.of_nat n - Z.of_nat m))) with (m - n)%nat by lia.
    replace m with (m - n + n)%nat at 2 by lia. rewrite kpow_add. cbn [kpow].
    pose proof (kpow_nonzero x n Hx). pose proof (kpow_nonzero x (m - n) Hx). kfield.
Qed.

(** Every exponent is a difference of naturals. *)
Lemma exponent_split e : exists n m, e = (Z.of_nat n - Z.of_nat m)%Z.
Proof. exists (Z.to_nat e), (Z.to_nat (- e)). lia. Qed.

Lemma zpow_nat x n : zpow x (Z.of_nat n) = kpow x n.
Proof.
  unfold zpow. rewrite Nat2Z.id. replace (Z.to_nat (- Z.of_nat n)) with 0%nat by lia. cbn [kpow]. kfield.
Qed.

Lemma zpow_nonneg x e : 0 <= e -> zpow x e = kpow x (Z.to_nat e).
Proof. intros He. rewrite <- (Z2Nat.id e He) at 1. apply zpow_nat. Qed.

Lemma zpow_0 x : zpow x 0 = 1.
Proof. apply (zpow_nat x 0). Qed.
Lemma zpow_1 x : zpow x 1 = x.
Proof. change (zpow x (Z.of_nat 1) = x). rewrite zpow_nat. cbn [kpow]. ring. Qed.

Lemma zpow_nonzero x e : x <> 0 -> zpow x e <> 0.
Proof.
  intros Hx H. unfold zpow in H. pose proof (kpow_nonzero x (Z.to_nat e) Hx) as Hn. apply Hn.
  pose proof (kpow_nonzero x (Z.to_nat (- e)) Hx) as Hd.
  transitivity (kpow x (Z.to_nat e) / kpow x (Z.to_nat (- e)) * kpow x (Z.to_nat (- e))); [kfield|].
  rewrite H. ring.
Qed.

Lemma zpow_add x e f : x <> 0 -> zpow x (e + f)%Z = zpow x e * zpow x f.
Proof.
  intros Hx. destruct (exponent_split e) as (n & m & ->), (exponent_split f) as (n' & m' & ->).
  replace (Z.of_nat n - Z.of_nat m + (Z.of_nat n' - Z.of_nat m'))%Z
    with (Z.of_nat (n + n') - Z.of_nat (m + m'))%Z by lia.
  rewrite !zpow_sub, !kpow_add by done.
  pose proof (kpow_nonzero x m Hx). pose proof (kpow_nonzero x m' Hx). kfield.
Qed.

Lemma zpow_opp x e : x <> 0 -> zpow x (- e)%Z = kinv (zpow x e).
Proof.
  intros Hx. pose proof (zpow_nonzero x e Hx). pose proof (zpow_add x (- e)%Z e Hx) as E.
  rewrite Z.add_opp_diag_l, zpow_0 in E. transitivity (zpow x (- e)%Z * zpow x e / zpow x e); [kfield|].
  rewrite <- E. kfield.
Qed.

Lemma kpow_div x y n : y <> 0 -> kpow (x / y) n = kpow x n / kpow y n.
Proof.
  intros Hy. pose proof (kpow_nonzero y n Hy). transitivity (kpow (x / y * y) n / kpow y n).
  - rewrite kpow_mul_l. kfield.
  - f_equal. f_equal. kfield.
Qed.

Lemma zpow_mul x e f : x <> 0 -> zpow x (e * f)%Z = zpow (zpow x e) f.
Proof.
  intros Hx. pose proof (zpow_nonzero x e Hx) as He.
  destruct (exponent_split f) as (n & m & ->). rewrite (zpow_sub (zpow x e)) by done.
  destruct (exponent_split e) as (n' & m' & ->).
  rewrite (zpow_sub x n' m'), !kpow_div, <- !kpow_mul by (done || by apply kpow_nonzero).
  replace ((Z.of_nat n' - Z.of_nat m') * (Z.of_nat n - Z.of_nat m))%Z
    with (Z.of_nat (n' * n + m' * m) - Z.of_nat (n' * m + m' * n))%Z by lia.
  rewrite zpow_sub, !kpow_add by done.
  pose proof (kpow_nonzero x (n' * m) Hx). pose proof (kpow_nonzero x (m' * n) Hx).
  pose proof (kpow_nonzero x (m' * m) Hx). kfield.
Qed.

Lemma zpow_mul_l x y e : x <> 0 -> y <> 0 -> zpow (x * y) e = zpow x e * zpow y e.
Proof.
  intros Hx Hy. unfold zpow. rewrite !kpow_mul_l.
  pose proof (kpow_nonzero x (Z.to_nat (- e)) Hx). pose proof (kpow_nonzero y (Z.to_nat (- e)) Hy). kfield.
Qed.

Lemma zpow_one e : zpow 1 e = 1.
Proof. unfold zpow. rewrite !kpow_one. kfield. Qed.

(** Exponents count modulo the order. *)
Lemma zpow_order x e f : x <> 0 -> zpow x e = 1 -> zpow x (e * f)%Z = 1.
Proof. intros Hx Hn. rewrite zpow_mul, Hn by done. apply zpow_one. Qed.

(** ** The binomial theorem *)

Lemma ksum_S (h : nat -> K) n : ksum h (S n) = ksum h n + h n.
Proof. done. Qed.

Lemma ksum_shift (h : nat -> K) n : ksum h (S n) = h 0%nat + ksum (fun k => h (S k)) n.
Proof.
  induction n as [|n IH]; [cbn; ring|]. rewrite ksum_S, IH.
  cbn [ksum]. ring.
Qed.

Lemma binomial x y n :
  kpow (x + y) n = ksum (fun k => knat (binom n k) * (kpow x k * kpow y (n - k))) (S n).
Proof.
  induction n as [|n IH]; [cbn; ring|].
  change (kpow (x + y) (S n)) with ((x + y) * kpow (x + y) n). rewrite IH.
  transitivity (ksum (fun k => x * (knat (binom n k) * (kpow x k * kpow y (n - k)))) (S n) +
                ksum (fun k => y * (knat (binom n k) * (kpow x k * kpow y (n - k)))) (S n)).
  { rewrite !ksum_scale. ring. }
  set (f := fun k => knat (binom n k) * (kpow x (S k) * kpow y (n - k))).
  set (g := fun k => knat (binom n k) * (kpow x k * kpow y (S n - k))).
  transitivity (ksum f (S n) + ksum g (S n)).
  { f_equal; apply ksum_ext; intros k Hk; unfold f, g; cbn [kpow]; [ring|].
    replace (S n - k)%nat with (S (n - k)) by lia. cbn [kpow]. ring. }
  rewrite (ksum_shift g n), (ksum_shift _ (S n)).
  set (s := fun k => knat (binom n (S k)) * (kpow x (S k) * kpow y (n - k))).
  assert (Eg : ksum (fun k => g (S k)) n = ksum s (S n)).
  { cbn [ksum]. unfold s at 2. rewrite (binom_big n (S n)) by lia. unfold g, s. cbn [Nat.sub].
    change (knat 0) with (0 : K). ring. }
  rewrite Eg. transitivity (g 0%nat + ksum (fun k => f k + s k) (S n)).
  { rewrite ksum_plus. ring. }
  f_equal.
  - unfold g. rewrite !binom_0. done.
  - apply ksum_ext. intros k Hk. unfold f, s. cbn [binom Nat.sub]. rewrite knat_add. ring.
Qed.

(** ** Prime characteristic *)

Context (p : nat) (Hp : Z.prime (Z.of_nat p)) (Hchar : knat p = 0).

Lemma frobenius_add x y : kpow (x + y) p = kpow x p + kpow y p.
Proof.
  rewrite binomial. pose proof (Z.prime_ge_2 _ Hp). destruct p as [|n]; [lia|].
  rewrite (ksum_S _ (S n)), ksum_shift, binom_diag, binom_0, Nat.sub_diag, Nat.sub_0_r.
  rewrite (ksum_ext _ (fun _ => 0)).
  - rewrite ksum_zero. unfold knat. cbn [kpow ksum]. ring.
  - intros k Hk. destruct (binom_prime (S n) (S k)) as [c ->]; [done|lia|].
    rewrite knat_mul, Hchar. ring.
Qed.

Lemma frobenius_zero : kpow (0 : K) p = 0.
Proof. pose proof (Z.prime_ge_2 _ Hp). destruct p; [lia|]. cbn [kpow]. ring. Qed.

Lemma frobenius_neg x : kpow (- x) p = - kpow x p.
Proof.
  pose proof (frobenius_add x (- x)) as E. replace (x + - x) with (0 : K) in E by ring.
  rewrite frobenius_zero in E. transitivity (kpow x p + kpow (- x) p - kpow x p); [ring|].
  rewrite <- E. ring.
Qed.
End Powers.
