(* ===== verification/ExtField.v ===== *)
(** Quadratic and cubic extensions of a field: the pairs and triples the tower classes
    compute with, as fields. *)

From Stdlib Require Import Field.
From S2P Require Import Prelude Field.

(** Equations of pairs and triples, component by component. *)
Ltac pair_ring := repeat apply (f_equal2 pair); ring.

(** ** Quadratic extensions

    [(a, b)] is [a + b * u] with [u * u = nr]. *)
Section Quadratic.
Context {K : Type} {F : KField K}.
Add Field K_field_quad : (k_theory (K := K)).
#[local] Open Scope field_scope.
Context (nr : K).

Definition q_zero : K * K := (0, 0).
Definition q_one : K * K := (1, 0).
Definition q_add (x y : K * K) : K * K := (fst x + fst y, snd x + snd y).
Definition q_sub (x y : K * K) : K * K := (fst x - fst y, snd x - snd y).
Definition q_neg (x : K * K) : K * K := (- fst x, - snd x).
Definition q_mul (x y : K * K) : K * K :=
  (fst x * fst y + nr * (snd x * snd y), fst x * snd y + snd x * fst y).
(** The norm of [x], and its inverse through it. *)
Definition q_norm (x : K * K) : K := fst x * fst x - nr * (snd x * snd x).
Definition q_conj (x : K * K) : K * K := (fst x, - snd x).
Definition q_inv (x : K * K) : K * K := (fst x / q_norm x, - (snd x / q_norm x)).
Definition q_div (x y : K * K) : K * K := q_mul x (q_inv y).

Lemma q_norm_mul x y : q_norm (q_mul x y) = q_norm x * q_norm y.
Proof. unfold q_norm, q_mul. cbn [fst snd]. ring. Qed.

Lemma q_norm_conj x : q_mul x (q_conj x) = (q_norm x, 0).
Proof. unfold q_mul, q_conj, q_norm. cbn [fst snd]. pair_ring. Qed.

Lemma q_conj_conj (x : K * K) : q_conj (q_conj x) = x.
Proof. destruct x. unfold q_conj. cbn [fst snd]. pair_ring. Qed.

(** [nr] is not a square. *)
Context (Hnr : forall c, c * c <> nr).

Lemma q_norm_nonzero x : x <> q_zero -> q_norm x <> 0.
Proof.
  intros Hx E. apply Hx. destruct x as [a b]. unfold q_norm in E. cbn [fst snd] in E.
  destruct (decide (b = 0)) as [->|Hb].
  - unfold q_zero. f_equal. destruct (k_integral a a) as [|]; [|done..].
    rewrite <- E. ring.
  - exfalso. apply (Hnr (a / b)). apply (proj1 (k_sub_zero _ _)) in E.
    transitivity (a * a / (b * b)); [by field|]. rewrite E. by field.
Qed.

Definition Quad_field : KField (K * K).
Proof.
  refine {| k0 := q_zero; k1 := q_one; kadd := q_add; kmul := q_mul; ksub := q_sub; kopp := q_neg;
            kdiv := q_div; kinv := q_inv |}.
  split; [split| | |]; unfold q_zero, q_one, q_add, q_mul, q_sub, q_neg, q_div; cbn [fst snd].
  - intros [a b]. cbn [fst snd]. pair_ring.
  - intros [a b] [c d]. cbn [fst snd]. pair_ring.
  - intros [a b] [c d] [e f]. cbn [fst snd]. pair_ring.
  - intros [a b]. cbn [fst snd]. pair_ring.
  - intros [a b] [c d]. cbn [fst snd]. pair_ring.
  - intros [a b] [c d] [e f]. cbn [fst snd]. pair_ring.
  - intros [a b] [c d] [e f]. cbn [fst snd]. pair_ring.
  - intros [a b] [c d]. cbn [fst snd]. pair_ring.
  - intros [a b]. cbn [fst snd]. pair_ring.
  - intros [= H]. by apply (k_one_nonzero (K := K)).
  - done.
  - intros [a b] Hx. apply q_norm_nonzero in Hx. unfold q_inv. unfold q_norm in *. cbn [fst snd] in *.
    f_equal; field; done.
Defined.
End Quadratic.

(** ** Cubic extensions

    [(x, y, z)] is [x * t^2 + y * t + z] with [t^3 = xi]. *)
Section Cubic.
Context {K : Type} {F : KField K}.
Add Field K_field_cubic : (k_theory (K := K)).
#[local] Open Scope field_scope.
Context (xi : K).

Definition c_zero : K * K * K := (0, 0, 0).
Definition c_one : K * K * K := (0, 0, 1).
Definition c_add (p r : K * K * K) : K * K * K :=
  let '(x, y, z) := p in let '(u, v, w) := r in (x + u, y + v, z + w).
Definition c_sub (p r : K * K * K) : K * K * K :=
  let '(x, y, z) := p in let '(u, v, w) := r in (x - u, y - v, z - w).
Definition c_neg (p : K * K * K) : K * K * K := let '(x, y, z) := p in (- x, - y, - z).
Definition c_mul (p r : K * K * K) : K * K * K :=
  let '(x, y, z) := p in let '(u, v, w) := r in
  (x * w + y * v + z * u, y * w + z * v + xi * (x * u), z * w + xi * (x * v + y * u)).
Definition c_norm (p : K * K * K) : K :=
  let '(x, y, z) := p in
  z * z * z + xi * (y * y * y) + xi * (xi * (x * x * x)) - (1 + 1 + 1) * (xi * (x * y * z)).
(** The adjugate: the element that multiplies to the norm. *)
Definition c_adj (p : K * K * K) : K * K * K :=
  let '(x, y, z) := p in (y * y - x * z, xi * (x * x) - y * z, z * z - xi * (x * y)).
Definition c_scale (c : K) (p : K * K * K) : K * K * K := let '(x, y, z) := p in (c * x, c * y, c * z).
Definition c_inv (p : K * K * K) : K * K * K := c_scale (kinv (c_norm p)) (c_adj p).
Definition c_div (p r : K * K * K) : K * K * K := c_mul p (c_inv r).

Lemma c_adj_mul p : c_mul (c_adj p) p = (0, 0, c_norm p).
Proof. destruct p as [[x y] z]. unfold c_mul, c_adj, c_norm. pair_ring. Qed.

Lemma c_norm_mul p r : c_norm (c_mul p r) = c_norm p * c_norm r.
Proof. destruct p as [[x y] z], r as [[u v] w]. unfold c_mul, c_norm. ring. Qed.

Lemma c_norm_tau : c_norm (0, 1, 0) = xi.
Proof. unfold c_norm. ring. Qed.

Lemma c_scale_mul c p r : c_mul (c_scale c p) r = c_scale c (c_mul p r).
Proof. destruct p as [[x y] z], r as [[u v] w]. unfold c_mul, c_scale. pair_ring. Qed.

(** [xi] is not a cube. *)
Context (Hxi : forall c, c * (c * c) <> xi).

Lemma cube_quotient a b : b <> 0 -> a * (a * a) = xi * (b * (b * b)) -> False.
Proof. intros Hb E. apply (Hxi (a / b)). transitivity (a * (a * a) / (b * (b * b))); [by field|]. rewrite E. by field. Qed.

Lemma c_norm_nonzero p : p <> c_zero -> c_norm p <> 0.
Proof.
  destruct p as [[x y] z]. intros Hp E. unfold c_norm in E. apply Hp. unfold c_zero.
  destruct (decide (x = 0)) as [->|Hx].
  - destruct (decide (y = 0)) as [->|Hy].
    + f_equal. destruct (k_integral z (z * z)) as [|[|]%k_integral]; [|done..]. rewrite <- E. ring.
    + exfalso. apply (cube_quotient (- z) y Hy). symmetry. apply k_sub_zero. rewrite <- E. ring.
  - exfalso. set (C := y * y - x * z). set (B := xi * (x * x) - y * z).
    (* the product with a polynomial of degree one is of degree one *)
    assert (EN : B * (B * B) - xi * (C * (C * C)) = 0).
    { transitivity ((xi * (x * x * x) - y * y * y) *
        (z * z * z + xi * (y * y * y) + xi * (xi * (x * x * x)) - (1 + 1 + 1) * (xi * (x * y * z)))).
      - unfold B, C. ring.
      - rewrite E. ring. }
    destruct (decide (C = 0)) as [HC|HC].
    + assert (HB : B = 0).
      { rewrite HC in EN. destruct (k_integral B (B * B)) as [|[|]%k_integral]; [|done..].
        rewrite <- EN. ring. }
      apply (cube_quotient y x Hx). unfold B, C in *.
      transitivity (y * (y * y - x * z) - x * (xi * (x * x) - y * z) + xi * (x * (x * x))); [ring|].
      rewrite HB, HC. ring.
    + apply (cube_quotient B C HC). apply k_sub_zero. exact EN.
Qed.

Definition Cubic_field : KField (K * K * K).
Proof.
  refine {| k0 := c_zero; k1 := c_one; kadd := c_add; kmul := c_mul; ksub := c_sub; kopp := c_neg;
            kdiv := c_div; kinv := c_inv |}.
  split; [split| | |]; unfold c_zero, c_one, c_add, c_mul, c_sub, c_neg.
  - intros [[x y] z]. pair_ring.
  - intros [[x y] z] [[u v] w]. pair_ring.
  - intros [[x y] z] [[u v] w] [[r s] t]. pair_ring.
  - intros [[x y] z]. pair_ring.
  - intros [[x y] z] [[u v] w]. pair_ring.
  - intros [[x y] z] [[u v] w] [[r s] t]. pair_ring.
  - intros [[x y] z] [[u v] w] [[r s] t]. pair_ring.
  - intros [[x y] z] [[u v] w]. pair_ring.
  - intros [[x y] z]. pair_ring.
  - intros [= H]. by apply (k_one_nonzero (K := K)).
  - done.
  - intros p Hp. apply c_norm_nonzero in Hp. change (c_mul (c_inv p) p = c_one). unfold c_inv. rewrite c_scale_mul, c_adj_mul. unfold c_scale, c_one.
    repeat apply (f_equal2 pair); [ring|ring|]. field. done.
Defined.
End Cubic.
