(* ===== verification/Tower.v ===== *)
(** The extension fields of the pairing: [f2field.cpp], [f6field.cpp] and
    [f12field.cpp] of [depends/ffiasm/c/].  Elements are records of elements of the
    field below.  Every routine reads a component of an operand before it writes the
    same component of the result, or works on locals, so a destination that is also an
    operand changes nothing and routines are functions; [F12Field::exp] is the
    exception and takes the aliasing as an argument. *)

From Stdlib Require Import String.
From S2P Require Import Prelude Mpz SplitParStr Field.

(** ** [F2Field] *)

Record F2El (E : Type) := mkF2 { f2a : E; f2b : E }.
#[global] Arguments mkF2 {E} _ _. #[global] Arguments f2a {E} _. #[global] Arguments f2b {E} _.

Inductive TypeOfNr := nr_is_zero | nr_is_one | nr_is_negone | nr_is_long.

Record F2Field (E : Type) := mkF2Field {
  typeOfNr : TypeOfNr;
  f2_nr : E;
  f2_fOne : F2El E;
  f2_fZero : F2El E;
  f2_fNegOne : F2El E
}.
#[global] Arguments mkF2Field {E} _ _ _ _ _.
#[global] Arguments typeOfNr {E} _. #[global] Arguments f2_nr {E} _. #[global] Arguments f2_fOne {E} _.
#[global] Arguments f2_fZero {E} _. #[global] Arguments f2_fNegOne {E} _.

Section F2.
Context {E : Type} {FO : FieldOps E}.

Definition F2_initField (anr : E) : F2Field E :=
  mkF2Field
    (if f_isZero anr then nr_is_zero
     else if f_eq anr f_one then nr_is_one
     else if f_eq anr f_negOne then nr_is_negone
     else nr_is_long)
    anr (mkF2 f_one f_zero) (mkF2 f_zero f_zero) (mkF2 f_negOne f_zero).

Context (D : F2Field E).

Definition F2_mulByNr (a : E) : E :=
  match typeOfNr D with
  | nr_is_zero => f_zero
  | nr_is_one => a
  | nr_is_negone => f_neg a
  | nr_is_long => f_mul (f2_nr D) a
  end.

Definition F2_add (a b : F2El E) : F2El E := mkF2 (f_add (f2a a) (f2a b)) (f_add (f2b a) (f2b b)).
Definition F2_sub (a b : F2El E) : F2El E := mkF2 (f_sub (f2a a) (f2a b)) (f_sub (f2b a) (f2b b)).
Definition F2_neg (a : F2El E) : F2El E := mkF2 (f_neg (f2a a)) (f_neg (f2b a)).
Definition F2_conjugate (a : F2El E) : F2El E := mkF2 (f2a a) (f_neg (f2b a)).
Definition F2_copy (a : F2El E) : F2El E := mkF2 (f2a a) (f2b a).

Definition F2_mul (e1 e2 : F2El E) : F2El E :=
  let aa := f_mul (f2a e1) (f2a e2) in
  let bb := f_mul (f2b e1) (f2b e2) in
  let bbr := F2_mulByNr bb in
  let sum1 := f_add (f2a e1) (f2b e1) in
  let sum2 := f_add (f2a e2) (f2b e2) in
  let ra := f_add aa bbr in
  let rb := f_mul sum1 sum2 in
  let rb := f_sub rb aa in
  let rb := f_sub rb bb in
  mkF2 ra rb.

Definition F2_mulScalar (a : F2El E) (b : E) : F2El E := mkF2 (f_mul (f2a a) b) (f_mul (f2b a) b).

Definition F2_dbl (a : F2El E) : F2El E := mkF2 (f_add (f2a a) (f2a a)) (f_add (f2b a) (f2b a)).

Definition F2_mulXi (a : F2El E) : F2El E :=
  let t := F2_dbl a in
  let t := F2_dbl t in
  let t := F2_dbl t in
  let t := F2_add t a in
  let t := mkF2 (f2a t) (f_add (f2b t) (f2a a)) in
  let t := mkF2 (f_sub (f2a t) (f2b a)) (f2b t) in
  F2_copy t.

(** In the second branch [tmp2] is overwritten before its first value is used. *)
Definition F2_square (e1 : F2El E) : F2El E :=
  match typeOfNr D with
  | nr_is_negone =>
      let ab := f_mul (f2a e1) (f2b e1) in
      let tmp1 := f_add (f2a e1) (f2b e1) in
      let tmp2 := f_sub (f2a e1) (f2b e1) in
      mkF2 (f_mul tmp1 tmp2) (f_add ab ab)
  | _ =>
      let ab := f_mul (f2a e1) (f2b e1) in
      let tmp1 := f_add (f2a e1) (f2b e1) in
      let tmp2 := F2_mulByNr (f2b e1) in
      let tmp2 := f_add (f2a e1) tmp1 in
      let tmp1 := f_mul tmp1 tmp2 in
      let tmp2 := F2_mulByNr ab in
      let tmp2 := f_add ab tmp2 in
      mkF2 (f_sub tmp1 tmp2) (f_add ab ab)
  end.

Definition F2_inv (e1 : F2El E) : F2El E :=
  let t0 := f_square (f2a e1) in
  let t1 := f_square (f2b e1) in
  let t2 := F2_mulByNr t1 in
  let t2 := f_sub t0 t2 in
  let t3 := f_inv t2 in
  let ra := f_mul (f2a e1) t3 in
  let rb := f_mul (f2b e1) t3 in
  mkF2 ra (f_neg rb).

Definition F2_div (e1 e2 : F2El E) : F2El E := F2_mul e1 (F2_inv e2).

Definition F2_isZero (a : F2El E) : bool := f_isZero (f2a a) && f_isZero (f2b a).
Definition F2_isOne (a : F2El E) : bool := f_eq (f2a a) f_one && f_isZero (f2b a).
Definition F2_eq (a b : F2El E) : bool := f_eq (f2a a) (f2a b) && f_eq (f2b a) (f2b b).

(** The class as a field class, for the templates over it. *)
Definition F2_ops : FieldOps (F2El E) := {|
  f_zero := f2_fZero D; f_one := f2_fOne D; f_negOne := f2_fNegOne D;
  f_add := F2_add; f_sub := F2_sub; f_mul := F2_mul; f_neg := F2_neg; f_square := F2_square;
  f_inv := F2_inv; f_div := F2_div; f_isZero := F2_isZero; f_eq := F2_eq
|}.
End F2.

(** ** [F6Field] *)

Record F6El (E : Type) := mkF6 { f6x : F2El E; f6y : F2El E; f6z : F2El E }.
#[global] Arguments mkF6 {E} _ _ _.
#[global] Arguments f6x {E} _. #[global] Arguments f6y {E} _. #[global] Arguments f6z {E} _.

Record F6Field (E : Type) := mkF6Field {
  f6_F : F2Field E;
  f6_fOne : F6El E;
  f6_fZero : F6El E;
  f6_fNegOne : F6El E;
  xiTo2PMinus2Over3 : F2El E;
  xiToPMinus1Over3 : F2El E;
  xiTo2PSquaredMinus2Over3 : E;
  xiToPSquaredMinus1Over3 : E
}.
#[global] Arguments mkF6Field {E} _ _ _ _ _ _ _ _.
#[global] Arguments f6_F {E} _. #[global] Arguments f6_fOne {E} _. #[global] Arguments f6_fZero {E} _.
#[global] Arguments f6_fNegOne {E} _. #[global] Arguments xiTo2PMinus2Over3 {E} _.
#[global] Arguments xiToPMinus1Over3 {E} _. #[global] Arguments xiTo2PSquaredMinus2Over3 {E} _.
#[global] Arguments xiToPSquaredMinus1Over3 {E} _.

Section F6.
Context {E : Type} {FO : FieldOps E}.

(** The constructor, the four constants being what the strings are read as. *)
Definition F6_new (F : F2Field E) (c1 c2 : F2El E) (c3 c4 : E) : F6Field E :=
  mkF6Field F
    (mkF6 (f2_fZero F) (f2_fZero F) (f2_fOne F))
    (mkF6 (f2_fZero F) (f2_fZero F) (f2_fZero F))
    (mkF6 (f2_fZero F) (f2_fZero F) (f2_fNegOne F)) c1 c2 c3 c4.

Context (D : F6Field E).
Let F := f6_F D.

Definition F6_add (a b : F6El E) : F6El E :=
  mkF6 (F2_add (f6x a) (f6x b)) (F2_add (f6y a) (f6y b)) (F2_add (f6z a) (f6z b)).
Definition F6_sub (a b : F6El E) : F6El E :=
  mkF6 (F2_sub (f6x a) (f6x b)) (F2_sub (f6y a) (f6y b)) (F2_sub (f6z a) (f6z b)).
Definition F6_neg (a : F6El E) : F6El E := mkF6 (F2_neg (f6x a)) (F2_neg (f6y a)) (F2_neg (f6z a)).
Definition F6_copy (a : F6El E) : F6El E := mkF6 (F2_copy (f6x a)) (F2_copy (f6y a)) (F2_copy (f6z a)).

Definition F6_mul (a b : F6El E) : F6El E :=
  let v0 := F2_mul F (f6z a) (f6z b) in
  let v1 := F2_mul F (f6y a) (f6y b) in
  let v2 := F2_mul F (f6x a) (f6x b) in
  let t0 := F2_add (f6x a) (f6y a) in
  let t1 := F2_add (f6x b) (f6y b) in
  let tz := F2_mul F t0 t1 in
  let tz := F2_sub tz v1 in
  let tz := F2_sub tz v2 in
  let tz := F2_mulXi tz in
  let tz := F2_add tz v0 in
  let t0 := F2_add (f6y a) (f6z a) in
  let t1 := F2_add (f6y b) (f6z b) in
  let ty := F2_mul F t0 t1 in
  let ty := F2_sub ty v0 in
  let ty := F2_sub ty v1 in
  let t0 := F2_mulXi v2 in
  let ty := F2_add ty t0 in
  let t0 := F2_add (f6x a) (f6z a) in
  let t1 := F2_add (f6x b) (f6z b) in
  let tx := F2_mul F t0 t1 in
  let tx := F2_sub tx v0 in
  let tx := F2_add tx v1 in
  let tx := F2_sub tx v2 in
  mkF6 (F2_copy tx) (F2_copy ty) (F2_copy tz).

Definition F6_mulScalar (a : F6El E) (b : F2El E) : F6El E :=
  mkF6 (F2_mul F (f6x a) b) (F2_mul F (f6y a) b) (F2_mul F (f6z a) b).

Definition F6_mulTau (a : F6El E) : F6El E :=
  let tz := F2_mulXi (f6x a) in
  let ty := F2_copy (f6y a) in
  mkF6 (F2_copy ty) (F2_copy (f6z a)) (F2_copy tz).

Definition F6_mulGFP (a : F6El E) (b : E) : F6El E :=
  mkF6 (F2_mulScalar (f6x a) b) (F2_mulScalar (f6y a) b) (F2_mulScalar (f6z a) b).

Definition F6_square (a : F6El E) : F6El E :=
  let v0 := F2_square F (f6z a) in
  let v1 := F2_square F (f6y a) in
  let v2 := F2_square F (f6x a) in
  let c0 := F2_add (f6x a) (f6y a) in
  let c0 := F2_square F c0 in
  let c0 := F2_sub c0 v1 in
  let c0 := F2_sub c0 v2 in
  let c0 := F2_mulXi c0 in
  let c0 := F2_add c0 v0 in
  let c1 := F2_add (f6y a) (f6z a) in
  let c1 := F2_square F c1 in
  let c1 := F2_sub c1 v0 in
  let c1 := F2_sub c1 v1 in
  let xiV2 := F2_mulXi v2 in
  let c1 := F2_add c1 xiV2 in
  let c2 := F2_add (f6x a) (f6z a) in
  let c2 := F2_square F c2 in
  let c2 := F2_sub c2 v0 in
  let c2 := F2_add c2 v1 in
  let c2 := F2_sub c2 v2 in
  mkF6 (F2_copy c2) (F2_copy c1) (F2_copy c0).

Definition F6_dbl (a : F6El E) : F6El E := mkF6 (F2_dbl (f6x a)) (F2_dbl (f6y a)) (F2_dbl (f6z a)).

Definition F6_Frobenius (a : F6El E) : F6El E :=
  let rx := F2_conjugate (f6x a) in
  let ry := F2_conjugate (f6y a) in
  let rz := F2_conjugate (f6z a) in
  mkF6 (F2_mul F rx (xiTo2PMinus2Over3 D)) (F2_mul F ry (xiToPMinus1Over3 D)) rz.

Definition F6_FrobeniusP2 (a : F6El E) : F6El E :=
  mkF6 (F2_mulScalar (f6x a) (xiTo2PSquaredMinus2Over3 D))
    (F2_mulScalar (f6y a) (xiToPSquaredMinus1Over3 D)) (F2_copy (f6z a)).

Definition F6_inv (a : F6El E) : F6El E :=
  let A := F2_square F (f6z a) in
  let t1 := F2_mul F (f6x a) (f6y a) in
  let t1 := F2_mulXi t1 in
  let A := F2_sub A t1 in
  let B := F2_square F (f6x a) in
  let B := F2_mulXi B in
  let t1 := F2_mul F (f6y a) (f6z a) in
  let B := F2_sub B t1 in
  let C_ := F2_square F (f6y a) in
  let t1 := F2_mul F (f6x a) (f6z a) in
  let C_ := F2_sub C_ t1 in
  let F_ := F2_mul F C_ (f6y a) in
  let F_ := F2_mulXi F_ in
  let t1 := F2_mul F A (f6z a) in
  let F_ := F2_add F_ t1 in
  let t1 := F2_mul F B (f6x a) in
  let t1 := F2_mulXi t1 in
  let F_ := F2_add F_ t1 in
  let F_ := F2_inv F F_ in
  mkF6 (F2_mul F C_ F_) (F2_mul F B F_) (F2_mul F A F_).

Definition F6_div (a b : F6El E) : F6El E := F6_mul a (F6_inv b).

Definition F6_isZero (a : F6El E) : bool := F2_isZero (f6x a) && F2_isZero (f6y a) && F2_isZero (f6z a).
Definition F6_isOne (a : F6El E) : bool := F2_isZero (f6x a) && F2_isZero (f6y a) && F2_isOne (f6z a).
Definition F6_eq (a b : F6El E) : bool :=
  F2_eq (f6x a) (f6x b) && F2_eq (f6y a) (f6y b) && F2_eq (f6z a) (f6z b).

Definition F6_ops : FieldOps (F6El E) := {|
  f_zero := f6_fZero D; f_one := f6_fOne D; f_negOne := f6_fNegOne D;
  f_add := F6_add; f_sub := F6_sub; f_mul := F6_mul; f_neg := F6_neg; f_square := F6_square;
  f_inv := F6_inv; f_div := F6_div; f_isZero := F6_isZero; f_eq := F6_eq
|}.
End F6.

(** ** [F12Field] *)

Record F12El (E : Type) := mkF12 { f12x : F6El E; f12y : F6El E }.
#[global] Arguments mkF12 {E} _ _. #[global] Arguments f12x {E} _. #[global] Arguments f12y {E} _.

Record F12Field (E : Type) := mkF12Field {
  f12_F : F6Field E;
  f12_fOne : F12El E;
  f12_fZero : F12El E;
  f12_fNegOne : F12El E;
  xiToPMinus1Over6 : F2El E;
  xiToPSquaredMinus1Over6 : E
}.
#[global] Arguments mkF12Field {E} _ _ _ _ _ _.
#[global] Arguments f12_F {E} _. #[global] Arguments f12_fOne {E} _. #[global] Arguments f12_fZero {E} _.
#[global] Arguments f12_fNegOne {E} _. #[global] Arguments xiToPMinus1Over6 {E} _.
#[global] Arguments xiToPSquaredMinus1Over6 {E} _.

Section F12.
Context {E : Type} {FO : FieldOps E}.

Definition F12_new (F : F6Field E) (c1 : F2El E) (c2 : E) : F12Field E :=
  mkF12Field F (mkF12 (f6_fZero F) (f6_fOne F)) (mkF12 (f6_fZero F) (f6_fZero F))
    (mkF12 (f6_fZero F) (f6_fNegOne F)) c1 c2.

Context (D : F12Field E).
Let F := f12_F D.

Definition F12_add (a b : F12El E) : F12El E := mkF12 (F6_add (f12x a) (f12x b)) (F6_add (f12y a) (f12y b)).
Definition F12_sub (a b : F12El E) : F12El E := mkF12 (F6_sub (f12x a) (f12x b)) (F6_sub (f12y a) (f12y b)).
Definition F12_neg (a : F12El E) : F12El E := mkF12 (F6_neg (f12x a)) (F6_neg (f12y a)).
Definition F12_conjugate (a : F12El E) : F12El E := mkF12 (F6_neg (f12x a)) (F6_copy (f12y a)).
Definition F12_copy (a : F12El E) : F12El E := mkF12 (F6_copy (f12x a)) (F6_copy (f12y a)).

Definition F12_mul (a b : F12El E) : F12El E :=
  let tx := F6_mul F (f12x a) (f12y b) in
  let t := F6_mul F (f12x b) (f12y a) in
  let tx := F6_add tx t in
  let ty := F6_mul F (f12y a) (f12y b) in
  let t := F6_mul F (f12x a) (f12x b) in
  let t := F6_mulTau t in
  mkF12 (F6_copy tx) (F6_add ty t).

Definition F12_mulScalar (a : F12El E) (b : F6El E) : F12El E :=
  mkF12 (F6_mul F (f12x a) b) (F6_mul F (f12y a) b).

Definition F12_square (a : F12El E) : F12El E :=
  let v0 := F6_mul F (f12x a) (f12y a) in
  let t := F6_mulTau (f12x a) in
  let t := F6_add (f12y a) t in
  let ty := F6_add (f12x a) (f12y a) in
  let ty := F6_mul F ty t in
  let ty := F6_sub ty v0 in
  let t := F6_mulTau v0 in
  let ty := F6_sub ty t in
  mkF12 (F6_dbl v0) (F6_copy ty).

(** [BIT_IS_SET(scalar, i)] *)
Definition bit_is_set (scalar : list Z) (p : nat) : bool :=
  Z.testbit (nth (p / 8) scalar 0) (Z.of_nat (p mod 8)).

(** The rounds [n - 1], ..., 0 of [exp]'s loop; [same]: the result and the base are one
    object. *)
Fixpoint F12_exp_loop (same : bool) (a : F12El E) (scalar : list Z) (n : nat) (r : F12El E) : F12El E :=
  match n with
  | O => r
  | S i =>
      let t := F12_square r in
      let r := if bit_is_set scalar i then F12_mul t (if same then r else a) else F12_copy t in
      F12_exp_loop same a scalar i r
  end.

Definition F12_exp (same : bool) (a : F12El E) (scalar : list Z) (scalarSize : nat) : F12El E :=
  F12_exp_loop same a scalar (scalarSize * 8) (F12_copy (f12_fOne D)).

Definition F12_Frobenius (a : F12El E) : F12El E :=
  let rx := F6_Frobenius F (f12x a) in
  let ry := F6_Frobenius F (f12y a) in
  mkF12 (F6_mulScalar F rx (xiToPMinus1Over6 D)) ry.

Definition F12_FrobeniusP2 (a : F12El E) : F12El E :=
  let rx := F6_FrobeniusP2 F (f12x a) in
  let rx := F6_mulGFP rx (xiToPSquaredMinus1Over6 D) in
  let ry := F6_FrobeniusP2 F (f12y a) in
  mkF12 rx ry.

Definition F12_inv (a : F12El E) : F12El E :=
  let t1 := F6_square F (f12x a) in
  let t2 := F6_square F (f12y a) in
  let t1 := F6_mulTau t1 in
  let t1 := F6_sub t2 t1 in
  let t2 := F6_inv F t1 in
  let r := mkF12 (F6_neg (f12x a)) (F6_copy (f12y a)) in
  F12_mulScalar r t2.

Definition F12_div (a b : F12El E) : F12El E := F12_mul a (F12_inv b).

Definition F12_isZero (a : F12El E) : bool := F6_isZero (f12x a) && F6_isZero (f12y a).
Definition F12_isOne (a : F12El E) : bool := F6_isZero (f12x a) && F6_isOne (f12y a).
Definition F12_eq (a b : F12El E) : bool := F6_eq (f12x a) (f12x b) && F6_eq (f12y a) (f12y b).

Definition F12_ops : FieldOps (F12El E) := {|
  f_zero := f12_fZero D; f_one := f12_fOne D; f_negOne := f12_fNegOne D;
  f_add := F12_add; f_sub := F12_sub; f_mul := F12_mul; f_neg := F12_neg; f_square := F12_square;
  f_inv := F12_inv; f_div := F12_div; f_isZero := F12_isZero; f_eq := F12_eq
|}.
End F12.

(** ** Strings, in radix 10

    [fuel] bounds the recursion of [splitParStr]. *)

Class FieldText (E : Type) := { f_fromString : string -> E; f_toString : E -> string }.

#[local] Open Scope string_scope.

Definition f_fromText {E} `{FieldText E} (s : list Ascii.ascii) : E := f_fromString (string_of_list_ascii s).

Section Text.
Context {E : Type} {FO : FieldOps E} {FT : FieldText E} (fuel : nat).

(** [F2Field(std::string nrs)] *)
Definition F2_new (nrs : string) : F2Field E := F2_initField (f_fromString nrs).

Definition F2_fromString (s : list Ascii.ascii) : parsed (F2El E) :=
  els <~ splitParStr fuel s;
  match els with
  | [s0; s1] => Returns (mkF2 (f_fromText s0) (f_fromText s1))
  | _ => Aborts
  end.

Definition F2_toString (e : F2El E) : string :=
  "(" ++ f_toString (f2a e) ++ "," ++ f_toString (f2b e) ++ ")".

Definition F6_fromString (s : list Ascii.ascii) : parsed (F6El E) :=
  els <~ splitParStr fuel s;
  match els with
  | [s0; s1; s2] =>
      x <~ F2_fromString s0; y <~ F2_fromString s1; z <~ F2_fromString s2;
      Returns (mkF6 x y z)
  | _ => Aborts
  end.

Definition F6_toString (e : F6El E) : string :=
  "(" ++ F2_toString (f6x e) ++ "," ++ F2_toString (f6y e) ++ "," ++ F2_toString (f6z e) ++ ")".

Definition F12_fromString (s : list Ascii.ascii) : parsed (F12El E) :=
  els <~ splitParStr fuel s;
  match els with
  | [s0; s1] => x <~ F6_fromString s0; y <~ F6_fromString s1; Returns (mkF12 x y)
  | _ => Aborts
  end.

Definition F12_toString (e : F12El E) : string :=
  "(" ++ F6_toString (f12x e) ++ "," ++ F6_toString (f12y e) ++ ")".

(** The default constructor of [F6Field]. *)
Definition F6_default : parsed (F6Field E) :=
  c1 <~ F2_fromString (text
    ("2581911344467009335267311115468803099551665605076196740867805258568234346338," ++
     "19937756971775647987995932169929341994314640652964949448313374472400716661030"));
  c2 <~ F2_fromString (text
    ("21575463638280843010398324269430826099269044274347216827212613867836435027261," ++
     "10307601595873709700152284273816112264069230130616436755625194854815875713954"));
  Returns (F6_new (F2_new "-1") c1 c2
    (f_fromString "2203960485148121921418603742825762020974279258880205651966")
    (f_fromString "21888242871839275220042445260109153167277707414472061641714758635765020556616")).

(** The default constructor of [F12Field]. *)
Definition F12_default : parsed (F12Field E) :=
  F <~ F6_default;
  c1 <~ F2_fromString (text
    ("8376118865763821496583973867626364092589906065868298776909617916018768340080," ++
     "16469823323077808223889137241176536799009286646108169935659301613961712198316"));
  Returns (F12_new F c1
    (f_fromString "21888242871839275220042445260109153167277707414472061641714758635765020556617")).
End Text.
