(* ===== verification/TowerSpec.v ===== *)
(** The classes of the tower implement the extension fields, each over any field below
    it: [F2Field] a quadratic extension, [F6Field] a cubic one, [F12Field] a quadratic
    one again.  The [p]-th power in the extensions of a field of characteristic [p], and
    the Frobenius routines, which compute it with constants. *)

From Stdlib Require Import Field ArithRing.
From S2P Require Import Prelude Mpz Field Dft Powers ExtField Tower.

Create HintDb tower_rep.

(** Proves what a straight-line routine stands for: the operations give an expression,
    which the field equations bring into the required form. *)
Ltac rep_ring := eapply f_rep_eq; [eauto 20 with tower_rep field_rep|cbn [fst snd]; ring].

(** ** [F2Field] *)

Definition F2_rep {K E} `{FieldRep K E} : FieldRep (K * K) (F2El E) := fun e x =>
  f_rep (f2a e) (fst x) /\ f_rep (f2b e) (snd x).

Section F2.
Context {K E : Type} {KF : KField K} {FO : FieldOps E} {R : FieldRep K E} {L : FieldLaws K E}.
Add Field K_field_f2 : (k_theory (K := K)).
#[local] Open Scope field_scope.
Context (anr : E) (nr : K) (Hanr : f_rep anr nr).
Let D := F2_initField anr.
Notation rep2 := (F2_rep (K := K) (E := E)).

(** What the constructor finds out about the non-residue. *)
Lemma F2_typeOfNr :
  match typeOfNr D with
  | nr_is_zero => nr = 0 | nr_is_one => nr = 1 | nr_is_negone => nr = - (1) | nr_is_long => True
  end.
Proof.
  unfold D, F2_initField. cbn [typeOfNr].
  rewrite (f_isZero_rep _ _ Hanr), (f_eq_rep _ _ _ _ Hanr f_one_rep), (f_eq_rep _ _ _ _ Hanr f_negOne_rep).
  repeat case_bool_decide; done.
Qed.

Lemma F2_mulByNr_rep a x : f_rep a x -> f_rep (F2_mulByNr D a) (nr * x).
Proof.
  intros Ha. pose proof F2_typeOfNr as Ht. unfold F2_mulByNr.
  destruct (typeOfNr D); [rewrite Ht; rep_ring|rewrite Ht; rep_ring|rewrite Ht; rep_ring|].
  apply f_mul_rep; [exact Hanr|done].
Qed.
#[local] Hint Resolve F2_mulByNr_rep : tower_rep.

Lemma F2_add_rep a b x y : rep2 a x -> rep2 b y -> rep2 (F2_add a b) (q_add x y).
Proof. intros [] []. split; cbn; rep_ring. Qed.
Lemma F2_sub_rep a b x y : rep2 a x -> rep2 b y -> rep2 (F2_sub a b) (q_sub x y).
Proof. intros [] []. split; cbn; rep_ring. Qed.
Lemma F2_neg_rep a x : rep2 a x -> rep2 (F2_neg a) (q_neg x).
Proof. intros []. split; cbn; rep_ring. Qed.
Lemma F2_conjugate_rep a x : rep2 a x -> rep2 (F2_conjugate a) (q_conj x).
Proof. intros []. split; cbn; rep_ring. Qed.
Lemma F2_copy_rep a x : rep2 a x -> rep2 (F2_copy a) x.
Proof. intros []. by split. Qed.
Lemma F2_dbl_rep a x : rep2 a x -> rep2 (F2_dbl a) (q_add x x).
Proof. intros []. split; cbn; rep_ring. Qed.

Lemma F2_mul_rep a b x y : rep2 a x -> rep2 b y -> rep2 (F2_mul D a b) (q_mul nr x y).
Proof. intros [] []. unfold q_mul. split; cbn [F2_mul f2a f2b fst snd]; rep_ring. Qed.

Lemma F2_mulScalar_rep a b x (y : K) : rep2 a x -> f_rep b y ->
  rep2 (F2_mulScalar a b) (q_mul nr x (y, 0)).
Proof. intros [] ?. unfold q_mul. split; cbn [F2_mulScalar f2a f2b fst snd]; rep_ring. Qed.

(** [xi] is 9 + u. *)
Definition q_xi : K * K := ((1 + 1) * ((1 + 1) * (1 + 1)) + 1, 1).

Lemma F2_mulXi_rep a x : nr = - (1) -> rep2 a x -> rep2 (F2_mulXi a) (q_mul nr q_xi x).
Proof.
  intros -> []. unfold q_mul, q_xi. split; cbn [F2_mulXi F2_copy F2_dbl F2_add f2a f2b fst snd]; rep_ring.
Qed.

(** *** As a field: a non-residue that is not a square *)

Context (Hnr : forall c, c * c <> nr).

Lemma F2_typeOfNr_minus_one : nr = - (1) -> typeOfNr D = nr_is_negone.
Proof.
  intros Hm. unfold D, F2_initField. cbn [typeOfNr].
  rewrite (f_isZero_rep _ _ Hanr), (f_eq_rep _ _ _ _ Hanr f_one_rep), (f_eq_rep _ _ _ _ Hanr f_negOne_rep).
  rewrite bool_decide_eq_false_2, bool_decide_eq_false_2, bool_decide_eq_true_2; [done|done| |].
  - intros E1. apply (Hnr 1). rewrite E1. ring.
  - intros E0. apply (Hnr 0). rewrite E0. ring.
Qed.

(** Squaring, for the non-residue -1. *)
Lemma F2_square_rep a x : nr = - (1) -> rep2 a x -> rep2 (F2_square D a) (q_mul nr x x).
Proof.
  intros Hm []. pose proof (F2_typeOfNr_minus_one Hm) as Ht. unfold q_mul.
  split; unfold F2_square; rewrite Ht; cbn [f2a f2b fst snd]; rewrite ?Hm; rep_ring.
Qed.

Lemma F2_inv_rep a x : rep2 a x -> x <> q_zero -> rep2 (F2_inv D a) (q_inv nr x).
Proof.
  intros [Ha Hb] Hx. pose proof (q_norm_nonzero nr Hnr x Hx) as Hn. unfold q_inv, q_norm in *.
  set (n := fst x * fst x - nr * (snd x * snd x)) in *.
  assert (Hi : f_rep (f_inv (f_sub (f_square (f2a a)) (F2_mulByNr D (f_square (f2b a))))) (kinv n)).
  { apply f_inv_rep; [|done]. unfold n. rep_ring. }
  split; cbn [F2_inv f2a f2b fst snd].
  - eapply f_rep_eq; [apply f_mul_rep; [exact Ha|exact Hi]|by field].
  - eapply f_rep_eq; [apply f_neg_rep, f_mul_rep; [exact Hb|exact Hi]|by field].
Qed.

Lemma F2_isZero_rep a x : rep2 a x -> F2_isZero a = bool_decide (x = q_zero).
Proof.
  intros [Ha Hb]. unfold F2_isZero. rewrite (f_isZero_rep _ _ Ha), (f_isZero_rep _ _ Hb).
  destruct x as [x y]. cbn [fst snd]. unfold q_zero. apply Is_true_bool_eq || idtac.
  repeat case_bool_decide; cbn; try done; congruence.
Qed.

Lemma F2_eq_rep a b x y : rep2 a x -> rep2 b y -> F2_eq a b = bool_decide (x = y).
Proof.
  intros [Ha Hb] [Hc Hd]. unfold F2_eq. rewrite (f_eq_rep _ _ _ _ Ha Hc), (f_eq_rep _ _ _ _ Hb Hd).
  destruct x as [x x'], y as [y y']. cbn [fst snd]. repeat case_bool_decide; cbn; try done; congruence.
Qed.

Lemma F2_isOne_rep a x : rep2 a x -> F2_isOne a = bool_decide (x = q_one).
Proof.
  intros [Ha Hb]. unfold F2_isOne. rewrite (f_eq_rep _ _ _ _ Ha f_one_rep), (f_isZero_rep _ _ Hb).
  destruct x as [x y]. cbn [fst snd]. unfold q_one. repeat case_bool_decide; cbn; try done; congruence.
Qed.

(** The class implements the quadratic extension. *)
Lemma F2_laws : nr = - (1) -> @FieldLaws (K * K) (F2El E) (Quad_field nr Hnr) (F2_ops D) F2_rep.
Proof.
  intros Hm. assert (Hz : f_rep f_zero (0 : K) /\ f_rep f_one (1 : K) /\ f_rep f_negOne (- (1) : K))
    by (split; [|split]; eauto with field_rep).
  destruct Hz as (H0 & H1 & Hn1).
  split; cbn [k0 k1 kadd kmul ksub kopp kdiv kinv Quad_field f_zero f_one f_negOne f_add f_sub f_mul f_neg
    f_square f_inv f_div f_isZero f_eq F2_ops].
  - by split.
  - by split.
  - split; [done|]. cbn. eapply f_rep_eq; [exact H0|]. ring.
  - intros. by apply F2_add_rep.
  - intros. by apply F2_sub_rep.
  - intros. by apply F2_mul_rep.
  - intros. by apply F2_neg_rep.
  - intros. by apply F2_square_rep.
  - intros. by apply F2_inv_rep.
  - intros. unfold F2_div, q_div. apply F2_mul_rep; [done|]. by apply F2_inv_rep.
  - intros. by apply F2_isZero_rep.
  - intros. by apply F2_eq_rep.
Qed.
End F2.

(** ** The interface the next floor is built on

    [F] is a class for the field [K2] with the multiplication by [xi]. *)
Class XiLaws (K2 E : Type) `{KField K2} `{FieldOps E} `{FieldRep K2 (F2El E)} (F : F2Field E) (xi : K2) : Prop := {
  xl_laws : @FieldLaws K2 (F2El E) _ (F2_ops F) _;
  xl_mulXi a (x : K2) : f_rep a x -> f_rep (F2_mulXi a) (xi * x)%K;
  xl_dbl a (x : K2) : f_rep a x -> f_rep (F2_dbl a) (x + x)%K;
  xl_copy a (x : K2) : f_rep a x -> f_rep (F2_copy a) x;
  xl_isOne a (x : K2) : f_rep a x -> F2_isOne a = bool_decide (x = 1%K)
}.

(** ** [F6Field] *)

Definition F6_rep {K2 E} `{FieldRep K2 (F2El E)} : FieldRep (K2 * K2 * K2) (F6El E) := fun e p =>
  let '(x, y, z) := p in f_rep (f6x e) x /\ f_rep (f6y e) y /\ f_rep (f6z e) z.

Section F6.
Context {K2 E : Type} {KF : KField K2} {FO : FieldOps E} {R : FieldRep K2 (F2El E)}
  (D : F6Field E) (xi : K2) {L : XiLaws K2 E (f6_F D) xi}.
Add Field K_field_f6 : (k_theory (K := K2)).
#[local] Open Scope field_scope.
#[local] Instance f2_laws : @FieldLaws K2 (F2El E) _ (F2_ops (f6_F D)) _ := xl_laws.
Notation rep6 := (F6_rep (K2 := K2) (E := E)).

Lemma t_add (a b : F2El E) (x y : K2) : f_rep a x -> f_rep b y -> f_rep (F2_add a b) (x + y).
Proof. apply (f_add_rep (H0 := F2_ops (f6_F D))). Qed.
Lemma t_sub (a b : F2El E) (x y : K2) : f_rep a x -> f_rep b y -> f_rep (F2_sub a b) (x - y).
Proof. apply (f_sub_rep (H0 := F2_ops (f6_F D))). Qed.
Lemma t_mul (a b : F2El E) (x y : K2) : f_rep a x -> f_rep b y -> f_rep (F2_mul (f6_F D) a b) (x * y).
Proof. apply (f_mul_rep (H0 := F2_ops (f6_F D))). Qed.
Lemma t_neg (a : F2El E) (x : K2) : f_rep a x -> f_rep (F2_neg a) (- x).
Proof. apply (f_neg_rep (H0 := F2_ops (f6_F D))). Qed.
Lemma t_square (a : F2El E) (x : K2) : f_rep a x -> f_rep (F2_square (f6_F D) a) (x * x).
Proof. apply (f_square_rep (H0 := F2_ops (f6_F D))). Qed.
Lemma t_inv (a : F2El E) (x : K2) : f_rep a x -> x <> 0 -> f_rep (F2_inv (f6_F D) a) (kinv x).
Proof. apply (f_inv_rep (H0 := F2_ops (f6_F D))). Qed.
Lemma t_zero : f_rep (f2_fZero (f6_F D)) (0 : K2).
Proof. apply (f_zero_rep (H0 := F2_ops (f6_F D))). Qed.
Lemma t_one : f_rep (f2_fOne (f6_F D)) (1 : K2).
Proof. apply (f_one_rep (H0 := F2_ops (f6_F D))). Qed.
Lemma t_negOne : f_rep (f2_fNegOne (f6_F D)) (- (1) : K2).
Proof. apply (f_negOne_rep (H0 := F2_ops (f6_F D))). Qed.
Lemma t_isZero (a : F2El E) (x : K2) : f_rep a x -> F2_isZero a = bool_decide (x = 0).
Proof. apply (f_isZero_rep (H0 := F2_ops (f6_F D))). Qed.
Lemma t_eq (a b : F2El E) (x y : K2) : f_rep a x -> f_rep b y -> F2_eq a b = bool_decide (x = y).
Proof. apply (f_eq_rep (H0 := F2_ops (f6_F D))). Qed.
#[local] Hint Resolve t_add t_sub t_mul t_neg t_square xl_mulXi xl_dbl xl_copy : tower_rep.

(** Routines that end with a triple. *)
Ltac by_parts :=
  repeat match goal with
  | p : (K2 * K2 * K2)%type |- _ => destruct p as [[? ?] ?]
  | H : rep6 _ (_, _, _) |- _ => destruct H as (? & ? & ?)
  end; repeat split; cbn [f6x f6y f6z]; rep_ring.

Lemma F6_add_rep a b x y : rep6 a x -> rep6 b y -> rep6 (F6_add a b) (c_add x y).
Proof. intros. unfold c_add, F6_add. by_parts. Qed.
Lemma F6_sub_rep a b x y : rep6 a x -> rep6 b y -> rep6 (F6_sub a b) (c_sub x y).
Proof. intros. unfold c_sub, F6_sub. by_parts. Qed.
Lemma F6_neg_rep a x : rep6 a x -> rep6 (F6_neg a) (c_neg x).
Proof. intros. unfold c_neg, F6_neg. by_parts. Qed.
Lemma F6_copy_rep a x : rep6 a x -> rep6 (F6_copy a) x.
Proof. intros. unfold F6_copy. by_parts. Qed.
Lemma F6_dbl_rep a x : rep6 a x -> rep6 (F6_dbl a) (c_add x x).
Proof. intros. unfold c_add, F6_dbl. by_parts. Qed.
Lemma F6_mul_rep a b x y : rep6 a x -> rep6 b y -> rep6 (F6_mul D a b) (c_mul xi x y).
Proof. intros. unfold c_mul, F6_mul. by_parts. Qed.
Lemma F6_square_rep a x : rep6 a x -> rep6 (F6_square D a) (c_mul xi x x).
Proof. intros. unfold c_mul, F6_square. by_parts. Qed.
Lemma F6_mulTau_rep a x : rep6 a x -> rep6 (F6_mulTau a) (c_mul xi (0, 1, 0) x).
Proof. intros. unfold c_mul, F6_mulTau. by_parts. Qed.
Lemma F6_mulScalar_rep a b x (y : K2) : rep6 a x -> f_rep b y -> rep6 (F6_mulScalar D a b) (c_mul xi x (0, 0, y)).
Proof. intros. unfold c_mul, F6_mulScalar. by_parts. Qed.

(** *** As a field: [xi] is not a cube *)

Context (Hxi : forall c, c * (c * c) <> xi).

Lemma F6_inv_rep a x : rep6 a x -> x <> c_zero -> rep6 (F6_inv D a) (c_inv xi x).
Proof.
  intros Ha Hx. pose proof (c_norm_nonzero xi Hxi x Hx) as Hn. destruct x as [[x y] z].
  destruct Ha as (Hax & Hay & Haz). unfold c_inv, c_scale, c_adj. unfold F6_inv.
  match goal with |- context [F2_inv (f6_F D) ?e] => set (n := e) end.
  assert (Hi : f_rep (F2_inv (f6_F D) n) (kinv (c_norm xi (x, y, z)))).
  { apply t_inv; [|done]. unfold n, c_norm. rep_ring. }
  set (i := kinv (c_norm xi (x, y, z))) in *.
  repeat split; cbn [f6x f6y f6z]; (eapply f_rep_eq; [apply t_mul; [|exact Hi]; eauto 12 with tower_rep|ring]).
Qed.

Lemma F6_isZero_rep a x : rep6 a x -> F6_isZero a = bool_decide (x = c_zero).
Proof.
  destruct x as [[x y] z]. intros (Hx & Hy & Hz). unfold F6_isZero, c_zero.
  rewrite (t_isZero _ _ Hx), (t_isZero _ _ Hy), (t_isZero _ _ Hz).
  repeat case_bool_decide; cbn; try done; congruence.
Qed.

Lemma F6_isOne_rep a x : rep6 a x -> F6_isOne a = bool_decide (x = c_one).
Proof.
  destruct x as [[x y] z]. intros (Hx & Hy & Hz). unfold F6_isOne, c_one.
  rewrite (t_isZero _ _ Hx), (t_isZero _ _ Hy), (xl_isOne _ _ Hz).
  repeat case_bool_decide; cbn; try done; congruence.
Qed.

Lemma F6_eq_rep a b x y : rep6 a x -> rep6 b y -> F6_eq a b = bool_decide (x = y).
Proof.
  destruct x as [[x y'] z], y as [[u v] w]. intros (Hx & Hy & Hz) (Hu & Hv & Hw). unfold F6_eq.
  rewrite (t_eq _ _ _ _ Hx Hu), (t_eq _ _ _ _ Hy Hv), (t_eq _ _ _ _ Hz Hw).
  repeat case_bool_decide; cbn; try done; congruence.
Qed.

(** The constructor sets the constants to what they are called. *)
Definition F6_constants : Prop :=
  f6_fZero D = mkF6 (f2_fZero (f6_F D)) (f2_fZero (f6_F D)) (f2_fZero (f6_F D)) /\
  f6_fOne D = mkF6 (f2_fZero (f6_F D)) (f2_fZero (f6_F D)) (f2_fOne (f6_F D)) /\
  f6_fNegOne D = mkF6 (f2_fZero (f6_F D)) (f2_fZero (f6_F D)) (f2_fNegOne (f6_F D)).

(** The class implements the cubic extension. *)
Lemma F6_laws : F6_constants -> @FieldLaws (K2 * K2 * K2) (F6El E) (Cubic_field xi Hxi) (F6_ops D) F6_rep.
Proof.
  intros (EZ & E1 & EN).
  split; cbn [k0 k1 kadd kmul ksub kopp kdiv kinv Cubic_field f_zero f_one f_negOne f_add f_sub f_mul f_neg
    f_square f_inv f_div f_isZero f_eq F6_ops].
  - rewrite EZ. repeat split; apply t_zero.
  - rewrite E1. repeat split; [apply t_zero..|apply t_one].
  - rewrite EN. unfold c_neg, c_one. repeat split; cbn [f6x f6y f6z];
      [eapply f_rep_eq; [apply t_zero|ring]..|apply t_negOne].
  - intros. by apply F6_add_rep.
  - intros. by apply F6_sub_rep.
  - intros. by apply F6_mul_rep.
  - intros. by apply F6_neg_rep.
  - intros. by apply F6_square_rep.
  - intros. by apply F6_inv_rep.
  - intros. unfold F6_div, c_div. apply F6_mul_rep; [done|]. by apply F6_inv_rep.
  - intros. by apply F6_isZero_rep.
  - intros. by apply F6_eq_rep.
Qed.
End F6.

(** ** The interface of the second floor *)
Class TauLaws (K6 E : Type) `{KField K6} `{FieldOps E} `{FieldRep K6 (F6El E)} (F : F6Field E) (tau : K6) : Prop := {
  tl_laws : @FieldLaws K6 (F6El E) _ (F6_ops F) _;
  tl_mulTau a (x : K6) : f_rep a x -> f_rep (F6_mulTau a) (tau * x)%K;
  tl_dbl a (x : K6) : f_rep a x -> f_rep (F6_dbl a) (x + x)%K;
  tl_copy a (x : K6) : f_rep a x -> f_rep (F6_copy a) x;
  tl_isOne a (x : K6) : f_rep a x -> F6_isOne a = bool_decide (x = 1%K)
}.

(** ** [F12Field]: [(c, d)] is [c + d * w] with [w * w = tau] *)

Definition F12_rep {K6 E} `{FieldRep K6 (F6El E)} : FieldRep (K6 * K6) (F12El E) := fun e p =>
  f_rep (f12y e) (fst p) /\ f_rep (f12x e) (snd p).

Section F12.
Context {K6 E : Type} {KF : KField K6} {FO : FieldOps E} {R : FieldRep K6 (F6El E)}
  (D : F12Field E) (tau : K6) {L : TauLaws K6 E (f12_F D) tau}.
Add Field K_field_f12 : (k_theory (K := K6)).
#[local] Open Scope field_scope.
#[local] Instance f6_laws : @FieldLaws K6 (F6El E) _ (F6_ops (f12_F D)) _ := tl_laws.
Notation rep12 := (F12_rep (K6 := K6) (E := E)).
Let ops6 := F6_ops (f12_F D).

Lemma s_add (a b : F6El E) (x y : K6) : f_rep a x -> f_rep b y -> f_rep (F6_add a b) (x + y).
Proof. apply (f_add_rep (H0 := ops6)). Qed.
Lemma s_sub (a b : F6El E) (x y : K6) : f_rep a x -> f_rep b y -> f_rep (F6_sub a b) (x - y).
Proof. apply (f_sub_rep (H0 := ops6)). Qed.
Lemma s_mul (a b : F6El E) (x y : K6) : f_rep a x -> f_rep b y -> f_rep (F6_mul (f12_F D) a b) (x * y).
Proof. apply (f_mul_rep (H0 := ops6)). Qed.
Lemma s_neg (a : F6El E) (x : K6) : f_rep a x -> f_rep (F6_neg a) (- x).
Proof. apply (f_neg_rep (H0 := ops6)). Qed.
Lemma s_square (a : F6El E) (x : K6) : f_rep a x -> f_rep (F6_square (f12_F D) a) (x * x).
Proof. apply (f_square_rep (H0 := ops6)). Qed.
Lemma s_inv (a : F6El E) (x : K6) : f_rep a x -> x <> 0 -> f_rep (F6_inv (f12_F D) a) (kinv x).
Proof. apply (f_inv_rep (H0 := ops6)). Qed.
Lemma s_zero : f_rep (f6_fZero (f12_F D)) (0 : K6).
Proof. apply (f_zero_rep (H0 := ops6)). Qed.
Lemma s_one : f_rep (f6_fOne (f12_F D)) (1 : K6).
Proof. apply (f_one_rep (H0 := ops6)). Qed.
Lemma s_negOne : f_rep (f6_fNegOne (f12_F D)) (- (1) : K6).
Proof. apply (f_negOne_rep (H0 := ops6)). Qed.
Lemma s_isZero (a : F6El E) (x : K6) : f_rep a x -> F6_isZero a = bool_decide (x = 0).
Proof. apply (f_isZero_rep (H0 := ops6)). Qed.
Lemma s_eq (a b : F6El E) (x y : K6) : f_rep a x -> f_rep b y -> F6_eq a b = bool_decide (x = y).
Proof. apply (f_eq_rep (H0 := ops6)). Qed.
#[local] Hint Resolve s_add s_sub s_mul s_neg s_square tl_mulTau tl_dbl tl_copy : tower_rep.

Lemma F12_add_rep a b x y : rep12 a x -> rep12 b y -> rep12 (F12_add a b) (q_add x y).
Proof. intros [] []. split; cbn; rep_ring. Qed.
Lemma F12_sub_rep a b x y : rep12 a x -> rep12 b y -> rep12 (F12_sub a b) (q_sub x y).
Proof. intros [] []. split; cbn; rep_ring. Qed.
Lemma F12_neg_rep a x : rep12 a x -> rep12 (F12_neg a) (q_neg x).
Proof. intros []. split; cbn; rep_ring. Qed.
Lemma F12_conjugate_rep a x : rep12 a x -> rep12 (F12_conjugate a) (q_conj x).
Proof. intros []. split; cbn; rep_ring. Qed.
Lemma F12_copy_rep a x : rep12 a x -> rep12 (F12_copy a) x.
Proof. intros []. split; cbn; rep_ring. Qed.
Lemma F12_mul_rep a b x y : rep12 a x -> rep12 b y -> rep12 (F12_mul D a b) (q_mul tau x y).
Proof. intros [] []. unfold q_mul. split; cbn [F12_mul f12x f12y fst snd]; rep_ring. Qed.
Lemma F12_square_rep a x : rep12 a x -> rep12 (F12_square D a) (q_mul tau x x).
Proof. intros []. unfold q_mul. split; cbn [F12_square f12x f12y fst snd]; rep_ring. Qed.
Lemma F12_mulScalar_rep a b x (y : K6) : rep12 a x -> f_rep b y -> rep12 (F12_mulScalar D a b) (q_mul tau x (y, 0)).
Proof. intros [] ?. unfold q_mul. split; cbn [F12_mulScalar f12x f12y fst snd]; rep_ring. Qed.

(** *** As a field: [tau] is not a square *)

Context (Htau : forall c, c * c <> tau).

Lemma F12_inv_rep a x : rep12 a x -> x <> q_zero -> rep12 (F12_inv D a) (q_inv tau x).
Proof.
  intros [Hc Hd] Hx. pose proof (q_norm_nonzero tau Htau x Hx) as Hn. destruct x as [c d].
  unfold q_inv. cbn [fst snd] in *. unfold F12_inv, F12_mulScalar. cbn [f12x f12y].
  match goal with |- context [F6_inv (f12_F D) ?e] => set (n := e) end.
  assert (Hi : f_rep (F6_inv (f12_F D) n) (kinv (q_norm tau (c, d)))).
  { apply s_inv; [|done]. unfold n, q_norm. rep_ring. }
  split; cbn [f12x f12y fst snd]; (eapply f_rep_eq; [apply s_mul; [|exact Hi]; eauto with tower_rep|by field]).
Qed.

Lemma F12_isZero_rep a x : rep12 a x -> F12_isZero a = bool_decide (x = q_zero).
Proof.
  destruct x as [c d]. intros (Hc & Hd). unfold F12_isZero, q_zero. cbn [fst snd] in *.
  rewrite (s_isZero _ _ Hc), (s_isZero _ _ Hd). repeat case_bool_decide; cbn; try done; congruence.
Qed.

Lemma F12_isOne_rep a x : rep12 a x -> F12_isOne a = bool_decide (x = q_one).
Proof.
  destruct x as [c d]. intros (Hc & Hd). unfold F12_isOne, q_one. cbn [fst snd] in *.
  rewrite (tl_isOne _ _ Hc), (s_isZero _ _ Hd). repeat case_bool_decide; cbn; try done; congruence.
Qed.

Lemma F12_eq_rep a b x y : rep12 a x -> rep12 b y -> F12_eq a b = bool_decide (x = y).
Proof.
  destruct x as [c d], y as [c' d']. intros (Hc & Hd) (Hc' & Hd'). unfold F12_eq. cbn [fst snd] in *.
  rewrite (s_eq _ _ _ _ Hc Hc'), (s_eq _ _ _ _ Hd Hd'). repeat case_bool_decide; cbn; try done; congruence.
Qed.

Definition F12_constants : Prop :=
  f12_fZero D = mkF12 (f6_fZero (f12_F D)) (f6_fZero (f12_F D)) /\
  f12_fOne D = mkF12 (f6_fZero (f12_F D)) (f6_fOne (f12_F D)) /\
  f12_fNegOne D = mkF12 (f6_fZero (f12_F D)) (f6_fNegOne (f12_F D)).

Lemma F12_laws : F12_constants -> @FieldLaws (K6 * K6) (F12El E) (Quad_field tau Htau) (F12_ops D) F12_rep.
Proof.
  intros (EZ & E1 & EN).
  split; cbn [k0 k1 kadd kmul ksub kopp kdiv kinv Quad_field f_zero f_one f_negOne f_add f_sub f_mul f_neg
    f_square f_inv f_div f_isZero f_eq F12_ops].
  - rewrite EZ. split; apply s_zero.
  - rewrite E1. split; [apply s_one|apply s_zero].
  - rewrite EN. split; [apply s_negOne|]. cbn. eapply f_rep_eq; [apply s_zero|ring].
  - intros. by apply F12_add_rep.
  - intros. by apply F12_sub_rep.
  - intros. by apply F12_mul_rep.
  - intros. by apply F12_neg_rep.
  - intros. by apply F12_square_rep.
  - intros. by apply F12_inv_rep.
  - intros. unfold F12_div, q_div. apply F12_mul_rep; [done|]. by apply F12_inv_rep.
  - intros. by apply F12_isZero_rep.
  - intros. by apply F12_eq_rep.
Qed.
End F12.

(** ** The Frobenius routines *)

(** ** Powers of the generators *)

Section QuadPowers.
Context {K : Type} {KF : KField K} (nr : K) (Hnr : forall c, (c * c)%K <> nr).
Add Field K_field_qp : (k_theory (K := K)).
#[local] Instance quad : KField (K * K) := Quad_field nr Hnr.
#[local] Open Scope field_scope.

Lemma quad_mul (x y : K * K) : x * y = q_mul nr x y.
Proof. done. Qed.
Lemma quad_add (x y : K * K) : x + y = q_add x y.
Proof. done. Qed.
Lemma quad_one : (1 : K * K) = (1, 0).
Proof. done. Qed.

Lemma quad_knat n : (knat n : K * K) = (knat n, 0).
Proof.
  induction n as [|n IH]; [done|]. rewrite !knat_S, IH, quad_add, quad_one. unfold q_add. cbn [fst snd]. pair_ring.
Qed.

Lemma quad_scalar_pow (a : K) n : kpow ((a, 0) : K * K) n = (kpow a n, 0).
Proof.
  induction n as [|n IH]; [done|]. cbn [kpow]. rewrite IH, quad_mul. unfold q_mul. cbn [fst snd]. pair_ring.
Qed.

(** [u ^ (2 m + 1) = nr ^ m * u] *)
Lemma quad_u_pow m : kpow ((0, 1) : K * K) (2 * m + 1) = (0, kpow nr m).
Proof.
  induction m as [|m IH].
  - cbn [kpow Nat.mul Nat.add]. rewrite quad_mul, quad_one. unfold q_mul. cbn [fst snd]. pair_ring.
  - replace (2 * S m + 1)%nat with (S (S (2 * m + 1))) by lia. cbn [kpow]. rewrite IH, !quad_mul.
    unfold q_mul. cbn [fst snd]. pair_ring.
Qed.

Lemma quad_frobenius p m (x : K * K) :
  Z.prime (Z.of_nat p) -> (knat p : K) = 0 -> p = (2 * m + 1)%nat ->
  kpow x p = (kpow (fst x) p, kpow (snd x) p * kpow nr m).
Proof.
  intros Hp Hc Hm. destruct x as [a b]. cbn [fst snd].
  replace ((a, b) : K * K) with ((a, 0) + (b, 0) * (0, 1) : K * K).
  2:{ rewrite quad_add, quad_mul. unfold q_add, q_mul. cbn [fst snd]. pair_ring. }
  rewrite frobenius_add, kpow_mul_l, !quad_scalar_pow by (done || by rewrite quad_knat, Hc).
  rewrite Hm at 3. rewrite quad_u_pow, quad_add, quad_mul. unfold q_add, q_mul. cbn [fst snd]. pair_ring.
Qed.
End QuadPowers.

Section CubicPowers.
Context {K : Type} {KF : KField K} (xi : K) (Hxi : forall c, (c * (c * c))%K <> xi).
Add Field K_field_cp : (k_theory (K := K)).
#[local] Instance cubic : KField (K * K * K) := Cubic_field xi Hxi.
#[local] Open Scope field_scope.

Lemma cubic_mul (x y : K * K * K) : x * y = c_mul xi x y.
Proof. done. Qed.
Lemma cubic_add (x y : K * K * K) : x + y = c_add x y.
Proof. done. Qed.
Lemma cubic_one : (1 : K * K * K) = (0, 0, 1).
Proof. done. Qed.

Lemma cubic_knat n : (knat n : K * K * K) = (0, 0, knat n).
Proof.
  induction n as [|n IH]; [done|]. rewrite !knat_S, IH, cubic_add, cubic_one. unfold c_add. pair_ring.
Qed.

Lemma cubic_scalar_pow (a : K) n : kpow ((0, 0, a) : K * K * K) n = (0, 0, kpow a n).
Proof.
  induction n as [|n IH]; [done|]. cbn [kpow]. rewrite IH, cubic_mul. unfold c_mul. pair_ring.
Qed.

(** [t ^ (3 m) = xi ^ m] *)
Lemma cubic_t_pow m : kpow ((0, 1, 0) : K * K * K) (3 * m) = (0, 0, kpow xi m).
Proof.
  induction m as [|m IH]; [done|].
  replace (3 * S m)%nat with (S (S (S (3 * m)))) by lia. cbn [kpow]. rewrite IH, !cubic_mul.
  unfold c_mul. pair_ring.
Qed.

Lemma cubic_frobenius p m (x y z : K) :
  Z.prime (Z.of_nat p) -> (knat p : K) = 0 -> p = (3 * m + 1)%nat ->
  kpow ((x, y, z) : K * K * K) p =
    (kpow x p * kpow xi (2 * m), kpow y p * kpow xi m, kpow z p).
Proof.
  intros Hp Hc Hm.
  replace ((x, y, z) : K * K * K) with ((0, 0, z) + (0, 1, 0) * ((0, 0, y) + (0, 1, 0) * (0, 0, x)) : K * K * K).
  2:{ rewrite !cubic_add, !cubic_mul. unfold c_add, c_mul. pair_ring. }
  assert (Ht : kpow ((0, 1, 0) : K * K * K) p = (0, kpow xi m, 0)).
  { rewrite Hm, kpow_add, cubic_t_pow. cbn [kpow]. rewrite !cubic_mul, cubic_one. unfold c_mul. pair_ring. }
  assert (H0 : (knat p : K * K * K) = 0) by (by rewrite cubic_knat, Hc).
  rewrite !(frobenius_add p Hp H0), !kpow_mul_l, !(frobenius_add p Hp H0), !kpow_mul_l, !cubic_scalar_pow, Ht.
  rewrite Nat.mul_comm, kpow_mul. cbn [kpow].
  rewrite !cubic_add, !cubic_mul. unfold c_add, c_mul. pair_ring.
Qed.
End CubicPowers.
