(* ===== verification/TowerBn.v ===== *)
(** The tower of the pairing: a field of prime order [p = 6 m + 1] without a square root
    of -1, [u^2 = -1], [t^3 = xi = 9 + u] and [w^2 = t], from the powers of [xi] alone. *)

From Stdlib Require Import Field ArithRing.
From S2P Require Import Prelude Mpz Field Dft Powers ExtField Tower TowerSpec.

(** The field of the coordinates. *)
Class BnBase (K : Type) `{KField K} (p m : nat) : Prop := {
  bn_prime : Z.prime (Z.of_nat p);
  bn_char : knat p = 0%K;
  bn_fermat (x : K) : kpow x p = x;
  bn_p : p = (6 * m + 1)%nat;
  bn_neg : kpow (- (1))%K (3 * m) = (- (1))%K
}.

Section Base.
Context {K : Type} {KF : KField K} {p m : nat} {B : BnBase K p m}.
Add Field K_field_bn : (k_theory (K := K)).
#[local] Open Scope field_scope.

Lemma bn_two : (1 + 1 : K) <> 0.
Proof.
  intros E2. apply (k_one_nonzero (K := K)). pose proof (bn_char (K := K)) as Hc.
  rewrite bn_p, knat_add in Hc. replace (6 * m)%nat with (2 * (3 * m))%nat in Hc by lia.
  rewrite knat_double, E2 in Hc. unfold knat at 2 in Hc. cbn [ksum] in Hc. rewrite <- Hc. ring.
Qed.

Lemma bn_order (x : K) : x <> 0 -> kpow x (6 * m) = 1.
Proof.
  intros Hx. pose proof (bn_fermat x) as Hf. rewrite bn_p, kpow_add in Hf. cbn [kpow] in Hf.
  transitivity (kpow x (6 * m) * (x * 1) / x); [kfield|]. rewrite Hf. kfield.
Qed.

(** Squares and cubes, by their powers. *)
Lemma bn_square_pow (c x : K) : x <> 0 -> c * c = x -> kpow x (3 * m) = 1.
Proof.
  intros Hx <-. rewrite <- (bn_order c).
  - rewrite kpow_mul_l, <- kpow_add. f_equal. lia.
  - intros ->. apply Hx. ring.
Qed.

Lemma bn_cube_pow (c x : K) : x <> 0 -> c * (c * c) = x -> kpow x (2 * m) = 1.
Proof.
  intros Hx <-. rewrite <- (bn_order c).
  - rewrite !kpow_mul_l, <- !kpow_add. f_equal. lia.
  - intros ->. apply Hx. ring.
Qed.

Lemma bn_minus_one : (- (1) : K) <> 0.
Proof. intros E1. apply (k_one_nonzero (K := K)). transitivity (- - (1) : K); [ring|]. rewrite E1. ring. Qed.

Lemma bn_nonsquare (c : K) : c * c <> - (1).
Proof.
  intros E1. apply bn_square_pow in E1; [|apply bn_minus_one]. rewrite bn_neg in E1.
  apply bn_two. rewrite <- E1 at 1. ring.
Qed.
End Base.

(** The quadratic extension. *)
Definition bn2 {K p m} `{BnBase K p m} : KField (K * K) := Quad_field (- (1))%K bn_nonsquare.

(** The power of [xi] all constants come from. *)
Class BnTower (K : Type) {KF : KField K} (p m : nat) (B : BnBase K p m) (g : K * K) : Prop := {
  bn_gamma : @kpow _ bn2 q_xi m = g;
  bn_g2 : let n := q_norm (- (1))%K g in (n * n)%K <> 1%K;
  bn_g3 : let n := q_norm (- (1))%K g in (n * (n * n))%K <> 1%K
}.

Section Tower.
Context {K : Type} {KF : KField K} {p m : nat} {B : BnBase K p m} {g : K * K} {T : BnTower K p m B g}.
Add Field K_field_bn2 : (k_theory (K := K)).
#[local] Open Scope field_scope.
#[local] Existing Instance bn2.
Notation nr := (- (1) : K).
Notation xi := (q_xi : K * K).

Lemma norm_pow (x : K * K) n : q_norm nr (kpow x n) = kpow (q_norm nr x) n.
Proof.
  induction n as [|n IH]; cbn [kpow].
  - unfold q_norm. cbn. ring.
  - change (q_norm nr (q_mul nr x (kpow x n)) = q_norm nr x * kpow (q_norm nr x) n).
    by rewrite q_norm_mul, IH.
Qed.

Lemma norm_gamma : kpow (q_norm nr xi) m = q_norm nr g.
Proof. by rewrite <- (bn_gamma (g := g)), norm_pow. Qed.

Lemma norm_xi : q_norm nr xi <> 0.
Proof.
  intros E0. apply q_norm_nonzero in E0; [done|apply bn_nonsquare|]. unfold q_xi, q_zero.
  intros [= _ H1]. by apply (k_one_nonzero (K := K)).
Qed.

Lemma bn_noncube (c : K * K) : c * (c * c) <> xi.
Proof.
  intros E1. assert (EN : q_norm nr c * (q_norm nr c * q_norm nr c) = q_norm nr xi).
  { rewrite <- !q_norm_mul. by f_equal. }
  apply bn_cube_pow in EN; [|apply norm_xi]. apply (bn_g2 (g := g)). cbv zeta. rewrite <- norm_gamma.
  etransitivity; [|exact EN]. rewrite <- kpow_add. f_equal. lia.
Qed.

(** The cubic extension. *)
Definition bn6 : KField (K * K * (K * K) * (K * K)) := Cubic_field xi bn_noncube.
#[local] Existing Instance bn6.

Definition tau : K * K * (K * K) * (K * K) := (0, 1, 0).

Lemma bn_nonsquare6 (c : K * K * (K * K) * (K * K)) : c * c <> tau.
Proof.
  intros E1. assert (E2 : c_norm xi c * c_norm xi c = xi).
  { rewrite <- c_norm_mul. transitivity (c_norm xi tau); [by f_equal|]. apply c_norm_tau. }
  assert (EN : q_norm nr (c_norm xi c) * q_norm nr (c_norm xi c) = q_norm nr xi).
  { rewrite <- q_norm_mul. by f_equal. }
  apply bn_square_pow in EN; [|apply norm_xi]. apply (bn_g3 (g := g)). cbv zeta. rewrite <- norm_gamma.
  etransitivity; [|exact EN]. rewrite <- !kpow_add. f_equal. lia.
Qed.

(** The second quadratic extension. *)
Definition bn12 : KField (K * K * (K * K) * (K * K) * (K * K * (K * K) * (K * K))) :=
  Quad_field tau bn_nonsquare6.
#[local] Existing Instance bn12.
Notation K2 := (K * K)%type.
Notation K6 := (K * K * (K * K) * (K * K))%type.
Notation K12 := (K6 * K6)%type.

(** *** The [p]-th power *)

Add Field K_field_bn2b : (@k_theory _ bn2).

Lemma bn2_char : (knat p : K2) = 0.
Proof. unfold bn2. rewrite quad_knat, bn_char. done. Qed.
Lemma bn6_char : (knat p : K6) = 0.
Proof. unfold bn6. rewrite cubic_knat, bn2_char. done. Qed.
Lemma bn12_char : (knat p : K12) = 0.
Proof. unfold bn12. rewrite quad_knat, bn6_char. done. Qed.

Lemma frob2 (x : K2) : kpow x p = q_conj x.
Proof.
  unfold bn2. rewrite (quad_frobenius nr bn_nonsquare p (3 * m));
    [|apply bn_prime|apply bn_char|rewrite bn_p; lia].
  rewrite !bn_fermat, bn_neg. unfold q_conj. pair_ring.
Qed.

Lemma frob6 (x y z : K2) :
  kpow ((x, y, z) : K6) p = (q_conj x * (g * g * (g * g)), q_conj y * (g * g), q_conj z).
Proof.
  unfold bn6. rewrite (cubic_frobenius xi bn_noncube p (2 * m));
    [|apply bn_prime|apply bn2_char|rewrite bn_p; lia].
  rewrite !frob2, (Nat.mul_comm 2 m), (Nat.mul_comm 2 (m * 2)), !kpow_mul, bn_gamma. cbn [kpow].
  apply (f_equal2 pair); [apply (f_equal2 pair); ring|done].
Qed.

Lemma kpow_tau : kpow (tau : K6) (3 * m) = (0, 0, g).
Proof. etransitivity; [apply (cubic_t_pow xi bn_noncube m)|]. by rewrite bn_gamma. Qed.

Lemma frob12 (x : K12) : kpow x p = (kpow (fst x) p, kpow (snd x) p * (0, 0, g)).
Proof.
  unfold bn12. rewrite (quad_frobenius tau bn_nonsquare6 p (3 * m));
    [|apply bn_prime|apply bn6_char|rewrite bn_p; lia].
  by rewrite kpow_tau.
Qed.
End Tower.

(** ** The classes over the tower *)
Section Classes.
Context {K : Type} {KF : KField K} {p m : nat} {B : BnBase K p m} {g : K * K} {T : BnTower K p m B g}.
Context {E : Type} {FO : FieldOps E} {R : FieldRep K E} {L : FieldLaws K E}.
Add Field K_field_bn3 : (k_theory (K := K)).
#[local] Open Scope field_scope.
#[local] Existing Instances bn2 bn6 bn12 F2_rep F6_rep F12_rep.
Add Field K_field_bn3b : (@k_theory _ bn2).
Add Field K_field_bn3c : (@k_theory _ bn6).
Notation nr := (- (1) : K).
Notation xi := (q_xi : K * K).
Notation K2 := (K * K)%type.
Notation K6 := (K * K * (K * K) * (K * K))%type.
Notation K12 := (K6 * K6)%type.

Context (anr : E) (Hanr : f_rep anr nr).
Context (c1 c2 c5 : F2El E) (c3 c4 c6 : E).
(** The objects the constructors make. *)
Let D2 := F2_initField anr.
Let D6 := F6_new D2 c1 c2 c3 c4.
Let D12 := F12_new D6 c5 c6.

Lemma bn2_laws : @FieldLaws K2 (F2El E) _ (F2_ops D2) _.
Proof. by apply F2_laws. Qed.

#[export] Instance bn_xi_laws : XiLaws K2 E D2 xi.
Proof.
  split; [apply bn2_laws|..]; intros a x Ha.
  - by apply (F2_mulXi_rep anr nr Hanr).
  - by apply F2_dbl_rep.
  - by apply F2_copy_rep.
  - by apply F2_isOne_rep.
Qed.

Lemma bn6_laws : @FieldLaws K6 (F6El E) _ (F6_ops D6) _.
Proof. apply F6_laws; [apply bn_xi_laws|by split]. Qed.

#[export] Instance bn_tau_laws : TauLaws K6 E D6 tau.
Proof.
  split; [apply bn6_laws|..]; intros a x Ha.
  - exact (F6_mulTau_rep D6 xi a x Ha).
  - exact (F6_dbl_rep D6 xi a x Ha).
  - exact (F6_copy_rep D6 xi a x Ha).
  - exact (F6_isOne_rep D6 xi a x Ha).
Qed.

Lemma bn12_laws : @FieldLaws K12 (F12El E) _ (F12_ops D12) _.
Proof. apply F12_laws; [apply bn_tau_laws|by split]. Qed.

(** *** The Frobenius routines

    The constants are the powers of [xi] their names say. *)
Notation n1 := (q_norm nr g).
Context (H1 : f_rep c1 (g * g * (g * g))) (H2 : f_rep c2 (g * g)) (H5 : f_rep c5 g).
Context (H3 : f_rep c3 (n1 * n1 * (n1 * n1))) (H4 : f_rep c4 (n1 * n1)) (H6 : f_rep c6 n1).

Lemma F2_conjugate_pow a (x : K2) : f_rep a x -> f_rep (F2_conjugate a) (kpow x p).
Proof. intros Ha. rewrite frob2. by apply F2_conjugate_rep. Qed.

Lemma F2_mulScalar_pow a b (x : K2) (y : K) :
  f_rep a x -> f_rep b y -> f_rep (F2_mulScalar a b) (x * (y, 0)).
Proof. intros Ha Hb. exact (F2_mulScalar_rep nr a b x y Ha Hb). Qed.

Lemma F6_Frobenius_pow a (x : K6) : f_rep a x -> f_rep (F6_Frobenius D6 a) (kpow x p).
Proof.
  destruct x as [[x y] z]. intros (Hx & Hy & Hz). rewrite frob6. rewrite <- !frob2.
  split; [|split]; cbn [f6x f6y f6z F6_Frobenius].
  - apply (@f_mul_rep K2 (F2El E) _ (F2_ops D2) _ bn2_laws); [|exact H1]. by apply F2_conjugate_pow.
  - apply (@f_mul_rep K2 (F2El E) _ (F2_ops D2) _ bn2_laws); [|exact H2]. by apply F2_conjugate_pow.
  - by apply F2_conjugate_pow.
Qed.

Lemma conj_conj (x : K2) : kpow (kpow x p) p = x.
Proof. rewrite !frob2. unfold q_conj. destruct x. cbn [fst snd]. pair_ring. Qed.

Lemma gamma_norm : g * kpow g p = (n1, 0).
Proof. rewrite frob2. apply q_norm_conj. Qed.

Lemma n1_square : (n1, 0) * (n1, 0) = ((n1 * n1, 0) : K2).
Proof. change (q_mul nr (n1, 0) (n1, 0) = (n1 * n1, 0)). unfold q_mul. cbn [fst snd]. pair_ring. Qed.
Lemma n1_fourth : (n1, 0) * (n1, 0) * ((n1, 0) * (n1, 0)) = ((n1 * n1 * (n1 * n1), 0) : K2).
Proof.
  rewrite n1_square. change (q_mul nr (n1 * n1, 0) (n1 * n1, 0) = (n1 * n1 * (n1 * n1), 0)).
  unfold q_mul. cbn [fst snd]. pair_ring.
Qed.

Lemma frob6_twice (x y z : K2) :
  kpow (kpow ((x, y, z) : K6) p) p = (x * (n1 * n1 * (n1 * n1), 0), y * (n1 * n1, 0), z).
Proof.
  rewrite !frob6, <- !frob2, !kpow_mul_l, !conj_conj, <- n1_fourth, <- n1_square, <- gamma_norm.
  apply (f_equal2 pair); [apply (f_equal2 pair); ring|done].
Qed.

Lemma F6_FrobeniusP2_pow a (x : K6) : f_rep a x -> f_rep (F6_FrobeniusP2 D6 a) (kpow (kpow x p) p).
Proof.
  destruct x as [[x y] z]. intros (Hx & Hy & Hz). rewrite frob6_twice.
  split; [|split]; cbn [f6x f6y f6z F6_FrobeniusP2].
  - by apply F2_mulScalar_pow.
  - by apply F2_mulScalar_pow.
  - by apply F2_copy_rep.
Qed.

Lemma F6_mulGFP_rep a b (x : K6) (y : K) :
  f_rep a x -> f_rep b y -> f_rep (F6_mulGFP a b) (x * (0, 0, (y, 0))).
Proof.
  destruct x as [[x x'] x'']. intros (Hx & Hy & Hz) Hb.
  assert (E6 : ((x, x', x'') : K6) * (0, 0, (y, 0)) = (x * (y, 0), x' * (y, 0), x'' * (y, 0))).
  { change (c_mul xi (x, x', x'') (0, 0, (y, 0)) = (x * (y, 0), x' * (y, 0), x'' * (y, 0))).
    unfold c_mul. apply (f_equal2 pair); [apply (f_equal2 pair); ring|ring]. }
  rewrite E6. split; [|split]; cbn [f6x f6y f6z F6_mulGFP]; by apply F2_mulScalar_pow.
Qed.

(** [Frobenius] raises to the power [p]. *)
Lemma F12_Frobenius_pow a (x : K12) : f_rep a x -> f_rep (F12_Frobenius D12 a) (kpow x p).
Proof.
  intros [Hc Hd]. rewrite frob12. split; cbn [f12x f12y fst snd F12_Frobenius].
  - by apply F6_Frobenius_pow.
  - exact (F6_mulScalar_rep D6 xi _ _ _ g (F6_Frobenius_pow _ _ Hd) H5).
Qed.

Lemma gamma_scalar : kpow ((0, 0, g) : K6) p * (0, 0, g) = (0, 0, (n1, 0)).
Proof.
  unfold bn6. rewrite cubic_scalar_pow, <- gamma_norm.
  change (c_mul xi (0, 0, kpow g p) (0, 0, g) = (0, 0, g * kpow g p)). unfold c_mul.
  apply (f_equal2 pair); [apply (f_equal2 pair); ring|ring].
Qed.

Lemma frob12_twice (x : K12) :
  kpow (kpow x p) p = (kpow (kpow (fst x) p) p, kpow (kpow (snd x) p) p * (0, 0, (n1, 0))).
Proof.
  rewrite !frob12. cbn [fst snd]. rewrite kpow_mul_l, <- gamma_scalar.
  apply (f_equal2 pair); [done|ring].
Qed.

(** [FrobeniusP2] raises to the power [p * p]. *)
Lemma F12_FrobeniusP2_pow a (x : K12) : f_rep a x -> f_rep (F12_FrobeniusP2 D12 a) (kpow (kpow x p) p).
Proof.
  intros [Hc Hd]. rewrite frob12_twice.
  split; cbn [f12x f12y fst snd F12_FrobeniusP2].
  - by apply F6_FrobeniusP2_pow.
  - eapply f_rep_eq; [apply F6_mulGFP_rep; [by apply F6_FrobeniusP2_pow|exact H6]|].
    done.
Qed.

(** *** What the pairing uses *)

Lemma F12_conjugate_conj a (x : K12) : f_rep a x -> f_rep (F12_conjugate a) (q_conj x).
Proof. apply (F12_conjugate_rep D12 tau). Qed.
Lemma F12_copy_same a (x : K12) : f_rep a x -> f_rep (F12_copy a) x.
Proof. apply (F12_copy_rep D12 tau). Qed.
Lemma F12_isOne_one a (x : K12) : f_rep a x -> F12_isOne a = bool_decide (x = 1).
Proof. apply (F12_isOne_rep D12 tau). Qed.
Lemma F6_mulScalar_mul a b (x : K6) (y : K2) : f_rep a x -> f_rep b y -> f_rep (F6_mulScalar D6 a b) (x * (0, 0, y)).
Proof. apply (F6_mulScalar_rep D6 xi). Qed.
End Classes.

(** ** The interface of the tower

    The fields [D2], [D6] and [D12] implement the extensions. *)
Section Interface.
Context {K E : Type} {KF : KField K} {p m : nat} {B : BnBase K p m} {g : K * K} {T : BnTower K p m B g}
  {FO : FieldOps E} {R : FieldRep K E}.
#[local] Existing Instances bn2 bn6 bn12 F2_rep F6_rep F12_rep.
#[local] Open Scope field_scope.
Notation K2 := (K * K)%type.
Notation K6 := (K * K * (K * K) * (K * K))%type.
Notation K12 := (K6 * K6)%type.

Class BnEngine (D2 : F2Field E) (D6 : F6Field E) (D12 : F12Field E) : Prop := {
  be_xi : XiLaws K2 E D2 q_xi;
  be_conj2 a (x : K2) : f_rep a x -> f_rep (F2_conjugate a) (kpow x p);
  be_scalar2 a b (x : K2) (y : K) : f_rep a x -> f_rep b y -> f_rep (F2_mulScalar a b) (x * (y, 0));
  be_tau : TauLaws K6 E D6 tau;
  be_scalar6 a b (x : K6) (y : K2) : f_rep a x -> f_rep b y -> f_rep (F6_mulScalar D6 a b) (x * (0, 0, y));
  be_12 : @FieldLaws K12 (F12El E) _ (F12_ops D12) _;
  be_conj12 a (x : K12) : f_rep a x -> f_rep (F12_conjugate a) (q_conj x);
  be_copy12 a (x : K12) : f_rep a x -> f_rep (F12_copy a) x;
  be_isOne12 a (x : K12) : f_rep a x -> F12_isOne a = bool_decide (x = 1);
  be_frob a (x : K12) : f_rep a x -> f_rep (F12_Frobenius D12 a) (kpow x p);
  be_frob2 a (x : K12) : f_rep a x -> f_rep (F12_FrobeniusP2 D12 a) (kpow (kpow x p) p)
}.

Notation n1 := (q_norm (- (1)) g).

(** Objects of the constructors with the right constants have it. *)
Lemma bn_engine {L : FieldLaws K E} (anr : E) (c1 c2 c5 : F2El E) (c3 c4 c6 : E) :
  f_rep anr (- (1) : K) ->
  f_rep c1 (g * g * (g * g) : K2) -> f_rep c2 (g * g : K2) -> f_rep c5 g ->
  f_rep c3 (n1 * n1 * (n1 * n1)) -> f_rep c4 (n1 * n1) -> f_rep c6 n1 ->
  let D2 := F2_initField anr in let D6 := F6_new D2 c1 c2 c3 c4 in
  BnEngine D2 D6 (F12_new D6 c5 c6).
Proof.
  intros Hanr H1 H2 H5 H3 H4 H6 D2 D6. split.
  - by apply bn_xi_laws.
  - by apply F2_conjugate_pow.
  - by apply F2_mulScalar_pow.
  - by apply bn_tau_laws.
  - intros a b x y. by apply F6_mulScalar_mul.
  - by apply bn12_laws.
  - by apply (F12_conjugate_conj anr Hanr c1 c2 c5 c3 c4 c6).
  - by apply (F12_copy_same anr Hanr c1 c2 c5 c3 c4 c6).
  - by apply (F12_isOne_one anr Hanr c1 c2 c5 c3 c4 c6).
  - by apply F12_Frobenius_pow.
  - by apply F12_FrobeniusP2_pow.
Qed.
End Interface.
