(* ===== verification/Fft.v ===== *)
(** The fast Fourier transform of [depends/ffiasm/c/fft.cpp] and [fft.hpp], over any
    field class with conversions to and from big integers.  Parallel loops run along
    logs of the thread pool; [None] is an access outside an array or to an
    uninitialised cell, an undefined shift or a failing assertion. *)

From Stdlib Require Import String.
From stdpp Require Import sets.
From S2P Require Import Prelude Mpz Loops Parallel Schedule Field.

(** ** The field class

    What the constructor uses beyond the field operations: [exp] by a little-endian
    byte string, [toMpz] and [fromMpz]. *)
Class FftField (E : Type) := {
  ff_ops :: FieldOps E;
  f_exp : E -> list Z -> E;
  f_toMpz : E -> Z;
  f_fromMpz : Z -> E
}.

Record Fft (E : Type) := mkFft {
  fft_s : Z;
  fft_nqr : E;
  fft_roots : array E;
  fft_powTwoInv : array E
}.
#[global] Arguments mkFft {E} _ _ _ _.
#[global] Arguments fft_s {E} _. #[global] Arguments fft_nqr {E} _.
#[global] Arguments fft_roots {E} _. #[global] Arguments fft_powTwoInv {E} _.

(** ** Loops that are not counted *)

(** [while (n != 1) { n >>= 1; res++; }] *)
Fixpoint log2_loop (fuel : nat) (n res : Z) : option Z :=
  if n =? 1 then Some res
  else match fuel with O => None | S fuel => log2_loop fuel (Z.shiftr n 1) (u32 (res + 1)) end.

(** [FFT::log2]; the loop does not end on 0, which the assertion excludes. *)
Definition FFT_log2 (n : Z) : option Z := if n =? 0 then None else log2_loop 64 n 0.

(** The search for a non-residue from [m_nqr] on, [m_aux] being its power. *)
Fixpoint nqr_loop {M : Mpz} (fuel : nat) (m_nqr m_aux m_qm1d2 m_q : Z) : option Z :=
  if m_aux =? 1 then
    match fuel with
    | O => None
    | S fuel =>
        let m_nqr := m_nqr + 1 in
        nqr_loop fuel m_nqr (mpz_powm m_nqr m_qm1d2 m_q) m_qm1d2 m_q
    end
  else Some m_nqr.

(** [while ((!mpz_tstbit(m_aux, 0)) && (s < domainPow)) { m_aux >>= 1; s++; }] *)
Fixpoint adicity_loop (fuel : nat) (m_aux s domainPow : Z) : option (Z * Z) :=
  if negb (Z.testbit m_aux 0) && (s <? domainPow) then
    match fuel with
    | O => None
    | S fuel => adicity_loop fuel (Z.shiftr m_aux 1) (u32 (s + 1)) domainPow
    end
  else Some (m_aux, s).

(** [BR]: the 32-bit word [x] reversed, then shifted down; a shift by 64 or more is
    undefined. *)
Definition BR (x domainPow : Z) : option Z :=
  let x := Z.lor (Z.shiftr x 16) (u64 (Z.shiftl x 16)) in
  let x := Z.lor (Z.shiftr (Z.land x 0xFF00FF00) 8) (u64 (Z.shiftl (Z.land x 0x00FF00FF) 8)) in
  let x := Z.lor (Z.shiftr (Z.land x 0xF0F0F0F0) 4) (u64 (Z.shiftl (Z.land x 0x0F0F0F0F) 4)) in
  let x := Z.lor (Z.shiftr (Z.land x 0xCCCCCCCC) 2) (u64 (Z.shiftl (Z.land x 0x33333333) 2)) in
  let x := Z.lor (Z.shiftr (Z.land x 0xAAAAAAAA) 1) (u64 (Z.shiftl (Z.land x 0x55555555) 1)) in
  let shift := u64 (32 - domainPow) in
  if shift <? 64 then Some (Z.shiftr x shift) else None.

Section Fft.
Context {E : Type} {FF : FftField E} {M : Mpz}.

(** ** The constructor *)

(** The share of thread [idThread] in the table of roots. *)
Definition roots_block (nRoots nThreads idThread : Z) (roots : array E) : option (array E) :=
  let increment := nRoots / nThreads in
  let start := if idThread =? 0 then 2 else u64 (idThread * increment) in
  let end_ := if idThread =? nThreads - 1 then nRoots else u64 ((idThread + 1) * increment) in
  roots ← (if end_ >? start then
             root1 ← array_get roots 1;
             array_set roots start (f_exp root1 (le_bytes 8 start))
           else Some roots);
  for_each (seqZ (start + 1) (end_ - (start + 1)))
    (fun i roots =>
      x ← array_get roots (i - 1);
      root1 ← array_get roots 1;
      array_set roots i (f_mul x root1)) roots.

(** [for (i = 2; i <= s; i++) powTwoInv[i] = powTwoInv[i-1] * powTwoInv[1]] *)
Definition powers_loop (s : Z) (powTwoInv : array E) : option (array E) :=
  for_each (seqZ 2 (s - 1))
    (fun i powTwoInv =>
      x ← array_get powTwoInv (i - 1);
      y ← array_get powTwoInv 1;
      array_set powTwoInv i (f_mul x y)) powTwoInv.

(** [FFT::FFT]; [inl] is the exception with its message. *)
Definition FFT_new (fuel : nat) (nThreads : Z) (log : list (Z * nat)) (maxDomainSize : Z)
  : option (string + Fft E) :=
  domainPow ← FFT_log2 maxDomainSize;
  let m_aux := f_toMpz f_negOne in
  let m_q := m_aux + 1 in
  let m_qm1d2 := Z.shiftr m_aux 1 in
  m_nqr ← nqr_loop fuel 2 (mpz_powm 2 m_qm1d2 m_q) m_qm1d2 m_q;
  let nqr := f_fromMpz m_nqr in
  '(m_aux, s) ← adicity_loop (Z.to_nat domainPow) m_qm1d2 1 domainPow;
  if s <? domainPow then Some (inl "Domain size too big for the curve"%string)
  else if s >=? 63 then None
  else
    let nRoots := Z.shiftl 1 s in
    roots ← array_set (new_array nRoots) 0 f_one;
    powTwoInv ← array_set (new_array (s + 1)) 0 f_one;
    '(roots, powTwoInv) ← (if nRoots >? 1 then
        roots ← array_set roots 1 (f_fromMpz (mpz_powm m_nqr m_aux m_q));
        powTwoInv ← array_set powTwoInv 1 (f_fromMpz (fst (mpz_invert 2 m_q)));
        Some (roots, powTwoInv)
      else Some (roots, powTwoInv));
    roots ← run_block log (roots_block nRoots nThreads) roots;
    last ← array_get roots (nRoots - 1);
    root1 ← array_get roots 1;
    if f_eq (f_mul last root1) f_one then
      powTwoInv ← powers_loop s powTwoInv;
      Some (inr (mkFft s nqr roots powTwoInv))
    else None.

(** ** The transforms *)

(** [FFT::root]: the shift count is a 32-bit difference. *)
Definition FFT_root (F : Fft E) (domainPow idx : Z) : option E :=
  let shift := u32 (fft_s F - domainPow) in
  if shift <? 64 then array_get (fft_roots F) (u64 (Z.shiftl idx shift)) else None.

(** The body of [reversePermutation]'s loop. *)
Definition reverse_step (domainPow i : Z) (a : array E) : option (array E) :=
  r ← BR i domainPow;
  if i >? r then
    tmp ← array_get a i;
    x ← array_get a r;
    a ← array_set a i x;
    array_set a r tmp
  else Some a.

Definition reversePermutation (log : list (JobRange * nat)) (a : array E) (n : Z) : option (array E) :=
  domainPow ← FFT_log2 n;
  run_log log (fun _ => reverse_step domainPow) a.

(** The body of the loop of stage [s], where [m = 1 << s]. *)
Definition butterfly (F : Fft E) (s m mdiv2 i : Z) (a : array E) : option (array E) :=
  let k := u64 (i / mdiv2 * m) in
  let j := i mod mdiv2 in
  r ← FFT_root F s j;
  x ← array_get a (k + j + mdiv2);
  let t := f_mul r x in
  u ← array_get a (k + j);
  a ← array_set a (k + j) (f_add t u);
  array_set a (k + j + mdiv2) (f_sub u t).

(** [FFT::fft]; [logs 0] is what the threads do to permute, [logs s] in stage [s]. *)
Definition FFT_fft (F : Fft E) (logs : Z -> list (JobRange * nat)) (a : array E) (n : Z)
  : option (array E) :=
  a ← reversePermutation (logs 0) a n;
  domainPow ← FFT_log2 n;
  if u64 (Z.shiftl 1 domainPow) =? n then
    for_each (seqZ 1 domainPow)
      (fun s a =>
        if s <? 31 then
          let m := Z.shiftl 1 s in
          let mdiv2 := Z.shiftr m 1 in
          run_log (logs s) (fun _ => butterfly F s m mdiv2) a
        else None) a
  else None.

(** The body of [ifft]'s loop. *)
Definition backwards_step (n : Z) (c : E) (i : Z) (a : array E) : option (array E) :=
  let r := n - i in
  tmp ← array_get a i;
  x ← array_get a r;
  a ← array_set a i (f_mul x c);
  array_set a r (f_mul tmp c).

Definition scale_cell (c : E) (i : Z) (a : array E) : option (array E) :=
  x ← array_get a i;
  array_set a i (f_mul x c).

(** [FFT::ifft]; [log] is what the threads do in its own loop. *)
Definition FFT_ifft (F : Fft E) (logs : Z -> list (JobRange * nat)) (log : list (JobRange * nat))
    (a : array E) (n : Z) : option (array E) :=
  a ← FFT_fft F logs a n;
  domainPow ← FFT_log2 n;
  c ← array_get (fft_powTwoInv F) domainPow;
  a ← run_log log (fun _ => backwards_step n c) a;
  a ← scale_cell c 0 a;
  scale_cell c (Z.shiftr n 1) a.
End Fft.
