(* ===== verification/FftSpec.v ===== *)
(** The loops and the bit tricks of the transform, and its theorem: it computes the
    discrete Fourier transform on every schedule of the thread pool, and its inverse
    undoes it. *)

From Stdlib Require Import Field ArithRing.
From S2P Require Import Prelude Mpz Loops Parallel Schedule Field Dft Fft.

(** ** The loops and the bit tricks *)

(** ** The logarithm *)

Lemma log2_loop_spec fuel n res :
  0 < n < 2 ^ Z.of_nat fuel -> 0 <= res -> res + Z.of_nat fuel < 2 ^ 32 ->
  log2_loop fuel n res = Some (res + Z.log2 n).
Proof.
  revert n res. induction fuel as [|fuel IH]; intros n res Hn Hres Hr.
  - cbn in Hn. lia.
  - cbn [log2_loop]. destruct (Z.eqb_spec n 1) as [->|Hne]; [by rewrite Z.add_0_r|].
    rewrite Nat2Z.inj_succ, Z.pow_succ_r in Hn by lia.
    assert (Hlog : Z.log2 (Z.shiftr n 1) = Z.log2 n - 1).
    { rewrite Z.log2_shiftr by lia. assert (1 <= Z.log2 n) by (apply Z.log2_le_pow2; cbn; lia). lia. }
    assert (E2 : Z.shiftr n 1 = n / 2) by (by rewrite Z.shiftr_div_pow2).
    rewrite u32_id by (unfold is_u32; lia).
    rewrite IH; [f_equal; rewrite Hlog; lia| |lia|lia].
    rewrite E2. Z.div_mod_to_equations; lia.
Qed.

Lemma FFT_log2_spec n : 0 < n < 2 ^ 64 -> FFT_log2 n = Some (Z.log2 n).
Proof.
  intros Hn. unfold FFT_log2. destruct (Z.eqb_spec n 0); [lia|].
  rewrite log2_loop_spec by (cbn; lia). done.
Qed.

Lemma FFT_log2_pow2 d : (d < 64)%nat -> FFT_log2 (2 ^ Z.of_nat d) = Some (Z.of_nat d).
Proof.
  intros Hd. rewrite FFT_log2_spec; [by rewrite Z.log2_pow2 by lia|].
  split; [apply Z.pow_pos_nonneg; lia|apply Z.pow_lt_mono_r; lia].
Qed.

(** ** The least non-residue *)

Lemma nqr_loop_spec {M : Mpz} {ML : MpzLaws M} fuel a z h q :
  0 <= h -> 0 < q -> a <= z -> (Z.to_nat (z - a) <= fuel)%nat ->
  (forall k, a <= k < z -> k ^ h mod q = 1) -> z ^ h mod q <> 1 ->
  nqr_loop fuel a (mpz_powm a h q) h q = Some z.
Proof.
  intros Hh Hq. revert a. induction fuel as [|fuel IH]; intros a Ha Hf Hres Hz; cbn [nqr_loop].
  - assert (a = z) as -> by lia. rewrite mpz_powm_spec by lia.
    by rewrite (proj2 (Z.eqb_neq _ _) Hz).
  - rewrite mpz_powm_spec by lia. destruct (Z.eqb_spec (a ^ h mod q) 1) as [E|E].
    + apply IH; [|lia| |done].
      * destruct (decide (a = z)) as [->|]; [done|lia].
      * intros k Hk. apply Hres. lia.
    + f_equal. destruct (decide (a = z)) as [|Hne]; [done|]. exfalso. apply E, Hres. lia.
Qed.

(** ** The power of two in the order *)

(** [m_aux] is the order of the field shifted by [s]; the loop stops when it is odd or
    enough. *)
Lemma adicity_loop_spec fuel order m s d :
  m = order / 2 ^ s -> (2 ^ s | order) -> 0 < order -> 1 <= s -> s + Z.of_nat fuel < 2 ^ 32 ->
  d - s <= Z.of_nat fuel ->
  exists s', adicity_loop fuel m s d = Some (order / 2 ^ s', s') /\ (2 ^ s' | order) /\
    s <= s' <= Z.max s d /\ ((2 ^ d | order) -> d <= s').
Proof.
  revert m s. induction fuel as [|fuel IH]; intros m s Hm Hdiv Ho Hs Hf Hd; cbn [adicity_loop].
  - rewrite (proj2 (Z.ltb_ge s d)) by lia. rewrite andb_false_r, Hm. exists s.
    split; [done|]. split; [done|]. lia.
  - destruct (Z.ltb_spec s d) as [Hlt|Hge]; [|exists s; rewrite andb_false_r, Hm;
      split; [done|]; split; [done|]; lia].
    rewrite andb_true_r. destruct (Z.testbit m 0) eqn:Hbit; cbn [negb].
    + exists s. rewrite Hm. split; [done|]. split; [done|]. split; [lia|]. intros [k Hk]. exfalso.
      rewrite Hm, Z.bit0_odd, Hk in Hbit. replace d with (s + (1 + (d - s - 1))) in Hbit by lia.
      rewrite !Z.pow_add_r in Hbit by lia.
      replace (k * (2 ^ s * (2 ^ 1 * 2 ^ (d - s - 1)))) with (2 * (k * 2 ^ (d - s - 1)) * 2 ^ s) in Hbit by ring.
      rewrite Z.div_mul in Hbit by (apply Z.pow_nonzero; lia).
      by rewrite Z.odd_mul in Hbit.
    + assert (Hev : Z.even m = true) by (by rewrite <- Z.negb_odd, <- Z.bit0_odd, Hbit).
      assert (Hp : 0 < 2 ^ s) by (apply Z.pow_pos_nonneg; lia).
      destruct Hdiv as [c Hc]. assert (Em : m = c) by (by rewrite Hm, Hc, Z.div_mul by lia).
      apply Z.even_spec in Hev as [h Hh].
      rewrite u32_id by (unfold is_u32; lia). rewrite Z.shiftr_div_pow2 by lia.
      destruct (IH (m / 2 ^ 1) (s + 1)) as (s' & E & Hdiv' & Hs' & Hmax); [|exists h|lia..|].
      * rewrite Hm, Z.pow_add_r, Z.div_div by lia. done.
      * rewrite Hc, <- Em, Hh, Z.pow_add_r by lia. ring.
      * exists s'. split; [done|]. split; [done|]. split; [lia|done].
Qed.

(** ** Bit reversal *)

Lemma bitrev_lt d x : (bitrev d x < 2 ^ d)%nat.
Proof.
  revert x. induction d as [|d IH]; intros x; cbn [bitrev]; [cbn; lia|].
  rewrite Nat.pow_succ_r'. specialize (IH (x / 2)%nat).
  pose proof (Nat.mod_upper_bound x 2 ltac:(lia)). nia.
Qed.

Lemma testbit_plus_high a b d j :
  0 <= a < 2 ^ d -> 0 <= d -> 0 <= j ->
  Z.testbit (a + b * 2 ^ d) j = if j <? d then Z.testbit a j else Z.testbit b (j - d).
Proof.
  intros Ha Hd Hj. destruct (Z.ltb_spec j d).
  - rewrite <- (Z.mod_pow2_bits_low _ d) by lia. rewrite Z.mod_add by lia. by rewrite Z.mod_small.
  - replace j with ((j - d) + d) at 1 by lia. rewrite <- Z.div_pow2_bits by lia.
    rewrite Z.div_add by lia. by rewrite Z.div_small, Z.add_0_l.
Qed.

Lemma bitrev_bits d x j :
  0 <= j -> Z.testbit (Z.of_nat (bitrev d x)) j =
    (j <? Z.of_nat d) && Z.testbit (Z.of_nat x) (Z.of_nat d - 1 - j).
Proof.
  intros Hj. revert x. induction d as [|d IH]; intros x; cbn [bitrev].
  - rewrite Z.testbit_0_l. destruct (Z.ltb_spec j (Z.of_nat 0)); [lia|done].
  - rewrite Nat2Z.inj_add, Nat2Z.inj_mul, Nat2Z.inj_pow, Nat2Z.inj_mod, testbit_plus_high; [|split| |]; try lia.
    2:{ pose proof (bitrev_lt d (x / 2)). apply Nat2Z.inj_lt in H. by rewrite Nat2Z.inj_pow in H. }
    rewrite IH, Nat2Z.inj_div. change (Z.of_nat 2) with 2.
    destruct (Z.ltb_spec j (Z.of_nat d)) as [Hlt|Hge]; cbn [andb].
    + rewrite (proj2 (Z.ltb_lt j _)) by lia. cbn [andb].
      rewrite <- (Z.pow_1_r 2), Z.div_pow2_bits by lia. f_equal. lia.
    + destruct (Z.ltb_spec j (Z.of_nat (S d))); cbn [andb].
      * replace (j - Z.of_nat d) with 0 by lia. replace (Z.of_nat (S d) - 1 - j) with 0 by lia.
        rewrite <- (Z.pow_1_r 2), Z.mod_pow2_bits_low by lia. done.
      * rewrite <- (Z.pow_1_r 2), Z.mod_pow2_bits_high by lia. done.
Qed.

(** One exchange of neighbouring groups of [k] bits, on the 32 low bits. *)
Definition swap_bits (k hi lo x : Z) : Z :=
  Z.lor (Z.shiftr (Z.land x hi) k) (u64 (Z.shiftl (Z.land x lo) k)).

Lemma below_32 (P : Z -> Prop) : Forall P (seqZ 0 32) -> forall j, 0 <= j < 32 -> P j.
Proof. intros H j Hj. by apply (proj1 (list.Forall_forall _ _) H), elem_of_seqZ. Qed.

(** Evaluating the positions and the numerals of a goal on single bits. *)
Ltac eval_bits :=
  repeat match goal with |- context [Z.testbit ?y ?e] =>
    let v := eval vm_compute in e in progress change (Z.testbit y e) with (Z.testbit y v) end;
  repeat match goal with |- context [Z.testbit (Zpos ?m) ?k] =>
    let b := eval vm_compute in (Z.testbit (Zpos m) k) in change (Z.testbit (Zpos m) k) with b end;
  repeat match goal with |- context [Z.testbit ?y (Zneg ?k)] =>
    change (Z.testbit y (Zneg k)) with false end;
  rewrite ?andb_false_r, ?andb_true_r, ?orb_false_r, ?orb_false_l.

(** A statement on each of the 32 low bits. *)
Ltac each_bit :=
  apply below_32; let v := eval vm_compute in (seqZ 0 32) in change (seqZ 0 32) with v;
  repeat apply Forall_cons_2; try apply Forall_nil_2.

Ltac swap_tac :=
  each_bit; unfold swap_bits, u64; rewrite Z.lor_spec, Z.shiftr_spec, Z.mod_pow2_bits_low by lia;
  rewrite Z.shiftl_spec, !Z.land_spec by lia; eval_bits; reflexivity.

Lemma swap_8 x j : 0 <= j < 32 ->
  Z.testbit (swap_bits 8 0xFF00FF00 0x00FF00FF x) j = Z.testbit x (Z.lxor j 8).
Proof. revert j. swap_tac. Qed.
Lemma swap_4 x j : 0 <= j < 32 ->
  Z.testbit (swap_bits 4 0xF0F0F0F0 0x0F0F0F0F x) j = Z.testbit x (Z.lxor j 4).
Proof. revert j. swap_tac. Qed.
Lemma swap_2 x j : 0 <= j < 32 ->
  Z.testbit (swap_bits 2 0xCCCCCCCC 0x33333333 x) j = Z.testbit x (Z.lxor j 2).
Proof. revert j. swap_tac. Qed.
Lemma swap_1 x j : 0 <= j < 32 ->
  Z.testbit (swap_bits 1 0xAAAAAAAA 0x55555555 x) j = Z.testbit x (Z.lxor j 1).
Proof. revert j. swap_tac. Qed.

Lemma swap_16 x j : 0 <= x < 2 ^ 32 -> 0 <= j < 32 ->
  Z.testbit (Z.lor (Z.shiftr x 16) (u64 (Z.shiftl x 16))) j = Z.testbit x (Z.lxor j 16).
Proof.
  intros Hx Hj. assert (Hhigh : forall i, 32 <= i -> Z.testbit x i = false)
    by (apply bits_below_iff; lia).
  revert j Hj. each_bit; rewrite Z.lor_spec, Z.shiftr_spec by lia; unfold u64;
    rewrite Z.mod_pow2_bits_low, Z.shiftl_spec by lia; eval_bits;
    first [reflexivity | rewrite Hhigh by lia; reflexivity].
Qed.

(** The exchange keeps 32 bits. *)
Lemma swap_below k hi lo x :
  0 <= k <= 8 -> 0 <= x -> 0 <= hi < 2 ^ 32 -> 0 <= lo < 2 ^ (32 - k) -> 0 <= swap_bits k hi lo x < 2 ^ 32.
Proof.
  intros Hk Hx Hhi Hlo. unfold swap_bits. assert (0 < 2 ^ k) by (apply Z.pow_pos_nonneg; lia).
  pose proof (land_below hi x 32 ltac:(lia) Hhi Hx) as H1.
  pose proof (land_below lo x (32 - k) ltac:(lia) Hlo Hx) as H2.
  rewrite Z.land_comm in H1, H2. apply lor_below; [lia| |].
  - rewrite Z.shiftr_div_pow2 by lia. split; [apply Z.div_pos; lia|].
    apply Z.div_lt_upper_bound; [lia|]. nia.
  - rewrite Z.shiftl_mul_pow2 by lia. assert (E : 2 ^ 32 = 2 ^ (32 - k) * 2 ^ k)
      by (rewrite <- Z.pow_add_r by lia; f_equal; lia).
    rewrite u64_id; [nia|]. unfold is_u64. split; [nia|].
    apply (Z.lt_trans _ (2 ^ 32)); [nia|done].
Qed.

Lemma BR_spec d x : (d <= 32)%nat -> (x < 2 ^ d)%nat ->
  BR (Z.of_nat x) (Z.of_nat d) = Some (Z.of_nat (bitrev d x)).
Proof.
  intros Hd Hx. assert (Hx' : 0 <= Z.of_nat x < 2 ^ 32).
  { apply Nat2Z.inj_lt in Hx. rewrite Nat2Z.inj_pow in Hx. split; [lia|].
    eapply Z.lt_le_trans; [exact Hx|]. apply Z.pow_le_mono_r; lia. }
  unfold BR. rewrite u64_id by (unfold is_u64; fold_pows; lia).
  rewrite (proj2 (Z.ltb_lt _ _)) by lia.
  fold (swap_bits 8 0xFF00FF00 0x00FF00FF (Z.lor (Z.shiftr (Z.of_nat x) 16) (u64 (Z.shiftl (Z.of_nat x) 16)))).
  set (x1 := Z.lor (Z.shiftr (Z.of_nat x) 16) _).
  set (x2 := swap_bits 8 _ _ x1). fold (swap_bits 4 0xF0F0F0F0 0x0F0F0F0F x2).
  set (x3 := swap_bits 4 _ _ x2). fold (swap_bits 2 0xCCCCCCCC 0x33333333 x3).
  set (x4 := swap_bits 2 _ _ x3). fold (swap_bits 1 0xAAAAAAAA 0x55555555 x4).
  set (x5 := swap_bits 1 _ _ x4).
  assert (H1 : 0 <= x1).
  { unfold x1. apply Z.lor_nonneg. split; [apply Z.shiftr_nonneg; lia|apply u64_range]. }
  assert (H2 : 0 <= x2 < 2 ^ 32) by (apply swap_below; fold_pows; cbn; lia).
  assert (H3 : 0 <= x3 < 2 ^ 32) by (apply swap_below; fold_pows; cbn; lia).
  assert (H4 : 0 <= x4 < 2 ^ 32) by (apply swap_below; fold_pows; cbn; lia).
  assert (H5 : 0 <= x5 < 2 ^ 32) by (apply swap_below; fold_pows; cbn; lia).
  (* the word is reversed *)
  assert (Hrev : forall j, 0 <= j < 32 -> Z.testbit x5 j = Z.testbit (Z.of_nat x) (31 - j)).
  { assert (Hx0 : forall k j, 0 <= k < 32 -> 0 <= j < 32 -> 0 <= Z.lxor j k < 32)
      by (intros k j; change 32 with (2 ^ 5); intros; apply lxor_below; lia).
    intros j Hj. unfold x5, x4, x3, x2.
    rewrite swap_1, swap_2, swap_4, swap_8 by (repeat apply Hx0; lia).
    unfold x1. rewrite swap_16 by (try done; repeat apply Hx0; lia). f_equal.
    revert j Hj. each_bit; reflexivity. }
  f_equal. apply Z.bits_inj'. intros j Hj. rewrite Z.shiftr_spec, bitrev_bits by lia.
  destruct (Z.ltb_spec j (Z.of_nat d)) as [Hlt|Hge]; cbn [andb].
  - rewrite Hrev by lia. f_equal. lia.
  - apply (proj1 (bits_below_iff x5 32 ltac:(lia) ltac:(lia))); lia.
Qed.

(** Reversing twice. *)
Lemma bitrev_involutive d x : (x < 2 ^ d)%nat -> bitrev d (bitrev d x) = x.
Proof.
  intros Hx. apply Nat2Z.inj, Z.bits_inj'. intros j Hj. rewrite bitrev_bits by lia.
  destruct (Z.ltb_spec j (Z.of_nat d)) as [Hlt|Hge]; cbn [andb].
  - rewrite bitrev_bits, (proj2 (Z.ltb_lt _ _)) by lia. cbn [andb]. f_equal. lia.
  - symmetry. apply (proj1 (bits_below_iff (Z.of_nat x) (Z.of_nat d) ltac:(lia) ltac:(lia))); [|lia].
    apply Nat2Z.inj_lt in Hx. by rewrite Nat2Z.inj_pow in Hx.
Qed.

(** ** Cells that stand for elements of a field *)

(** The cell [i] is initialised and stands for [x]. *)
Definition cell {K E} `{FieldRep K E} (a : array E) (i : Z) (x : K) : Prop :=
  exists e, array_get a i = Some e /\ f_rep e x.

(** The first [n] cells stand for the values of [x]. *)
Definition holds {K E} `{FieldRep K E} (a : array E) (n : nat) (x : nat -> K) : Prop :=
  forall i, (i < n)%nat -> cell a (Z.of_nat i) (x i).

Section Cells.
Context {K E : Type} {R : FieldRep K E}.
Implicit Types a : array E.

Lemma cell_set a i e (x : K) :
  0 <= i < Z.of_nat (length a) -> f_rep e x ->
  exists a', array_set a i e = Some a' /\ length a' = length a /\ cell a' i x /\
    forall k (z : K), k <> i -> cell a k z -> cell a' k z.
Proof.
  intros Hi He. destruct (array_set_ok a i e Hi) as (a' & E' & Hl & Hg & Hk).
  exists a'. split; [done|]. split; [done|]. split; [by exists e|].
  intros k z Hne (e' & Hg' & He'). exists e'. by rewrite Hk.
Qed.

Lemma cell_range a i (x : K) : cell a i x -> 0 <= i < Z.of_nat (length a).
Proof. intros (e & He & _). by eapply array_get_range. Qed.

Lemma cell_eq a i (x y : K) : cell a i x -> x = y -> cell a i y.
Proof. by intros ? <-. Qed.

(** Writing two cells. *)
Lemma cell_set2 a i j e f (x y u v : K) :
  cell a i u -> cell a j v -> i <> j -> f_rep e x -> f_rep f y ->
  exists a1 a2, array_set a i e = Some a1 /\ array_set a1 j f = Some a2 /\
    cell a2 i x /\ cell a2 j y /\ forall k (z : K), k <> i -> k <> j -> cell a k z -> cell a2 k z.
Proof.
  intros Hi%cell_range Hj%cell_range Hne He Hf.
  destruct (cell_set a i e x Hi He) as (a1 & E1 & L1 & C1 & K1).
  destruct (cell_set a1 j f y) as (a2 & E2 & L2 & C2 & K2); [by rewrite L1|done|].
  exists a1, a2. split; [done|]. split; [done|]. split; [by apply K2|]. split; [done|].
  intros k z Hki Hkj Hc. apply K2; [done|]. by apply K1.
Qed.
End Cells.

(** ** The table of roots *)

Record fft_table {K E} `{KField K} `{FieldRep K E} (F : Fft E) (s : nat) (w : K) : Prop := {
  table_s : fft_s F = Z.of_nat s;
  table_size : (s < 63)%nat;
  table_two : (1 + 1 <> 0)%K;
  table_root : root2 s w;
  table_roots : holds (fft_roots F) (2 ^ s) (kpow w);
  table_powers : exists h : K, ((1 + 1) * h = 1)%K /\ holds (fft_powTwoInv F) (S s) (kpow h)
}.

(** The root the transform of length [2 ^ d] uses. *)
Definition fft_root {K} `{KField K} (s d : nat) (w : K) : K := kpow w (2 ^ (s - d)).

Section Transform.
Context {K E : Type} {KF : KField K} {FF : FftField E} {R : FieldRep K E} {L : FieldLaws K E}.
Add Field K_field_fft : (k_theory (K := K)).
#[local] Open Scope field_scope.

Lemma pow2_Z d : Z.of_nat (2 ^ d) = (2 ^ Z.of_nat d)%Z.
Proof. by rewrite Nat2Z.inj_pow. Qed.

Lemma FFT_root_spec F s w d j :
  fft_table F s w -> (d <= s)%nat -> (j < 2 ^ d)%nat ->
  exists e, FFT_root F (Z.of_nat d) (Z.of_nat j) = Some e /\ f_rep e (kpow (fft_root s d w) j).
Proof.
  intros [Hs Hsz _ _ Hr _] Hd Hj. unfold FFT_root. rewrite Hs.
  rewrite u32_id by word_lia. rewrite (proj2 (Z.ltb_lt _ 64)) by lia.
  rewrite Z.shiftl_mul_pow2 by lia.
  assert (E1 : (Z.of_nat j * 2 ^ (Z.of_nat s - Z.of_nat d))%Z = Z.of_nat (j * 2 ^ (s - d))).
  { rewrite Nat2Z.inj_mul, pow2_Z, Nat2Z.inj_sub by lia. done. }
  assert (Hlt : (j * 2 ^ (s - d) < 2 ^ s)%nat).
  { replace s with (d + (s - d))%nat at 2 by lia. rewrite Nat.pow_add_r.
    apply Nat.mul_lt_mono_pos_r; [apply Nat.neq_0_lt_0, Nat.pow_nonzero; lia|done]. }
  rewrite E1. assert (Hu : is_u64 (Z.of_nat (j * 2 ^ (s - d)))).
  { unfold is_u64. apply Nat2Z.inj_lt in Hlt. rewrite pow2_Z in Hlt. split; [lia|].
    eapply Z.lt_trans; [exact Hlt|]. apply Z.pow_lt_mono_r; lia. }
  rewrite u64_id by done. destruct (Hr _ Hlt) as (e & He & Hrep). exists e. split; [done|].
  unfold fft_root. by rewrite <- kpow_mul, Nat.mul_comm.
Qed.

(** ** Reversal *)

Let rv (d : nat) (i : Z) : Z := Z.of_nat (bitrev d (Z.to_nat i)).

Lemma rv_facts d i : (0 <= i < 2 ^ Z.of_nat d)%Z ->
  (0 <= rv d i < 2 ^ Z.of_nat d)%Z /\ rv d (rv d i) = i.
Proof.
  intros Hi. unfold rv. rewrite Nat2Z.id, bitrev_involutive.
  - pose proof (bitrev_lt d (Z.to_nat i)) as H. apply Nat2Z.inj_lt in H. rewrite pow2_Z in H. lia.
  - apply Nat2Z.inj_lt. rewrite pow2_Z. lia.
Qed.

Lemma reverse_spec nThreads log d (a : array E) (x : nat -> K) :
  (1 <= nThreads < 2 ^ 32)%Z -> (d < 31)%nat ->
  call_log true nThreads (parallelFor 0 (2 ^ Z.of_nat d) nThreads) log -> holds a (2 ^ d) x ->
  exists a', reversePermutation log a (2 ^ Z.of_nat d) = Some a' /\
    holds a' (2 ^ d) (fun i => x (bitrev d i)).
Proof.
  intros Hn Hd Hlog Ha. unfold reversePermutation. rewrite FFT_log2_pow2 by lia.
  cbn [mbind option_bind]. set (N := (2 ^ Z.of_nat d)%Z) in *.
  assert (HN : (0 < N < 2 ^ 31)%Z).
  { unfold N. split; [apply Z.pow_pos_nonneg; lia|apply Z.pow_lt_mono_r; lia]. }
  set (X i := x (Z.to_nat i)).
  assert (HX : forall i, (0 <= i < N)%Z -> cell a i (X i)).
  { intros i Hi. specialize (Ha (Z.to_nat i)). rewrite Z2Nat.id in Ha by lia. apply Ha.
    apply Nat2Z.inj_lt. rewrite pow2_Z. unfold N in Hi. lia. }
  assert (Hrv : forall i, (0 <= i < N)%Z -> (0 <= rv d i < N)%Z /\ rv d (rv d i) = i) by (apply rv_facts).
  destruct (parallelFor_steps
    (fun a => forall i, (0 <= i < N)%Z -> rv d i = i -> cell a i (X i))
    (fun i a => (rv d i < i)%Z -> cell a i (X i) /\ cell a (rv d i) (X (rv d i)))
    (fun i a => (rv d i < i)%Z -> cell a i (X (rv d i)) /\ cell a (rv d i) (X i))
    nThreads 0 N log (fun _ => reverse_step (Z.of_nat d)) a) as (a' & Ea & Hinv & HP);
    [lia|unfold is_i32; fold_pows; lia|unfold is_i32; fold_pows; lia|done|done| | | |].
  - intros i Hi _. by apply HX.
  - intros i Hi _. split; apply HX; [done|by apply Hrv].
  - intros i t b Hi _ Hinv HQ. pose proof (Hrv i Hi) as [Hr1 Hr2]. unfold reverse_step.
    assert (Hi' : (i = Z.of_nat (Z.to_nat i))%Z) by lia.
    assert (E1 : BR i (Z.of_nat d) = Some (rv d i)).
    { rewrite Hi'. unfold rv. rewrite Nat2Z.id. apply BR_spec; [lia|].
      apply Nat2Z.inj_lt. rewrite pow2_Z. unfold N in Hi. lia. }
    rewrite E1. cbn [mbind option_bind]. rewrite Z.gtb_ltb. destruct (Z.ltb_spec (rv d i) i) as [Hlt|Hge].
    + destruct (HQ Hlt) as [Hci Hcr]. pose proof Hci as (ei & Gi & Ri). pose proof Hcr as (er & Gr & Rr).
      rewrite Gi, Gr. cbn [mbind option_bind].
      destruct (cell_set2 b i (rv d i) er ei _ _ _ _ Hci Hcr ltac:(lia) Rr Ri)
        as (b1 & b2 & S1 & S2 & C1 & C2 & Kp).
      rewrite S1. cbn [mbind option_bind]. exists b2. split; [done|]. split; [|split; [done|]].
      * intros k Hk Ek. assert (k <> i) by (intros ->; lia).
        assert (k <> rv d i) by (intros ->; rewrite Hr2 in Ek; lia). apply Kp; [done..|]. by apply Hinv.
      * intros k Hk Hne. pose proof (Hrv k Hk) as [_ Hk2].
        assert (Hside : (rv d k < k)%Z -> k <> rv d i /\ rv d k <> i /\ rv d k <> rv d i).
        { intros Hkl. split; [intros ->; rewrite Hr2 in Hkl; lia|].
          split; [intros E2; rewrite E2 in Hk2; rewrite <- Hk2 in Hkl; rewrite Hr2 in Hkl; lia|].
          intros E2. apply Hne. by rewrite <- Hk2, E2. }
        split; intros H Hkl; destruct (Hside Hkl) as (? & ? & ?); destruct (H Hkl); split; by apply Kp.
    + exists b. split; [done|]. split; [done|]. split; [lia|]. done.
  - exists a'. split; [done|]. intros i Hi.
    assert (Hi' : (0 <= Z.of_nat i < N)%Z).
    { apply Nat2Z.inj_lt in Hi. rewrite pow2_Z in Hi. unfold N. lia. }
    pose proof (Hrv _ Hi') as [Hr1 Hr2].
    assert (EX : x (bitrev d i) = X (rv d (Z.of_nat i))) by (unfold X, rv; by rewrite !Nat2Z.id).
    rewrite EX. destruct (Z.lt_trichotomy (rv d (Z.of_nat i)) (Z.of_nat i)) as [H|[H|H]].
    + by apply HP.
    + rewrite H. by apply Hinv.
    + specialize (HP (rv d (Z.of_nat i)) Hr1). rewrite Hr2 in HP. by apply HP.
Qed.

(** ** Stages *)

(** Two pairs of a stage do not meet. *)
Lemma pair_cells h i k e f :
  (0 < h)%Z -> (0 <= e <= 1)%Z -> (0 <= f <= 1)%Z ->
  (i / h * (2 * h) + i mod h + e * h = k / h * (2 * h) + k mod h + f * h)%Z -> i = k /\ e = f.
Proof.
  intros Hh He Hf H. pose proof (Z.mod_pos_bound i h Hh). pose proof (Z.mod_pos_bound k h Hh).
  destruct (Z.div_mod_unique h (2 * (i / h) + e) (2 * (k / h) + f) (i mod h) (k mod h)) as [Eq Er];
    [lia|lia|lia|].
  assert (i / h = k / h /\ e = f)%Z as [Ed ->] by lia. split; [|done].
  rewrite (Z.div_mod i h), (Z.div_mod k h) by lia. by rewrite Ed, Er.
Qed.

(** The cells of pair [i] of a stage with [h] pairs per block. *)
Lemma pair_bounds h i c : (0 < h)%Z -> (0 <= i < c * h)%Z ->
  (0 <= i / h < c)%Z /\ (0 <= i mod h < h)%Z.
Proof.
  intros Hh Hi. split; [|by apply Z.mod_pos_bound].
  split; [apply Z.div_pos; lia|]. apply Z.div_lt_upper_bound; lia.
Qed.

(** Every cell belongs to a pair. *)
Lemma block_cover d e q : (e < d)%nat -> (q < 2 ^ d)%nat ->
  exists b j, (b < 2 ^ (d - S e))%nat /\ (j < 2 ^ e)%nat /\
    (q = b * 2 ^ S e + j \/ q = b * 2 ^ S e + j + 2 ^ e)%nat.
Proof.
  intros He Hq. pose proof (Nat.div_mod_eq q (2 ^ S e)) as Eq.
  pose proof (Nat.mod_upper_bound q (2 ^ S e) ltac:(apply Nat.pow_nonzero; lia)) as Hm.
  assert (Hb : (q / 2 ^ S e < 2 ^ (d - S e))%nat).
  { apply Nat.Div0.div_lt_upper_bound. rewrite <- Nat.pow_add_r.
    replace (S e + (d - S e))%nat with d by lia. done. }
  rewrite Nat.pow_succ_r' in *. destruct (Nat.lt_ge_cases (q mod (2 * 2 ^ e)) (2 ^ e)) as [Hlt|Hge].
  - exists (q / (2 * 2 ^ e))%nat, (q mod (2 * 2 ^ e))%nat. split; [done|]. split; [done|]. left. lia.
  - exists (q / (2 * 2 ^ e))%nat, (q mod (2 * 2 ^ e) - 2 ^ e)%nat. split; [done|]. split; [lia|]. right. lia.
Qed.

(** The function with the values [lo] in the lower halves and [hi] in the upper ones. *)
Let blockwise (h : nat) (lo hi : nat -> nat -> K) (q : nat) : K :=
  let b := (q / (2 * h))%nat in
  let j := (q mod (2 * h))%nat in
  if (j <? h)%nat then lo b j else hi b (j - h)%nat.

Lemma blockwise_spec h lo hi b j : (j < h)%nat ->
  blockwise h lo hi (b * (2 * h) + j) = lo b j /\ blockwise h lo hi (b * (2 * h) + j + h) = hi b j.
Proof.
  intros Hj. unfold blockwise. split.
  - rewrite Nat.div_add_l, (Nat.div_small j), Nat.add_0_r by lia.
    rewrite (Nat.add_comm (b * _)), Nat.Div0.mod_add, Nat.mod_small by lia.
    by rewrite (proj2 (Nat.ltb_lt _ _)).
  - rewrite <- Nat.add_assoc, Nat.div_add_l, (Nat.div_small (j + h)), Nat.add_0_r by lia.
    rewrite (Nat.add_comm (b * _)), Nat.Div0.mod_add, Nat.mod_small by lia.
    rewrite (proj2 (Nat.ltb_ge _ _)) by lia. by rewrite Nat.add_sub.
Qed.

(** One butterfly: the pair of cells [p] and [p + h]. *)
Lemma butterfly_spec F s w e i (a : array E) (u v : K) :
  let h := (2 ^ Z.of_nat e)%Z in
  let p := (i / h * (2 * h) + i mod h)%Z in
  let t := kpow (fft_root s (S e) w) (Z.to_nat (i mod h)) * v in
  fft_table F s w -> (e < s)%nat -> (0 <= i)%Z -> is_u64 (i / h * (2 * h)) ->
  cell a p u -> cell a (p + h) v ->
  exists a', butterfly F (Z.of_nat (S e)) (2 * h) h i a = Some a' /\
    cell a' p (t + u) /\ cell a' (p + h) (u - t) /\
    forall k (z : K), k <> p -> k <> (p + h)%Z -> cell a k z -> cell a' k z.
Proof.
  intros h p t Ht He Hi Hu Hc0 Hc1. assert (Hh : (0 < h)%Z) by (apply Z.pow_pos_nonneg; lia).
  pose proof (Z.mod_pos_bound i h Hh) as Hm. unfold butterfly. rewrite u64_id by done. fold p.
  destruct (FFT_root_spec F s w (S e) (Z.to_nat (i mod h)) Ht ltac:(lia)) as (r & Er & Rr).
  { apply Nat2Z.inj_lt. rewrite pow2_Z, Nat2Z.inj_succ, Z.pow_succ_r by lia. fold h. lia. }
  rewrite Z2Nat.id in Er by lia. rewrite Er. cbn [mbind option_bind].
  pose proof Hc0 as (x & Gx & Rx). pose proof Hc1 as (z & Gz & Rz). rewrite Gx, Gz. cbn [mbind option_bind].
  destruct (cell_set2 a p (p + h) (f_add (f_mul r z) x) (f_sub x (f_mul r z)) _ _ _ _ Hc0 Hc1 ltac:(lia)
    ltac:(eauto with field_rep) ltac:(eauto with field_rep)) as (b1 & b2 & S1 & S2 & C1 & C2 & Kp).
  rewrite S1. cbn [mbind option_bind]. exists b2. by repeat split.
Qed.

Lemma butterflies_spec F s w nThreads log d e (a : array E) (y : nat -> K) :
  fft_table F s w -> (1 <= nThreads < 2 ^ 32)%Z -> (e < d)%nat -> (d <= s)%nat -> (d < 31)%nat ->
  call_log true nThreads (parallelFor 0 (Z.shiftr (2 ^ Z.of_nat d) 1) nThreads) log ->
  holds a (2 ^ d) y ->
  exists a' y', run_log log (fun _ => butterfly F (Z.of_nat (S e)) (2 * 2 ^ Z.of_nat e) (2 ^ Z.of_nat e)) a
      = Some a' /\ holds a' (2 ^ d) y' /\
    forall b j, (b < 2 ^ (d - S e))%nat -> (j < 2 ^ e)%nat ->
      let t := kpow (kpow (fft_root s d w) (2 ^ (d - S e))) j * y (b * 2 ^ S e + j + 2 ^ e)%nat in
      let u := y (b * 2 ^ S e + j)%nat in
      y' (b * 2 ^ S e + j)%nat = t + u /\ y' (b * 2 ^ S e + j + 2 ^ e)%nat = u - t.
Proof.
  intros Ht Hn He Hds Hd Hlog Ha.
  set (h := (2 ^ Z.of_nat e)%Z). set (c := (2 ^ (Z.of_nat d - Z.of_nat (S e)))%Z).
  assert (Hh : (0 < h)%Z) by (apply Z.pow_pos_nonneg; lia).
  assert (Hc : (0 < c)%Z) by (apply Z.pow_pos_nonneg; lia).
  assert (EN : (2 ^ Z.of_nat d)%Z = (c * (2 * h))%Z).
  { unfold c, h. rewrite <- Z.pow_succ_r, <- Z.pow_add_r by lia. f_equal. lia. }
  assert (EN2 : Z.shiftr (2 ^ Z.of_nat d) 1 = (c * h)%Z).
  { rewrite Z.shiftr_div_pow2 by lia. rewrite EN. replace (c * (2 * h))%Z with (c * h * 2 ^ 1)%Z by ring.
    by rewrite Z.div_mul. }
  rewrite EN2 in Hlog.
  assert (Hsmall : (c * (2 * h) < 2 ^ 31)%Z) by (rewrite <- EN; apply Z.pow_lt_mono_r; lia).
  set (Y i := y (Z.to_nat i)). set (p i := (i / h * (2 * h) + i mod h)%Z).
  set (T i := kpow (fft_root s (S e) w) (Z.to_nat (i mod h)) * Y (p i + h)%Z).
  assert (HY : forall i, (0 <= i < c * (2 * h))%Z -> cell a i (Y i)).
  { intros i Hi. specialize (Ha (Z.to_nat i)). rewrite Z2Nat.id in Ha by lia. apply Ha.
    apply Nat2Z.inj_lt. rewrite pow2_Z, EN. lia. }
  assert (Hp : forall i, (0 <= i < c * h)%Z -> (0 <= p i /\ p i + h < c * (2 * h))%Z).
  { intros i Hi. destruct (pair_bounds h i c Hh Hi). unfold p. nia. }
  destruct (parallelFor_steps (fun _ => True)
    (fun i a => cell a (p i) (Y (p i)) /\ cell a (p i + h) (Y (p i + h)%Z))
    (fun i a => cell a (p i) (T i + Y (p i)) /\ cell a (p i + h) (Y (p i) - T i))
    nThreads 0 (c * h) log (fun _ => butterfly F (Z.of_nat (S e)) (2 * h) h) a)
    as (a' & Ea & _ & HP);
    [nia|unfold is_i32; fold_pows; lia|unfold is_i32; fold_pows; nia|done|done|done| | |].
  - intros i Hi. specialize (Hp i Hi). split; apply HY; lia.
  - intros i t b Hi _ _ [Hc0 Hc1]. destruct (pair_bounds h i c Hh Hi) as [Hq Hm].
    destruct (butterfly_spec F s w e i b _ _ Ht ltac:(lia) ltac:(lia)
      ltac:(unfold is_u64; fold h; fold_pows; nia) Hc0 Hc1) as (b' & E' & C1 & C2 & Kp).
    exists b'. split; [done|]. split; [done|]. split; [done|]. fold h in Kp. fold (p i) in Kp. intros k Hk Hne.
    assert (Hd1 : forall x y, (0 <= x <= 1)%Z -> (0 <= y <= 1)%Z -> (p k + x * h <> p i + y * h)%Z).
    { intros x' y' Hx Hy Exy. apply Hne. by apply (pair_cells h k i x' y'). }
    pose proof (Hd1 0 0 ltac:(lia) ltac:(lia))%Z as D00. pose proof (Hd1 0 1 ltac:(lia) ltac:(lia))%Z as D01.
    pose proof (Hd1 1 0 ltac:(lia) ltac:(lia))%Z as D10. pose proof (Hd1 1 1 ltac:(lia) ltac:(lia))%Z as D11.
    split; intros [Q1 Q2]; split; apply Kp; first [done|lia].
  - set (t b j := kpow (kpow (fft_root s d w) (2 ^ (d - S e))) j * y (b * 2 ^ S e + j + 2 ^ e)%nat).
    set (u b j := y (b * 2 ^ S e + j)%nat).
    exists a', (blockwise (2 ^ e) (fun b j => t b j + u b j) (fun b j => u b j - t b j)). split; [done|]. split.
    + intros q Hq. destruct (block_cover d e q He Hq) as (b & j & Hb & Hj & Hqe).
      destruct (blockwise_spec (2 ^ e) (fun b j => t b j + u b j) (fun b j => u b j - t b j) b j Hj) as [V1 V2].
      rewrite <- Nat.pow_succ_r' in V1, V2.
      apply Nat2Z.inj_lt in Hb, Hj. rewrite pow2_Z in Hb, Hj. rewrite Nat2Z.inj_sub in Hb by lia.
      fold c in Hb. fold h in Hj. set (i := (Z.of_nat b * h + Z.of_nat j)%Z).
      assert (E1 : (i / h)%Z = Z.of_nat b) by (unfold i; rewrite Z.div_add_l, Z.div_small by lia; lia).
      assert (E2 : (i mod h)%Z = Z.of_nat j) by (unfold i; rewrite Z.add_comm, Z.mod_add, Z.mod_small by lia; done).
      assert (Ep : p i = Z.of_nat (b * 2 ^ S e + j)).
      { unfold p. rewrite E1, E2, Nat2Z.inj_add, Nat2Z.inj_mul, pow2_Z, Nat2Z.inj_succ, Z.pow_succ_r by lia. done. }
      assert (Eph : (p i + h)%Z = Z.of_nat (b * 2 ^ S e + j + 2 ^ e)) by (rewrite Ep; unfold h; rewrite <- pow2_Z; lia).
      assert (ET : T i = t b j).
      { unfold T, t, Y. rewrite Eph, E2, !Nat2Z.id. f_equal. unfold fft_root. f_equal.
        rewrite <- kpow_mul, <- Nat.pow_add_r. do 2 f_equal. lia. }
      destruct (HP i) as [H1 H2]; [unfold i; nia|]. rewrite ET in H1, H2. rewrite Eph in H2.
      unfold Y in H1, H2. rewrite Ep, Nat2Z.id in H1. rewrite Ep, Nat2Z.id in H2.
      destruct Hqe as [-> | ->]; [by rewrite V1|by rewrite V2].
    + intros b j _ Hj. fold (t b j) (u b j). rewrite Nat.pow_succ_r'.
      apply (blockwise_spec (2 ^ e) (fun b j => t b j + u b j) (fun b j => u b j - t b j) b j Hj).
Qed.

(** ** The transforms *)

(** The schedules of a complete transform. *)
Definition fft_logs (nThreads : Z) (d : nat) (logs : Z -> list (JobRange * nat)) : Prop :=
  call_log true nThreads (parallelFor 0 (2 ^ Z.of_nat d) nThreads) (logs 0%Z) /\
  forall s, (1 <= s <= Z.of_nat d)%Z ->
    call_log true nThreads (parallelFor 0 (Z.shiftr (2 ^ Z.of_nat d) 1) nThreads) (logs s).

Lemma FFT_fft_spec F s w nThreads logs d (a : array E) (x : nat -> K) :
  fft_table F s w -> (1 <= nThreads < 2 ^ 32)%Z -> (d <= s)%nat -> (d < 31)%nat ->
  fft_logs nThreads d logs -> holds a (2 ^ d) x ->
  exists a', FFT_fft F logs a (2 ^ Z.of_nat d) = Some a' /\
    holds a' (2 ^ d) (dft (fft_root s d w) (2 ^ d) x).
Proof.
  intros Ht Hn Hds Hd [Hlog Hlogs] Ha. unfold FFT_fft.
  destruct (reverse_spec nThreads (logs 0%Z) d a x Hn Hd Hlog Ha) as (a0 & E0 & H0).
  rewrite E0, FFT_log2_pow2 by lia. cbn [mbind option_bind].
  rewrite Z.shiftl_mul_pow2, Z.mul_1_l, u64_id, Z.eqb_refl by
    (lia || (split; [apply Z.pow_nonneg; lia|apply Z.pow_lt_mono_r; lia])).
  assert (Hw : root2 d (fft_root s d w)).
  { apply root2_pow. replace (d + (s - d))%nat with s by lia. apply Ht. }
  destruct (for_each_range
    (fun i a => exists y, holds a (2 ^ d) y /\ stage d (Z.to_nat (i - 1)) (fft_root s d w) x y)
    1 (Z.of_nat d) (fun i a => if (i <? 31)%Z then
        run_log (logs i) (fun _ => butterfly F i (Z.shiftl 1 i) (Z.shiftr (Z.shiftl 1 i) 1)) a
      else None) a0) as (a' & E' & y & Hy & Hst).
  - lia.
  - exists (fun i => x (bitrev d i)). split; [done|]. by apply stage_first.
  - intros i b Hi (y & Hy & Hst). rewrite (proj2 (Z.ltb_lt i 31)) by lia.
    set (e := Z.to_nat (i - 1)) in *. assert (Ei : i = Z.of_nat (S e)) by lia.
    assert (Em : Z.shiftl 1 i = (2 * 2 ^ Z.of_nat e)%Z).
    { rewrite Z.shiftl_mul_pow2, Ei, Nat2Z.inj_succ, Z.pow_succ_r by lia. ring. }
    assert (Eh : Z.shiftr (2 * 2 ^ Z.of_nat e) 1 = (2 ^ Z.of_nat e)%Z).
    { rewrite Z.shiftr_div_pow2, Z.mul_comm by lia. by apply Z.div_mul. }
    rewrite Em, Eh.
    destruct (butterflies_spec F s w nThreads (logs i) d e b y Ht Hn ltac:(lia) Hds Hd (Hlogs i ltac:(lia)) Hy)
      as (b' & y' & Eb & Hy' & Hbf).
    rewrite <- Ei in Eb. exists b'. split; [done|]. exists y'. split; [done|].
    replace (Z.to_nat (i + 1 - 1)) with (S e) by lia. by apply (stage_step d e _ x y); [lia|..].
  - rewrite E'. exists a'. split; [done|]. replace (Z.to_nat (1 + Z.of_nat d - 1)) with d in Hst by lia.
    intros i Hi. rewrite <- (stage_last d _ x y i Hst Hi). by apply Hy.
Qed.

(** A multiplication in place. *)
Lemma scale_cell_spec (a : array E) i c (x y : K) :
  cell a i x -> f_rep c y ->
  exists a', scale_cell c i a = Some a' /\ cell a' i (x * y) /\
    forall k (z : K), k <> i -> cell a k z -> cell a' k z.
Proof.
  intros Hc Hy. pose proof Hc as (e & Ge & Re). unfold scale_cell. rewrite Ge. cbn [mbind option_bind].
  destruct (cell_set a i (f_mul e c) (x * y)) as (a' & E' & _ & C' & K'); [by eapply cell_range|eauto with field_rep|].
  by exists a'.
Qed.

(** [ifft] after the transform itself: the cells backwards, divided by the length. *)
Lemma backwards_spec nThreads log d (a : array E) c (y : nat -> K) (k : K) :
  (1 <= nThreads < 2 ^ 32)%Z -> (d < 31)%nat ->
  call_log true nThreads (parallelFor 1 (Z.shiftr (2 ^ Z.of_nat d) 1) nThreads) log ->
  holds a (2 ^ d) y -> f_rep c k -> (d = O -> k * k = k) ->
  exists a1 a2 a3, run_log log (fun _ => backwards_step (2 ^ Z.of_nat d) c) a = Some a1 /\
    scale_cell c 0 a1 = Some a2 /\ scale_cell c (Z.shiftr (2 ^ Z.of_nat d) 1) a2 = Some a3 /\
    holds a3 (2 ^ d) (fun i => y ((2 ^ d - i) mod 2 ^ d)%nat * k).
Proof.
  intros Hn Hd Hlog Ha Hc H0. destruct d as [|d].
  { assert (log = []) as -> by exact Hlog. exists a. change (Z.shiftr (2 ^ Z.of_nat 0) 1) with 0%Z.
    destruct (scale_cell_spec a 0 c (y O) k) as (a2 & E2 & C2 & _); [by apply (Ha O); cbn; lia|done|].
    destruct (scale_cell_spec a2 0 c (y O * k) k C2 Hc) as (a3 & E3 & C3 & _).
    exists a2, a3. split; [done|]. split; [done|]. split; [done|]. intros i Hi.
    assert (i = O) as -> by (cbn in Hi; lia). eapply cell_eq; [exact C3|]. cbn.
    transitivity (y O * (k * k)); [ring|]. by rewrite H0. }
  clear H0. set (h := (2 ^ Z.of_nat d)%Z).
  assert (EN : (2 ^ Z.of_nat (S d))%Z = (2 * h)%Z) by (rewrite Nat2Z.inj_succ, Z.pow_succ_r by lia; done).
  assert (Eh : Z.shiftr (2 ^ Z.of_nat (S d)) 1 = h).
  { rewrite Z.shiftr_div_pow2, EN, Z.mul_comm by lia. by apply Z.div_mul. }
  rewrite Eh in *. rewrite EN.
  assert (Hh : (0 < h < 2 ^ 30)%Z) by (unfold h; split; [apply Z.pow_pos_nonneg; lia|apply Z.pow_lt_mono_r; lia]).
  set (Y i := y (Z.to_nat i)).
  assert (HY : forall i, (0 <= i < 2 * h)%Z -> cell a i (Y i)).
  { intros i Hi. specialize (Ha (Z.to_nat i)). rewrite Z2Nat.id in Ha by lia. apply Ha.
    apply Nat2Z.inj_lt. rewrite pow2_Z, EN. lia. }
  destruct (parallelFor_steps (fun a => cell a 0 (Y 0%Z) /\ cell a h (Y h))
    (fun i a => cell a i (Y i) /\ cell a (2 * h - i) (Y (2 * h - i)%Z))
    (fun i a => cell a i (Y (2 * h - i)%Z * k) /\ cell a (2 * h - i) (Y i * k))
    nThreads 1 h log (fun _ => backwards_step (2 * h) c) a) as (a1 & E1 & [C0 Ch] & HP);
    [lia|unfold is_i32; fold_pows; lia..|done| | |split; apply HY; lia| |].
  - done.
  - split; apply HY; lia.
  - intros i t b Hi _ [B0 Bh] [Hi1 Hi2]. unfold backwards_step.
    pose proof Hi1 as (u & Gu & Ru). pose proof Hi2 as (v & Gv & Rv). rewrite Gu, Gv. cbn [mbind option_bind].
    destruct (cell_set2 b i (2 * h - i) (f_mul v c) (f_mul u c) _ _ _ _ Hi1 Hi2 ltac:(lia)
      ltac:(eauto with field_rep) ltac:(eauto with field_rep)) as (b1 & b2 & S1 & S2 & C1 & C2 & Kp).
    rewrite S1. cbn [mbind option_bind]. exists b2. split; [done|].
    split; [split; apply Kp; (done || lia)|]. split; [done|].
    intros q Hq Hne. split; intros [Q1 Q2]; split; apply Kp; (done || lia).
  - destruct (scale_cell_spec a1 0 c _ k C0 Hc) as (a2 & E2 & C2 & K2).
    destruct (scale_cell_spec a2 h c (Y h) k) as (a3 & E3 & C3 & K3); [apply K2; [lia|done]|done|].
    exists a1, a2, a3. split; [done|]. split; [done|]. split; [done|]. intros i Hi.
    assert (EN' : (2 ^ S d)%nat = Z.to_nat (2 * h)) by (rewrite <- EN, <- pow2_Z; lia).
    assert (Hi' : (0 <= Z.of_nat i < 2 * h)%Z) by lia. rewrite EN'.
    destruct (decide (i = O)) as [->|Hi0].
    { rewrite Nat.sub_0_r, Nat.Div0.mod_same. apply K3; [lia|done]. }
    rewrite Nat.mod_small by lia.
    assert (Ey : y (Z.to_nat (2 * h) - i)%nat = Y (2 * h - Z.of_nat i)%Z) by (unfold Y; f_equal; lia).
    rewrite Ey. destruct (Z.lt_trichotomy (Z.of_nat i) h) as [H|[H|H]].
    + apply K3; [lia|]. apply K2; [lia|]. apply HP. lia.
    + rewrite H. by replace (2 * h - h)%Z with h by lia.
    + apply K3; [lia|]. apply K2; [lia|]. destruct (HP (2 * h - Z.of_nat i)%Z ltac:(lia)) as [_ H2].
      by replace (2 * h - (2 * h - Z.of_nat i))%Z with (Z.of_nat i) in H2 by lia.
Qed.

(** The inverse of two, and of the length. *)
Lemma half_pow (h : K) n : (1 + 1) * h = 1 -> kpow (1 + 1) n * kpow h n = 1.
Proof. apply kpow_inv. Qed.

Lemma FFT_ifft_spec F s w nThreads logs log d (a : array E) (x : nat -> K) :
  fft_table F s w -> (1 <= nThreads < 2 ^ 32)%Z -> (d <= s)%nat -> (d < 31)%nat ->
  fft_logs nThreads d logs ->
  call_log true nThreads (parallelFor 1 (Z.shiftr (2 ^ Z.of_nat d) 1) nThreads) log ->
  holds a (2 ^ d) x ->
  exists a' w' k, FFT_ifft F logs log a (2 ^ Z.of_nat d) = Some a' /\
    fft_root s d w * w' = 1 /\ kpow (1 + 1) d * k = 1 /\
    holds a' (2 ^ d) (fun i => dft w' (2 ^ d) x i * k).
Proof.
  intros Ht Hn Hds Hd Hlogs Hlog Ha. unfold FFT_ifft.
  destruct (FFT_fft_spec F s w nThreads logs d a x Ht Hn Hds Hd Hlogs Ha) as (a1 & E1 & H1).
  destruct (table_powers F s w Ht) as (h & Hh & Hpow). destruct (Hpow d ltac:(lia)) as (c & Gc & Rc).
  rewrite E1, FFT_log2_pow2 by lia. cbn [mbind option_bind]. rewrite Gc. cbn [mbind option_bind].
  destruct (backwards_spec nThreads log d a1 c _ (kpow h d) Hn Hd Hlog H1 Rc) as (a2 & a3 & a4 & E2 & E3 & E4 & H4).
  { intros ->. cbn. ring. }
  rewrite E2. cbn [mbind option_bind]. rewrite E3. cbn [mbind option_bind]. rewrite E4.
  assert (Hw : root2 d (fft_root s d w)).
  { apply root2_pow. replace (d + (s - d))%nat with s by lia. apply Ht. }
  set (v := fft_root s d w) in *. exists a4, (kpow v (2 ^ d - 1)), (kpow h d).
  assert (Hv : v * kpow v (2 ^ d - 1) = 1).
  { change (kpow v (S (2 ^ d - 1)) = 1). rewrite <- (root2_one d v Hw). f_equal.
    assert (2 ^ d <> 0)%nat by (apply Nat.pow_nonzero; lia). lia. }
  split; [done|]. split; [done|]. split; [by apply half_pow|].
  intros i Hi. eapply cell_eq; [by apply H4|]. cbn. f_equal.
  destruct (decide (i = O)) as [->|Hi0].
  - rewrite Nat.sub_0_r, Nat.Div0.mod_same. unfold dft. apply ksum_ext. intros; cbn. done.
  - rewrite Nat.mod_small by lia. apply dft_backwards; [done|done|lia].
Qed.
End Transform.
