(* ===== verification/FftInit.v ===== *)
(** The constructor of the transform: for a domain the field has roots for it ends with
    a table of the roots of unity and of the powers of one half; for a larger one it
    reports the error. *)

From Stdlib Require Import Field ArithRing Zmod String.
From S2P Require Import Prelude Mpz Loops Parallel Schedule Field Dft Fft FftSpec.

(** What the constructor relies on: [E] is the field of residues modulo [q]. *)
Class FftFieldLaws (K E : Type) `{KField K} `{FftField E} `{FieldRep K E} (q : Z) : Prop := {
  ff_laws : FieldLaws K E;
  ff_prime : Z.prime q;
  ff_char : knat (Z.to_nat q) = 0%K;
  f_exp_rep a x s : f_rep a x -> Forall is_byte s ->
    f_rep (f_exp a s) (kpow x (Z.to_nat (le_value s)));
  f_fromMpz_rep v : 0 <= v < q -> f_rep (f_fromMpz v) (knat (Z.to_nat v) : K);
  f_toMpz_rep a v : 0 <= v < q -> f_rep a (knat (Z.to_nat v) : K) -> f_toMpz a = v
}.

(** [z] is the least number from 2 on that is not a square modulo [q]. *)
Definition least_nonresidue (q z : Z) : Prop :=
  2 <= z < q /\ z ^ (q / 2) mod q <> 1 /\ forall k, 2 <= k < z -> k ^ (q / 2) mod q = 1.

Section Init.
Context {K E : Type} {KF : KField K} {FF : FftField E} {R : FieldRep K E} {q : Z}
  {L : FftFieldLaws K E q} {M : Mpz} {ML : MpzLaws M}.
Add Field K_field_init : (k_theory (K := K)).
#[local] Open Scope field_scope.

#[local] Instance init_laws : FieldLaws K E := ff_laws (q := q).

(** ** Residues in the field *)

Let kz (v : Z) : K := knat (Z.to_nat v).

Lemma kz_mod v : (0 <= v)%Z -> kz (v mod q) = kz v.
Proof.
  intros Hv. pose proof (ff_prime (K := K) (E := E) (q := q)) as Hq.
  assert (Hq0 : (0 < q)%Z) by (destruct Hq; lia). unfold kz.
  rewrite (Z.div_mod v q) at 2 by lia. pose proof (Z.mod_pos_bound v q Hq0).
  assert (0 <= v / q)%Z by (apply Z.div_pos; lia).
  rewrite Z2Nat.inj_add, Z2Nat.inj_mul, knat_add, knat_mul by nia.
  rewrite (ff_char (K := K) (E := E) (q := q)). ring.
Qed.

Lemma kz_pow v e : (0 <= v)%Z -> (0 <= e)%Z -> kz (v ^ e mod q) = kpow (kz v) (Z.to_nat e).
Proof.
  intros Hv He. rewrite kz_mod by (by apply Z.pow_nonneg). unfold kz.
  rewrite <- knat_pow. f_equal. rewrite <- (Z2Nat.id e He) at 1. rewrite <- (Z2Nat.id v Hv) at 1.
  by rewrite <- Nat2Z.inj_pow, Nat2Z.id.
Qed.

Lemma kz_inj u v : (0 <= u < q)%Z -> (0 <= v < q)%Z -> kz u = kz v -> u = v.
Proof.
  intros Hu Hv Huv. pose proof (f_fromMpz_rep (K := K) (E := E) u Hu) as H.
  rewrite <- (f_toMpz_rep (K := K) (f_fromMpz u) u Hu H). change (knat (Z.to_nat u)) with (kz u) in H.
  rewrite Huv in H. by apply (f_toMpz_rep (K := K)).
Qed.

Lemma kz_1 : kz 1 = 1.
Proof. change (kz 1) with (0 + 1 : K). ring. Qed.

Lemma kz_minus_one : kz (q - 1) = - (1).
Proof.
  pose proof (ff_prime (K := K) (E := E) (q := q)) as [Hq _].
  pose proof (ff_char (K := K) (E := E) (q := q)) as Hc.
  replace (Z.to_nat q) with (S (Z.to_nat (q - 1))) in Hc by lia. rewrite knat_S in Hc.
  unfold kz. transitivity (knat (Z.to_nat (q - 1)) + 1 - 1); [ring|]. rewrite Hc. ring.
Qed.

Lemma kz_2 : kz 2 = 1 + 1.
Proof. change (kz 2) with (0 + 1 + 1 : K). ring. Qed.

(** An odd field. *)
Lemma k_two_nonzero : (2 < q)%Z -> 1 + 1 <> 0 :> K.
Proof.
  intros Hq E0. rewrite <- kz_2 in E0. assert (H0 : kz 0 = 0) by done. rewrite <- H0 in E0.
  apply kz_inj in E0; lia.
Qed.

(** The power of a non-residue to half the order is minus one. *)
Lemma nonresidue_power z :
  (2 < q)%Z -> (2 <= z < q)%Z -> z ^ (q / 2) mod q <> 1%Z -> kpow (kz z) (Z.to_nat (q / 2)) = - (1).
Proof.
  intros Hq2 Hz Hn. pose proof (ff_prime (K := K) (E := E) (q := q)) as Hq.
  assert (Hodd : (q = 2 * (q / 2) + 1)%Z).
  { pose proof (Z.div_mod q 2 ltac:(lia)). pose proof (Z.mod_pos_bound q 2 ltac:(lia)).
    assert (q mod 2 <> 0)%Z; [|lia]. intros E0. destruct Hq as [_ Hq]. apply (Hq 2%Z); [lia|].
    by apply Z.mod_divide. }
  assert (0 <= q / 2)%Z by (apply Z.div_pos; lia).
  assert (Hsq : kpow (kz z) (Z.to_nat (q / 2)) * kpow (kz z) (Z.to_nat (q / 2)) = 1 * 1).
  { rewrite <- kpow_add, <- Z2Nat.inj_add, <- kz_pow by lia.
    replace (q / 2 + q / 2)%Z with (q - 1)%Z by lia.
    rewrite (Z.fermat_nz q z Hq) by (rewrite Z.mod_small; lia). rewrite kz_1. ring. }
  apply k_squares in Hsq as [Hs|Hs]; [|done]. exfalso. apply Hn.
  rewrite <- kz_pow in Hs by lia. rewrite <- kz_1 in Hs.
  apply (kz_inj _ 1); [apply Z.mod_pos_bound; lia|lia|done].
Qed.

(** ** The table of roots *)

(** The share of one thread: it writes powers of the root, wherever it writes. *)
Lemma roots_block_spec (nT N t : Z) (roots : array E) (w : K) :
  (1 <= nT)%Z -> (2 <= N < 2 ^ 63)%Z -> (0 <= t < nT)%Z -> Z.of_nat (length roots) = N ->
  cell roots 1 w ->
  exists roots', roots_block N nT t roots = Some roots' /\ Z.of_nat (length roots') = N /\
    (forall i, (0 <= i)%Z -> cell roots i (kpow w (Z.to_nat i)) -> cell roots' i (kpow w (Z.to_nat i))) /\
    forall i, (2 <= i)%Z -> (t * (N / nT) <= i)%Z -> (t = nT - 1 \/ i < (t + 1) * (N / nT))%Z -> (i < N)%Z ->
      cell roots' i (kpow w (Z.to_nat i)).
Proof.
  intros HnT HN Ht Hl Hw. set (inc := (N / nT)%Z).
  assert (Hinc : (0 <= inc /\ inc * nT <= N)%Z).
  { split; [apply Z.div_pos; lia|]. unfold inc. rewrite Z.mul_comm. apply Z.mul_div_le. lia. }
  assert (Hti : (0 <= t * inc /\ (t + 1) * inc <= N)%Z) by nia.
  unfold roots_block. fold inc.
  rewrite !u64_id by (unfold is_u64; fold_pows; nia).
  set (start := if (t =? 0)%Z then 2%Z else (t * inc)%Z).
  set (end_ := if (t =? nT - 1)%Z then N else ((t + 1) * inc)%Z).
  assert (Hstart : (0 <= start /\ (t * inc <= start) /\ (start = t * inc \/ start = 2))%Z)
    by (unfold start; destruct (Z.eqb_spec t 0) as [->|]; lia).
  assert (Hend : (end_ <= N /\ (t = nT - 1 -> end_ = N) /\ (t <> nT - 1 -> end_ = (t + 1) * inc))%Z)
    by (unfold end_; destruct (Z.eqb_spec t (nT - 1)); lia).
  set (good (i : Z) (a : array E) := cell a i (kpow w (Z.to_nat i))).
  assert (Hg1 : forall a, good 1%Z a <-> cell a 1 w).
  { intros a. unfold good. change (kpow w (Z.to_nat 1)) with (w * 1 : K). by replace (w * 1 : K) with w by ring. }
  assert (Hpow1 : forall i, (1 <= i)%Z -> kpow w (Z.to_nat i) = kpow w (Z.to_nat (i - 1)) * w).
  { intros i Hi. replace (Z.to_nat i) with (S (Z.to_nat (i - 1))) by lia. cbn [kpow]. ring. }
  (* what a write of the right power keeps *)
  assert (Hset : forall i e a, (0 <= i < N)%Z -> Z.of_nat (length a) = N -> f_rep e (kpow w (Z.to_nat i)) ->
    exists a', array_set a i e = Some a' /\ Z.of_nat (length a') = N /\ good i a' /\
      forall k, good k a -> good k a').
  { intros i e a Hi Hla He. destruct (cell_set a i e _ ltac:(lia) He) as (a' & E' & L' & C' & K').
    exists a'. split; [done|]. split; [lia|]. split; [done|]. intros k Hk.
    destruct (decide (k = i)) as [->|]; [done|by apply K']. }
  assert (H0 : exists r0, (if (end_ >? start)%Z then
      root1 ← array_get roots 1; array_set roots start (f_exp root1 (le_bytes 8 start)) else Some roots) = Some r0 /\
      Z.of_nat (length r0) = N /\ (forall k, good k roots -> good k r0) /\ ((start < end_)%Z -> good start r0)).
  { rewrite Z.gtb_ltb. destruct (Z.ltb_spec start end_) as [Hlt|Hge].
    - destruct Hw as (e & Ge & Re). rewrite Ge. cbn [mbind option_bind].
      destruct (Hset start (f_exp e (le_bytes 8 start)) roots) as (r0 & E0 & L0 & G0 & K0); [lia|done| |].
      { pose proof (f_exp_rep (q := q) e w (le_bytes 8 start) Re (le_bytes_byte _ _)) as H.
        rewrite le_value_bytes in H; [done|]. cbn. fold_pows. lia. }
      exists r0. by repeat split.
    - exists roots. repeat split; [done|done|lia]. }
  destruct H0 as (r0 & -> & L0 & K0 & G0). cbn [mbind option_bind].
  destruct (for_each_range (fun i a => Z.of_nat (length a) = N /\ (forall k, good k roots -> good k a) /\
      forall k, (start <= k < Z.min i end_)%Z -> good k a)
    (start + 1) (Z.max 0 (end_ - (start + 1)))
    (fun i roots => x ← array_get roots (i - 1); root1 ← array_get roots 1; array_set roots i (f_mul x root1))
    r0) as (r' & E' & L' & K' & G').
  - lia.
  - split; [done|]. split; [done|]. intros k Hk. assert (k = start) as -> by lia. apply G0. lia.
  - intros i a Hi (La & Ka & Ga).
    assert (Hprev : good (i - 1)%Z a) by (apply Ga; lia). destruct Hprev as (x & Gx & Rx). rewrite Gx.
    assert (H1 : good 1%Z a) by (by apply Ka, Hg1). apply Hg1 in H1 as (y & Gy & Ry). cbn [mbind option_bind].
    rewrite Gy. cbn [mbind option_bind].
    destruct (Hset i (f_mul x y) a) as (a' & Ea & La' & Ga' & Ka'); [lia|done| |].
    { rewrite Hpow1 by lia. by apply f_mul_rep. }
    exists a'. split; [done|]. split; [done|]. split; [intros k Hk; by apply Ka', Ka|].
    intros k Hk. destruct (decide (k = i)) as [->|]; [done|]. apply Ka', Ga. lia.
  - assert (Es : seqZ (start + 1) (end_ - (start + 1)) = seqZ (start + 1) (Z.max 0 (end_ - (start + 1)))).
    { destruct (Z.max_spec 0 (end_ - (start + 1))) as [[_ ->]|[Hle ->]]; [done|]. by rewrite !seqZ_nil by lia. }
    rewrite Es, E'. exists r'. split; [done|]. split; [done|]. split; [intros i _; apply K'|].
    intros i Hi Hi1 Hi2 HiN.
    assert (start <= i < end_)%Z by lia.
    apply G'. lia.
Qed.

(** All threads together. *)
Lemma roots_all nT N log (roots : array E) (w : K) :
  (1 <= nT < 2 ^ 32)%Z -> (2 <= N < 2 ^ 63)%Z -> call_log false nT (parallelBlock nT) log ->
  Z.of_nat (length roots) = N -> cell roots 0 1 -> cell roots 1 w ->
  exists roots', run_block log (roots_block N nT) roots = Some roots' /\
    holds roots' (Z.to_nat N) (kpow w).
Proof.
  intros HnT HN Hlog Hl H0 H1.
  assert (Hc1 : forall a : array E, cell a 1 (kpow w (Z.to_nat 1)) <-> cell a 1 w).
  { intros a. change (kpow w (Z.to_nat 1)) with (w * 1 : K). by replace (w * 1 : K) with w by ring. }
  set (inc := (N / nT)%Z).
  destruct (parallelBlock_steps
    (fun a => Z.of_nat (length a) = N /\ cell a 0 1 /\ cell a 1 w)
    (fun t a => forall i, (2 <= i)%Z -> (t * inc <= i)%Z -> (t = nT - 1 \/ i < (t + 1) * inc)%Z -> (i < N)%Z ->
      cell a i (kpow w (Z.to_nat i)))
    nT log (roots_block N nT) roots) as (r' & E' & (L' & C0 & C1) & HP); [done|done|done| |].
  - intros t a Ht (La & A0 & A1).
    destruct (roots_block_spec nT N t a w ltac:(lia) HN Ht La A1) as (a' & Ea & La' & Ka & Ga).
    exists a'. split; [done|]. split; [split; [done|split; [by apply (Ka 0%Z)|by apply Hc1, (Ka 1%Z); [|apply Hc1]]]|].
    split; [exact Ga|]. intros k Hk i Hi Hi1 Hi2 HiN. apply Ka; [lia|]. by apply Hk.
  - exists r'. split; [done|]. intros i Hi.
    destruct (decide (i = O)) as [->|]; [done|]. destruct (decide (i = 1%nat)) as [->|]; [by apply (Hc1 r')|].
    rewrite <- (Nat2Z.id i) at 2.
    assert (Hinc : (0 <= inc)%Z) by (apply Z.div_pos; lia).
    destruct (decide (inc = 0)%Z) as [E0|E0]; [apply (HP (nT - 1)%Z); lia|].
    pose proof (Z.mul_div_le (Z.of_nat i) inc ltac:(lia)). pose proof (Z.mul_succ_div_gt (Z.of_nat i) inc ltac:(lia)).
    assert (0 <= Z.of_nat i / inc)%Z by (apply Z.div_pos; lia).
    apply (HP (Z.min (Z.of_nat i / inc) (nT - 1))%Z); [lia|lia|nia|nia|lia].
Qed.

Lemma powers_loop_spec s (a : array E) (h : K) :
  (1 <= s)%Z -> Z.of_nat (length a) = (s + 1)%Z -> cell a 0 1 -> cell a 1 h ->
  exists a', powers_loop s a = Some a' /\ holds a' (Z.to_nat (s + 1)) (kpow h).
Proof.
  intros Hs Hl H0 H1.
  assert (Hc1 : forall a : array E, cell a 1 (kpow h (Z.to_nat 1)) <-> cell a 1 h).
  { intros b. change (kpow h (Z.to_nat 1)) with (h * 1 : K). by replace (h * 1 : K) with h by ring. }
  destruct (for_each_range (fun i a => Z.of_nat (length a) = (s + 1)%Z /\
      forall k, (0 <= k < i)%Z -> cell a k (kpow h (Z.to_nat k))) 2 (s - 1)
    (fun i a => x ← array_get a (i - 1); y ← array_get a 1; array_set a i (f_mul x y)) a)
    as (a' & E' & L' & G'); [lia| | |].
  - split; [done|]. intros k Hk. assert (k = 0 \/ k = 1)%Z as [-> | ->] by lia; [done|by apply Hc1].
  - intros i b Hi [Lb Gb]. destruct (Gb (i - 1)%Z ltac:(lia)) as (x & Gx & Rx).
    pose proof (Gb 1%Z ltac:(lia)) as (y & Gy & Ry)%Hc1. rewrite Gx, Gy. cbn [mbind option_bind].
    destruct (cell_set b i (f_mul x y) (kpow h (Z.to_nat i))) as (b' & Eb & Lb' & Cb & Kb); [lia| |].
    { replace (Z.to_nat i) with (S (Z.to_nat (i - 1))) by lia. cbn [kpow].
      apply (f_rep_eq _ (kpow h (Z.to_nat (i - 1)) * h)); [by apply f_mul_rep|ring]. }
    exists b'. split; [done|]. split; [lia|]. intros k Hk.
    destruct (decide (k = i)) as [->|]; [done|]. apply Kb; [done|]. apply Gb. lia.
  - exists a'. split; [exact E'|]. intros i Hi. rewrite <- (Nat2Z.id i) at 2. apply G'. lia.
Qed.

(** ** The constructor *)

Lemma two_inverse : (2 < q)%Z -> exists x, fst (mpz_invert 2 q) = x /\ (0 <= x < q)%Z /\ (1 + 1) * kz x = 1.
Proof.
  intros Hq2. pose proof (ff_prime (K := K) (E := E) (q := q)) as Hq.
  assert (Hg : Z.gcd 2 q = 1%Z).
  { rewrite Z.gcd_comm. apply Z.coprime_prime_small; [done|lia]. }
  pose proof (mpz_invert_exists 2 q ltac:(lia) Hg) as Hs.
  destruct (mpz_invert 2 q) as [x ok] eqn:Ei. cbn in Hs. subst ok.
  destruct (mpz_invert_spec 2 q x ltac:(lia) Ei) as [Hx Hm]. exists x. split; [done|]. split; [done|].
  rewrite <- kz_2. unfold kz. rewrite <- knat_mul, <- Z2Nat.inj_mul by lia.
  fold (kz (2 * x)). by rewrite <- kz_mod, Hm, kz_1 by lia.
Qed.

Lemma array_set_new (n i : Z) (a : array E) e :
  (0 <= i < n)%Z -> Z.of_nat (length a) = n -> exists a', array_set a i e = Some a' /\
    Z.of_nat (length a') = n /\ (forall x : K, f_rep e x -> cell a' i x) /\
    forall k (x : K), k <> i -> cell a k x -> cell a' k x.
Proof.
  intros Hi Hl. destruct (array_set_ok a i e ltac:(lia)) as (a' & E' & L' & G' & K').
  exists a'. split; [done|]. split; [lia|]. split; [intros x Hx; by exists e|].
  intros k x Hk (e' & Ge & Re). exists e'. by rewrite K'.
Qed.

(** The part of the constructor that fills the tables. *)
Lemma tables_spec nT log m_nqr m_aux s (w : K) :
  (2 < q)%Z -> (1 <= nT < 2 ^ 32)%Z -> call_log false nT (parallelBlock nT) log -> (1 <= s < 63)%Z ->
  f_rep (f_fromMpz (mpz_powm m_nqr m_aux q) : E) w -> root2 (Z.to_nat s) w ->
  exists r0 p0 r1 p1 r2 p2 last root1,
    array_set (new_array (Z.shiftl 1 s)) 0 f_one = Some r0 /\
    array_set (new_array (s + 1)) 0 f_one = Some p0 /\
    array_set r0 1 (f_fromMpz (mpz_powm m_nqr m_aux q)) = Some r1 /\
    array_set p0 1 (f_fromMpz (fst (mpz_invert 2 q))) = Some p1 /\
    run_block log (roots_block (Z.shiftl 1 s) nT) r1 = Some r2 /\
    array_get r2 (Z.shiftl 1 s - 1) = Some last /\ array_get r2 1 = Some root1 /\
    f_eq (f_mul last root1) f_one = true /\ powers_loop s p1 = Some p2 /\
    fft_table (mkFft s (f_fromMpz m_nqr) r2 p2) (Z.to_nat s) w.
Proof.
  intros Hq2 HnT Hlog Hs Hw Hroot. rewrite Z.shiftl_1_l. set (N := (2 ^ s)%Z).
  assert (HN : (2 <= N < 2 ^ 63)%Z).
  { unfold N. split; [change 2%Z with (2 ^ 1)%Z at 1; apply Z.pow_le_mono_r; lia|apply Z.pow_lt_mono_r; lia]. }
  destruct (two_inverse Hq2) as (x & Ex & Hx & Hhalf). rewrite Ex.
  destruct (array_set_new N 0 (new_array N) f_one) as (r0 & E0 & L0 & C0 & _); [lia|apply new_array_length; lia|].
  destruct (array_set_new (s + 1) 0 (new_array (s + 1)) f_one) as (p0 & F0 & M0 & D0 & _);
    [lia|apply new_array_length; lia|].
  destruct (array_set_new N 1 r0 (f_fromMpz (mpz_powm m_nqr m_aux q))) as (r1 & E1 & L1 & C1 & K1); [lia|done|].
  destruct (array_set_new (s + 1) 1 p0 (f_fromMpz x)) as (p1 & F1 & M1 & D1 & K1'); [lia|done|].
  destruct (roots_all nT N log r1 w HnT HN Hlog L1) as (r2 & E2 & H2).
  { apply K1; [lia|]. apply C0, f_one_rep. }
  { by apply C1. }
  destruct (powers_loop_spec s p1 (kz x)) as (p2 & F2 & H2'); [lia|done| | |].
  { apply K1'; [lia|]. apply D0, f_one_rep. }
  { apply D1. by apply (f_fromMpz_rep (q := q)). }
  assert (EN : N = Z.of_nat (2 ^ Z.to_nat s)) by (rewrite pow2_Z, Z2Nat.id by lia; done).
  destruct (H2 (Z.to_nat (N - 1)) ltac:(lia)) as (last & Gl & Rl).
  destruct (H2 1%nat ltac:(lia)) as (root1 & G1 & R1). rewrite Z2Nat.id in Gl by lia.
  exists r0, p0, r1, p1, r2, p2, last, root1. repeat (split; [assumption|]).
  assert (Hlast : f_eq (f_mul last root1) f_one = true).
  { rewrite (f_eq_rep _ _ 1 1).
    - by rewrite bool_decide_eq_true_2.
    - apply (f_rep_eq _ (kpow w (Z.to_nat (N - 1)) * kpow w 1)); [by apply f_mul_rep|].
      rewrite <- kpow_add. replace (Z.to_nat (N - 1) + 1)%nat with (2 ^ Z.to_nat s)%nat by lia.
      by apply root2_one.
    - apply f_one_rep. }
  split; [done|]. split; [exact F2|].
  split; cbn [fft_s fft_roots fft_powTwoInv].
  - lia.
  - lia.
  - by apply k_two_nonzero.
  - done.
  - by replace (2 ^ Z.to_nat s)%nat with (Z.to_nat N) by lia.
  - exists (kz x). split; [done|]. by replace (S (Z.to_nat s)) with (Z.to_nat (s + 1)) by lia.
Qed.

Lemma FFT_new_spec fuel nT log D z :
  (2 < q)%Z -> least_nonresidue q z -> (Z.to_nat (z - 2) <= fuel)%nat ->
  (1 <= nT < 2 ^ 32)%Z -> call_log false nT (parallelBlock nT) log -> (0 < D < 2 ^ 63)%Z ->
  ((2 ^ Z.log2 D | q - 1)%Z -> exists (F : Fft E) w,
     FFT_new fuel nT log D = Some (inr F) /\ fft_table F (Z.to_nat (Z.max 1 (Z.log2 D))) (w : K)) /\
  (~ (2 ^ Z.log2 D | q - 1)%Z ->
     FFT_new (E := E) fuel nT log D = Some (inl "Domain size too big for the curve"%string)).
Proof.
  intros Hq2 (Hz & Hnr & Hleast) Hfuel HnT Hlog HD.
  assert (Hd : (0 <= Z.log2 D < 63)%Z) by (split; [apply Z.log2_nonneg|apply Z.log2_lt_pow2; lia]).
  set (d := Z.log2 D) in *. unfold FFT_new. rewrite FFT_log2_spec by (fold_pows; lia). fold d.
  cbn [mbind option_bind].
  assert (Ent : f_toMpz (f_negOne : E) = (q - 1)%Z).
  { apply (f_toMpz_rep (K := K)); [lia|]. apply (f_rep_eq _ (- (1)) _ f_negOne_rep).
    symmetry. apply kz_minus_one. }
  rewrite Ent. replace (q - 1 + 1)%Z with q by lia.
  assert (Hodd : (q - 1 = 2 * (q / 2))%Z).
  { pose proof (ff_prime (K := K) (E := E) (q := q)) as [_ Hq]. pose proof (Z.div_mod q 2 ltac:(lia)).
    pose proof (Z.mod_pos_bound q 2 ltac:(lia)).
    assert (q mod 2 <> 0)%Z; [|lia]. intros E0. apply (Hq 2%Z); [lia|]. by apply Z.mod_divide. }
  assert (Eh : Z.shiftr (q - 1) 1 = (q / 2)%Z).
  { rewrite Z.shiftr_div_pow2, Hodd, Z.mul_comm by lia. by apply Z.div_mul. }
  rewrite Eh. assert (H0 : (0 <= q / 2)%Z) by (apply Z.div_pos; lia).
  rewrite (nqr_loop_spec fuel 2 z (q / 2) q) by (done || lia). cbn [mbind option_bind].
  destruct (adicity_loop_spec (Z.to_nat d) (q - 1) (q / 2) 1 d) as (s & Es & Hdiv & Hs & Hmax); [|exists (q / 2)%Z|lia..|].
  { by rewrite <- Eh, Z.shiftr_div_pow2. }
  { change (2 ^ 1)%Z with 2%Z. lia. }
  rewrite Es. cbn [mbind option_bind]. split.
  - intros Hdd. specialize (Hmax Hdd). assert (s = Z.max 1 d) as Esd by lia.
    rewrite (proj2 (Z.ltb_ge s d)), Z.geb_leb, (proj2 (Z.leb_gt 63 s)) by lia.
    destruct Hdiv as [m Hm]. assert (Hp : (0 < 2 ^ s)%Z) by (apply Z.pow_pos_nonneg; lia).
    assert (Em : ((q - 1) / 2 ^ s)%Z = m) by (rewrite Hm; by apply Z.div_mul; lia).
    assert (Hm0 : (0 <= m)%Z) by nia. rewrite Em.
    set (w := kpow (kz z) (Z.to_nat m)).
    assert (Hw : f_rep (f_fromMpz (mpz_powm z m q) : E) w).
    { rewrite mpz_powm_spec by lia. unfold w. rewrite <- kz_pow by lia.
      apply (f_fromMpz_rep (q := q)), Z.mod_pos_bound. lia. }
    assert (Hroot : root2 (Z.to_nat s) w).
    { replace (Z.to_nat s) with (S (Z.to_nat (s - 1))) by lia. cbn [root2]. unfold w. rewrite <- kpow_mul.
      rewrite <- (nonresidue_power z Hq2 Hz Hnr). f_equal.
      assert (E2 : (2 ^ s = 2 * 2 ^ (s - 1))%Z) by (rewrite <- Z.pow_succ_r by lia; f_equal; lia).
      apply Nat2Z.inj. rewrite Nat2Z.inj_mul, pow2_Z, !Z2Nat.id by lia. nia. }
    destruct (tables_spec nT log z m s w Hq2 HnT Hlog ltac:(lia) Hw Hroot)
      as (r0 & p0 & r1 & p1 & r2 & p2 & last & root1 & T1 & T2 & T3 & T4 & T5 & T6 & T7 & T8 & T9 & T10).
    rewrite T1. cbn [mbind option_bind]. rewrite T2. cbn [mbind option_bind].
    assert (HN1 : (Z.shiftl 1 s >? 1)%Z = true).
    { apply Z.gtb_lt. rewrite Z.shiftl_1_l. change 1%Z with (2 ^ 0)%Z. apply Z.pow_lt_mono_r; lia. }
    rewrite HN1, T3. cbn [mbind option_bind]. rewrite T4. cbn [mbind option_bind].
    rewrite T5. cbn [mbind option_bind]. rewrite T6. cbn [mbind option_bind].
    rewrite T7. cbn [mbind option_bind]. rewrite T8, T9. cbn [mbind option_bind].
    eexists _, w. split; [reflexivity|]. by rewrite <- Esd.
  - intros Hnd. assert (s < d)%Z.
    { apply Z.nle_gt. intros Hle. apply Hnd. etrans; [|exact Hdiv].
      exists (2 ^ (s - d))%Z. rewrite <- Z.pow_add_r by lia. f_equal. lia. }
    by rewrite (proj2 (Z.ltb_lt s d)).
Qed.
End Init.
