(* ===== verification/FftFr.v ===== *)
(** The transform at the class it is instantiated with: [FFT<RawFr>], over the order of
    the groups of the curve, without any hypothesis on the field. *)

From Stdlib Require Import Field ArithRing Zmod String.
From S2P Require Import Prelude Limbs Gmp Mpz FrRaw FrElement FrElementWp FrMpz RawFr Loops Parallel Schedule Primes Field Dft Fft FftSpec FftInit.

#[export] Instance RawFr_fft {P : FieldParams} {G : Mpn} {MZ : Mpz} : FftField Element := {|
  ff_ops := RawFr_field;
  f_exp a scalar := RawFr_exp a scalar (length scalar);
  f_toMpz := RawFr_toMpz;
  f_fromMpz := RawFr_fromMpz
|}.

(** ** The moduli of the program are prime *)

Lemma Fr_q_prime : Z.prime (q (P := Fr_params)).
Proof. replace (q (P := Fr_params)) with fr_modulus by (vm_compute; reflexivity). apply fr_prime. Qed.

Lemma Fq_q_prime : Z.prime (q (P := Fq_params)).
Proof. replace (q (P := Fq_params)) with fq_modulus by (vm_compute; reflexivity). apply fq_prime. Qed.

Section Instance.
Context {P : FieldParams} {OK : FieldOk P} {G : Mpn} {GL : MpnLaws G} {MZ : Mpz} {ML : MpzLaws MZ}.
Context (Hq : Z.prime q).
#[local] Instance residues_fft : KField (Zmod q) := Zmod_field q Hq.
#[local] Existing Instance RawFr_rep.

Lemma knat_residue n : (knat n : Zmod q) = Zmod.of_Z q (Z.of_nat n).
Proof.
  induction n as [|n IH].
  - apply Zmod.to_Z_inj. by rewrite Zmod.to_Z_of_Z, Zmod.to_Z_0, Z.mod_0_l by apply q_nonzero.
  - rewrite knat_S, IH. cbn [k1 kadd residues_fft Zmod_field]. apply Zmod.to_Z_inj.
    rewrite Zmod.to_Z_add, !Zmod.to_Z_of_Z, Zmod.to_Z_1, Nat2Z.inj_succ.
    by rewrite <- Zplus_mod.
Qed.

Lemma kpow_residue (x : Zmod q) n : Zmod.to_Z (kpow x n) = Zmod.to_Z x ^ Z.of_nat n mod q.
Proof.
  induction n as [|n IH].
  - change (kpow x 0) with (Zmod.one : Zmod q). by rewrite Zmod.to_Z_1, Z.pow_0_r.
  - rewrite Nat2Z.inj_succ, Z.pow_succ_r by lia.
    change (kpow x (S n)) with (Zmod.mul x (kpow x n)). by rewrite Zmod.to_Z_mul, IH, Zmult_mod_idemp_r.
Qed.

Lemma RawFr_fft_laws : FftFieldLaws (Zmod q) Element q.
Proof.
  assert (Hnat : forall v, 0 <= v < q -> Zmod.to_Z (knat (Z.to_nat v) : Zmod q) = v).
  { intros v Hv. rewrite knat_residue, Z2Nat.id, Zmod.to_Z_of_Z, Z.mod_small by lia. done. }
  split.
  - apply (RawFr_field_laws Hq).
  - done.
  - rewrite knat_residue, Z2Nat.id by (pose proof q_pos; lia). apply Zmod.to_Z_inj.
    by rewrite Zmod.to_Z_of_Z, Z.mod_same, Zmod.to_Z_0 by apply q_nonzero.
  - intros a x s Ha Hs. unfold f_rep, RawFr_rep in *. cbn [f_exp RawFr_fft].
    rewrite kpow_residue, Z2Nat.id by (by apply le_value_range). by apply RawFr_exp_spec.
  - intros v Hv. unfold f_rep, RawFr_rep. cbn [f_fromMpz RawFr_fft]. rewrite Hnat by done. by apply fromMpz_spec.
  - intros a v Hv Ha. unfold f_rep, RawFr_rep in Ha. rewrite Hnat in Ha by done. by apply toMpz_spec.
Qed.
End Instance.

(** ** The transforms over any field *)

Section Theorems.
Context {K E : Type} {KF : KField K} {FF : FftField E} {R : FieldRep K E} {L : FieldLaws K E}.

(** C11: [FFT::fft] computes the discrete Fourier transform: with a table of the constructor
    and any schedule of the thread pool, on an array of [2 ^ d] initialised elements
    no larger than the table it reaches its end without undefined behaviour, and
    every cell holds the value of the polynomial at a power of the root. *)
Theorem FFT_fft_correct F s (w : K) nThreads logs d (a : array E) x :
  fft_table F s w -> 1 <= nThreads < 2 ^ 32 -> (d <= s)%nat -> (d < 31)%nat ->
  fft_logs nThreads d logs -> holds a (2 ^ d) x ->
  root2 d (fft_root s d w) /\
  exists a', FFT_fft F logs a (2 ^ Z.of_nat d) = Some a' /\
    holds a' (2 ^ d) (dft (fft_root s d w) (2 ^ d) x).
Proof.
  intros Ht Hn Hds Hd Hlogs Ha. split; [|by eapply FFT_fft_spec].
  apply root2_pow. replace (d + (s - d))%nat with s by lia. apply Ht.
Qed.

Add Field K_field_fr : (k_theory (K := K)).

(** C26: [FFT::ifft] after [FFT::fft] restores the array, and so does [fft] after [ifft],
    whatever the schedules of the two calls. *)
Theorem FFT_roundtrip F s (w : K) nThreads logs logs' log d (a : array E) x :
  fft_table F s w -> 1 <= nThreads < 2 ^ 32 -> (d <= s)%nat -> (d < 31)%nat ->
  fft_logs nThreads d logs -> fft_logs nThreads d logs' ->
  call_log true nThreads (parallelFor 1 (Z.shiftr (2 ^ Z.of_nat d) 1) nThreads) log ->
  holds a (2 ^ d) x ->
  (exists a1 a2, FFT_fft F logs a (2 ^ Z.of_nat d) = Some a1 /\
     FFT_ifft F logs' log a1 (2 ^ Z.of_nat d) = Some a2 /\ holds a2 (2 ^ d) x) /\
  (exists a1 a2, FFT_ifft F logs' log a (2 ^ Z.of_nat d) = Some a1 /\
     FFT_fft F logs a1 (2 ^ Z.of_nat d) = Some a2 /\ holds a2 (2 ^ d) x).
Proof.
  intros Ht Hn Hds Hd Hlogs Hlogs' Hlog Ha.
  assert (Hw : root2 d (fft_root s d w)).
  { apply root2_pow. replace (d + (s - d))%nat with s by lia. apply Ht. }
  pose proof (table_two F s w Ht) as H2. split.
  - destruct (FFT_fft_spec F s w nThreads logs d a x Ht Hn Hds Hd Hlogs Ha) as (a1 & E1 & H1).
    destruct (FFT_ifft_spec F s w nThreads logs' log d a1 _ Ht Hn Hds Hd Hlogs' Hlog H1)
      as (a2 & w' & k & E2 & Hinv & Hk & Hh).
    exists a1, a2. split; [done|]. split; [done|]. intros i Hi. eapply cell_eq; [by apply Hh|]. cbn.
    rewrite (dft_inverse d (fft_root s d w) w') by (done || by eapply root2_inverse).
    transitivity (x i * (kpow (1 + 1) d * k))%K; [ring|]. rewrite Hk. ring.
  - destruct (FFT_ifft_spec F s w nThreads logs' log d a x Ht Hn Hds Hd Hlogs' Hlog Ha)
      as (a1 & w' & k & E1 & Hinv & Hk & H1).
    destruct (FFT_fft_spec F s w nThreads logs d a1 _ Ht Hn Hds Hd Hlogs H1) as (a2 & E2 & Hh).
    exists a1, a2. split; [done|]. split; [done|]. intros i Hi. eapply cell_eq; [by apply Hh|].
    transitivity (k * dft (fft_root s d w) (2 ^ d) (dft w' (2 ^ d) x) i)%K.
    { unfold dft. rewrite <- ksum_scale. apply ksum_ext. intros t _. ring. }
    rewrite (dft_inverse d w') by (done || (by eapply root2_inverse) || (rewrite <- Hinv; ring)).
    transitivity (x i * (kpow (1 + 1) d * k))%K; [ring|]. rewrite Hk. ring.
Qed.
End Theorems.

(** ** The constructor over the program's field *)

Section Constructor.
Context {G : Mpn} {GL : MpnLaws G} {MZ : Mpz} {ML : MpzLaws MZ}.
#[local] Existing Instance Fr_params.
#[local] Existing Instance RawFr_rep.
#[local] Instance Fr_residues : KField (Zmod q) := Zmod_field q Fr_q_prime.

Lemma Fr_least_nonresidue : least_nonresidue q 5.
Proof.
  replace q with fr_modulus by (vm_compute; reflexivity).
  destruct fr_nonresidues as (H2 & H3 & H4 & H5).
  split; [split; [lia|vm_compute; reflexivity]|]. split; [exact H5|].
  intros k Hk. assert (k = 2 \/ k = 3 \/ k = 4) as [-> | [-> | ->]] by lia; [exact H2|exact H3|exact H4].
Qed.

Lemma Fr_adicity d : 0 <= d -> (2 ^ d | q - 1) <-> d <= 28.
Proof.
  intros Hd. assert (Hq : q - 1 = 81540058820840996586704275553141814055101440848469862132140264610111 * 2 ^ 28)
    by (vm_compute; reflexivity). rewrite Hq. split.
  - intros Hdiv. apply Z.nlt_ge. intros Hlt.
    assert (H : (2 ^ 29 | 81540058820840996586704275553141814055101440848469862132140264610111 * 2 ^ 28)).
    { etrans; [|exact Hdiv]. exists (2 ^ (d - 29)). rewrite <- Z.pow_add_r by lia. f_equal. lia. }
    apply Z.mod_divide in H; [|done]. revert H. vm_compute. done.
  - intros Hle. apply Z.divide_mul_r. exists (2 ^ (28 - d)). rewrite <- Z.pow_add_r by lia. f_equal. lia.
Qed.

Lemma FFT_constructor_spec fuel nThreads log maxDomainSize :
  (3 <= fuel)%nat -> 1 <= nThreads < 2 ^ 32 ->
  call_log false nThreads (parallelBlock nThreads) log -> 0 < maxDomainSize < 2 ^ 63 ->
  (Z.log2 maxDomainSize <= 28 -> exists (F : Fft Element) (w : Zmod q),
     FFT_new fuel nThreads log maxDomainSize = Some (inr F) /\
     fft_table F (Z.to_nat (Z.max 1 (Z.log2 maxDomainSize))) w) /\
  (28 < Z.log2 maxDomainSize ->
     FFT_new (E := Element) fuel nThreads log maxDomainSize =
       Some (inl "Domain size too big for the curve"%string)).
Proof.
  intros Hf Hn Hlog HD. pose proof (Z.log2_nonneg maxDomainSize) as H0.
  pose proof (RawFr_fft_laws Fr_q_prime) as Hlaws.
  assert (Hq2 : 2 < q) by (vm_compute; reflexivity).
  assert (Hfuel : (Z.to_nat (5 - 2) <= fuel)%nat) by (cbn; lia).
  destruct (FFT_new_spec (L := Hlaws) fuel nThreads log maxDomainSize 5 Hq2 Fr_least_nonresidue Hfuel Hn Hlog HD)
    as [H1 H2].
  split; intros Hd; [apply H1|apply H2]; rewrite Fr_adicity by done; lia.
Qed.

(** C25: The constructor of [FFT<RawFr>] ends: its search for a non-residue stops after
    three steps, its other loops are bounded, and the assertion on the last root
    holds.  For every domain of up to [2 ^ 28] points, any number of threads and any
    order of their work it returns tables of the roots of unity and of the powers of
    one half; for a larger domain it reports the range error. *)
Theorem FFT_constructor fuel nThreads log maxDomainSize :
  (3 <= fuel)%nat -> 1 <= nThreads < 2 ^ 32 ->
  call_log false nThreads (parallelBlock nThreads) log -> 0 < maxDomainSize < 2 ^ 63 ->
  (Z.log2 maxDomainSize <= 28 -> exists (F : Fft Element) (w : Zmod q),
     FFT_new fuel nThreads log maxDomainSize = Some (inr F) /\
     fft_table F (Z.to_nat (Z.max 1 (Z.log2 maxDomainSize))) w) /\
  (28 < Z.log2 maxDomainSize ->
     FFT_new (E := Element) fuel nThreads log maxDomainSize =
       Some (inl "Domain size too big for the curve"%string)).
Proof. apply FFT_constructor_spec. Qed.
End Constructor.

(** ** Instances *)

Section Witnesses.
#[local] Existing Instance Fr_params.
#[local] Existing Instance RawFr_rep.
#[local] Existing Instance Fr_residues.

(** Eight points on one thread. *)
Definition demo_logs (s : Z) : list (JobRange * nat) :=
  if s =? 0 then alone_log true (parallelFor 0 8 1) else alone_log true (parallelFor 0 4 1).

Lemma demo_logs_ok : fft_logs 1 3 demo_logs.
Proof.
  split.
  - apply (alone_call_log true (parallelFor 0 8 1)). vm_compute. reflexivity.
  - intros s Hs. unfold demo_logs. destruct (Z.eqb_spec s 0) as [->|_]; [lia|].
    apply (alone_call_log true (parallelFor 0 4 1)). vm_compute. reflexivity.
Qed.

(** The numbers 1000, ..., 1000. *)
Definition demo_points : array Element := replicate 8 (Some (RawFr_fromMpz 1000)).

Lemma demo_points_ok : holds demo_points 8 (fun _ => Zmod.of_Z q 1000).
Proof.
  intros i Hi. exists (RawFr_fromMpz 1000). split.
  - unfold array_get, demo_points. rewrite (proj2 (Z.leb_le 0 _)) by lia.
    by rewrite Nat2Z.id, lookup_replicate_2.
  - unfold f_rep, RawFr_rep. rewrite Zmod.to_Z_of_Z. apply fromMpz_spec.
    apply Z.mod_pos_bound, q_pos.
Qed.

Lemma demo_table : exists (F : Fft Element) (w : Zmod q), fft_table F 3 w.
Proof.
  destruct (FFT_new_spec (L := RawFr_fft_laws Fr_q_prime) 3 1 (alone_log false (parallelBlock 1)) 8 5)
    as [H _]; [vm_compute; reflexivity|apply Fr_least_nonresidue|cbn; lia|lia| |lia|].
  - apply (alone_call_log false (parallelBlock 1)). vm_compute. reflexivity.
  - destruct H as (F & w & _ & H); [apply Fr_adicity; cbn; lia|]. by exists F, w.
Qed.

Lemma FFT_fft_correct_witness : exists (F : Fft Element) (w : Zmod q),
  root2 3 (fft_root 3 3 w) /\
  exists a', FFT_fft F demo_logs demo_points 8 = Some a' /\
    holds a' 8 (dft (fft_root 3 3 w) 8 (fun _ => Zmod.of_Z q 1000)).
Proof.
  destruct demo_table as (F & w & Ht). exists F, w.
  apply (FFT_fft_correct (FF := RawFr_fft) (L := RawFr_field_laws Fr_q_prime) F 3 w 1 demo_logs 3 demo_points);
    [exact Ht|lia|lia|lia|apply demo_logs_ok|apply demo_points_ok].
Defined.

Lemma FFT_roundtrip_witness : exists F : Fft Element,
  (exists a1 a2, FFT_fft F demo_logs demo_points 8 = Some a1 /\
     FFT_ifft F demo_logs (alone_log true (parallelFor 1 4 1)) a1 8 = Some a2 /\
     holds a2 8 (fun _ => Zmod.of_Z q 1000)) /\
  (exists a1 a2, FFT_ifft F demo_logs (alone_log true (parallelFor 1 4 1)) demo_points 8 = Some a1 /\
     FFT_fft F demo_logs a1 8 = Some a2 /\ holds a2 8 (fun _ => Zmod.of_Z q 1000)).
Proof.
  destruct demo_table as (F & w & Ht). exists F.
  apply (FFT_roundtrip (FF := RawFr_fft) (L := RawFr_field_laws Fr_q_prime) F 3 w 1 demo_logs demo_logs
    (alone_log true (parallelFor 1 4 1)) 3 demo_points);
    [exact Ht|lia|lia|lia|apply demo_logs_ok|apply demo_logs_ok| |apply demo_points_ok].
  apply (alone_call_log true (parallelFor 1 4 1)). vm_compute. reflexivity.
Defined.

Lemma FFT_constructor_witness :
  (Z.log2 8 <= 28 -> exists (F : Fft Element) (w : Zmod q),
     FFT_new 3 1 (alone_log false (parallelBlock 1)) 8 = Some (inr F) /\ fft_table F 3 w) /\
  (28 < Z.log2 8 -> FFT_new (E := Element) 3 1 (alone_log false (parallelBlock 1)) 8 =
     Some (inl "Domain size too big for the curve"%string)).
Proof.
  apply (FFT_constructor 3 1 (alone_log false (parallelBlock 1)) 8); [lia|lia| |lia].
  apply (alone_call_log false (parallelBlock 1)). vm_compute. reflexivity.
Defined.
End Witnesses.

(** A transform of four points modulo 17 that is evaluated: the class of residues for
    itself, with the root 4. *)
Section Demo.
#[local] Instance F17_ops : FieldOps Z := {|
  f_zero := 0; f_one := 1; f_negOne := 16;
  f_add x y := (x + y) mod 17; f_sub x y := (x - y) mod 17; f_mul x y := (x * y) mod 17;
  f_neg x := (- x) mod 17; f_square x := (x * x) mod 17; f_inv x := x ^ 15 mod 17;
  f_div x y := (x * y ^ 15) mod 17; f_isZero x := x =? 0; f_eq x y := x =? y
|}.
#[local] Instance F17_fft : FftField Z := {|
  f_exp x s := x ^ le_value s mod 17; f_toMpz x := x; f_fromMpz x := x
|}.

Example fft_demo :
  (r ← FFT_new 3 1 (alone_log false (parallelBlock 1)) 4;
   match r with
   | inr F =>
       a ← FFT_fft F (fun s => if s =? 0 then alone_log true (parallelFor 0 4 1)
         else alone_log true (parallelFor 0 2 1)) (map Some [1; 2; 3; 4]) 4;
       Some (fft_nqr F, fft_roots F, a)
   | inl _ => None
   end) = Some (3, map Some [1; 13; 16; 4], map Some [10; 6; 15; 7]).
Proof. vm_compute. reflexivity. Qed.
End Demo.
