(* ===== verification/TowerFq.v ===== *)
(** The tower of the program: over [RawFq], with the constants [alt_bn128.hpp] and the
    constructors give. *)

From Stdlib Require Import Field ArithRing Zmod String.
From S2P Require Import Prelude Limbs Gmp Mpz FrRaw FrElement FrElementWp FrMpz RawFr Primes Field Dft Powers ExtField Tower TowerSpec TowerBn FftFr.

(** ** Powers of pairs of residues *)

Definition pair_mul (n : Z) (x y : Z * Z) : Z * Z :=
  ((fst x * fst y - snd x * snd y) mod n, (fst x * snd y + snd x * fst y) mod n).

Definition pair_square (n : Z) (x : Z * Z) : Z * Z :=
  ((fst x + snd x) * (fst x - snd x) mod n, 2 * (fst x * snd x) mod n).

Fixpoint pair_pow (n : Z) (x : Z * Z) (e : positive) : Z * Z :=
  match e with
  | xH => x
  | xO e => pair_square n (pair_pow n x e)
  | xI e => pair_mul n x (pair_square n (pair_pow n x e))
  end.

#[local] Instance Fq : KField (Zmod (q (P := Fq_params))) := Zmod_field _ Fq_q_prime.

Notation qF := (q (P := Fq_params)).

Definition of_pair (x : Z * Z) : Zmod qF * Zmod qF := (Zmod.of_Z qF (fst x), Zmod.of_Z qF (snd x)).

Add Field Fq_field : (k_theory (K := Zmod qF)).

Lemma of_Z_mod a : Zmod.of_Z qF (a mod qF) = Zmod.of_Z qF a.
Proof. apply Zmod.to_Z_inj. by rewrite !Zmod.to_Z_of_Z, Zmod_mod. Qed.

(** The operations of [Zmod] as those of the field. *)
Ltac fold_field :=
  change (@Zmod.sub qF) with (ksub (K := Zmod qF)); change (@Zmod.add qF) with (kadd (K := Zmod qF));
  change (@Zmod.mul qF) with (kmul (K := Zmod qF)).

Lemma pair_mul_spec x y : of_pair (pair_mul qF x y) = q_mul (- (1))%K (of_pair x) (of_pair y).
Proof.
  unfold of_pair, pair_mul, q_mul. cbn [fst snd]. rewrite !of_Z_mod, Zmod.of_Z_sub, Zmod.of_Z_add, !Zmod.of_Z_mul.
  fold_field. pair_ring.
Qed.

Lemma pair_square_spec x : of_pair (pair_square qF x) = q_mul (- (1))%K (of_pair x) (of_pair x).
Proof.
  unfold of_pair, pair_square, q_mul. cbn [fst snd].
  rewrite !of_Z_mod, !Zmod.of_Z_mul, Zmod.of_Z_sub, Zmod.of_Z_add. fold_field.
  replace (Zmod.of_Z qF 2) with (1 + 1 : Zmod qF)%K by (vm_compute; reflexivity). pair_ring.
Qed.

(** ** The field of the coordinates *)

Definition fq_p : nat := Z.to_nat qF.
Definition fq_m : nat := Z.to_nat (qF / 6).

Lemma fq_p_Z : Z.of_nat fq_p = qF.
Proof. apply Z2Nat.id. by apply Z.leb_le. Qed.

Lemma fq_m_Z : Z.of_nat fq_m = qF / 6.
Proof. apply Z2Nat.id. by apply Z.leb_le. Qed.

#[export] Instance fq_base : BnBase (Zmod qF) fq_p fq_m.
Proof.
  assert (Hm : qF = 6 * (qF / 6) + 1) by (vm_compute; reflexivity). split.
  - rewrite fq_p_Z. apply Fq_q_prime.
  - etransitivity; [apply (knat_residue Fq_q_prime)|]. rewrite fq_p_Z. apply Zmod.to_Z_inj.
    rewrite Zmod.to_Z_of_Z, Z.mod_same by (apply (q_nonzero (P := Fq_params))). done.
  - intros x. apply Zmod.to_Z_inj. etransitivity; [apply (kpow_residue Fq_q_prime)|].
    rewrite fq_p_Z, Z.fermat by apply Fq_q_prime. apply Zmod.mod_to_Z.
  - pose proof fq_p_Z. pose proof fq_m_Z. lia.
  - assert (E : (3 * fq_m = 2 * Z.to_nat (3 * (qF / 6) / 2) + 1)%nat).
    { apply Nat2Z.inj. rewrite Nat2Z.inj_mul, fq_m_Z, Nat2Z.inj_add, Nat2Z.inj_mul, Z2Nat.id
        by (by apply Z.leb_le). vm_compute. reflexivity. }
    rewrite E. apply kpow_minus_one.
Qed.

(** ** The powers of [xi] *)

Lemma pair_pow_spec x e : of_pair (pair_pow qF x e) = @kpow _ bn2 (of_pair x) (Pos.to_nat e).
Proof.
  induction e as [e IH|e IH|].
  - rewrite (proj2 (kpow_positive (F := bn2) _ e)), <- IH. cbn [pair_pow]. by rewrite pair_mul_spec, pair_square_spec.
  - rewrite (proj1 (kpow_positive (F := bn2) _ e)), <- IH. cbn [pair_pow]. by rewrite pair_square_spec.
  - cbn [pair_pow]. change (Pos.to_nat 1) with 1%nat. cbn [kpow].
    rewrite (F_R (k_theory (KField := bn2))).(Rmul_comm). symmetry.
    apply (F_R (k_theory (KField := bn2))).(Rmul_1_l).
Qed.

(** [xi ^ ((p - 1) / 6)], the constant of [F12Field]. *)
Definition gamma : Z * Z :=
  (8376118865763821496583973867626364092589906065868298776909617916018768340080,
   16469823323077808223889137241176536799009286646108169935659301613961712198316).

Lemma gamma_power : pair_pow qF (9, 1) (Z.to_pos (qF / 6)) = gamma.
Proof. vm_compute. reflexivity. Qed.

Definition pair_norm (n : Z) (x : Z * Z) : Z := (fst x * fst x + snd x * snd x) mod n.

Lemma norm_of_pair x : q_norm (- (1))%K (of_pair x) = Zmod.of_Z qF (pair_norm qF x).
Proof.
  unfold pair_norm. rewrite of_Z_mod, Zmod.of_Z_add, !Zmod.of_Z_mul. fold_field. unfold q_norm, of_pair. cbn [fst snd]. ring.
Qed.

Lemma fq_m_pos : fq_m = Pos.to_nat (Z.to_pos (qF / 6)).
Proof. apply Nat2Z.inj. rewrite fq_m_Z, positive_nat_Z. vm_compute. reflexivity. Qed.

Lemma xi_pair : q_xi = of_pair (9, 1).
Proof. unfold q_xi, of_pair. cbn [fst snd]. apply (f_equal2 pair); vm_compute; reflexivity. Qed.

Lemma gamma_norm_pow : pair_norm qF gamma * pair_norm qF gamma mod qF <> 1 /\
  pair_norm qF gamma * (pair_norm qF gamma * pair_norm qF gamma) mod qF <> 1.
Proof. split; vm_compute; discriminate. Qed.

#[export] Instance fq_tower : BnTower (Zmod qF) fq_p fq_m fq_base (of_pair gamma).
Proof.
  assert (H : forall z, z mod qF <> 1 -> Zmod.of_Z qF z <> (1 : Zmod qF)%K).
  { intros z Hz E. apply Hz. apply (f_equal Zmod.to_Z) in E. by rewrite Zmod.to_Z_of_Z in E. }
  split; cbv zeta.
  - etransitivity; [apply (f_equal (kpow q_xi)), fq_m_pos|].
    rewrite xi_pair, <- pair_pow_spec, gamma_power. done.
  - rewrite norm_of_pair. change (kmul (K := Zmod qF)) with (@Zmod.mul qF). rewrite <- Zmod.of_Z_mul.
    apply H, gamma_norm_pow.
  - rewrite norm_of_pair. change (kmul (K := Zmod qF)) with (@Zmod.mul qF). rewrite <- !Zmod.of_Z_mul.
    apply H, gamma_norm_pow.
Qed.
