(* ===== verification/TowerText.v ===== *)
(** The tower the default constructors build from their strings: its constants are the
    powers of [xi], so that the classes implement the extension fields and the
    Frobenius routines the [p]-th power; the round trip of the strings of pairs, and
    the number of digits of a decimal number. *)

From Stdlib Require Import Field ArithRing Zmod String Ascii DecimalString DecimalZ Decimal DecimalFacts DecimalPos.
From S2P Require Import Prelude Limbs Gmp Mpz SplitParStr FrRaw FrElement FrElementWp FrMpz RawFr Primes Field Dft Powers ExtField Tower TowerSpec TowerBn FftFr TowerFq.

(** ** Numbers as strings *)

#[export] Instance RawFr_text {P : FieldParams} {G : Mpn} {MZ : Mpz} : FieldText Element := {|
  f_fromString := RawFr_fromString; f_toString := RawFr_toString
|}.

(** The decimal number [v]. *)
Definition decimal (v : Z) : string := NilEmpty.string_of_int (Z.to_int v).

Lemma plain_uint d : Forall plain (text (NilEmpty.string_of_uint d)).
Proof.
  induction d as [|d IH|d IH|d IH|d IH|d IH|d IH|d IH|d IH|d IH|d IH]; [apply Forall_nil_2|..];
    (apply Forall_cons_2; [by repeat split|exact IH]).
Qed.

Lemma plain_decimal v : Forall plain (text (decimal v)).
Proof.
  unfold decimal. destruct (Z.to_int v) as [d|d]; cbn [NilEmpty.string_of_int]; [apply plain_uint|].
  apply Forall_cons_2; [by repeat split|apply plain_uint].
Qed.

Lemma text_app s t : text (s ++ t) = text s ++ text t.
Proof. induction s as [|c s IH]; [done|]. cbn. by f_equal. Qed.

Lemma string_text s : string_of_list_ascii (text s) = s.
Proof. apply string_of_list_ascii_of_string. Qed.

(** *** Pairs *)

Section Pairs.
Context {E : Type} {FO : FieldOps E} {FT : FieldText E}.

Definition fits32 (s : string) : Prop := Z.of_nat (length (text s)) < 2 ^ 32.

Lemma split_two fuel a b :
  Forall plain (text a) -> Forall plain (text b) -> fits32 a -> fits32 b ->
  splitParStr (S fuel) (text (a ++ "," ++ b)) = Returns [text a; text b].
Proof.
  intros Ha Hb La Lb. rewrite !text_app.
  apply (splitParStr_join fuel [text a] (text b)); [done|by repeat apply Forall_cons_2|].
  unfold fits, fits32 in *. cbn [app join]. rewrite length_app. cbn [length]. lia.
Qed.

Lemma split_two_parens fuel a b :
  Forall plain (text a) -> Forall plain (text b) -> fits32 a -> fits32 b ->
  splitParStr (S (S fuel)) (text ("(" ++ a ++ "," ++ b ++ ")")) = Returns [text a; text b].
Proof.
  intros Ha Hb La Lb.
  replace (text ("(" ++ a ++ "," ++ b ++ ")")) with ("(" :: join ([text a] ++ [text b]) ++ [")"])%char.
  2:{ rewrite !text_app. cbn [app join]. by rewrite <- app_assoc. }
  apply splitParStr_parens; [done|by repeat apply Forall_cons_2|].
  unfold fits, fits32 in *. cbn [app join length]. rewrite !length_app. cbn [length]. lia.
Qed.

Lemma F2_fromString_two fuel a b :
  Forall plain (text a) -> Forall plain (text b) -> fits32 a -> fits32 b ->
  F2_fromString (S fuel) (text (a ++ "," ++ b)) = Returns (mkF2 (f_fromString a) (f_fromString b)).
Proof.
  intros. unfold F2_fromString. rewrite split_two by done. cbn [pbind]. unfold f_fromText. by rewrite !string_text.
Qed.

Lemma F2_fromString_parens fuel a b :
  Forall plain (text a) -> Forall plain (text b) -> fits32 a -> fits32 b ->
  F2_fromString (S (S fuel)) (text ("(" ++ a ++ "," ++ b ++ ")")) = Returns (mkF2 (f_fromString a) (f_fromString b)).
Proof.
  intros. unfold F2_fromString. rewrite split_two_parens by done. cbn [pbind]. unfold f_fromText. by rewrite !string_text.
Qed.

Lemma F2_fromString_single fuel a : Forall plain (text a) -> fits32 a -> F2_fromString fuel (text a) = Running.
Proof.
  intros. unfold F2_fromString. rewrite splitParStr_single; [done|done|]. unfold fits, fits32 in *. lia.
Qed.
End Pairs.

(** ** Short numbers *)

Lemma length_uint d : length (text (NilEmpty.string_of_uint d)) = Decimal.nb_digits d.
Proof. induction d as [|d IH|d IH|d IH|d IH|d IH|d IH|d IH|d IH|d IH|d IH]; [done|..]; cbn; by f_equal. Qed.

Lemma digits_revapp d e : Decimal.nb_digits (Decimal.revapp d e) = (Decimal.nb_digits d + Decimal.nb_digits e)%nat.
Proof.
  revert e. induction d as [|d IH|d IH|d IH|d IH|d IH|d IH|d IH|d IH|d IH|d IH]; intros e;
    [done|..]; cbn [Decimal.revapp Decimal.nb_digits]; rewrite IH; cbn [Decimal.nb_digits]; lia.
Qed.

Lemma digits_double d :
  (Decimal.nb_digits (Decimal.Little.double d) <= S (Decimal.nb_digits d))%nat /\
  (Decimal.nb_digits (Decimal.Little.succ_double d) <= S (Decimal.nb_digits d))%nat.
Proof.
  induction d as [|d IH|d IH|d IH|d IH|d IH|d IH|d IH|d IH|d IH|d IH]; destruct_and?;
    cbn [Decimal.Little.double Decimal.Little.succ_double Decimal.nb_digits]; split; lia.
Qed.

Lemma digits_positive p : (Decimal.nb_digits (Pos.to_uint p) <= Pos.size_nat p)%nat.
Proof.
  unfold Pos.to_uint, Decimal.rev. rewrite digits_revapp. cbn [Decimal.nb_digits]. rewrite Nat.add_0_r.
  induction p as [p IH|p IH|]; cbn [Pos.to_little_uint Pos.size_nat]; [..|done].
  - etrans; [apply digits_double|]. lia.
  - etrans; [apply digits_double|]. lia.
Qed.

Lemma decimal_length v b : 0 <= v < Zpos b -> (length (text (decimal v)) <= S (Pos.size_nat b))%nat.
Proof.
  intros Hv. unfold decimal. destruct v as [|p|p]; [cbn; lia| |lia].
  cbn [Z.to_int NilEmpty.string_of_int]. rewrite length_uint. etrans; [apply digits_positive|].
  pose proof (Pos.size_nat_monotone p b ltac:(lia)). lia.
Qed.

(** ** Reading and writing elements *)

Section Read.
Context {P : FieldParams} {OK : FieldOk P} {G : Mpn} {GL : MpnLaws G} {MZ : Mpz} {ML : MpzLaws MZ}.

Lemma fromString_decimal v : elem (RawFr_fromString (decimal v)) (v mod q).
Proof.
  unfold RawFr_fromString, decimal. rewrite <- mpz_get_str_spec, mpz_set_get_str, q_mpz_q, mpz_fdiv_r_spec by apply q_pos.
  apply fromMpz_spec. apply Z.mod_pos_bound, q_pos.
Qed.

Lemma toString_decimal a v : elem a v -> RawFr_toString a = decimal v.
Proof.
  intros Ha. unfold RawFr_toString. change (mpz_import _) with (RawFr_toMpz a).
  rewrite (toMpz_spec a v) by done. apply mpz_get_str_spec.
Qed.

Lemma read_written a v : elem a v -> RawFr_fromString (decimal v) = a.
Proof.
  intros Ha. pose proof (fromString_decimal v) as H. destruct Ha as [Hv Ha].
  rewrite Z.mod_small in H by lia. destruct H as [_ H]. by apply (rep_inj _ _ _ H Ha).
Qed.

Lemma decimal_fits v : 0 <= v < q -> fits32 (decimal v).
Proof.
  intros Hv. pose proof q_bounds. unfold fits32.
  pose proof (decimal_length v (2 ^ 256)%positive) as Hl.
  assert (Z.pos (2 ^ 256) = R) as Er by reflexivity. rewrite Er in Hl. specialize (Hl ltac:(lia)).
  assert (Pos.size_nat (2 ^ 256) = 257%nat) as Es by reflexivity. rewrite Es in Hl. lia.
Qed.
End Read.

(** ** The strings of pairs *)

Section PairText.
Context {P : FieldParams} {OK : FieldOk P} {G : Mpn} {GL : MpnLaws G} {MZ : Mpz} {ML : MpzLaws MZ}.

(** [F2Field::toString] writes a pair [F2Field::fromString] reads back, with and without
    the parentheses; a single number is never read: the parser of tuples calls itself
    on the same string without end. *)
Theorem F2_text_roundtrip fuel (e : F2El Element) va vb :
  elem (f2a e) va -> elem (f2b e) vb ->
  F2_toString e = ("(" ++ decimal va ++ "," ++ decimal vb ++ ")")%string /\
  F2_fromString (S (S fuel)) (text (F2_toString e)) = Returns e /\
  F2_fromString (S (S fuel)) (text (decimal va ++ "," ++ decimal vb)) = Returns e /\
  F2_fromString fuel (text (f_toString (f2a e))) = Running.
Proof.
  intros Ha Hb. assert (Et : F2_toString e = ("(" ++ decimal va ++ "," ++ decimal vb ++ ")")%string).
  { unfold F2_toString. cbn [f_toString RawFr_text]. by rewrite (toString_decimal _ _ Ha), (toString_decimal _ _ Hb). }
  pose proof (decimal_fits va (proj1 Ha)) as Fa. pose proof (decimal_fits vb (proj1 Hb)) as Fb.
  pose proof (plain_decimal va) as Pa. pose proof (plain_decimal vb) as Pb.
  assert (Ee : mkF2 (f_fromString (decimal va)) (f_fromString (decimal vb)) = e).
  { cbn [f_fromString RawFr_text]. rewrite (read_written _ _ Ha), (read_written _ _ Hb). by destruct e. }
  split; [done|]. split; [|split].
  - rewrite Et, F2_fromString_parens by done. by rewrite Ee.
  - rewrite F2_fromString_two by done. by rewrite Ee.
  - cbn [f_toString RawFr_text]. rewrite (toString_decimal _ _ Ha). by apply F2_fromString_single.
Qed.
End PairText.

Section TextDemo.
#[local] Existing Instance Fq_params.

Definition demo_7 : Element := RawFr_fromString (decimal 7).
Definition demo_12 : Element := RawFr_fromString (decimal 12).

Lemma demo_7_elem : elem demo_7 7.
Proof. eapply elem_cast; [apply (fromString_decimal 7)|vm_compute; reflexivity]. Qed.
Lemma demo_12_elem : elem demo_12 12.
Proof. eapply elem_cast; [apply (fromString_decimal 12)|vm_compute; reflexivity]. Qed.

Lemma F2_text_roundtrip_witness :
  let e := mkF2 demo_7 demo_12 in
  F2_toString e = ("(" ++ decimal 7 ++ "," ++ decimal 12 ++ ")")%string /\
  F2_fromString 2 (text (F2_toString e)) = Returns e /\
  F2_fromString 2 (text (decimal 7 ++ "," ++ decimal 12)) = Returns e /\
  F2_fromString 0 (text (f_toString (f2a e))) = Running.
Proof. cbv zeta. apply F2_text_roundtrip; [apply demo_7_elem|apply demo_12_elem]. Defined.
End TextDemo.

(** ** The number of digits of a decimal number *)

(** A number without leading zeros is at least a power of ten. *)
Lemma uint_lower d : d <> Nil -> unorm d = d -> d <> zero ->
  (10 ^ N.of_nat (nb_digits d - 1) <= Pos.of_uint d)%N.
Proof.
  intros Hn Hd Hz. rewrite Unsigned.of_uint_alt.
  assert (Hs : forall t, Unsigned.usize t = N.of_nat (nb_digits t))
    by (induction t; cbn [Unsigned.usize nb_digits]; lia).
  destruct d as [|t|t|t|t|t|t|t|t|t|t]; [done| |unfold Decimal.rev; cbn [revapp nb_digits];
    rewrite Unsigned.of_lu_revapp, Hs, Nat.sub_succ, Nat.sub_0_r; cbn [Unsigned.of_lu]; nia..].
  (* a leading zero *)
  exfalso. pose proof (nb_digits_nzhead t) as Hl. unfold unorm in Hd. cbn [nzhead] in Hd.
  destruct (nzhead t) eqn:E; try (apply (f_equal nb_digits) in Hd; cbn [nb_digits] in Hd, Hl; lia).
  apply Hz. symmetry. exact Hd.
Qed.

Lemma digits_bound p n : (Zpos p < 10 ^ Z.of_nat n)%Z -> (nb_digits (Pos.to_uint p) <= n)%nat.
Proof.
  intros Hp. assert (Hu : unorm (Pos.to_uint p) = Pos.to_uint p).
  { rewrite <- Unsigned.to_of, Unsigned.of_to. done. }
  pose proof (uint_lower (Pos.to_uint p) (Unsigned.to_uint_nonnil p) Hu (Unsigned.to_uint_nonzero p)) as H.
  rewrite Unsigned.of_to in H. destruct (le_lt_dec (nb_digits (Pos.to_uint p)) n) as [|Hn]; [done|].
  exfalso. assert (Hle : (10 ^ N.of_nat n <= 10 ^ N.of_nat (nb_digits (Pos.to_uint p) - 1))%N)
    by (apply N.pow_le_mono_r; lia).
  assert (Hz : (Z.of_N (10 ^ N.of_nat n) = 10 ^ Z.of_nat n)%Z) by (rewrite N2Z.inj_pow; f_equal; lia).
  lia.
Qed.

(** [v] takes at most [n] characters when it is less than [10 ^ n]. *)
Lemma decimal_bound v n : 0 <= v < 10 ^ Z.of_nat n -> (0 < n)%nat -> (String.length (decimal v) <= n)%nat.
Proof.
  intros Hv Hn. unfold decimal. destruct v as [|p|p]; [cbn; lia| |lia].
  cbn [Z.to_int NilEmpty.string_of_int]. pose proof (digits_bound p n (proj2 Hv)) as H.
  assert (E : forall s, String.length s = length (text s)) by (intros s; induction s as [|c s IH]; [done|cbn; by rewrite IH]).
  by rewrite E, length_uint.
Qed.
