(* ===== verification/TowerDefault.v ===== *)
(** The tower of the program, as the default constructors build it. *)

From Stdlib Require Import Field ArithRing Zmod String Ascii.
From S2P Require Import Prelude Limbs Gmp Mpz SplitParStr FrRaw FrElement FrElementWp FrMpz RawFr Primes Field Dft Powers ExtField Tower TowerSpec TowerBn FftFr TowerFq TowerText.

#[local] Existing Instances Fq_params Fq RawFr_rep bn2 bn6 bn12 F2_rep F6_rep F12_rep.

Notation Kq := (Zmod (q (P := Fq_params))).
Notation Kq2 := (Kq * Kq)%type.
Notation Kq6 := (Kq2 * Kq2 * Kq2)%type.
Notation Kq12 := (Kq6 * Kq6)%type.
Notation g := (of_pair gamma).
Notation n1 := (q_norm (- (1))%K g).

(** The constants of the constructors, as numbers: powers of [xi]. *)
Definition gamma2 : Z * Z :=
  (21575463638280843010398324269430826099269044274347216827212613867836435027261,
   10307601595873709700152284273816112264069230130616436755625194854815875713954).
Definition gamma4 : Z * Z :=
  (2581911344467009335267311115468803099551665605076196740867805258568234346338,
   19937756971775647987995932169929341994314640652964949448313374472400716661030).
Definition norm1 : Z := 21888242871839275220042445260109153167277707414472061641714758635765020556617.
Definition norm2 : Z := 21888242871839275220042445260109153167277707414472061641714758635765020556616.
Definition norm4 : Z := 2203960485148121921418603742825762020974279258880205651966.

Lemma gamma_constants :
  gamma2 = pair_square qF gamma /\ gamma4 = pair_square qF gamma2 /\
  norm1 = pair_norm qF gamma /\ norm2 = norm1 * norm1 mod qF /\ norm4 = norm2 * norm2 mod qF.
Proof. repeat split; vm_compute; reflexivity. Qed.

Section Default.
Context {G : Mpn} {GL : MpnLaws G} {MZ : Mpz} {ML : MpzLaws MZ}.

#[export] Instance Fq_laws : FieldLaws Kq Element := RawFr_field_laws Fq_q_prime.

Lemma read_number lit v : lit = decimal v -> f_rep (f_fromString lit) (Zmod.of_Z qF v).
Proof.
  intros ->. unfold f_rep, RawFr_rep. rewrite Zmod.to_Z_of_Z. apply fromString_decimal.
Qed.

Lemma read_pair fuel lit x :
  lit = (decimal (fst x) ++ "," ++ decimal (snd x))%string -> 0 <= fst x < qF -> 0 <= snd x < qF ->
  exists e, F2_fromString (S fuel) (text lit) = Returns e /\ f_rep e (of_pair x).
Proof.
  intros -> Ha Hb. eexists. split.
  - apply F2_fromString_two; [apply plain_decimal..|by apply decimal_fits|by apply decimal_fits].
  - split; by apply read_number.
Qed.

End Default.

(** Reads the literal of the goal, which is the pair [x]. *)
Ltac read x c H :=
  match goal with |- context [F2_fromString (S ?fuel) (text ?l)] =>
    destruct (read_pair fuel l x) as (c & -> & H);
      [vm_compute; reflexivity|split; [vm_compute; discriminate|vm_compute; reflexivity]..|]
  end; cbn [pbind].

Section Constructors.
Context {G : Mpn} {GL : MpnLaws G} {MZ : Mpz} {ML : MpzLaws MZ}.

Lemma norm_literals :
  decimal norm4 = "2203960485148121921418603742825762020974279258880205651966"%string /\
  decimal norm2 = "21888242871839275220042445260109153167277707414472061641714758635765020556616"%string /\
  decimal norm1 = "21888242871839275220042445260109153167277707414472061641714758635765020556617"%string.
Proof. repeat split; vm_compute; reflexivity. Qed.

(** The objects of the default constructors. *)
Lemma default_read fuel : exists c1 c2 c5,
  F6_default (S fuel) = Returns (F6_new (F2_new "-1") c1 c2
    (f_fromString (decimal norm4)) (f_fromString (decimal norm2))) /\
  F12_default (S fuel) = Returns (F12_new (F6_new (F2_new "-1") c1 c2
    (f_fromString (decimal norm4)) (f_fromString (decimal norm2))) c5 (f_fromString (decimal norm1))) /\
  f_rep c1 (of_pair gamma4) /\ f_rep c2 (of_pair gamma2) /\ f_rep c5 (of_pair gamma).
Proof.
  destruct norm_literals as (-> & -> & ->).
  assert (E6 : exists c1 c2, F6_default (S fuel) = Returns (F6_new (F2_new "-1") c1 c2
    (f_fromString "2203960485148121921418603742825762020974279258880205651966"%string)
    (f_fromString "21888242871839275220042445260109153167277707414472061641714758635765020556616"%string)) /\
    f_rep c1 (of_pair gamma4) /\ f_rep c2 (of_pair gamma2)).
  { unfold F6_default. read gamma4 c1 H1. read gamma2 c2 H2. exists c1, c2. split; [reflexivity|]. split; [exact H1|exact H2]. }
  destruct E6 as (c1 & c2 & E6 & H1 & H2). unfold F12_default. rewrite E6. cbn [pbind].
  read gamma c5 H5. exists c1, c2, c5. split; [reflexivity|]. split; [reflexivity|]. split; [exact H1|]. split; [exact H2|exact H5].
Qed.

(** The constants are the powers of [xi] their names say. *)
Lemma tower_default fuel : exists (anr : Element) c1 c2 c3 c4 c5 c6,
  F2_new "-1" = F2_initField anr /\
  F6_default (S fuel) = Returns (F6_new (F2_initField anr) c1 c2 c3 c4) /\
  F12_default (S fuel) = Returns (F12_new (F6_new (F2_initField anr) c1 c2 c3 c4) c5 c6) /\
  f_rep anr (- (1) : Kq)%K /\
  f_rep c1 (g * g * (g * g) : Kq2)%K /\ f_rep c2 (g * g : Kq2)%K /\ f_rep c5 (g : Kq2) /\
  f_rep c3 (n1 * n1 * (n1 * n1))%K /\ f_rep c4 (n1 * n1)%K /\ f_rep c6 n1.
Proof.
  destruct gamma_constants as (E2 & E4 & EN & EN2 & EN4).
  destruct (default_read fuel) as (c1 & c2 & c5 & E6 & E & H1 & H2 & H5).
  exists (f_fromString "-1"), c1, c2. do 4 eexists. split; [reflexivity|]. split; [exact E6|]. split; [exact E|].
  assert (X2 : of_pair gamma2 = (g * g)%K) by (rewrite E2; apply pair_square_spec).
  assert (X4 : of_pair gamma4 = (g * g * (g * g))%K) by (rewrite E4, <- X2; apply pair_square_spec).
  assert (M : forall c a b, c = a * b mod qF -> Zmod.of_Z qF c = (Zmod.of_Z qF a * Zmod.of_Z qF b)%K).
  { intros c a b ->. rewrite of_Z_mod. apply Zmod.of_Z_mul. }
  assert (Y1 : Zmod.of_Z qF norm1 = n1).
  { etransitivity; [apply f_equal, EN|]. symmetry. apply norm_of_pair. }
  apply M in EN2, EN4. rewrite Y1 in EN2. rewrite EN2 in EN4.
  rewrite <- X4, <- X2, <- EN4, <- EN2, <- Y1.
  split; [|split; [exact H1|split; [exact H2|split; [exact H5|split; [|split]]]]]; [|by apply read_number..].
  eapply f_rep_eq; [exact (read_number _ (-1) eq_refl)|]. apply Zmod.to_Z_inj. vm_compute. reflexivity.
Qed.

(** C17: The default constructors return, and the classes they make implement the quadratic,
    cubic and quadratic extensions of the field of [RawFq]: every operation computes
    the field's, [Frobenius] the [p]-th and [FrobeniusP2] the [p^2]-th power. *)
Theorem tower_correct fuel : exists D : F12Field Element,
  F12_default (S fuel) = Returns D /\
  @FieldLaws Kq2 (F2El Element) _ (F2_ops (f6_F (f12_F D))) _ /\
  @FieldLaws Kq6 (F6El Element) _ (F6_ops (f12_F D)) _ /\
  @FieldLaws Kq12 (F12El Element) _ (F12_ops D) _ /\
  (forall a (x : Kq12), f_rep a x -> f_rep (F12_Frobenius D a) (kpow x fq_p)) /\
  (forall a (x : Kq12), f_rep a x -> f_rep (F12_FrobeniusP2 D a) (kpow (kpow x fq_p) fq_p)).
Proof.
  destruct (tower_default fuel) as (anr & c1 & c2 & c3 & c4 & c5 & c6 & _ & _ & E12 & Ha & H1 & H2 & H5 & H3 & H4 & H6).
  pose proof (bn_engine (K := Kq) anr c1 c2 c5 c3 c4 c6 Ha H1 H2 H5 H3 H4 H6) as BE. cbv zeta in BE.
  eexists. split; [exact E12|]. split; [exact (xl_laws (XiLaws := be_xi))|].
  split; [exact (tl_laws (TauLaws := be_tau))|]. split; [exact be_12|]. split; [exact be_frob|exact be_frob2].
Qed.
End Constructors.

Lemma tower_correct_witness : exists D : F12Field Element,
  F12_default 1 = Returns D /\ @FieldLaws Kq12 (F12El Element) _ (F12_ops D) _.
Proof. destruct (tower_correct 0) as (D & E & _ & _ & H & _). exists D. split; [exact E|exact H]. Defined.
