(* ===== verification/Curve.v ===== *)
(** The curve template [Curve<BaseField>] of [depends/ffiasm/c/curve.cpp] and
    [curve.hpp] over the interface of field classes.  A [Point] argument is a location
    of a memory of points, written and read coordinate by coordinate in the order of
    the code, so destination and operands may be the same object; an affine argument
    cannot be the destination and is a value.  Counters are left out. *)

From S2P Require Import Prelude Field.

Section Curve.
Context {E : Type} {F : FieldOps E}.

(** [Curve::Point] (extended Jacobian coordinates) and [Curve::PointAffine]. *)
Record Point := mkPoint { px : E; py : E; pzz : E; pzzz : E }.
Record PointAffine := mkPointAffine { ax : E; ay : E }.

(** Objects of type [Point]: arguments and the local [tmp]. *)
Inductive ploc := PArg (n : nat) | PTmp.

#[global] Instance ploc_eq_dec : EqDecision ploc.
Proof. solve_decision. Defined.

Definition pmem : Type := ploc -> Point.
Definition pcmd (A : Type) : Type := State pmem A.
#[local] Open Scope c_scope.

Definition pupd (m : pmem) (l : ploc) (p : Point) : pmem := fun l' => if decide (l' = l) then p else m l'.

(** Reading and writing coordinates. *)
Definition X (p : ploc) : pcmd E := sget (fun m => px (m p)).
Definition Y (p : ploc) : pcmd E := sget (fun m => py (m p)).
Definition ZZ (p : ploc) : pcmd E := sget (fun m => pzz (m p)).
Definition ZZZ (p : ploc) : pcmd E := sget (fun m => pzzz (m p)).

Definition setX (p : ploc) (c : pcmd E) : pcmd unit :=
  v <- c ;; sput (fun m => pupd m p (mkPoint v (py (m p)) (pzz (m p)) (pzzz (m p)))).
Definition setY (p : ploc) (c : pcmd E) : pcmd unit :=
  v <- c ;; sput (fun m => pupd m p (mkPoint (px (m p)) v (pzz (m p)) (pzzz (m p)))).
Definition setZZ (p : ploc) (c : pcmd E) : pcmd unit :=
  v <- c ;; sput (fun m => pupd m p (mkPoint (px (m p)) (py (m p)) v (pzzz (m p)))).
Definition setZZZ (p : ploc) (c : pcmd E) : pcmd unit :=
  v <- c ;; sput (fun m => pupd m p (mkPoint (px (m p)) (py (m p)) (pzz (m p)) v)).

(** [F.op(_, a, b)] and [F.op(_, a)] on coordinates and local variables. *)
Definition op2 (f : E -> E -> E) (a b : pcmd E) : pcmd E := x <- a ;; y <- b ;; sret (f x y).
Definition op1 (f : E -> E) (a : pcmd E) : pcmd E := x <- a ;; sret (f x).

(** ** The curve [y^2 = x^3 + a x + b] *)

Inductive TypeOfA := a_is_zero | a_is_one | a_is_negone | a_is_long.

Context (fa : E).

(** [initCurve] *)
Definition typeOfA : TypeOfA :=
  if f_isZero fa then a_is_zero
  else if f_eq fa f_one then a_is_one
  else if f_eq fa f_negOne then a_is_negone
  else a_is_long.

Definition curve_zero : Point := mkPoint f_one f_one f_zero f_zero.
Definition curve_zeroAffine : PointAffine := mkPointAffine f_zero f_zero.

Definition mulByA (ab : E) : E :=
  match typeOfA with
  | a_is_zero => f_zero
  | a_is_one => ab
  | a_is_negone => f_neg ab
  | a_is_long => f_mul fa ab
  end.

(** ** Tests and copies *)

Definition isZero (p1 : ploc) : pcmd bool := zz <- ZZ p1 ;; sret (f_isZero zz).
Definition isZeroAffine (p1 : PointAffine) : bool := f_isZero (ax p1) && f_isZero (ay p1).

(** [copy(Point &, Point &)] *)
Definition copy (r a : ploc) : pcmd unit :=
  setX r (X a) ;;; setY r (Y a) ;;; setZZ r (ZZ a) ;;; setZZZ r (ZZZ a).

(** [copy(Point &, PointAffine &)] *)
Definition copyFromAffine (r : ploc) (a : PointAffine) : pcmd unit :=
  if isZeroAffine a then
    setX r (sret f_one) ;;; setY r (sret f_one) ;;; setZZ r (sret f_zero) ;;; setZZZ r (sret f_zero)
  else
    setX r (sret (ax a)) ;;; setY r (sret (ay a)) ;;; setZZ r (sret f_one) ;;; setZZZ r (sret f_one).

(** [copy(PointAffine &, Point &)] *)
Definition copyToAffine (a : ploc) : pcmd PointAffine :=
  z <- isZero a ;;
  if z : bool then sret curve_zeroAffine
  else x <- op2 f_div (X a) (ZZ a) ;; y <- op2 f_div (Y a) (ZZZ a) ;; sret (mkPointAffine x y).

(** [neg(Point &, Point &)] and [neg(PointAffine &, PointAffine &)] *)
Definition neg (r a : ploc) : pcmd unit :=
  setX r (X a) ;;; setY r (op1 f_neg (Y a)) ;;; setZZ r (ZZ a) ;;; setZZZ r (ZZZ a).
Definition negAffine (a : PointAffine) : PointAffine := mkPointAffine (ax a) (f_neg (ay a)).

(** [neg(Point &, PointAffine &)] *)
Definition negFromAffine (r : ploc) (a : PointAffine) : pcmd unit :=
  setX r (sret (ax a)) ;;; setY r (sret (f_neg (ay a))) ;;; setZZ r (sret f_one) ;;; setZZZ r (sret f_one).

(** ** Doubling *)

Definition dbl (p3 p1 : ploc) : pcmd unit :=
  z <- isZero p1 ;;
  if z : bool then copy p3 p1
  else
    U <- op2 f_add (Y p1) (Y p1) ;;
    let V := f_square U in
    let W := f_mul U V in
    S <- op2 f_mul (X p1) (sret V) ;;
    M <- op1 f_square (X p1) ;;
    let tmp := f_add M M in
    let M := f_add M tmp in
    M <- match typeOfA with
         | a_is_zero => sret M
         | _ =>
             tmp <- op1 f_square (ZZ p1) ;;
             let tmp := mulByA tmp in
             sret (f_add M tmp)
         end ;;
    setX p3 (sret (f_square M)) ;;;
    setX p3 (op2 f_sub (X p3) (sret S)) ;;;
    setX p3 (op2 f_sub (X p3) (sret S)) ;;;
    tmp <- op2 f_mul (sret W) (Y p1) ;;
    setY p3 (op2 f_sub (sret S) (X p3)) ;;;
    setY p3 (op2 f_mul (sret M) (Y p3)) ;;;
    setY p3 (op2 f_sub (Y p3) (sret tmp)) ;;;
    setZZ p3 (op2 f_mul (sret V) (ZZ p1)) ;;;
    setZZZ p3 (op2 f_mul (sret W) (ZZZ p1)).

(** [dbl(Point &, PointAffine &)] *)
Definition dblAffine (p3 : ploc) (p1 : PointAffine) : pcmd unit :=
  if isZeroAffine p1 then copyFromAffine p3 p1
  else
    let U := f_add (ay p1) (ay p1) in
    setZZ p3 (sret (f_square U)) ;;;
    setZZZ p3 (op2 f_mul (sret U) (ZZ p3)) ;;;
    S <- op2 f_mul (sret (ax p1)) (ZZ p3) ;;
    let M := f_square (ax p1) in
    let tmp := f_add M M in
    let M := f_add tmp M in
    let M := f_add M fa in
    setX p3 (sret (f_square M)) ;;;
    setX p3 (op2 f_sub (X p3) (sret S)) ;;;
    setX p3 (op2 f_sub (X p3) (sret S)) ;;;
    tmp <- op2 f_mul (ZZZ p3) (sret (ay p1)) ;;
    setY p3 (op2 f_sub (sret S) (X p3)) ;;;
    setY p3 (op2 f_mul (sret M) (Y p3)) ;;;
    setY p3 (op2 f_sub (Y p3) (sret tmp)).

(** ** Addition *)

Definition add (p3 p1 p2 : ploc) : pcmd unit :=
  z1 <- isZero p1 ;;
  if z1 : bool then copy p3 p2
  else
  z2 <- isZero p2 ;;
  if z2 : bool then copy p3 p1
  else
    U1 <- op2 f_mul (X p1) (ZZ p2) ;;
    U2 <- op2 f_mul (X p2) (ZZ p1) ;;
    S1 <- op2 f_mul (Y p1) (ZZZ p2) ;;
    S2 <- op2 f_mul (Y p2) (ZZZ p1) ;;
    let P := f_sub U2 U1 in
    let R := f_sub S2 S1 in
    if f_isZero P && f_isZero R then dbl p3 p1
    else
      let PP := f_square P in
      let PPP := f_mul P PP in
      let Q := f_mul U1 PP in
      setX p3 (sret (f_square R)) ;;;
      setX p3 (op2 f_sub (X p3) (sret PPP)) ;;;
      setX p3 (op2 f_sub (X p3) (sret Q)) ;;;
      setX p3 (op2 f_sub (X p3) (sret Q)) ;;;
      let tmp := f_mul S1 PPP in
      setY p3 (op2 f_sub (sret Q) (X p3)) ;;;
      setY p3 (op2 f_mul (Y p3) (sret R)) ;;;
      setY p3 (op2 f_sub (Y p3) (sret tmp)) ;;;
      setZZ p3 (op2 f_mul (ZZ p1) (ZZ p2)) ;;;
      setZZ p3 (op2 f_mul (ZZ p3) (sret PP)) ;;;
      setZZZ p3 (op2 f_mul (ZZZ p1) (ZZZ p2)) ;;;
      setZZZ p3 (op2 f_mul (ZZZ p3) (sret PPP)).

(** [add(Point &, Point &, PointAffine &)] *)
Definition addMixed (p3 p1 : ploc) (p2 : PointAffine) : pcmd unit :=
  z1 <- isZero p1 ;;
  if z1 : bool then copyFromAffine p3 p2
  else if isZeroAffine p2 then copy p3 p1
  else
    U2 <- op2 f_mul (sret (ax p2)) (ZZ p1) ;;
    S2 <- op2 f_mul (sret (ay p2)) (ZZZ p1) ;;
    P <- op2 f_sub (sret U2) (X p1) ;;
    R <- op2 f_sub (sret S2) (Y p1) ;;
    if f_isZero P && f_isZero R then dblAffine p3 p2
    else
      let PP := f_square P in
      let PPP := f_mul P PP in
      Q <- op2 f_mul (X p1) (sret PP) ;;
      setX p3 (sret (f_square R)) ;;;
      setX p3 (op2 f_sub (X p3) (sret PPP)) ;;;
      setX p3 (op2 f_sub (X p3) (sret Q)) ;;;
      setX p3 (op2 f_sub (X p3) (sret Q)) ;;;
      tmp <- op2 f_mul (Y p1) (sret PPP) ;;
      setY p3 (op2 f_sub (sret Q) (X p3)) ;;;
      setY p3 (op2 f_mul (Y p3) (sret R)) ;;;
      setY p3 (op2 f_sub (Y p3) (sret tmp)) ;;;
      setZZ p3 (op2 f_mul (ZZ p1) (sret PP)) ;;;
      setZZZ p3 (op2 f_mul (ZZZ p1) (sret PPP)).

(** [add(Point &, PointAffine &, PointAffine &)] *)
Definition addAffine (p3 : ploc) (p1 p2 : PointAffine) : pcmd unit :=
  if isZeroAffine p1 then copyFromAffine p3 p2
  else if isZeroAffine p2 then copyFromAffine p3 p1
  else
    let P := f_sub (ax p2) (ax p1) in
    let R := f_sub (ay p2) (ay p1) in
    if f_isZero P && f_isZero R then dblAffine p3 p2
    else
      let PP := f_square P in
      let PPP := f_mul P PP in
      let Q := f_mul (ax p1) PP in
      setX p3 (sret (f_square R)) ;;;
      setX p3 (op2 f_sub (X p3) (sret PPP)) ;;;
      setX p3 (op2 f_sub (X p3) (sret Q)) ;;;
      setX p3 (op2 f_sub (X p3) (sret Q)) ;;;
      let tmp := f_mul (ay p1) PPP in
      setY p3 (op2 f_sub (sret Q) (X p3)) ;;;
      setY p3 (op2 f_mul (Y p3) (sret R)) ;;;
      setY p3 (op2 f_sub (Y p3) (sret tmp)) ;;;
      setZZ p3 (sret PP) ;;;
      setZZZ p3 (sret PPP).

(** ** Subtraction, by negating into a local *)

Definition sub (p3 p1 p2 : ploc) : pcmd unit := neg PTmp p2 ;;; add p3 p1 PTmp.
Definition subMixed (p3 p1 : ploc) (p2 : PointAffine) : pcmd unit := addMixed p3 p1 (negAffine p2).
Definition subAffine (p3 : ploc) (p1 p2 : PointAffine) : pcmd unit := addAffine p3 p1 (negAffine p2).

(** ** Equality *)

Definition eq (p1 p2 : ploc) : pcmd bool :=
  z1 <- isZero p1 ;;
  if z1 : bool then isZero p2
  else
    U1 <- op2 f_mul (X p1) (ZZ p2) ;;
    U2 <- op2 f_mul (X p2) (ZZ p1) ;;
    S1 <- op2 f_mul (Y p1) (ZZZ p2) ;;
    S2 <- op2 f_mul (Y p2) (ZZZ p1) ;;
    let P := f_sub U2 U1 in
    let R := f_sub S2 S1 in
    sret (f_isZero P && f_isZero R).

Definition eqMixed (p1 : ploc) (p2 : PointAffine) : pcmd bool :=
  z1 <- isZero p1 ;;
  if z1 : bool then sret (isZeroAffine p2)
  else
    U2 <- op2 f_mul (sret (ax p2)) (ZZ p1) ;;
    S2 <- op2 f_mul (sret (ay p2)) (ZZZ p1) ;;
    P <- op2 f_sub (sret U2) (X p1) ;;
    R <- op2 f_sub (sret S2) (Y p1) ;;
    sret (f_isZero P && f_isZero R).

Definition eqAffine (p1 p2 : PointAffine) : bool := f_eq (ax p1) (ax p2) && f_eq (ay p1) (ay p2).
End Curve.
