(* ===== verification/CurveSpec.v ===== *)
(** The curve template against the group law: every addition and doubling computes the
    chord-and-tangent sum of the affine points its operands stand for, whichever of
    its arguments are the same object. *)

From Stdlib Require Import Field Zmod.
From S2P Require Import Prelude Field Curve.

(** ** Running the statements *)

Section Wp.
Context {E : Type} {F : FieldOps E}.
#[local] Notation mem := (pmem (E := E)).
#[local] Notation point := (Point (E := E)).
Implicit Types m : mem.

Lemma pupd_same m l p : pupd m l p l = p.
Proof. unfold pupd. by rewrite decide_True. Qed.
Lemma pupd_other m l l' p : l' <> l -> pupd m l p l' = m l'.
Proof. intros. unfold pupd. by rewrite decide_False. Qed.

(** After a sequence of writes to [p3] the memory is [m] with [P] at [p3]. *)
Definition became (p3 : ploc) (m m' : mem) (P : point) : Prop :=
  m' p3 = P /\ forall l, l <> p3 -> m' l = m l.

(** The command [c] run in [m] returns a value and a memory with the property [Q]. *)
Definition pwp {A} (c : pcmd A) (Q : A -> mem -> Prop) (m : pmem) : Prop :=
  Q (result c m) (exec c m).

Lemma pwp_sbind {A B} (c : pcmd A) (k : A -> pcmd B) Q m :
  pwp c (fun x => pwp (k x) Q) m -> pwp (sbind c k) Q m.
Proof. unfold pwp, result, exec, sbind. by destruct (c m). Qed.
Lemma pwp_sret {A} (x : A) (Q : A -> mem -> Prop) m : Q x m -> pwp (sret x) Q m.
Proof. done. Qed.
Lemma pwp_mono {A} (c : pcmd A) (Q Q' : A -> mem -> Prop) m :
  (forall x m', Q x m' -> Q' x m') -> pwp c Q m -> pwp c Q' m.
Proof. unfold pwp. auto. Qed.

Lemma pwp_read (f : point -> E) p (Q : E -> mem -> Prop) m :
  Q (f (m p)) m -> pwp (sget (fun m => f (m p))) Q m.
Proof. done. Qed.

(** A write: afterwards only the point written is known to differ. *)
Lemma pwp_write p3 (g : E -> point -> point) (c : pcmd E) (Q : unit -> mem -> Prop) m :
  pwp c (fun v m1 => forall m2, became p3 m1 m2 (g v (m1 p3)) -> Q tt m2) m ->
  pwp (v <- c ;; sput (fun m => pupd m p3 (g v (m p3))))%C Q m.
Proof.
  intros H. apply pwp_sbind. eapply pwp_mono; [|exact H]. intros v m1 Hv. unfold pwp, result, exec, sput.
  cbn. apply Hv. split; [apply pupd_same|]. intros l Hl. by apply pupd_other.
Qed.

Definition withX v (p : point) : point := mkPoint (E := E) v (py p) (pzz p) (pzzz p).
Definition withY v (p : point) : point := mkPoint (E := E) (px p) v (pzz p) (pzzz p).
Definition withZZ v (p : point) : point := mkPoint (E := E) (px p) (py p) v (pzzz p).
Definition withZZZ v (p : point) : point := mkPoint (E := E) (px p) (py p) (pzz p) v.

Lemma became_trans p3 m m1 m2 P Q : became p3 m m1 P -> became p3 m1 m2 Q -> became p3 m m2 Q.
Proof. intros [_ H1] [H2 H3]. split; [done|]. intros l Hl. by rewrite H3, H1. Qed.
End Wp.

(** Reads of a memory that became another one. *)
Ltac points :=
  repeat match goal with
  | H1 : became ?p ?m ?m1 _, H2 : became ?p ?m1 ?m2 _ |- _ =>
      pose proof (became_trans _ _ _ _ _ _ H1 H2); clear H1 H2; clear m1 || idtac
  end;
  repeat match goal with
  | H : became ?p ?m ?m' ?P |- context [?m' ?p] => rewrite (proj1 H)
  | H : became ?p ?m ?m' ?P |- context [?m' ?l] => rewrite (proj2 H l) by congruence
  end;
  cbn [px py pzz pzzz withX withY withZZ withZZZ].

Ltac pstep :=
  lazymatch goal with
  | |- pwp (setX ?p ?c) _ _ => apply (pwp_write p withX)
  | |- pwp (setY ?p ?c) _ _ => apply (pwp_write p withY)
  | |- pwp (setZZ ?p ?c) _ _ => apply (pwp_write p withZZ)
  | |- pwp (setZZZ ?p ?c) _ _ => apply (pwp_write p withZZZ)
  | |- pwp (op2 _ _ _) _ _ => unfold op2
  | |- pwp (op1 _ _) _ _ => unfold op1
  | |- pwp (isZero _) _ _ => unfold isZero
  | |- pwp (X _) _ _ => apply (pwp_read px)
  | |- pwp (Y _) _ _ => apply (pwp_read py)
  | |- pwp (ZZ _) _ _ => apply (pwp_read pzz)
  | |- pwp (ZZZ _) _ _ => apply (pwp_read pzzz)
  | |- pwp (sbind _ _) _ _ => apply pwp_sbind
  | |- pwp (sret _) _ _ => apply pwp_sret
  | |- forall _, became _ _ _ _ -> _ => intros ? ?
  end; points.

(** ** The group law on affine points *)

Section GroupLaw.
Context {K : Type} {KF : KField K}.
Add Field K_field2 : (k_theory (K := K)).
#[local] Open Scope field_scope.

(** The curve [y^2 = x^3 + a x + b]: not in characteristic two, non-singular, and not through the origin, which
    the code uses for the point at infinity. *)
Record curve_ok (a b : K) : Prop := {
  not_two : 1 + 1 <> 0;
  origin_off : b <> 0;
  nonsingular x : x * x * x + a * x + b = 0 -> (1 + 1 + 1) * x * x + a <> 0
}.

(** [None] is the point at infinity. *)
Definition apoint : Type := option (K * K).

Definition on_curve (a b : K) (A : apoint) : Prop :=
  match A with None => True | Some (x, y) => y * y = x * x * x + a * x + b end.

Definition aff_opp (A : apoint) : apoint :=
  match A with None => None | Some (x, y) => Some (x, - y) end.

(** The third point on the line through [(x1, y1)] with the slope [l], negated. *)
Definition through (l x1 x2 y1 : K) : apoint :=
  let x3 := l * l - x1 - x2 in Some (x3, l * (x1 - x3) - y1).

Definition aff_add (a : K) (A B : apoint) : apoint :=
  match A, B with
  | None, _ => B
  | _, None => A
  | Some (x1, y1), Some (x2, y2) =>
      if decide (x1 = x2) then
        if decide (y1 + y2 = 0) then None
        else through (((1 + 1 + 1) * x1 * x1 + a) / (y1 + y1)) x1 x2 y1
      else through ((y2 - y1) / (x2 - x1)) x1 x2 y1
  end.

Context (a b : K).

(** Points with the same abscissa are equal or opposite. *)
Lemma same_abscissa x y1 y2 :
  on_curve a b (Some (x, y1)) -> on_curve a b (Some (x, y2)) -> y1 = y2 \/ y1 + y2 = 0.
Proof.
  cbn. intros H1 H2. destruct (k_squares y1 y2) as [->| ->]; [by rewrite H1, H2|by left|].
  right. ring.
Qed.

Lemma double_nonzero y : y + y <> 0 -> y <> 0.
Proof. intros H ->. apply H. ring. Qed.

Lemma tangent_on_curve x y :
  y + y <> 0 -> on_curve a b (Some (x, y)) ->
  on_curve a b (through (((1 + 1 + 1) * x * x + a) / (y + y)) x x y).
Proof.
  cbn. intros Hy H. assert (Hb : b = y * y - x * x * x - a * x) by (rewrite H; ring).
  rewrite Hb. field. done.
Qed.

Lemma chord_on_curve x1 y1 x2 y2 :
  x1 <> x2 -> on_curve a b (Some (x1, y1)) -> on_curve a b (Some (x2, y2)) ->
  on_curve a b (through ((y2 - y1) / (x2 - x1)) x1 x2 y1).
Proof.
  cbn. intros Hne H1 H2. assert (Hd : x2 - x1 <> 0) by (intros E; apply Hne; symmetry; by apply k_sub_zero).
  assert (Ha : a = ((y2 * y2 - x2 * x2 * x2) - (y1 * y1 - x1 * x1 * x1)) / (x2 - x1))
    by (rewrite H1, H2; field; done).
  assert (Hb : b = y1 * y1 - x1 * x1 * x1 - a * x1) by (rewrite H1; ring).
  rewrite Hb, Ha. field. done.
Qed.

(** The sum of two points of the curve is on the curve. *)
Lemma aff_add_on_curve A B : on_curve a b A -> on_curve a b B -> on_curve a b (aff_add a A B).
Proof.
  destruct A as [[x1 y1]|], B as [[x2 y2]|]; [|done..]. intros HA HB. unfold aff_add.
  destruct (decide (x1 = x2)) as [<-|Hne]; [|by apply chord_on_curve].
  destruct (decide (y1 + y2 = 0)) as [|Hy]; [done|].
  destruct (same_abscissa x1 y1 y2 HA HB) as [<-|]; [|done]. by apply tangent_on_curve.
Qed.
End GroupLaw.

(** ** What the objects stand for *)

Section Represent.
Context {K E : Type} {KF : KField K} {F : FieldOps E} {FR : FieldRep K E} {FL : FieldLaws K E}.
Add Field K_field3 : (k_theory (K := K)).
#[local] Open Scope field_scope.
#[local] Notation mem := (pmem (E := E)).

(** Four elements standing for the coordinates [x z^2], [y z^3], [z^2], [z^3]; at
    infinity the last two are zero and the first is not. *)
Definition stands (P : Point) (A : apoint (K := K)) : Prop :=
  match A with
  | Some (x, y) => exists z : K, z <> 0 /\
      f_rep (px P) (x * (z * z)) /\ f_rep (py P) (y * (z * z * z)) /\
      f_rep (pzz P) (z * z) /\ f_rep (pzzz P) (z * z * z)
  | None => exists x y : K, x <> 0 /\
      f_rep (px P) x /\ f_rep (py P) y /\ f_rep (pzz P) 0 /\ f_rep (pzzz P) 0
  end.

Definition stands_affine (P : PointAffine) (A : apoint (K := K)) : Prop :=
  match A with
  | Some (x, y) => f_rep (ax P) x /\ f_rep (ay P) y
  | None => f_rep (ax P) 0 /\ f_rep (ay P) 0
  end.

Context (a b : K) (fa : E) (Hfa : f_rep fa a) (Hcurve : curve_ok a b).

Lemma mulByA_rep e (x : K) : f_rep e x -> f_rep (mulByA fa e) (a * x).
Proof.
  intros He. unfold mulByA, typeOfA.
  rewrite (f_isZero_rep _ _ Hfa), (f_eq_rep _ _ _ _ Hfa f_one_rep), (f_eq_rep _ _ _ _ Hfa f_negOne_rep).
  destruct (bool_decide_reflect (a = 0)) as [->|];
    [eapply f_rep_eq; [apply f_zero_rep|ring]|].
  destruct (bool_decide_reflect (a = 1)) as [->|]; [eapply f_rep_eq; [exact He|ring]|].
  destruct (bool_decide_reflect (a = - (1))) as [->|];
    eapply f_rep_eq; eauto with field_rep; ring.
Qed.

(** An object stands for one value only. *)
Lemma f_rep_inj e (x y : K) : f_rep e x -> f_rep e y -> x = y.
Proof.
  intros Hx Hy. pose proof (f_eq_rep _ _ _ _ Hx Hx) as E1. rewrite (f_eq_rep _ _ _ _ Hx Hy) in E1.
  rewrite (bool_decide_eq_true_2 (x = x)) in E1 by done. by apply bool_decide_eq_true in E1.
Qed.

Lemma stands_inj P x1 y1 x2 y2 :
  stands P (Some (x1, y1)) -> stands P (Some (x2, y2)) -> x1 = x2 /\ y1 = y2.
Proof.
  intros (z & Hz & Hx & Hy & H2 & H3) (z' & Hz' & Hx' & Hy' & H2' & H3').
  assert (Ez : z = z').
  { pose proof (f_rep_inj _ _ _ H2 H2') as E2. pose proof (f_rep_inj _ _ _ H3 H3') as E3.
    transitivity (z * z * z / (z * z)); [field; auto|]. rewrite E3, E2. field. auto. }
  subst z'. split.
  - transitivity (x1 * (z * z) / (z * z)); [field; auto|].
    rewrite (f_rep_inj _ _ _ Hx Hx'). field. auto.
  - transitivity (y1 * (z * z * z) / (z * z * z)); [field; auto|].
    rewrite (f_rep_inj _ _ _ Hy Hy'). field. auto.
Qed.

(** The tests. *)
Lemma isZero_stands P A : stands P A -> f_isZero (pzz P) = bool_decide (A = None).
Proof.
  destruct A as [[x y]|]; cbn.
  - intros (z & Hz & _ & _ & H & _). rewrite (f_isZero_rep _ _ H).
    rewrite (bool_decide_eq_false_2 (z * z = 0)) by (by apply k_mul_nonzero). done.
  - intros (x & y & _ & _ & _ & H & _). rewrite (f_isZero_rep _ _ H). by rewrite !bool_decide_eq_true_2.
Qed.

Lemma off_origin y : on_curve a b (Some (0, y)) -> y <> 0.
Proof.
  cbn. intros H ->. apply (origin_off _ _ Hcurve). transitivity (0 * 0 * 0 + a * 0 + b); [ring|].
  rewrite <- H. ring.
Qed.

Lemma isZeroAffine_stands P A :
  stands_affine P A -> on_curve a b A -> isZeroAffine P = bool_decide (A = None).
Proof.
  unfold isZeroAffine. destruct A as [[x y]|]; cbn [stands_affine]; intros [Hx Hy] HA;
    rewrite (f_isZero_rep _ _ Hx), (f_isZero_rep _ _ Hy).
  - rewrite (bool_decide_eq_false_2 (Some (x, y) = None)) by done.
    destruct (bool_decide_reflect (x = 0)) as [->|]; [|done].
    by rewrite bool_decide_eq_false_2 by (by apply off_origin).
  - by rewrite !bool_decide_eq_true_2.
Qed.

(** The statement [p3 := sum] run in [m], whatever [p3] is. *)
Definition sums (c : pcmd unit) (p3 : ploc) (m : mem) (A : apoint) : Prop :=
  pwp c (fun _ m' => exists P, became p3 m m' P /\ stands P A) m.

Lemma sums_copy p3 p1 m A : stands (m p1) A -> sums (copy p3 p1) p3 m A.
Proof.
  intros HA. unfold sums, copy. destruct (decide (p1 = p3)) as [->|Hne]; repeat pstep;
    eexists; (split; [eassumption|]); destruct A as [[x y]|]; exact HA.
Qed.

Lemma sums_copyFromAffine p3 p1 m A :
  stands_affine p1 A -> on_curve a b A -> sums (copyFromAffine p3 p1) p3 m A.
Proof.
  intros HA Hon. unfold sums, copyFromAffine. rewrite (isZeroAffine_stands _ _ HA Hon).
  destruct A as [[x y]|]; [rewrite bool_decide_eq_false_2 by done|rewrite bool_decide_eq_true_2 by done];
    repeat pstep; eexists; (split; [eassumption|]); cbn [stands px py pzz pzzz withX withY withZZ withZZZ].
  - destruct HA as [Hx Hy]. exists 1. split; [auto|].
    split; [eapply f_rep_eq; [exact Hx|ring]|]. split; [eapply f_rep_eq; [exact Hy|ring]|].
    split; (eapply f_rep_eq; [apply f_one_rep|ring]).
  - exists 1, 1. split; [auto|]. repeat split; apply f_one_rep || apply f_zero_rep.
Qed.

(** What a value written by field operations stands for. *)
Ltac frep :=
  lazymatch goal with
  | |- f_rep (f_add _ _) _ => apply f_add_rep; frep
  | |- f_rep (f_sub _ _) _ => apply f_sub_rep; frep
  | |- f_rep (f_mul _ _) _ => apply f_mul_rep; frep
  | |- f_rep (f_square _) _ => apply f_square_rep; frep
  | |- f_rep (f_neg _) _ => apply f_neg_rep; frep
  | |- f_rep f_one _ => apply f_one_rep
  | |- f_rep f_zero _ => apply f_zero_rep
  | |- _ => eassumption
  end.
Ltac coordinate :=
  cbn [px py pzz pzzz withX withY withZZ withZZZ]; eapply f_rep_eq; [frep|].

(** Running to the end of the statements; the memory is [m] but for the result. *)
Ltac run_to_end := repeat pstep; eexists; (split; [eassumption|]);
  cbn [px py pzz pzzz withX withY withZZ withZZZ].

(** *** Doubling *)

Lemma tangent_slope p1 m x y z M :
  stands (m p1) (Some (x, y)) -> f_rep (pzz (m p1)) (z * z) ->
  f_rep M ((1 + 1 + 1) * (x * (z * z)) * (x * (z * z))) ->
  pwp (match typeOfA fa with
       | a_is_zero => sret M
       | _ => tmp <- op1 f_square (ZZ p1) ;; let tmp := mulByA fa tmp in sret (f_add M tmp)
       end)%C
    (fun M' m' => m' = m /\ f_rep M' (((1 + 1 + 1) * x * x + a) * (z * z) * (z * z))) m.
Proof.
  intros HA Hzz HM. destruct (typeOfA fa) eqn:Ht; repeat pstep; (split; [done|]);
    try (eapply f_rep_eq; [apply f_add_rep; [exact HM|apply mulByA_rep, f_square_rep, Hzz]|ring]).
  assert (a = 0) as ->; [|eapply f_rep_eq; [exact HM|ring]].
  revert Ht. unfold typeOfA. rewrite (f_isZero_rep _ _ Hfa).
  destruct (bool_decide_reflect (a = 0)); [done|]. by repeat case_match.
Qed.

Lemma sums_dbl p3 p1 m A :
  stands (m p1) A -> on_curve a b A -> sums (dbl fa p3 p1) p3 m (aff_add a A A).
Proof.
  intros HA Hon. unfold sums, dbl. repeat pstep. rewrite (isZero_stands _ _ HA).
  destruct A as [[x y]|]; cycle 1.
  { rewrite bool_decide_eq_true_2 by done. by apply sums_copy. }
  rewrite bool_decide_eq_false_2 by done.
  pose proof HA as (z & Hz & Hx & Hy & Hzz & Hzzz).
  repeat pstep. eapply pwp_mono; [|eapply tangent_slope; [exact HA|exact Hzz|coordinate; ring]].
  intros M m' [-> HM].
  unfold aff_add. rewrite (decide_True (P := x = x)) by done.
  destruct (decide (y + y = 0)) as [Hyy|Hyy].
  - assert (Hy0 : y = 0).
    { destruct (k_integral (1 + 1) y) as [H|]; [rewrite <- Hyy; ring|by destruct (not_two _ _ Hcurve)|done]. }
    subst y. cbn in Hon.
    assert (HM0 : (1 + 1 + 1) * x * x + a <> 0)
      by (apply (nonsingular _ _ Hcurve); rewrite <- Hon; ring).
    set (k := (1 + 1 + 1) * x * x + a) in *.
    destruct (decide (p1 = p3)) as [->|Hne]; run_to_end; cbn [stands px py pzz pzzz];
      eexists (k * (z * z) * (z * z) * (k * (z * z) * (z * z))), _;
      (split; [auto 8|]);
      (split; [coordinate; ring|]); (split; [coordinate; reflexivity|]); split; coordinate; ring.
  - assert (Hy0 : y <> 0) by (by apply double_nonzero).
    destruct (decide (p1 = p3)) as [->|Hne]; run_to_end; cbn [through stands px py pzz pzzz];
      exists ((y + y) * (z * z * z) * z); (split; [auto 8|]);
      (split; [coordinate; field; auto|]); (split; [coordinate; field; auto|]);
      split; coordinate; ring.
Qed.

(** A doubling that meets the line at infinity only: both ordinates are zero. *)
Lemma two_torsion x y :
  on_curve a b (Some (x, y)) -> y + y = 0 -> y = 0 /\ (1 + 1 + 1) * x * x + a <> 0.
Proof.
  intros Hon Hyy. assert (Hy0 : y = 0).
  { destruct (k_integral (1 + 1) y) as [H|]; [rewrite <- Hyy; ring|by destruct (not_two _ _ Hcurve)|done]. }
  split; [done|]. subst y. cbn in Hon. apply (nonsingular _ _ Hcurve). rewrite <- Hon. ring.
Qed.

Lemma sums_dblAffine p3 p1 m A :
  stands_affine p1 A -> on_curve a b A -> sums (dblAffine fa p3 p1) p3 m (aff_add a A A).
Proof.
  intros HA Hon. unfold sums, dblAffine. rewrite (isZeroAffine_stands _ _ HA Hon).
  destruct A as [[x y]|]; cycle 1.
  { rewrite bool_decide_eq_true_2 by done. by apply sums_copyFromAffine. }
  rewrite bool_decide_eq_false_2 by done. destruct HA as [Hx Hy].
  run_to_end. unfold aff_add. rewrite (decide_True (P := x = x)) by done.
  destruct (decide (y + y = 0)) as [Hyy|Hyy]; cbn [through stands].
  - destruct (two_torsion x y Hon Hyy) as [-> HM0]. set (k := (1 + 1 + 1) * x * x + a) in *.
    assert (Ek : k = (1 + 1 + 1) * x * x + a) by done. clearbody k.
    eexists (k * k), _; (split; [auto|]). split; [coordinate; rewrite Ek; ring|].
    split; [coordinate; reflexivity|]. split; coordinate; ring.
  - assert (Hy0 : y <> 0) by (by apply double_nonzero).
    exists (y + y). split; [done|]. split; [coordinate; field; auto|].
    split; [coordinate; field; auto|]. split; coordinate; ring.
Qed.

(** *** Addition *)

(** When the abscissas agree the points are equal or opposite. *)
Lemma add_same_abscissa x y1 y2 :
  on_curve a b (Some (x, y1)) -> on_curve a b (Some (x, y2)) ->
  y2 - y1 <> 0 -> aff_add a (Some (x, y1)) (Some (x, y2)) = None.
Proof.
  intros H1 H2 Hne. unfold aff_add. rewrite decide_True by done.
  destruct (same_abscissa a b x y1 y2 H1 H2) as [->|Hs]; [destruct Hne; ring|by rewrite decide_True].
Qed.

Lemma sums_add p3 p1 p2 m A B :
  stands (m p1) A -> stands (m p2) B -> on_curve a b A -> on_curve a b B ->
  sums (add fa p3 p1 p2) p3 m (aff_add a A B).
Proof.
  intros HA HB HonA HonB. unfold sums, add. repeat pstep. rewrite (isZero_stands _ _ HA).
  destruct A as [[x1 y1]|]; cycle 1.
  { rewrite bool_decide_eq_true_2 by done. by apply sums_copy. }
  rewrite bool_decide_eq_false_2 by done. repeat pstep. rewrite (isZero_stands _ _ HB).
  destruct B as [[x2 y2]|]; cycle 1.
  { rewrite bool_decide_eq_true_2 by done. by apply sums_copy. }
  rewrite bool_decide_eq_false_2 by done.
  assert (Hsame : p1 = p2 -> x1 = x2 /\ y1 = y2) by (intros <-; by eapply stands_inj).
  pose proof HA as (z1 & Hz1 & Hx1 & Hy1 & Hzz1 & Hzzz1).
  pose proof HB as (z2 & Hz2 & Hx2 & Hy2 & Hzz2 & Hzzz2).
  repeat pstep.
  assert (HP : f_rep (f_sub (f_mul (px (m p2)) (pzz (m p1))) (f_mul (px (m p1)) (pzz (m p2))))
    ((x2 - x1) * (z1 * z1 * (z2 * z2)))) by (coordinate; ring).
  assert (HR : f_rep (f_sub (f_mul (py (m p2)) (pzzz (m p1))) (f_mul (py (m p1)) (pzzz (m p2))))
    ((y2 - y1) * (z1 * z1 * z1 * (z2 * z2 * z2)))) by (coordinate; ring).
  rewrite (f_isZero_rep _ _ HP), (f_isZero_rep _ _ HR).
  set (P := f_sub _ _) in HP |- *. set (R := f_sub _ _) in HR |- *. clearbody P R.
  assert (Hnz : forall u, u * (z1 * z1 * (z2 * z2)) = 0 -> u = 0).
  { intros u Hu. apply k_integral in Hu as [|Hu]; [done|]. by destruct (k_mul_nonzero (z1 * z1) (z2 * z2)); auto. }
  destruct (decide (x1 = x2)) as [<-|Hne].
  - rewrite (bool_decide_eq_true_2 ((x1 - x1) * _ = 0)) by ring. cbn [andb].
    destruct (bool_decide_reflect ((y2 - y1) * (z1 * z1 * z1 * (z2 * z2 * z2)) = 0)) as [Hy|Hy].
    + assert (y2 = y1) as ->.
      { apply k_sub_zero. apply k_integral in Hy as [|Hy]; [done|].
        by destruct (k_mul_nonzero (z1 * z1 * z1) (z2 * z2 * z2)); auto. }
      by apply sums_dbl.
    + assert (Hy' : y2 - y1 <> 0) by (intros E0; apply Hy; rewrite E0; ring).
      rewrite (add_same_abscissa x1 y1 y2) by done.
      assert (HP0 : f_rep P 0) by (eapply f_rep_eq; [exact HP|ring]). clear HP.
      assert (Hn : p1 <> p2) by (intros E0; apply Hy'; destruct (Hsame E0) as [_ ->]; ring).
      destruct (decide (p1 = p3)) as [->|Hn1], (decide (p2 = p3)) as [->|Hn2]; [done|..]; run_to_end; cbn [stands];
        eexists ((y2 - y1) * (z1 * z1 * z1 * (z2 * z2 * z2)) * ((y2 - y1) * (z1 * z1 * z1 * (z2 * z2 * z2)))), _;
        (split; [auto|]); (split; [coordinate; ring|]); (split; [coordinate; reflexivity|]);
        split; coordinate; ring.
  - assert (Hd : x2 - x1 <> 0) by (intros E0; apply Hne; symmetry; by apply k_sub_zero).
    rewrite (bool_decide_eq_false_2 ((x2 - x1) * _ = 0)) by (intros E0; by apply Hd, Hnz). cbn [andb].
    unfold aff_add. rewrite decide_False by done.
    assert (Hn : p1 <> p2) by (intros E0; by destruct (Hsame E0)).
    destruct (decide (p1 = p3)) as [->|Hn1], (decide (p2 = p3)) as [->|Hn2]; [done|..]; run_to_end; cbn [through stands];
      exists (z1 * z2 * ((x2 - x1) * (z1 * z1 * (z2 * z2)))); (split; [auto 8|]);
      (split; [coordinate; field; auto|]); (split; [coordinate; field; auto|]);
      split; coordinate; ring.
Qed.

Lemma affine_sub_zero (u v w : K) : w <> 0 -> (u - v) * w = 0 -> u = v.
Proof. intros Hw [H|H]%k_integral; [by apply k_sub_zero|done]. Qed.

Lemma sums_addMixed p3 p1 p2 m A B :
  stands (m p1) A -> stands_affine p2 B -> on_curve a b A -> on_curve a b B ->
  sums (addMixed fa p3 p1 p2) p3 m (aff_add a A B).
Proof.
  intros HA HB HonA HonB. unfold sums, addMixed. repeat pstep. rewrite (isZero_stands _ _ HA).
  destruct A as [[x1 y1]|]; cycle 1.
  { rewrite bool_decide_eq_true_2 by done. by apply sums_copyFromAffine. }
  rewrite bool_decide_eq_false_2 by done. rewrite (isZeroAffine_stands _ _ HB HonB).
  destruct B as [[x2 y2]|]; cycle 1.
  { rewrite bool_decide_eq_true_2 by done. by apply sums_copy. }
  rewrite bool_decide_eq_false_2 by done.
  pose proof HA as (z1 & Hz1 & Hx1 & Hy1 & Hzz1 & Hzzz1). pose proof HB as [Hx2 Hy2].
  repeat pstep.
  assert (HP : f_rep (f_sub (f_mul (ax p2) (pzz (m p1))) (px (m p1))) ((x2 - x1) * (z1 * z1)))
    by (coordinate; ring).
  assert (HR : f_rep (f_sub (f_mul (ay p2) (pzzz (m p1))) (py (m p1))) ((y2 - y1) * (z1 * z1 * z1)))
    by (coordinate; ring).
  rewrite (f_isZero_rep _ _ HP), (f_isZero_rep _ _ HR).
  set (P := f_sub _ _) in HP |- *. set (R := f_sub _ _) in HR |- *. clearbody P R.
  destruct (decide (x1 = x2)) as [<-|Hne].
  - rewrite (bool_decide_eq_true_2 ((x1 - x1) * _ = 0)) by ring. cbn [andb].
    destruct (bool_decide_reflect ((y2 - y1) * (z1 * z1 * z1) = 0)) as [Hy|Hy].
    + assert (y2 = y1) as -> by (eapply affine_sub_zero; [|exact Hy]; auto).
      by apply sums_dblAffine.
    + assert (Hy' : y2 - y1 <> 0) by (intros E0; apply Hy; rewrite E0; ring).
      rewrite (add_same_abscissa x1 y1 y2) by done.
      assert (HP0 : f_rep P 0) by (eapply f_rep_eq; [exact HP|ring]). clear HP.
      destruct (decide (p1 = p3)) as [->|Hn1]; run_to_end; cbn [stands];
        eexists ((y2 - y1) * (z1 * z1 * z1) * ((y2 - y1) * (z1 * z1 * z1))), _;
        (split; [auto|]); (split; [coordinate; ring|]); (split; [coordinate; reflexivity|]);
        split; coordinate; ring.
  - assert (Hd : x2 - x1 <> 0) by (intros E0; apply Hne; symmetry; by apply k_sub_zero).
    rewrite (bool_decide_eq_false_2 ((x2 - x1) * _ = 0)) by auto. cbn [andb].
    unfold aff_add. rewrite decide_False by done.
    destruct (decide (p1 = p3)) as [->|Hn1]; run_to_end; cbn [through stands];
      exists (z1 * ((x2 - x1) * (z1 * z1))); (split; [auto 8|]);
      (split; [coordinate; field; auto|]); (split; [coordinate; field; auto|]);
      split; coordinate; ring.
Qed.

Lemma sums_addAffine p3 p1 p2 m A B :
  stands_affine p1 A -> stands_affine p2 B -> on_curve a b A -> on_curve a b B ->
  sums (addAffine fa p3 p1 p2) p3 m (aff_add a A B).
Proof.
  intros HA HB HonA HonB. unfold sums, addAffine.
  rewrite (isZeroAffine_stands _ _ HA HonA), (isZeroAffine_stands _ _ HB HonB).
  destruct A as [[x1 y1]|]; cycle 1.
  { rewrite bool_decide_eq_true_2 by done. by apply sums_copyFromAffine. }
  rewrite bool_decide_eq_false_2 by done.
  destruct B as [[x2 y2]|]; cycle 1.
  { rewrite bool_decide_eq_true_2 by done. by apply sums_copyFromAffine. }
  rewrite bool_decide_eq_false_2 by done. destruct HA as [Hx1 Hy1]. pose proof HB as [Hx2 Hy2].
  assert (HP : f_rep (f_sub (ax p2) (ax p1)) (x2 - x1)) by frep.
  assert (HR : f_rep (f_sub (ay p2) (ay p1)) (y2 - y1)) by frep.
  rewrite (f_isZero_rep _ _ HP), (f_isZero_rep _ _ HR).
  set (P := f_sub _ _) in HP |- *. set (R := f_sub _ _) in HR |- *. clearbody P R.
  destruct (decide (x1 = x2)) as [<-|Hne].
  - rewrite (bool_decide_eq_true_2 (x1 - x1 = 0)) by ring. cbn [andb].
    destruct (bool_decide_reflect (y2 - y1 = 0)) as [Hy|Hy].
    + apply k_sub_zero in Hy as ->. by apply sums_dblAffine.
    + rewrite (add_same_abscissa x1 y1 y2) by done.
      assert (HP0 : f_rep P 0) by (eapply f_rep_eq; [exact HP|ring]). clear HP.
      run_to_end. cbn [stands]. eexists ((y2 - y1) * (y2 - y1)), _.
      split; [auto|]. split; [coordinate; ring|]. split; [coordinate; reflexivity|].
      split; coordinate; ring.
  - assert (Hd : x2 - x1 <> 0) by (intros E0; apply Hne; symmetry; by apply k_sub_zero).
    rewrite (bool_decide_eq_false_2 (x2 - x1 = 0)) by done. cbn [andb].
    unfold aff_add. rewrite decide_False by done.
    run_to_end. cbn [through stands]. exists (x2 - x1). split; [done|].
    split; [coordinate; field; auto|]. split; [coordinate; field; auto|]. split; coordinate; ring.
Qed.

(** *** Negation and subtraction *)

Lemma on_curve_opp A : on_curve a b A -> on_curve a b (aff_opp A).
Proof. destruct A as [[x y]|]; [|done]. cbn. intros <-. ring. Qed.

Lemma sums_neg r p m A : stands (m p) A -> sums (neg r p) r m (aff_opp A).
Proof.
  intros HA. unfold sums, neg. destruct (decide (p = r)) as [->|Hne]; run_to_end;
    destruct A as [[x y]|]; cbn [stands aff_opp];
    [destruct HA as (z & Hz & Hx & Hy & H2 & H3); exists z
    |destruct HA as (x & y & Hx0 & Hx & Hy & H2 & H3); eexists x, _
    |destruct HA as (z & Hz & Hx & Hy & H2 & H3); exists z
    |destruct HA as (x & y & Hx0 & Hx & Hy & H2 & H3); eexists x, _];
    (split; [done|]); (split; [coordinate; ring|]);
    (split; [coordinate; (ring || reflexivity)|]); split; coordinate; ring.
Qed.

Lemma stands_negAffine p A : stands_affine p A -> stands_affine (negAffine p) (aff_opp A).
Proof.
  destruct A as [[x y]|]; cbn; intros [Hx Hy]; (split; [done|]).
  - frep.
  - eapply f_rep_eq; [frep|ring].
Qed.

Lemma sums_sub p3 p1 p2 m A B :
  p1 <> PTmp -> p3 <> PTmp ->
  stands (m p1) A -> stands (m p2) B -> on_curve a b A -> on_curve a b B ->
  pwp (sub fa p3 p1 p2) (fun _ m' => exists P, m' p3 = P /\ stands P (aff_add a A (aff_opp B)) /\
    forall l, l <> p3 -> l <> PTmp -> m' l = m l) m.
Proof.
  intros H1 H3 HA HB HonA HonB. unfold sub. apply pwp_sbind.
  eapply pwp_mono; [|by apply sums_neg]. intros _ m1 (P & [HP Hm1] & HPs).
  eapply pwp_mono; [|eapply sums_add; [by rewrite Hm1|by rewrite HP|done|by apply on_curve_opp]].
  intros _ m2 (P2 & [HP2 Hm2] & HP2s). exists P2. split; [done|]. split; [done|].
  intros l Hl Ht. by rewrite Hm2, Hm1.
Qed.

(** *** Equality *)

Lemma eq_stands p1 p2 m A B :
  stands (m p1) A -> stands (m p2) B -> pwp (eq p1 p2) (fun r m' => r = bool_decide (A = B) /\ m' = m) m.
Proof.
  intros HA HB. unfold eq. repeat pstep. rewrite (isZero_stands _ _ HA).
  destruct A as [[x1 y1]|]; cycle 1.
  { rewrite bool_decide_eq_true_2 by done. repeat pstep. rewrite (isZero_stands _ _ HB).
    split; [|done]. by destruct B. }
  rewrite bool_decide_eq_false_2 by done. repeat pstep. split; [|done].
  destruct HA as (z1 & Hz1 & Hx1 & Hy1 & Hzz1 & Hzzz1).
  destruct B as [[x2 y2]|].
  - destruct HB as (z2 & Hz2 & Hx2 & Hy2 & Hzz2 & Hzzz2).
    erewrite (f_isZero_rep _ ((x2 - x1) * (z1 * z1 * (z2 * z2)))) by (coordinate; ring).
    erewrite (f_isZero_rep _ ((y2 - y1) * (z1 * z1 * z1 * (z2 * z2 * z2)))) by (coordinate; ring).
    destruct (decide (x1 = x2)) as [<-|Hx].
    + rewrite (bool_decide_eq_true_2 ((x1 - x1) * _ = 0)) by ring.
      destruct (decide (y1 = y2)) as [<-|Hy].
      * rewrite (bool_decide_eq_true_2 ((y1 - y1) * _ = 0)) by ring. by rewrite bool_decide_eq_true_2.
      * rewrite !bool_decide_eq_false_2; [done|by intros [= ->]|].
        intros E0. apply Hy. symmetry. eapply affine_sub_zero; [|exact E0]. auto 8.
    + rewrite (bool_decide_eq_false_2 ((x2 - x1) * _ = 0)).
      * symmetry. apply bool_decide_eq_false_2. by intros [= -> ->].
      * intros E0. apply Hx. symmetry. eapply affine_sub_zero; [|exact E0]. auto 8.
  - destruct HB as (x2 & y2 & Hx0 & Hx2 & Hy2 & Hzz2 & Hzzz2).
    erewrite (f_isZero_rep _ (x2 * (z1 * z1))) by (coordinate; ring).
    rewrite (bool_decide_eq_false_2 (x2 * _ = 0)) by auto. cbn [andb].
    symmetry. by apply bool_decide_eq_false_2.
Qed.
End Represent.

(** C15: On any curve that is non-singular, not in characteristic two and not through
    the origin, the additions of the template (two points, a point and an affine
    point, two affine points), its doublings, negation and comparison compute the
    chord-and-tangent group law on what their arguments stand for, infinity and equal
    or opposite points included; the destination may be any of the operands, no
    other object changes, and sums stay on the curve. *)
Theorem curve_ops_correct {K E : Type} {KF : KField K} {F : FieldOps E} {FR : FieldRep K E}
    {FL : FieldLaws K E} (a b : K) (fa : E) p3 p1 p2 q1 q2 m A B :
  f_rep fa a -> curve_ok a b ->
  stands (m p1) A -> stands (m p2) B -> stands_affine q1 A -> stands_affine q2 B ->
  on_curve a b A -> on_curve a b B ->
  sums (add fa p3 p1 p2) p3 m (aff_add a A B) /\
  sums (addMixed fa p3 p1 q2) p3 m (aff_add a A B) /\
  sums (addAffine fa p3 q1 q2) p3 m (aff_add a A B) /\
  sums (dbl fa p3 p1) p3 m (aff_add a A A) /\
  sums (dblAffine fa p3 q1) p3 m (aff_add a A A) /\
  sums (neg p3 p1) p3 m (aff_opp A) /\
  pwp (eq p1 p2) (fun r m' => r = bool_decide (A = B) /\ m' = m) m /\
  on_curve a b (aff_add a A B).
Proof.
  intros Hfa Hc H1 H2 H3 H4 HA HB.
  split; [by eapply sums_add|]. split; [by eapply sums_addMixed|]. split; [by eapply sums_addAffine|].
  split; [by eapply sums_dbl|]. split; [by eapply sums_dblAffine|]. split; [by apply sums_neg|].
  split; [by apply eq_stands|]. by apply aff_add_on_curve.
Qed.

(** ** Instance: [y^2 = x^3 + 3] over the field of seven elements *)

Section Demo.
#[local] Existing Instance F7.
#[local] Existing Instance field_class_rep.
#[local] Instance F7_class : FieldOps (Zmod 7) := field_class F7.
#[local] Instance F7_laws : FieldLaws (Zmod 7) (Zmod 7) := field_class_laws F7.

Definition seven (x : Z) : Zmod 7 := Zmod.of_Z 7 x.

Ltac in_F7 := apply Zmod.to_Z_inj; vm_compute; reflexivity.
Ltac not_in_F7 := intros Heq; apply (f_equal Zmod.to_Z) in Heq; vm_compute in Heq; discriminate Heq.

Lemma demo_curve_ok : curve_ok (seven 0) (seven 3).
Proof.
  split; [not_in_F7|not_in_F7|]. intros x. pattern x. apply F7_cases. clear x.
  repeat (apply Forall_cons_2; [intros H0; first [not_in_F7 | apply (f_equal Zmod.to_Z) in H0;
    vm_compute in H0; discriminate H0]|]). apply Forall_nil_2.
Qed.

(** [(1, 2)] with [z = 3] and the affine [(2, 2)]. *)
Definition demo_points : pmem (E := Zmod 7) := fun l =>
  match l with
  | PArg 0 => mkPoint (seven 2) (seven 5) (seven 2) (seven 6)
  | _ => mkPoint (seven 2) (seven 2) (seven 1) (seven 1)
  end.

Lemma curve_ops_correct_witness :
  let A := Some (seven 1, seven 2) in let B := Some (seven 2, seven 2) in
  sums (add (seven 0) (PArg 0) (PArg 0) (PArg 1)) (PArg 0) demo_points (aff_add (seven 0) A B) /\
  sums (addMixed (seven 0) (PArg 0) (PArg 0) (mkPointAffine (seven 2) (seven 2))) (PArg 0) demo_points
    (aff_add (seven 0) A B) /\
  sums (addAffine (seven 0) (PArg 0) (mkPointAffine (seven 1) (seven 2)) (mkPointAffine (seven 2) (seven 2)))
    (PArg 0) demo_points (aff_add (seven 0) A B) /\
  sums (dbl (seven 0) (PArg 0) (PArg 0)) (PArg 0) demo_points (aff_add (seven 0) A A) /\
  sums (dblAffine (seven 0) (PArg 0) (mkPointAffine (seven 1) (seven 2))) (PArg 0) demo_points
    (aff_add (seven 0) A A) /\
  sums (neg (PArg 0) (PArg 0)) (PArg 0) demo_points (aff_opp A) /\
  pwp (eq (PArg 0) (PArg 1)) (fun r m' => r = bool_decide (A = B) /\ m' = demo_points) demo_points /\
  on_curve (seven 0) (seven 3) (aff_add (seven 0) A B).
Proof.
  apply (curve_ops_correct (seven 0) (seven 3) (seven 0) (PArg 0) (PArg 0) (PArg 1)
    (mkPointAffine (seven 1) (seven 2)) (mkPointAffine (seven 2) (seven 2)) demo_points).
  - reflexivity.
  - apply demo_curve_ok.
  - exists (seven 3). split; [not_in_F7|]. split; [in_F7|]. split; [in_F7|]. split; in_F7.
  - exists (seven 1). split; [not_in_F7|]. split; [in_F7|]. split; [in_F7|]. split; in_F7.
  - split; reflexivity.
  - split; reflexivity.
  - in_F7.
  - in_F7.
Defined.

(** Negating the affine zero into a [Point] gives [(0, 0, 1, 1)], which is not the point
    at infinity. *)
Example negFromAffine_zero :
  f_isZero (pzz (exec (negFromAffine (PArg 0) (curve_zeroAffine (E := Zmod 7))) demo_points (PArg 0))) = false.
Proof. vm_compute. reflexivity. Qed.
End Demo.
