(* ===== verification/GroupLaw.v ===== *)
(** The chord-and-tangent law on the points of a non-singular curve is an abelian group.
    Three points whose sum is infinity lie on a line that meets the curve in them and
    nowhere else; associativity compares the two parabolas through the same points. *)

From Stdlib Require Import Field.
From S2P Require Import Prelude Group Field Curve CurveSpec.

Section GroupLaw.
Context {K : Type} {KF : KField K} (a b : K) (Hcurve : curve_ok a b).
Add Field K_field_gl : (k_theory (K := K)).
#[local] Open Scope field_scope.
Notation point := (K * K)%type.
Notation on := (fun P : point => on_curve a b (Some P)).
Notation "P ⊕ Q" := (aff_add a P Q) (at level 50, left associativity).
Definition opp (P : point) : point := (fst P, - snd P).

(** *** Lines *)

(** The line [y = l x + m] passes through the three points, and the three abscissas are
    the roots of the cubic [x^3 + a x + b - (l x + m)^2]. *)
Record collinear (l m : K) (P Q R : point) : Prop := {
  col_1 : snd P = l * fst P + m;
  col_2 : snd Q = l * fst Q + m;
  col_3 : snd R = l * fst R + m;
  col_sum : fst P + fst Q + fst R = l * l;
  col_pairs : fst P * fst Q + fst P * fst R + fst Q * fst R = a - (l * m + l * m);
  col_product : fst P * fst Q * fst R = m * m - b
}.

Lemma collinear_swap l m P Q R : collinear l m P Q R -> collinear l m Q P R.
Proof.
  intros [H1 H2 H3 H4 H5 H6].
  split; [done|done|done|rewrite <- H4; ring|rewrite <- H5; ring|rewrite <- H6; ring].
Qed.

Lemma collinear_rotate l m P Q R : collinear l m P Q R -> collinear l m Q R P.
Proof.
  intros [H1 H2 H3 H4 H5 H6].
  split; [done|done|done|rewrite <- H4; ring|rewrite <- H5; ring|rewrite <- H6; ring].
Qed.

Lemma collinear_opp l m P Q R : collinear l m P Q R -> collinear (- l) (- m) (opp P) (opp Q) (opp R).
Proof.
  intros [H1 H2 H3 H4 H5 H6]. split; cbn [opp fst snd].
  - rewrite H1. ring.
  - rewrite H2. ring.
  - rewrite H3. ring.
  - rewrite H4. ring.
  - rewrite H5. ring.
  - rewrite H6. ring.
Qed.

(** The cubic factors. *)
Lemma collinear_factors l m P Q R x : collinear l m P Q R ->
  x * x * x + a * x + b - (l * x + m) * (l * x + m) = (x - fst P) * (x - fst Q) * (x - fst R).
Proof.
  intros [_ _ _ H4 H5 H6].
  transitivity (x * x * x - (l * l) * x * x + (a - (l * m + l * m)) * x - (m * m - b)); [ring|].
  rewrite <- H4, <- H5, <- H6. ring.
Qed.

Lemma collinear_on l m P Q R : collinear l m P Q R -> on P /\ on Q /\ on R.
Proof.
  intros H. destruct P as [x1 y1], Q as [x2 y2], R as [x3 y3].
  pose proof (col_1 _ _ _ _ _ H) as H1. pose proof (col_2 _ _ _ _ _ H) as H2. pose proof (col_3 _ _ _ _ _ H) as H3.
  cbn [opp fst snd on_curve] in *.
  assert (F : forall x, (x - x1) * (x - x2) * (x - x3) = 0 ->
    (l * x + m) * (l * x + m) = x * x * x + a * x + b).
  { intros x Hx. pose proof (collinear_factors _ _ _ _ _ x H) as F. cbn [fst] in F.
    symmetry. apply k_sub_zero. by rewrite F. }
  rewrite H1, H2, H3. repeat split; apply F; ring.
Qed.

(** No line meets the curve in a point, its opposite and a third point. *)
Lemma no_vertical l m P Q R : collinear l m P Q R -> fst P = fst Q -> snd P + snd Q <> 0.
Proof.
  intros H Hx Hy. destruct (collinear_on _ _ _ _ _ H) as (HP & _ & _).
  destruct H as [H1 H2 H3 H4 H5 H6].
  destruct P as [x1 y1], Q as [x2 y2], R as [x3 y3]; cbn [opp fst snd on_curve] in *. subst x2.
  assert (y2 = y1) as -> by congruence. clear H2.
  assert (E1 : y1 = 0).
  { pose proof (not_two _ _ Hcurve) as H2. transitivity ((y1 + y1) / (1 + 1)); [field; done|]. rewrite Hy. field. done. }
  rewrite E1 in *. apply (nonsingular _ _ Hcurve x1).
  - rewrite <- HP. ring.
  - (* the derivative at the double root *)
    assert (Em : m = - (l * x1)) by (transitivity (l * x1 + m - l * x1); [ring|rewrite <- H1; ring]).
    assert (E3 : x3 = l * l - x1 - x1) by (rewrite <- H4; ring).
    assert (Ea : a = x1 * x1 + x1 * x3 + x1 * x3 + (l * m + l * m)).
    { transitivity (a - (l * m + l * m) + (l * m + l * m)); [ring|]. rewrite <- H5. ring. }
    rewrite Ea, Em, E3. ring.
Qed.

(** The sum of two points of a line is opposite to the third. *)
Lemma collinear_sum l m P Q R : collinear l m P Q R -> Some P ⊕ Some Q = Some (opp R).
Proof.
  intros H. pose proof (no_vertical _ _ _ _ _ H) as Hv.
  destruct H as [H1 H2 H3 H4 H5 H6].
  destruct P as [x1 y1], Q as [x2 y2], R as [x3 y3]; cbn [opp fst snd] in *.
  assert (E3 : x3 = l * l - x1 - x2) by (rewrite <- H4; ring).
  assert (E : forall s, s = l -> through s x1 x2 y1 = Some (x3, - y3)).
  { intros s ->. unfold through. rewrite <- E3. f_equal. f_equal. rewrite H3, H1. ring. }
  unfold aff_add. destruct (decide (x1 = x2)) as [Hx|Hx].
  - specialize (Hv Hx). rewrite decide_False by done. apply E. subst x2.
    assert (y2 = y1) as -> by congruence.
    assert (Ea : a = x1 * x1 + x1 * x3 + x1 * x3 + (l * m + l * m)).
    { transitivity (a - (l * m + l * m) + (l * m + l * m)); [ring|]. rewrite <- H5. ring. }
    assert (Em : m = y1 - l * x1) by (rewrite H1; ring).
    rewrite Ea, E3, Em. field. done.
  - apply E. rewrite H1, H2. field. intros E0. apply Hx. symmetry. by apply k_sub_zero.
Qed.

Lemma collinear_exists P Q : on P -> on Q -> ~ (fst P = fst Q /\ snd P + snd Q = 0) ->
  exists l m R, collinear l m P Q R /\ Some P ⊕ Some Q = Some (opp R).
Proof.
  intros HP HQ Hn.
  assert (H : exists l m R, collinear l m P Q R).
  { destruct P as [x1 y1], Q as [x2 y2]; cbn [opp fst snd on_curve] in *.
    destruct (decide (x1 = x2)) as [<-|Hx].
    - assert (Hy : y1 + y2 <> 0) by (intros E; by apply Hn).
      destruct (same_abscissa a b x1 y1 y2 HP HQ) as [<-|]; [|done].
      set (l := ((1 + 1 + 1) * x1 * x1 + a) / (y1 + y1)).
      exists l, (y1 - l * x1), (l * l - x1 - x1, l * (l * l - x1 - x1) + (y1 - l * x1)).
      assert (Ea : a = l * (y1 + y1) - (1 + 1 + 1) * x1 * x1) by (unfold l; field; done).
      assert (Eb : b = y1 * y1 - x1 * x1 * x1 - a * x1) by (rewrite HP; ring).
      clearbody l. split; cbn [opp fst snd]; [ring|ring|ring|ring|rewrite Ea; ring|rewrite Eb, Ea; ring].
    - assert (Hd : x2 - x1 <> 0) by (intros E; apply Hx; symmetry; by apply k_sub_zero).
      set (l := (y2 - y1) / (x2 - x1)).
      exists l, (y1 - l * x1), (l * l - x1 - x2, l * (l * l - x1 - x2) + (y1 - l * x1)).
      assert (E2 : y2 = l * (x2 - x1) + y1) by (unfold l; field; done).
      assert (Ea : a = l * (y2 + y1) - (x1 * x1 + x1 * x2 + x2 * x2)).
      { transitivity ((y2 * y2 - x2 * x2 * x2 - (y1 * y1 - x1 * x1 * x1)) / (x2 - x1));
          [rewrite HP, HQ; field; done|unfold l; field; done]. }
      assert (Eb : b = y1 * y1 - x1 * x1 * x1 - a * x1) by (rewrite HP; ring).
      clearbody l. subst y2.
      split; cbn [opp fst snd]; [ring|ring|ring|ring|rewrite Ea; ring|rewrite Eb, Ea; ring]. }
  destruct H as (l & m & R & H). exists l, m, R. split; [done|]. by apply collinear_sum in H.
Qed.

(** *** Opposites and commutativity *)

Lemma opp_opp (P : point) : opp (opp P) = P.
Proof. destruct P as [x y]. unfold opp. cbn [fst snd]. f_equal. ring. Qed.

Lemma opp_on P : on P -> on (opp P).
Proof. destruct P as [x y]. exact (on_curve_opp a b (Some (x, y))). Qed.

Lemma same_or_opp P Q : on P -> on Q -> fst P = fst Q -> Q = P \/ Q = opp P.
Proof.
  destruct P as [x y1], Q as [x2 y2]. cbn [opp fst snd]. intros HP HQ <-.
  destruct (same_abscissa a b x y1 y2 HP HQ) as [<-|E]; [by left|right].
  unfold opp. cbn [fst snd]. f_equal. transitivity (y1 + y2 - y1); [ring|]. rewrite E. ring.
Qed.

Lemma add_opp P : Some P ⊕ Some (opp P) = None.
Proof.
  destruct P as [x y]. unfold aff_add, opp. cbn [fst snd].
  rewrite decide_True by done. rewrite decide_True by ring. done.
Qed.

Lemma vertical_opp P Q : fst P = fst Q /\ snd P + snd Q = 0 -> Q = opp P.
Proof.
  destruct P as [x y], Q as [x' y']. cbn [opp fst snd]. intros [-> E]. unfold opp. cbn [fst snd]. f_equal.
  transitivity (y + y' - y); [ring|]. rewrite E. ring.
Qed.

(** Two points of the curve are opposite, or on a line that is not vertical. *)
Lemma line_or_opp P Q : on P -> on Q ->
  Q = opp P \/ exists l m S, collinear l m P Q (opp S) /\ Some P ⊕ Some Q = Some S /\ on S.
Proof.
  intros HP HQ. destruct (decide (fst P = fst Q /\ snd P + snd Q = 0)) as [E|E].
  - left. by apply vertical_opp.
  - right. destruct (collinear_exists P Q HP HQ E) as (l & m & R & H & Hs).
    exists l, m, (opp R). rewrite opp_opp. split; [done|]. split; [done|].
    apply opp_on. by apply collinear_on in H as (_ & _ & ?).
Qed.

Lemma point_add_comm P Q : on P -> on Q -> Some P ⊕ Some Q = Some Q ⊕ Some P.
Proof.
  intros HP HQ. destruct (line_or_opp P Q HP HQ) as [-> | (l & m & S & H & E & _)].
  - rewrite add_opp. pose proof (add_opp (opp P)) as E. by rewrite opp_opp in E.
  - rewrite E. apply collinear_swap, collinear_sum in H. rewrite H. by rewrite opp_opp.
Qed.

(** [-P + (P + Q) = Q]. *)
Lemma point_cancel P Q : on P -> on Q -> Some (opp P) ⊕ (Some P ⊕ Some Q) = Some Q.
Proof.
  intros HP HQ. destruct (line_or_opp P Q HP HQ) as [-> | (l & m & S & H & E & _)].
  - by rewrite add_opp.
  - rewrite E. apply collinear_opp, collinear_rotate, collinear_rotate, collinear_swap, collinear_sum in H.
    rewrite !opp_opp in H. exact H.
Qed.

(** [P + Q] is [P] for no [Q]. *)
Lemma sum_not_first l m P R : ~ collinear l m P R (opp P).
Proof.
  intros H. apply collinear_rotate, collinear_rotate, collinear_swap in H.
  apply (no_vertical _ _ _ _ _ H); [done|]. cbn. ring.
Qed.

(** *** Associativity *)

(** The parabola [(l1 + l2) y = x^2 + c x + d] through [P], [Q], [R] and [-(P + Q + R)], on
    the two lines. *)
Lemma parabola l1 m1 l2 m2 P Q S R T :
  collinear l1 m1 P Q (opp S) -> collinear l2 m2 S R T ->
  (l1 + l2) * l1 - (fst P + fst Q) = (l1 + l2) * l2 - (fst R + fst T) /\
  (l1 + l2) * m1 + fst P * fst Q = (l1 + l2) * m2 + fst R * fst T.
Proof.
  intros [_ _ H1 H2 H3 _] [G1 _ _ G2 G3 _]. cbn [opp fst snd] in *. split.
  - transitivity (l1 * l1 + l1 * l2 - (fst P + fst Q)); [ring|]. rewrite <- H2.
    transitivity (l1 * l2 + l2 * l2 - (fst R + fst T)); [rewrite <- G2|]; ring.
  - assert (E0 : (l1 + l2) * fst S = - (m1 + m2)).
    { transitivity (l1 * fst S + m1 + (l2 * fst S + m2) - (m1 + m2)); [ring|]. rewrite <- H1, <- G1. ring. }
    assert (E1 : fst P * fst Q = a - (l1 * m1 + l1 * m1) - (l1 * l1 - fst S) * fst S) by (rewrite <- H2, <- H3; ring).
    assert (E2 : fst R * fst T = a - (l2 * m2 + l2 * m2) - (l2 * l2 - fst S) * fst S) by (rewrite <- G2, <- G3; ring).
    rewrite E1, E2.
    transitivity ((l1 + l2) * m1 + a - (l1 * m1 + l1 * m1) - (l1 * ((l1 + l2) * fst S) - l2 * ((l1 + l2) * fst S))
      - (l2 * l2 - fst S) * fst S); [ring|]. rewrite E0. ring.
Qed.

(** The parabola of [P + (Q + R)] meets the line through [P] and [Q] in [P] and [Q]. *)
Lemma second_on_first l1 m1 l3 m3 l4 m4 P Q R S U T :
  collinear l1 m1 P Q (opp S) -> collinear l3 m3 Q R (opp U) -> collinear l4 m4 P U T ->
  (l3 + l4) * l3 - (fst Q + fst R) = (l3 + l4) * l1 - (fst P + fst Q) /\
  (l3 + l4) * m3 + fst Q * fst R = (l3 + l4) * m1 + fst P * fst Q.
Proof.
  intros C1 C3 C4. pose proof C4 as C4'. apply collinear_swap in C4.
  destruct (parabola _ _ _ _ _ _ _ _ _ C3 C4) as [G3 G4]. cbn [fst snd] in *.
  set (n := l3 + l4) in *. set (c := n * l3 - (fst Q + fst R)) in *. set (d := n * m3 + fst Q * fst R) in *.
  assert (HP : fst P * fst P + c * fst P + d = n * (l1 * fst P + m1)).
  { rewrite G3, G4, <- (col_1 _ _ _ _ _ C1), (col_1 _ _ _ _ _ C4'). ring. }
  assert (H : c = n * l1 - (fst P + fst Q)); cycle 1.
  { split; [exact H|]. transitivity (n * (l1 * fst P + m1) - fst P * fst P - c * fst P); [rewrite <- HP; ring|].
    rewrite H. ring. }
  destruct (decide (fst P = fst Q)) as [Hx|Hx].
  - assert (Q = P) as ->.
    { apply injective_projections; [done|]. rewrite (col_1 _ _ _ _ _ C1), (col_2 _ _ _ _ _ C1). by rewrite Hx. }
    clear Hx. assert (Hu : fst P - fst U <> 0).
    { rewrite k_sub_zero. intros Hu. destruct (collinear_on _ _ _ _ _ C4') as (OP & OU & _).
      destruct (same_or_opp P U OP OU Hu) as [-> | ->].
      - by apply (sum_not_first l3 m3 P R).
      - apply (no_vertical _ _ _ _ _ C4'); [done|]. cbn. ring. }
    apply (affine_sub_zero _ _ (fst P - fst U)); [done|].
    assert (En : n * (fst P - fst U) = snd P + snd P).
    { transitivity (l3 * fst P + m3 + (l4 * fst P + m4) - (l3 * fst U + m3) - (l4 * fst U + m4)); [unfold n; ring|].
      rewrite <- (col_1 _ _ _ _ _ C3), <- (col_1 _ _ _ _ _ C4'), <- (col_1 _ _ _ _ _ C4).
      pose proof (col_3 _ _ _ _ _ C3) as E3. cbn in E3. rewrite <- E3. ring. }
    transitivity ((n * (fst P - fst U)) * (l3 - l1) + (fst P - fst R) * (fst P - fst U)); [unfold c; ring|].
    rewrite En. pose proof C1 as [A1 _ _ A4 A5 _]. pose proof C3 as [D1 _ _ D4 D5 _]. cbn [opp fst snd] in *.
    assert (L1 : (snd P + snd P) * l1 = (1 + 1 + 1) * fst P * fst P + a).
    { rewrite A1. transitivity ((1 + 1) * (l1 * l1) * fst P + a - (a - (l1 * m1 + l1 * m1))); [ring|].
      rewrite <- A4, <- A5. ring. }
    assert (L3 : (snd P + snd P) * l3 = (1 + 1) * fst P * (fst P + fst R + fst U) + a
      - (fst P * fst R + fst P * fst U + fst R * fst U)).
    { rewrite D1. transitivity ((1 + 1) * (l3 * l3) * fst P + a - (a - (l3 * m3 + l3 * m3))); [ring|].
      rewrite <- D4, <- D5. ring. }
    transitivity ((snd P + snd P) * l3 - (snd P + snd P) * l1 + (fst P - fst R) * (fst P - fst U)); [ring|].
    rewrite L1, L3. ring.
  - apply (affine_sub_zero _ _ (fst P - fst Q)); [by rewrite k_sub_zero|].
    assert (HQ : fst Q * fst Q + c * fst Q + d = n * (l1 * fst Q + m1)).
    { rewrite <- (col_2 _ _ _ _ _ C1), (col_1 _ _ _ _ _ C3). unfold c, d. ring. }
    transitivity ((fst P * fst P + c * fst P + d) - (fst Q * fst Q + c * fst Q + d) - n * l1 * (fst P - fst Q)); [ring|].
    rewrite HP, HQ. ring.
Qed.

Lemma assoc_generic l1 m1 l2 m2 l3 m3 l4 m4 P Q R S T U T' :
  collinear l1 m1 P Q (opp S) -> collinear l2 m2 S R (opp T) ->
  collinear l3 m3 Q R (opp U) -> collinear l4 m4 P U (opp T') ->
  fst R <> fst P -> fst R <> fst Q -> T = T'.
Proof.
  intros C1 C2 C3 C4 HP HQ.
  destruct (parabola _ _ _ _ _ _ _ _ _ C1 C2) as [G1 G2].
  destruct (parabola _ _ _ _ _ _ _ _ _ C3 (collinear_swap _ _ _ _ _ C4)) as [G3 G4]. cbn [opp fst snd] in *.
  destruct (second_on_first _ _ _ _ _ _ _ _ _ _ _ _ C1 C3 C4) as [G5 G6].
  set (n := l1 + l2) in *. set (n' := l3 + l4) in *.
  (* both pass through [R], which is not on the first line *)
  assert (HR : forall k c d, c = k * l1 - (fst P + fst Q) -> d = k * m1 + fst P * fst Q ->
    fst R * fst R + c * fst R + d = k * snd R ->
    (fst R - fst P) * (fst R - fst Q) = k * (snd R - (l1 * fst R + m1))).
  { intros k c d -> -> E. transitivity (k * snd R - k * (l1 * fst R + m1)); [rewrite <- E|]; ring. }
  assert (R1 := HR n _ _ eq_refl eq_refl ltac:(rewrite G1, G2, (col_2 _ _ _ _ _ C2); ring)).
  assert (R2 := HR n' _ _ eq_refl eq_refl ltac:(rewrite <- G5, <- G6, (col_2 _ _ _ _ _ C3); ring)).
  assert (Hne : (fst R - fst P) * (fst R - fst Q) <> 0) by (apply k_mul_nonzero; by rewrite k_sub_zero).
  assert (Hl : snd R - (l1 * fst R + m1) <> 0) by (intros E; apply Hne; rewrite R1, E; ring).
  assert (En : n' = n).
  { apply (affine_sub_zero _ _ _ Hl).
    transitivity (n' * (snd R - (l1 * fst R + m1)) - n * (snd R - (l1 * fst R + m1))); [ring|].
    rewrite <- R1, <- R2. ring. }
  assert (Hn : n <> 0) by (intros E; apply Hne; rewrite R1, E; ring).
  rewrite En in G3, G4, G5, G6. rewrite G5 in G3. rewrite G6 in G4. clear HR R1 R2 Hne Hl G6.
  set (c := n * l1 - (fst P + fst Q)) in *. set (d := n * m1 + fst P * fst Q) in *.
  assert (Hx : fst T = fst T').
  { transitivity (n * n - (1 + 1) * c - (fst P + fst Q) - fst R).
    - transitivity (n * l2 - fst R - c); [rewrite G1; ring|]. unfold c, n. ring.
    - transitivity (n * l4 - fst P - c); [|rewrite G3; ring].
      transitivity (n * n' - (1 + 1) * c - (fst P + fst Q) - fst R); [by rewrite En|].
      transitivity (n * n' - c - (n * l3 - (fst Q + fst R)) - (fst P + fst Q) - fst R); [rewrite G5; ring|].
      unfold n'. ring. }
  apply injective_projections; [exact Hx|].
  assert (Hy : n * (snd T - snd T') = 0).
  { pose proof (col_3 _ _ _ _ _ C2) as Y. pose proof (col_3 _ _ _ _ _ C4) as Y'. cbn [opp fst snd] in Y, Y'.
    transitivity (n * - snd T' - n * - snd T); [ring|]. rewrite Y, Y'. rewrite <- Hx in *.
    transitivity ((n * l4 - (fst P + fst T)) * fst T + (n * m4 + fst P * fst T) -
      ((n * l2 - (fst R + fst T)) * fst T + (n * m2 + fst R * fst T))); [ring|].
    rewrite <- G1, <- G2, <- G3, <- G4. ring. }
  apply k_integral in Hy as [Hy|Hy]; [done|]. by apply k_sub_zero.
Qed.

Lemma add_comm A B : on_curve a b A -> on_curve a b B -> A ⊕ B = B ⊕ A.
Proof. destruct A as [[x y]|], B as [[x' y']|]; intros HA HB; [by apply point_add_comm|done..]. Qed.

Lemma cancel P B : on P -> on_curve a b B -> Some (opp P) ⊕ (Some P ⊕ B) = B.
Proof.
  destruct B as [Q|]; intros HP HB; [by apply point_cancel|].
  pose proof (add_opp (opp P)) as E. rewrite opp_opp in E. by destruct P.
Qed.

Lemma cancel_opp P B : on P -> on_curve a b B -> Some P ⊕ (Some (opp P) ⊕ B) = B.
Proof. intros HP HB. rewrite <- (opp_opp P) at 1. apply cancel; [by apply opp_on|done]. Qed.

Lemma assoc_apart P Q R : on P -> on Q -> on R -> fst R <> fst P -> fst R <> fst Q ->
  Some P ⊕ Some Q ⊕ Some R = Some P ⊕ (Some Q ⊕ Some R).
Proof.
  intros HP HQ HR NP NQ.
  destruct (line_or_opp P Q HP HQ) as [-> | (l1 & m1 & S & C1 & E1 & HS)].
  { rewrite add_opp. symmetry. by apply cancel_opp. }
  destruct (line_or_opp Q R HQ HR) as [-> | (l3 & m3 & U & C3 & E3 & HU)]; [done|].
  rewrite E1, E3.
  destruct (line_or_opp S R HS HR) as [-> | (l2 & m2 & T & C2 & E2 & _)].
  { pose proof (collinear_sum _ _ _ _ _ (collinear_rotate _ _ _ _ _ C1)) as E.
    rewrite E3 in E. rewrite E, add_opp. by rewrite add_opp. }
  destruct (line_or_opp P U HP HU) as [-> | (l4 & m4 & T' & C4 & E4 & _)].
  { apply collinear_rotate, collinear_rotate, collinear_sum in C3. rewrite opp_opp, E1 in C3. rewrite C3.
    rewrite add_opp. pose proof (add_opp (opp R)) as E. by rewrite opp_opp in E. }
  rewrite E2, E4. f_equal. exact (assoc_generic _ _ _ _ _ _ _ _ _ _ _ _ _ _ _ C1 C2 C3 C4 NP NQ).
Qed.

Lemma point_assoc P Q R : on P -> on Q -> on R ->
  Some P ⊕ Some Q ⊕ Some R = Some P ⊕ (Some Q ⊕ Some R).
Proof.
  intros HP HQ HR.
  assert (HPQ : on_curve a b (Some P ⊕ Some Q)) by (by apply aff_add_on_curve).
  assert (HQR : on_curve a b (Some Q ⊕ Some R)) by (by apply aff_add_on_curve).
  assert (HQQ : on_curve a b (Some Q ⊕ Some Q)) by (by apply aff_add_on_curve).
  destruct (decide (fst R = fst P)) as [E|NP].
  { destruct (same_or_opp P R HP HR (eq_sym E)) as [-> | ->].
    - rewrite (add_comm (Some P ⊕ Some Q)) by done. f_equal. by apply add_comm.
    - rewrite (add_comm (Some P ⊕ Some Q)) by done. rewrite cancel by done.
      rewrite (add_comm (Some Q)) by done. by rewrite cancel_opp. }
  destruct (decide (fst R = fst Q)) as [E|NQ]; [|by apply assoc_apart].
  destruct (same_or_opp Q R HQ HR (eq_sym E)) as [-> | ->].
  - rewrite (add_comm (Some P) (Some Q ⊕ Some Q)), (assoc_apart Q Q P) by congruence.
    rewrite (add_comm (Some Q) (Some P)) by done. by apply add_comm.
  - rewrite add_opp, (add_comm (Some P ⊕ Some Q)), (add_comm (Some P)) by done.
    rewrite cancel by done. by destruct P.
Qed.

Lemma add_assoc A B C : on_curve a b A -> on_curve a b B -> on_curve a b C ->
  A ⊕ (B ⊕ C) = A ⊕ B ⊕ C.
Proof.
  assert (E : forall D, D ⊕ None = D) by (by intros [[x y]|]).
  destruct A as [P|]; [|done]. destruct B as [Q|]; [|by rewrite E].
  destruct C as [R|]; intros HA HB HC; [|by rewrite !E]. symmetry. by apply point_assoc.
Qed.

Lemma add_opp_r A : on_curve a b A -> A ⊕ aff_opp A = None.
Proof. destruct A as [[x y]|]; [|done]. intros _. exact (add_opp (x, y)). Qed.
End GroupLaw.

(** ** The group of the points of a curve *)

Section CurveGroup.
Context {K : Type} {KF : KField K} (a b : K).

#[global] Instance on_curve_dec A : Decision (on_curve a b A).
Proof. destruct A as [[x y]|]; cbn; apply _. Defined.

(** Proofs that a point is on the curve are unique. *)
Definition curve_point : Type := { A : apoint (K := K) | bool_decide (on_curve a b A) = true }.

Definition to_curve (A : apoint) (HA : on_curve a b A) : curve_point :=
  exist _ A (bool_decide_eq_true_2 _ HA).

Lemma curve_point_on (X : curve_point) : on_curve a b (proj1_sig X).
Proof. exact (bool_decide_eq_true_1 _ (proj2_sig X)). Qed.

Lemma curve_point_eq (X Y : curve_point) : proj1_sig X = proj1_sig Y -> X = Y.
Proof.
  destruct X as [A HA], Y as [B HB]. cbn. intros <-. f_equal. apply Eqdep_dec.UIP_dec. apply bool_eq_dec.
Qed.

#[export] Instance curve_group : AbGroup curve_point := {|
  gzero := to_curve None I;
  gplus X Y := to_curve (aff_add a (proj1_sig X) (proj1_sig Y))
    (aff_add_on_curve a b _ _ (curve_point_on X) (curve_point_on Y));
  gopp X := to_curve (aff_opp (proj1_sig X)) (on_curve_opp a b _ (curve_point_on X))
|}.

Lemma curve_group_laws : curve_ok a b -> AbGroupLaws curve_point.
Proof.
  intros Hc. split; intros; apply curve_point_eq; cbn.
  - apply (add_assoc a b Hc); apply curve_point_on.
  - apply (add_comm a b Hc); apply curve_point_on.
  - done.
  - apply (add_opp_r a b), curve_point_on.
Qed.
End CurveGroup.
