(* ===== verification/CurveOverloads.v ===== *)
(** The other overloads of the class [Curve], from [curve.hpp] and [curve.cpp]: those that
    swap their operands, those with an affine destination, the conversions, and the text of
    a point.  An affine destination is written after every operand was read, so it is
    the value returned; the local [Point tmp] of an overload is a location given as the
    argument [tmp], other than the [PTmp] of the subtraction that calls it. *)

From Stdlib Require Import String Zmod Field.
From S2P Require Import Prelude Field Curve CurveSpec Tower GroupLaw.

Section Overloads.
Context {E : Type} {F : FieldOps E} (fa : E).
#[local] Open Scope c_scope.
#[local] Notation PointAffine := (PointAffine (E := E)).

(** [copy(PointAffine &, PointAffine &)], [neg(PointAffine &, Point &)] *)
Definition copyAffine (a : PointAffine) : PointAffine := mkPointAffine (ax a) (ay a).
Definition negToAffine (a : ploc) : pcmd PointAffine :=
  z <- isZero a ;;
  if z : bool then sret (mkPointAffine f_zero f_zero)
  else
    x <- op2 f_div (X a) (ZZ a) ;; y <- op2 f_div (Y a) (ZZZ a) ;;
    sret (mkPointAffine x (f_neg y)).

(** ** Swapped operands *)

Definition addSwapped (p3 : ploc) (p1 : PointAffine) (p2 : ploc) : pcmd unit := addMixed fa p3 p2 p1.
Definition subSwapped (p3 : ploc) (p1 : PointAffine) (p2 : ploc) : pcmd unit := neg PTmp p2 ;;; addSwapped p3 p1 PTmp.
Definition eqSwapped (p1 : PointAffine) (p2 : ploc) : pcmd bool := eqMixed p2 p1.

(** ** Affine destinations *)

Definition add_to_affine (tmp p1 p2 : ploc) : pcmd PointAffine := add fa tmp p1 p2 ;;; copyToAffine tmp.
Definition addMixed_to_affine (tmp p1 : ploc) (p2 : PointAffine) : pcmd PointAffine := addMixed fa tmp p1 p2 ;;; copyToAffine tmp.
Definition addAffine_to_affine (tmp : ploc) (p1 p2 : PointAffine) : pcmd PointAffine := addAffine fa tmp p1 p2 ;;; copyToAffine tmp.
Definition addSwapped_to_affine (tmp : ploc) (p1 : PointAffine) (p2 : ploc) : pcmd PointAffine := addSwapped tmp p1 p2 ;;; copyToAffine tmp.

Definition sub_to_affine (tmp p1 p2 : ploc) : pcmd PointAffine := neg PTmp p2 ;;; add_to_affine tmp p1 PTmp.
Definition subMixed_to_affine (tmp p1 : ploc) (p2 : PointAffine) : pcmd PointAffine := addMixed_to_affine tmp p1 (negAffine p2).
Definition subAffine_to_affine (tmp : ploc) (p1 p2 : PointAffine) : pcmd PointAffine := addAffine_to_affine tmp p1 (negAffine p2).
Definition subSwapped_to_affine (tmp : ploc) (p1 : PointAffine) (p2 : ploc) : pcmd PointAffine := neg PTmp p2 ;;; addSwapped_to_affine tmp p1 PTmp.

Definition dbl_to_affine (tmp p : ploc) : pcmd PointAffine := dbl fa tmp p ;;; copyToAffine tmp.
Definition dblAffine_to_affine (tmp : ploc) (p : PointAffine) : pcmd PointAffine := dblAffine fa tmp p ;;; copyToAffine tmp.

(** [toString], with the radix ten. *)
Definition curve_toString {FT : FieldText E} (p : ploc) : pcmd string :=
  tmp <- copyToAffine p ;; sret ("(" ++ f_toString (ax tmp) ++ "," ++ f_toString (ay tmp) ++ ")")%string.
End Overloads.

(** ** What they compute *)

Section Spec.
Context {K E : Type} {KF : KField K} {F : FieldOps E} {FR : FieldRep K E} {FL : FieldLaws K E}.
Add Field K_field_overloads : (k_theory (K := K)).
#[local] Open Scope field_scope.
#[local] Notation mem := (pmem (E := E)).
Context (a b : K) (fa : E) (Hfa : f_rep fa a) (Hcurve : curve_ok a b).

(** A command that returns an affine point standing for [A] and changes no object but locals. *)
Definition gives (tmps : list ploc) (c : pcmd PointAffine) (m : mem) (A : apoint (K := K)) : Prop :=
  pwp c (fun r m' => stands_affine r A /\ forall l, l ∉ tmps -> m' l = m l) m.

Lemma div_coordinate f e u v x : f_rep e u -> f_rep f v -> v <> 0 -> u = x * v -> f_rep (f_div e f) x.
Proof.
  intros Hu Hv H0 ->. eapply f_rep_eq; [by apply (f_div_rep _ _ _ _ Hu Hv H0)|]. by field.
Qed.

Lemma to_affine_stands p (m : mem) A : stands (m p) A ->
  pwp (copyToAffine p) (fun r m' => stands_affine r A /\ m' = m) m /\
  pwp (negToAffine p) (fun r m' => stands_affine r (aff_opp A) /\ m' = m) m.
Proof.
  intros HA. unfold copyToAffine, negToAffine. split; repeat pstep; rewrite (isZero_stands _ _ HA);
    (destruct A as [[x y]|]; [rewrite bool_decide_eq_false_2 by done|rewrite bool_decide_eq_true_2 by done]);
    repeat pstep; (split; [|done]); try (split; apply f_zero_rep);
    destruct HA as (z & Hz & Hx & Hy & H2 & H3); cbn [stands_affine aff_opp ax ay];
    (split; [by eapply div_coordinate; [..|by apply k_mul_nonzero|]|]); [|apply f_neg_rep];
    (eapply div_coordinate; [exact Hy|exact H3| |done]); by repeat apply k_mul_nonzero.
Qed.

Lemma gives_sums tmps (c : pcmd unit) p (m : mem) A : p ∈ tmps -> sums c p m A -> gives tmps (c ;;; copyToAffine p)%C m A.
Proof.
  intros Hp H. unfold gives, sums in *. apply pwp_sbind. eapply pwp_mono; [|exact H]. intros _ m' (P & [<- Hm] & HP).
  eapply pwp_mono; [|by apply to_affine_stands]. intros r m'' [Hr ->]. split; [done|]. intros l Hl. apply Hm. by intros ->.
Qed.

(** After the negation into the local of a subtraction. *)
Lemma after_neg {A} (c : pcmd A) (Q : A -> mem -> Prop) p (m : mem) B : stands (m p) B ->
  (forall m', stands (m' PTmp) (aff_opp B) -> (forall l, l <> PTmp -> m' l = m l) -> pwp c Q m') -> pwp (neg PTmp p ;;; c)%C Q m.
Proof.
  intros HB H. apply pwp_sbind. pose proof (sums_neg PTmp p m B HB) as Hn. unfold sums in Hn.
  eapply pwp_mono; [|exact Hn]. intros _ m' (P & [<- Hm] & HP). by apply H.
Qed.

Lemma gives_after_neg (c : pcmd PointAffine) p tmp (m : mem) B A : stands (m p) B ->
  (forall m', stands (m' PTmp) (aff_opp B) -> (forall l, l <> PTmp -> m' l = m l) -> gives [tmp] c m' A) ->
  gives [tmp; PTmp] (neg PTmp p ;;; c)%C m A.
Proof.
  intros HB H. eapply after_neg; [exact HB|]. intros m' H1 H2. eapply pwp_mono; [|by apply H]. intros r m'' [Hr Hl]. split; [done|].
  intros l [H3 H4]%not_elem_of_cons. rewrite Hl by (intros ?%list_elem_of_singleton; done). apply H2.
  by intros ->; apply H4, list_elem_of_singleton.
Qed.

(** The comparisons with affine points: the coordinates decide, infinity being the origin. *)
Definition coords (A : apoint (K := K)) : K * K := match A with Some c => c | None => (0, 0) end.

Lemma coords_inj A B : on_curve a b A -> on_curve a b B -> coords A = coords B -> A = B.
Proof.
  destruct A as [[x1 y1]|], B as [[x2 y2]|]; cbn [coords]; [by intros _ _ [= -> ->]| | |done]; intros HA HB [= Hx Hy]; subst.
  - by destruct (off_origin _ _ Hcurve 0 HA).
  - by destruct (off_origin _ _ Hcurve 0 HB).
Qed.

Lemma affine_coords q A : stands_affine q A -> f_rep (ax q) (fst (coords A)) /\ f_rep (ay q) (snd (coords A)).
Proof. by destruct A as [[]|]. Qed.

Lemma coords_decide A B : on_curve a b A -> on_curve a b B ->
  bool_decide (fst (coords A) = fst (coords B)) && bool_decide (snd (coords A) = snd (coords B)) = bool_decide (A = B).
Proof.
  intros HA HB. destruct (decide (A = B)) as [->|Hn]; [by rewrite !bool_decide_eq_true_2 by done|].
  rewrite (bool_decide_eq_false_2 (A = B)) by done. apply andb_false_iff.
  destruct (decide (fst (coords A) = fst (coords B))) as [E1|]; [right|left]; apply bool_decide_eq_false_2; [|done].
  intros E2. apply Hn, coords_inj; [done..|]. rewrite (surjective_pairing (coords A)), E1, E2. by destruct (coords B).
Qed.

Lemma scaled_difference e f u v w z : f_rep e (u * z) -> f_rep f (v * z) -> z <> 0 -> w = f_sub e f ->
  f_isZero w = bool_decide (v = u).
Proof.
  intros He Hf Hz ->. rewrite (f_isZero_rep _ _ (f_sub_rep _ _ _ _ He Hf)). apply bool_decide_ext. split.
  - intros E0. apply (proj1 (k_sub_zero _ _)) in E0. transitivity (v * z / z); [by field|]. rewrite <- E0. by field.
  - intros ->. by apply k_sub_zero.
Qed.

Lemma eqMixed_stands p q (m : mem) A B : stands (m p) A -> stands_affine q B -> on_curve a b A -> on_curve a b B ->
  pwp (eqMixed p q) (fun r m' => r = bool_decide (A = B) /\ m' = m) m.
Proof.
  intros HA HB HonA HonB. unfold eqMixed. repeat pstep. rewrite (isZero_stands _ _ HA). destruct A as [[x1 y1]|]; cycle 1.
  { rewrite bool_decide_eq_true_2 by done. repeat pstep. rewrite (isZeroAffine_stands _ _ Hcurve _ _ HB HonB).
    split; [|done]. by destruct B. }
  rewrite bool_decide_eq_false_2 by done. repeat pstep. split; [|done]. destruct HA as (z & Hz & Hx1 & Hy1 & H2 & H3).
  pose proof (affine_coords _ _ HB) as [Hx2 Hy2].
  rewrite (scaled_difference _ _ _ _ _ (z * z) (f_mul_rep _ _ _ _ Hx2 H2) Hx1 ltac:(auto using k_mul_nonzero) eq_refl).
  rewrite (scaled_difference _ _ _ _ _ (z * z * z) (f_mul_rep _ _ _ _ Hy2 H3) Hy1 ltac:(auto using k_mul_nonzero) eq_refl).
  exact (coords_decide _ _ HonA HonB).
Qed.

Lemma eqAffine_coords q1 q2 A B : stands_affine q1 A -> stands_affine q2 B -> on_curve a b A -> on_curve a b B ->
  eqAffine q1 q2 = bool_decide (A = B).
Proof.
  intros [HA1 HA2]%affine_coords [HB1 HB2]%affine_coords HonA HonB. unfold eqAffine.
  rewrite (f_eq_rep _ _ _ _ HA1 HB1), (f_eq_rep _ _ _ _ HA2 HB2). by apply coords_decide.
Qed.

Lemma gives_mono tmps tmps' c (m : mem) A : tmps ⊆ tmps' -> gives tmps c m A -> gives tmps' c m A.
Proof. unfold gives. intros Ht H. eapply pwp_mono; [|exact H]. intros r m' [Hr Hl]. split; [done|]. intros l Hn. apply Hl. by intros ?%Ht. Qed.

(** A command that writes a point standing for [A] and changes no other object but its local. *)
Definition leaves (p3 : ploc) (c : pcmd unit) (m : mem) (A : apoint (K := K)) : Prop :=
  pwp c (fun _ m' => stands (m' p3) A /\ forall l, l <> p3 -> l <> PTmp -> m' l = m l) m.

Lemma leaves_sums p3 c (m : mem) A : sums c p3 m A -> leaves p3 c m A.
Proof. unfold sums, leaves. intros H. eapply pwp_mono; [|exact H]. intros _ m' (P & [<- Hm] & HP). by split; auto. Qed.

Lemma leaves_after_neg c p p3 (m : mem) B A : stands (m p) B ->
  (forall m', stands (m' PTmp) (aff_opp B) -> (forall l, l <> PTmp -> m' l = m l) -> sums c p3 m' A) -> leaves p3 (neg PTmp p ;;; c)%C m A.
Proof.
  intros HB H. eapply after_neg; [exact HB|]. intros m' H1 H2. pose proof (leaves_sums _ _ _ _ (H m' H1 H2)) as HL. unfold leaves in HL.
  eapply pwp_mono; [|exact HL]. intros _ m'' [Hs Hl]. split; [done|]. intros l H3 H4. by rewrite Hl, H2.
Qed.

(** C31: The other overloads of the class compute on affine points what the formulas do on
    their coordinates: additions, subtractions and doublings with an affine destination give
    the affine coordinates of the result, infinity as the origin, and change no object but
    their locals; the conversions give the coordinates of the point and of its opposite; the
    comparisons with affine points decide equality, and are symmetric; the text of a point
    is that of its affine coordinates. *)
Theorem curve_overloads_correct {FT : FieldText E} tmp p3 p1 p2 q1 q2 (m : mem) A B :
  tmp <> PTmp -> p1 <> PTmp -> stands (m p1) A -> stands (m p2) B -> stands_affine q1 A -> stands_affine q2 B ->
  on_curve a b A -> on_curve a b B ->
  Forall (fun c => gives [tmp; PTmp] c m (aff_add a A B))
    [add_to_affine fa tmp p1 p2; addMixed_to_affine fa tmp p1 q2; addAffine_to_affine fa tmp q1 q2; addSwapped_to_affine fa tmp q1 p2] /\
  Forall (fun c => gives [tmp; PTmp] c m (aff_add a A (aff_opp B)))
    [sub_to_affine fa tmp p1 p2; subMixed_to_affine fa tmp p1 q2; subAffine_to_affine fa tmp q1 q2; subSwapped_to_affine fa tmp q1 p2] /\
  Forall (fun c => leaves p3 c m (aff_add a A (aff_opp B)))
    [sub fa p3 p1 p2; subMixed fa p3 p1 q2; subAffine fa p3 q1 q2; subSwapped fa p3 q1 p2] /\
  leaves p3 (addSwapped fa p3 q1 p2) m (aff_add a A B) /\
  Forall (fun c => gives [tmp; PTmp] c m (aff_add a A A)) [dbl_to_affine fa tmp p1; dblAffine_to_affine fa tmp q1] /\
  gives [] (copyToAffine p1) m A /\ gives [] (negToAffine p1) m (aff_opp A) /\
  pwp (eqMixed p1 q2) (fun r m' => r = bool_decide (A = B) /\ m' = m) m /\
  pwp (eqSwapped q1 p2) (fun r m' => r = bool_decide (A = B) /\ m' = m) m /\
  eqAffine q1 q2 = bool_decide (A = B) /\
  pwp (curve_toString p1) (fun s _ => exists r, stands_affine r A /\ s = ("(" ++ f_toString (ax r) ++ "," ++ f_toString (ay r) ++ ")")%string) m.
Proof.
  intros Ht H1 HA HB HqA HqB HonA HonB. pose proof (stands_negAffine _ _ HqB) as HqB'. pose proof (on_curve_opp a b _ HonB) as HonB'.
  assert (Hs : forall c X, sums c tmp m X -> gives [tmp; PTmp] (c ;;; copyToAffine tmp)%C m X)
    by (intros c X; apply gives_sums; left).
  assert (Hn : forall c X, (forall m', stands (m' PTmp) (aff_opp B) -> (forall l, l <> PTmp -> m' l = m l) -> sums c tmp m' X) ->
    gives [tmp; PTmp] (neg PTmp p2 ;;; c ;;; copyToAffine tmp)%C m X).
  { intros c X Hc. eapply gives_after_neg; [exact HB|]. intros m' Hm1 Hm2. apply gives_sums; [left|]. by apply Hc. }
  split; [|split; [|split; [|split; [|split; [|split; [|split; [|split; [|split; [|split]]]]]]]]].
  - repeat apply Forall_cons_2; [..|apply Forall_nil_2]; apply Hs;
      [by eapply sums_add|by eapply sums_addMixed|by eapply sums_addAffine|].
    rewrite (add_comm a b) by done. by eapply sums_addMixed.
  - repeat apply Forall_cons_2; [..|apply Forall_nil_2]; [apply Hn|apply Hs; by eapply sums_addMixed|apply Hs; by eapply sums_addAffine|apply Hn].
    + intros m' Hm1 Hm2. eapply sums_add; try done. by rewrite Hm2.
    + intros m' Hm1 Hm2. rewrite (add_comm a b) by done. by eapply sums_addMixed.
  - repeat apply Forall_cons_2; [..|apply Forall_nil_2].
    + eapply leaves_after_neg; [exact HB|]. intros m' Hm1 Hm2. eapply sums_add; try done. by rewrite Hm2.
    + apply leaves_sums. by eapply sums_addMixed.
    + apply leaves_sums. by eapply sums_addAffine.
    + eapply leaves_after_neg; [exact HB|]. intros m' Hm1 Hm2. rewrite (add_comm a b) by done. by eapply sums_addMixed.
  - apply leaves_sums. rewrite (add_comm a b) by done. by eapply sums_addMixed.
  - repeat apply Forall_cons_2; [..|apply Forall_nil_2]; apply Hs; [by eapply sums_dbl|by eapply sums_dblAffine].
  - eapply pwp_mono; [|by apply to_affine_stands]. by intros r m' [? ->].
  - eapply pwp_mono; [|by apply to_affine_stands]. by intros r m' [? ->].
  - by apply eqMixed_stands.
  - unfold eqSwapped. eapply pwp_mono; [|by apply eqMixed_stands]. intros r m' [-> ->]. split; [|done]. by apply bool_decide_ext.
  - by apply eqAffine_coords.
  - unfold curve_toString. apply pwp_sbind. eapply pwp_mono; [|by apply to_affine_stands]. intros r m' [Hr ->]. apply pwp_sret. by exists r.
Qed.
End Spec.

(** ** Instance: the points of [CurveSpec] over the field of seven elements *)

Section Demo.
#[local] Existing Instance F7.
#[local] Existing Instance field_class_rep.
#[local] Instance F7_ops_overloads : FieldOps (Zmod 7) := field_class F7.
#[local] Instance F7_laws_overloads : FieldLaws (Zmod 7) (Zmod 7) := field_class_laws F7.
#[local] Instance F7_text_overloads : FieldText (Zmod 7) := {|
  f_fromString := fun s => match s with String c _ => seven (Z.of_nat (Ascii.nat_of_ascii c) - 48) | _ => seven 0 end;
  f_toString := fun x => String (Ascii.ascii_of_nat (48 + Z.to_nat (Zmod.to_Z x))) EmptyString |}.

Ltac in_F7 := apply Zmod.to_Z_inj; vm_compute; reflexivity.
Ltac not_in_F7 := intros Heq; apply (f_equal Zmod.to_Z) in Heq; vm_compute in Heq; discriminate Heq.

Lemma curve_overloads_correct_witness :
  let A := Some (seven 1, seven 2) in let B := Some (seven 2, seven 2) in
  gives [PArg 5; PTmp] (sub_to_affine (seven 0) (PArg 5) (PArg 0) (PArg 1)) demo_points (aff_add (seven 0) A (aff_opp B)) /\
  gives [] (negToAffine (PArg 0)) demo_points (aff_opp A).
Proof.
  destruct (curve_overloads_correct (seven 0) (seven 3) (seven 0) eq_refl demo_curve_ok (PArg 5) (PArg 0) (PArg 0) (PArg 1)
    (mkPointAffine (seven 1) (seven 2)) (mkPointAffine (seven 2) (seven 2)) demo_points (Some (seven 1, seven 2)) (Some (seven 2, seven 2)))
    as (_ & H & _ & _ & _ & _ & H' & _).
  - discriminate.
  - discriminate.
  - exists (seven 3). split; [not_in_F7|]. split; [in_F7|]. split; [in_F7|]. split; in_F7.
  - exists (seven 1). split; [not_in_F7|]. split; [in_F7|]. split; [in_F7|]. split; in_F7.
  - split; reflexivity.
  - split; reflexivity.
  - in_F7.
  - in_F7.
  - split; [|exact H']. by inversion H.
Defined.
End Demo.
