(* ===== verification/CurveClass.v ===== *)
(** The curve template as the class of points the scalar multiplications are written
    against: its operations on values, and the group of the points of its curve as
    what they compute in. *)

From Stdlib Require Import Field.
From S2P Require Import Prelude Group Field Curve CurveSpec GroupLaw.

(** ** The operations on values *)

Section Class.
Context {E : Type} {F : FieldOps E} (fa : E).
Notation point := (Point (E := E)).
Notation affine := (PointAffine (E := E)).

(** [r] and [s] are different objects. *)
Definition args (r s : point) : pmem (E := E) := fun l => match l with PArg 0 => r | _ => s end.

(** The calls [dbl(r, r)], [add(r, r, b)], [sub(r, r, b)] of [curve.cpp]. *)
Definition call1 (c : pcmd (E := E) unit) (r : point) : point := exec c (args r r) (PArg 0).
Definition call2 (c : pcmd (E := E) unit) (r s : point) : point := exec c (args r s) (PArg 0).

Definition template_mixed : PointOps affine point := {|
  pt_zero := curve_zero;
  pt_dbl := call1 (dbl fa (PArg 0) (PArg 0));
  pt_add r q := call1 (addMixed fa (PArg 0) (PArg 0) q) r;
  pt_sub r q := call1 (subMixed fa (PArg 0) (PArg 0) q) r
|}.

Definition template_full : PointOps point point := {|
  pt_zero := curve_zero;
  pt_dbl := call1 (dbl fa (PArg 0) (PArg 0));
  pt_add := call2 (add fa (PArg 0) (PArg 0) (PArg 1));
  pt_sub := call2 (sub fa (PArg 0) (PArg 0) (PArg 1))
|}.

Definition template_curve : CurveOps affine point := {|
  mixed_ops := template_mixed;
  pt_plus := call2 (add fa (PArg 0) (PArg 0) (PArg 1))
|}.
End Class.

(** ** Their meaning *)

(** The element an object stands for. *)
Class FieldVal (K E : Type) `{FieldRep K E} := {
  f_val : E -> K;
  f_val_rep e x : f_rep e x -> f_val e = x
}.

Section Sem.
Context {K E : Type} {KF : KField K} {F : FieldOps E} {FR : FieldRep K E} {FV : FieldVal K E} {FL : FieldLaws K E}.
Context (a b : K) (fa : E) (Hfa : f_rep fa a) (Hcurve : curve_ok a b).
Add Field K_field_cc : (k_theory (K := K)).
#[local] Open Scope field_scope.
Notation point := (Point (E := E)).
Notation affine := (PointAffine (E := E)).
Notation G := (curve_point a b).

Definition at_point (A : apoint) : G :=
  match decide (on_curve a b A) with left H => to_curve a b A H | right _ => gzero end.

Definition affine_val (p : affine) : G :=
  at_point (let x := f_val (ax p) in let y := f_val (ay p) in
            if decide (x = 0 /\ y = 0) then None else Some (x, y)).
Definition point_val (p : point) : G :=
  at_point (let z2 := f_val (pzz p) in
            if decide (z2 = 0) then None else Some (f_val (px p) / z2, f_val (py p) / f_val (pzzz p))).

Definition point_ok (p : point) : Prop := exists A, stands p A /\ on_curve a b A.
Definition affine_ok (p : affine) : Prop := exists A, stands_affine p A /\ on_curve a b A.

Lemma at_point_on A : on_curve a b A -> proj1_sig (at_point A) = A.
Proof. intros H. unfold at_point. by destruct (decide (on_curve a b A)). Qed.

Lemma point_val_stands p A : stands p A -> on_curve a b A -> proj1_sig (point_val p) = A.
Proof.
  intros Hs HA. unfold point_val. destruct A as [[x y]|]; cbn [stands] in Hs.
  - destruct Hs as (z & Hz & Hx & Hy & H2 & H3).
    rewrite (f_val_rep _ _ Hx), (f_val_rep _ _ Hy), (f_val_rep _ _ H2), (f_val_rep _ _ H3).
    rewrite decide_False by auto. rewrite at_point_on.
    + f_equal. f_equal; field; auto.
    + replace (x * (z * z) / (z * z)) with x by (field; auto).
      replace (y * (z * z * z) / (z * z * z)) with y by (field; auto). done.
  - destruct Hs as (x & y & _ & _ & _ & H2 & _). rewrite (f_val_rep _ _ H2), decide_True by done. by apply at_point_on.
Qed.

Lemma affine_val_stands p A : stands_affine p A -> on_curve a b A -> proj1_sig (affine_val p) = A.
Proof.
  intros Hs HA. unfold affine_val. destruct A as [[x y]|]; cbn [stands_affine] in Hs; destruct Hs as [Hx Hy];
    rewrite (f_val_rep _ _ Hx), (f_val_rep _ _ Hy).
  - rewrite decide_False; [by apply at_point_on|]. intros [-> Hy0]. by apply (off_origin a b Hcurve y).
  - rewrite decide_True by done. by apply at_point_on.
Qed.

Definition sem_mixed : @PointSem G affine point _ (template_mixed fa) :=
  @Build_PointSem G affine point _ (template_mixed fa) affine_ok point_ok affine_val point_val.
Definition sem_full : @PointSem G point point _ (template_full fa) :=
  @Build_PointSem G point point _ (template_full fa) point_ok point_ok point_val point_val.

(** A statement that sums, run on its own objects. *)
Lemma sums_call c (r s : point) A (X : G) : sums c (PArg 0) (args r s) A -> on_curve a b A ->
  A = proj1_sig X -> point_ok (call2 c r s) /\ point_val (call2 c r s) = X.
Proof.
  intros (P & [HP _] & Hs) Hon HA. unfold call2. rewrite HP. split; [by exists A|].
  apply curve_point_eq. rewrite <- HA. by apply point_val_stands.
Qed.

Lemma opp_sums c (r s : point) A (X : G) :
  pwp c (fun _ m' => exists P, m' (PArg 0) = P /\ stands P A /\
    forall l, l <> PArg 0 -> l <> PTmp -> m' l = args r s l) (args r s) ->
  on_curve a b A -> A = proj1_sig X -> point_ok (call2 c r s) /\ point_val (call2 c r s) = X.
Proof.
  intros (P & HP & Hs & _) Hon HA. unfold call2. rewrite HP. split; [by exists A|].
  apply curve_point_eq. rewrite <- HA. by apply point_val_stands.
Qed.

Lemma zero_stands : stands (curve_zero (E := E)) (None : apoint (K := K)).
Proof.
  exists 1, 1. split; [apply k_one_nonzero|].
  split; [exact f_one_rep|]. split; [exact f_one_rep|]. split; exact f_zero_rep.
Qed.

Lemma template_mixed_laws : @PointLaws G affine point _ _ sem_mixed.
Proof.
  split; cbn [pt_zero pt_dbl pt_add pt_sub in_ok out_ok in_val out_val sem_mixed template_mixed].
  - split; [exists None; split; [apply zero_stands|done]|].
    apply curve_point_eq. by rewrite (point_val_stands _ None zero_stands).
  - intros r (A & Hr & HA). eapply sums_call.
    + by eapply sums_dbl.
    + by apply aff_add_on_curve.
    + cbn. by rewrite !(point_val_stands r A).
  - intros r q (A & Hr & HA) (B & Hq & HB). eapply sums_call.
    + by eapply sums_addMixed.
    + by apply aff_add_on_curve.
    + cbn. by rewrite (point_val_stands r A), (affine_val_stands q B).
  - intros r q (A & Hr & HA) (B & Hq & HB). eapply sums_call.
    + eapply sums_addMixed; [done..|by apply stands_negAffine|done|by apply on_curve_opp].
    + by apply aff_add_on_curve, on_curve_opp.
    + cbn. by rewrite (point_val_stands r A), (affine_val_stands q B).
Qed.

Lemma add_law r s : point_ok r -> point_ok s ->
  let c := call2 (add fa (PArg 0) (PArg 0) (PArg 1)) r s in
  point_ok c /\ point_val c = gplus (point_val r) (point_val s).
Proof.
  intros (A & Hr & HA) (B & Hs & HB). eapply sums_call.
  - by eapply sums_add.
  - by apply aff_add_on_curve.
  - cbn. by rewrite (point_val_stands r A), (point_val_stands s B).
Qed.

Lemma template_full_laws : @PointLaws G point point _ _ sem_full.
Proof.
  split; cbn [pt_zero pt_dbl pt_add pt_sub in_ok out_ok in_val out_val sem_full template_full].
  - apply (pt_zero_law (PointLaws := template_mixed_laws)).
  - apply (pt_dbl_law (PointLaws := template_mixed_laws)).
  - apply add_law.
  - intros r s (A & Hr & HA) (B & Hs & HB). eapply opp_sums.
    + by eapply sums_sub.
    + by apply aff_add_on_curve, on_curve_opp.
    + cbn. by rewrite (point_val_stands r A), (point_val_stands s B).
Qed.

(** The template implements the interface the multi-scalar multiplication uses. *)
Lemma template_curve_laws : @CurveLaws G affine point _ (template_curve fa) sem_mixed.
Proof. split; [apply template_mixed_laws|]. cbn [pt_plus template_curve]. apply add_law. Qed.
End Sem.
