(* ===== verification/MultiExpSpec.v ===== *)
(** The multi-exponentiation computes the sum of the multiples, whatever the schedule of
    its OpenMP loops: each value of a chunk collects its points, packing and reducing
    weigh them, and the chunks add up. *)

From S2P Require Import Prelude Mpz Group Naf Loops Parallel Schedule Msm MsmDigits MsmSpec MultiExp.

(** ** [log2] *)

(** The [d] bits below and at [k] are set, and none above. *)
Definition smeared (k d x : Z) : Prop :=
  0 <= x /\ (forall i, 0 <= i -> k - d < i <= k -> Z.testbit x i = true) /\ (forall i, k < i -> Z.testbit x i = false).

Lemma smear_step k d x : 0 < d -> smeared k d x -> smeared k (2 * d) (smear x d).
Proof.
  intros Hd (Hx & H1 & H0). unfold smear. split; [|split].
  - apply Z.lor_nonneg. split; [done|by apply Z.shiftr_nonneg].
  - intros i Hi Hr. rewrite Z.lor_spec, Z.shiftr_spec by done. destruct (decide (k - d < i)).
    + by rewrite H1 by lia.
    + rewrite (H1 (i + d)) by lia. apply orb_true_r.
  - intros i Hi. rewrite Z.lor_spec, H0 by done. destruct (decide (0 <= i)).
    + rewrite Z.shiftr_spec by done. apply H0. lia.
    + by rewrite Z.testbit_neg_r by lia.
Qed.

Lemma smeared_full k x : 0 <= k < 32 -> smeared k 32 x -> x = Z.ones (k + 1).
Proof.
  intros Hk (Hx & H1 & H0). apply Z.bits_inj'. intros i Hi. destruct (decide (i <= k)).
  - rewrite Z.ones_spec_low by lia. apply H1; lia.
  - rewrite Z.ones_spec_high by lia. apply H0. lia.
Qed.

Lemma list_elem_forallb {A} (f : A -> bool) l : forallb f l = true -> forall x, x ∈ l -> f x = true.
Proof. intros H x Hx%list_elem_of_In. by eapply forallb_forall in H. Qed.

Lemma log2_correct v : 0 < v < 2 ^ 32 -> log2 v = Z.log2 v.
Proof.
  intros Hv. assert (Hk : 0 <= Z.log2 v < 32) by (split; [apply Z.log2_nonneg|apply Z.log2_lt_pow2; lia]).
  assert (H : smeared (Z.log2 v) 1 v).
  { split; [lia|]. split.
    - intros i _ Hi. replace i with (Z.log2 v) by lia. apply Z.bit_log2. lia.
    - intros i Hi. apply Z.bits_above_log2; lia. }
  apply (smear_step _ 1), (smear_step _ 2), (smear_step _ 4), (smear_step _ 8), (smear_step _ 16) in H; try lia.
  apply smeared_full in H; [|done].
  unfold log2. rewrite H. revert Hk. generalize (Z.log2 v). intros k Hk. clear -Hk.
  assert (Hin : k ∈ seqZ 0 32) by (apply elem_of_seqZ; lia). clear Hk.
  apply Z.eqb_eq. revert k Hin. refine (list_elem_forallb (fun k => _ =? k) _ _). vm_compute. reflexivity.
Qed.

Lemma me_bits_range n : 0 <= n < 2 ^ 32 -> 2 <= me_bitsPerChunk n <= 16.
Proof.
  intros Hn. unfold me_bitsPerChunk, PME2_PACK_FACTOR, PME2_MAX_CHUNK_SIZE_BITS, PME2_MIN_CHUNK_SIZE_BITS.
  set (x := log2 _). destruct (Z.gtb_spec x 16); [done|]. destruct (Z.ltb_spec x 2); lia.
Qed.

(** ** Chunks *)

Lemma getChunk_spec scalars scalarSize b m n i j :
  msm_sizes scalarSize b m -> Forall is_byte scalars -> Z.of_nat (length scalars) = n * scalarSize -> 0 <= n < 2 ^ 31 ->
  0 <= i < n -> 0 <= j < m ->
  getChunk scalars scalarSize b i j = Some (window b (le_value (row scalars scalarSize i)) j).
Proof.
  intros Hs Hb Hl Hn Hi Hj. rewrite <- (getBucketIndex_spec scalars scalarSize b m n Hs Hb Hl Hn i j Hi Hj).
  pose proof (chunk_count_bound _ _ _ Hs) as Hm. destruct Hs as [Hsz Hbits Hlo _].
  change (2 ^ 24) with 16777216 in Hsz. change (2 ^ 26) with 67108864 in Hm.
  unfold getChunk, getBucketIndex. set (e := if _ >? u64 (scalarSize * 8) then _ else b).
  assert (He : e < 31).
  { unfold e. rewrite (u64_id (j * b)), (u64_id (scalarSize * 8)), (u64_id (j * b + b)) by (unfold is_u64; fold_pows; nia).
    destruct (Z.gtb_spec (j * b + b) (scalarSize * 8)); [|lia]. rewrite u64_id by (unfold is_u64; fold_pows; nia). nia. }
  destruct (load_u64 _ _); cbn [mbind option_bind]; [|done].
  rewrite (Z.geb_leb e 31), (Z.geb_leb e 64), (proj2 (Z.leb_gt 31 e)), (proj2 (Z.leb_gt 64 e)) by lia. done.
Qed.

(** The windows stand for the scalar. *)
Fixpoint windows_value (b s : Z) (m : nat) : Z :=
  match m with O => 0 | S m => windows_value b s m + 2 ^ (b * Z.of_nat m) * window b s (Z.of_nat m) end.

Lemma windows_value_all b s m : 0 <= b -> 0 <= s < 2 ^ (b * Z.of_nat m) -> windows_value b s m = s.
Proof.
  intros Hb Hs. rewrite <- (Z.mod_small s (2 ^ (b * Z.of_nat m))) at 2 by done. clear Hs.
  induction m as [|m IH]; cbn [windows_value]; [by rewrite Z.mul_0_r, Z.mod_1_r|]. rewrite IH. unfold window.
  replace (b * Z.of_nat (S m)) with (b * Z.of_nat m + b) by lia. rewrite Z.pow_add_r by lia.
  rewrite Z.rem_mul_r by (apply Z.pow_nonzero || apply Z.pow_pos_nonneg; lia). ring.
Qed.

(** ** Sums *)

Section MoreSums.
Context {G : Type} `{GL : AbGroupLaws G}.

Lemma gsum_perm (l1 l2 : list G) : l1 ≡ₚ l2 -> gsum l1 = gsum l2.
Proof.
  induction 1 as [|x l1 l2 _ IH|x y l|l1 l2 l3 _ IH1 _ IH2]; cbn [gsum foldr]; [done| | |congruence].
  - by fold (gsum l1); fold (gsum l2); rewrite IH.
  - apply gplus_swap.
Qed.

Lemma gsum_filter {A} (f : A -> G) (keep : A -> bool) l :
  gsum (map (fun x => if keep x then f x else gzero) l) = gsum (map f (List.filter keep l)).
Proof.
  induction l as [|x l IH]; [done|]. cbn [map List.filter gsum foldr]. fold (gsum (map (fun x => if keep x then f x else gzero) l)).
  rewrite IH. destruct (keep x); [done|apply gplus_0_l].
Qed.

(** Of the cells only the one of the digit counts. *)
Lemma gsum_pick (x : G) d n : 0 <= d < n -> gsum (map (fun c => zmul c (if c =? d then x else gzero)) (seqZ 1 (n - 1))) = zmul d x.
Proof.
  intros Hd. transitivity (gsum (map (fun c => zmul c (if c =? d then x else gzero)) (seqZ 0 n))).
  { rewrite (seqZ_cons 0 n) by lia. cbn [map gsum foldr]. rewrite zmul_0, gplus_0_l. done. }
  replace n with (d + (1 + (n - d - 1))) by lia. rewrite !seqZ_app by lia. rewrite !map_app, !gsum_app.
  rewrite seqZ_1. cbn [map gsum foldr]. rewrite Z.add_0_l, Z.eqb_refl, gplus_0_r.
  rewrite (gsum_ext _ (fun _ => gzero)), gsum_zeros, gplus_0_l.
  2:{ intros c Hc%elem_of_seqZ. rewrite (proj2 (Z.eqb_neq c d)) by lia. apply zmul_zero. }
  rewrite (gsum_ext _ (fun _ => gzero)), gsum_zeros, gplus_0_r; [done|].
  intros c Hc%elem_of_seqZ. rewrite (proj2 (Z.eqb_neq c d)) by lia. apply zmul_zero.
Qed.

Lemma windows_zmul b s m (x : G) :
  gsum (map (fun j => zmul (2 ^ (b * j)) (zmul (window b s j) x)) (seqZ 0 (Z.of_nat m))) = zmul (windows_value b s m) x.
Proof. induction m as [|m IH]; [done|]. rewrite gsum_seqZ_snoc, IH. cbn [windows_value]. by rewrite <- zmul_mul, zmul_add. Qed.
End MoreSums.

(** ** The accumulators *)

Class ZeroLaws (G Affine Pt : Type) `{AbGroup G} {C : CurveOps Affine Pt} {S : PointSem G Affine Pt}
    {Z0 : ZeroOps Affine Pt} : Prop := {
  aff_isZero_law q : in_ok q -> aff_isZero q = true -> in_val q = gzero;
  pt_isZero_law p : out_ok p -> pt_isZero p = true -> out_val p = gzero;
  pt_bytes0_law : out_ok pt_bytes0 /\ out_val pt_bytes0 = gzero
}.

Section Accs.
Context {G Affine Pt : Type} `{CL : CurveLaws G Affine Pt} {GL : AbGroupLaws G} {Z0 : ZeroOps Affine Pt} {ZL : ZeroLaws G Affine Pt}.
Implicit Types accs : array Pt.

(** [len] valid points, the cell [c] standing for [f c]. *)
Definition holds_sums (accs : array Pt) (len : Z) (f : Z -> G) : Prop :=
  Z.of_nat (length accs) = len /\
  forall c, 0 <= c < len -> exists p, array_get accs c = Some p /\ out_ok p /\ out_val p = f c.

Definition upd (f : Z -> G) (k : Z) (x : G) : Z -> G := fun c => if c =? k then x else f c.

Lemma upd_eq f k x : upd f k x k = x.
Proof. unfold upd. by rewrite Z.eqb_refl. Qed.
Lemma upd_ne f k x c : c <> k -> upd f k x c = f c.
Proof. intros Hc. unfold upd. by rewrite (proj2 (Z.eqb_neq c k)). Qed.

Lemma holds_get accs len f k : holds_sums accs len f -> 0 <= k < len ->
  exists p, array_get accs k = Some p /\ out_ok p /\ out_val p = f k.
Proof. intros [_ Ha] Hk. by apply Ha. Qed.

Lemma holds_set accs len f k q x : holds_sums accs len f -> 0 <= k < len -> out_ok q -> out_val q = x ->
  exists accs', array_set accs k q = Some accs' /\ holds_sums accs' len (upd f k x).
Proof.
  intros [Hl Ha] Hk Hq Hx. destruct (array_set_ok accs k q) as (a' & E & Hl' & Hg & Ho); [lia|].
  exists a'. split; [done|]. split; [lia|]. intros c Hc. destruct (decide (c = k)) as [->|Hne].
  - exists q. by rewrite upd_eq.
  - rewrite Ho, upd_ne by done. by apply Ha.
Qed.

Lemma holds_ext accs len f g : holds_sums accs len f -> (forall c, 0 <= c < len -> f c = g c) -> holds_sums accs len g.
Proof. intros [Hl Ha] Hfg. split; [done|]. intros c Hc. destruct (Ha c Hc) as (p & Hg & Ho & Hv). exists p. by rewrite <- Hfg. Qed.

(** *** The start *)

Lemma initAccs_spec nThreads len log : 0 <= len -> omp_runs nThreads 0 len log ->
  exists accs, initAccs log (new_array len) = Some accs /\ holds_sums accs len (fun _ => gzero).
Proof.
  intros Hlen [Hp _]. assert (Hnd : NoDup (map fst log)) by (rewrite Hp; apply NoDup_seqZ).
  destruct (for_each_any (fun accs => Z.of_nat (length accs) = len)
      (fun (it : Z * Z) accs => array_get accs (fst it) = Some pt_zero) log
      (fun '(i, idThread) => (fun (_ i : Z) accs => array_set accs i pt_zero) idThread i) (new_array len)) as (accs & E & Hl & Hc).
  - by apply (NoDup_fmap_1 fst).
  - by apply new_array_length.
  - intros [i t] accs Hit Hl. assert (Hi : 0 <= i < len).
    { assert (Hin : i ∈ map fst log) by (by apply (list_elem_of_fmap_2 fst _ (i, t))). rewrite Hp in Hin. apply elem_of_seqZ in Hin. lia. }
    destruct (array_set_ok accs i pt_zero) as (a' & E & Hl' & Hg & Ho); [lia|]. exists a'. split; [done|]. split; [lia|].
    split; [done|]. intros [k u] Hk Hne Hget. cbn [fst] in *. destruct (decide (k = i)) as [->|]; [done|]. by rewrite Ho.
  - exists accs. split; [exact E|]. split; [done|]. intros c Hcr. exists pt_zero. destruct pt_zero_law as [Hok Hv].
    split; [|done]. assert (Hin : c ∈ map fst log) by (rewrite Hp; apply elem_of_seqZ; lia).
    apply list_elem_of_fmap in Hin as ([k u] & -> & Hk). by apply (Hc (k, u)).
Qed.

(** *** Adding the points of a chunk *)

Lemma add_to_acc_spec accs len f apc t v base : holds_sums accs len f -> is_u64 (t * apc) -> is_u64 (t * apc + v) ->
  0 <= t * apc + v < len -> in_ok base ->
  exists accs', add_to_acc base apc t v accs = Some accs' /\
    holds_sums accs' len (fun c => gplus (f c) (if (c =? t * apc + v) && negb (v =? 0) then in_val base else gzero)).
Proof.
  intros Ha Hu1 Hu2 Hr Hb. unfold add_to_acc. destruct (Z.eqb_spec v 0) as [->|Hv].
  - exists accs. split; [done|]. eapply holds_ext; [exact Ha|]. intros c _. cbn. by rewrite andb_false_r, gplus_0_r.
  - rewrite (u64_id (t * apc)), u64_id by done. destruct (holds_get accs len f _ Ha Hr) as (p & -> & Hp & Hpv).
    cbn [mbind option_bind]. destruct (pt_add_law p base Hp Hb) as [Hq Hqv].
    destruct (holds_set accs len f _ _ _ Ha Hr Hq Hqv) as (accs' & -> & Ha'). exists accs'. split; [done|].
    eapply holds_ext; [exact Ha'|]. intros c _. unfold upd. rewrite andb_true_r. destruct (Z.eqb_spec c (t * apc + v)) as [->|].
    + by rewrite Hpv.
    + by rewrite gplus_0_r.
Qed.

(** What the round [(i, t)] gives the cell [c]. *)
Definition share (apc : Z) (D : Z -> Z) (V : Z -> G) (c : Z) (it : Z * Z) : G :=
  if (c =? snd it * apc + D (fst it)) && negb (D (fst it) =? 0) then V (fst it) else gzero.

Lemma process_loop apc D V len body (log : omp_log) accs f :
  (forall i t accs f, (i, t) ∈ log -> holds_sums accs len f -> exists accs', body t i accs = Some accs' /\
    holds_sums accs' len (fun c => gplus (f c) (share apc D V c (i, t)))) ->
  holds_sums accs len f -> exists accs', omp_for log body accs = Some accs' /\
    holds_sums accs' len (fun c => gplus (f c) (gsum (map (share apc D V c) log))).
Proof.
  intros Hbody. revert accs f. unfold omp_for. induction log as [|[i t] log IH]; intros accs f Ha; cbn [for_each].
  - exists accs. split; [done|]. eapply holds_ext; [exact Ha|]. intros c _. cbn. by rewrite gplus_0_r.
  - destruct (Hbody i t accs f (list_elem_of_here _ _) Ha) as (a1 & -> & H1). cbn [mbind option_bind].
    destruct (IH (fun i t accs f Hin => Hbody i t accs f (list_elem_of_further _ _ _ Hin)) a1 _ H1) as (a2 & -> & H2).
    exists a2. split; [done|]. eapply holds_ext; [exact H2|]. intros c _. cbn [map gsum foldr].
    fold (gsum (map (share apc D V c) log)). by rewrite gplus_assoc.
Qed.

(** *** Packing *)

Lemma column_div apc i t : 0 <= i < apc -> (t * apc + i) mod apc = i /\ (t * apc + i) / apc = t.
Proof. intros Hi. rewrite Z.add_comm, Z.mod_add, Z.div_add, Z.mod_small, Z.div_small by lia. lia. Qed.

Lemma column_cell apc i t c : 0 <= i < apc -> c mod apc = i -> c / apc = t -> c = t * apc + i.
Proof. intros Hi <- <-. rewrite Z.mul_comm. apply Z.div_mod. lia. Qed.

(** The cells when the first [j] threads of the column [i] are packed. *)
Definition column_sums (apc i j : Z) (f : Z -> G) (c : Z) : G :=
  if c =? i then gsum (map (fun t => f (t * apc + i)) (seqZ 0 j))
  else if (c mod apc =? i) && (c / apc <? j) then gzero else f c.

Lemma pack_acc_spec nThreads apc i accs f : 1 <= nThreads -> 0 <= i < apc -> nThreads * apc < 2 ^ 64 ->
  holds_sums accs (nThreads * apc) f -> exists accs', pack_acc nThreads apc i accs = Some accs' /\
    holds_sums accs' (nThreads * apc) (column_sums apc i nThreads f).
Proof.
  intros Hn Hi Hlen Ha. unfold pack_acc.
  destruct (for_each_range (fun j accs => holds_sums accs (nThreads * apc) (column_sums apc i j f)) 1 (nThreads - 1)
    (fun j accs =>
      let k := u64 (u64 (j * apc) + i) in
      p ← array_get accs k;
      if pt_isZero p then Some accs
      else
        acc ← array_get accs i;
        accs ← array_set accs i (pt_plus acc p);
        array_set accs k pt_zero) accs) as (a' & E & Ha').
  - lia.
  - eapply holds_ext; [exact Ha|]. intros c Hc. unfold column_sums. destruct (Z.eqb_spec c i) as [->|Hne].
    + rewrite seqZ_1. cbn [map gsum foldr]. rewrite gplus_0_r. done.
    + destruct (Z.eqb_spec (c mod apc) i) as [Hm|]; [|done]. destruct (Z.ltb_spec (c / apc) 1) as [Hq|]; [|done].
      destruct Hne. assert (c / apc = 0) as E0 by (pose proof (Z.div_pos c apc); lia).
      rewrite (column_cell apc i 0 c Hi Hm E0). lia.
  - intros j a1 Hj H1. cbn zeta. assert (Hk : 0 <= j * apc + i < nThreads * apc) by nia.
    destruct (column_div apc i j Hi) as [Emod Ediv].
    rewrite (u64_id (j * apc)), (u64_id (j * apc + i)) by (unfold is_u64; fold_pows; nia).
    destruct (holds_get _ _ _ _ H1 Hk) as (p & -> & Hp & Hpv). cbn [mbind option_bind].
    assert (Hkf : column_sums apc i j f (j * apc + i) = f (j * apc + i)).
    { unfold column_sums. rewrite (proj2 (Z.eqb_neq _ i)) by nia. rewrite Emod, Ediv, Z.eqb_refl, Z.ltb_irrefl. done. }
    rewrite Hkf in Hpv.
    assert (Hnext : forall g, g i = gplus (column_sums apc i j f i) (f (j * apc + i)) ->
      g (j * apc + i) = gzero -> (forall c, c <> i -> c <> j * apc + i -> g c = column_sums apc i j f c) ->
      forall c, 0 <= c < nThreads * apc -> g c = column_sums apc i (j + 1) f c).
    { intros g Hgi Hgk Hgo c Hc. unfold column_sums at 1. destruct (Z.eqb_spec c i) as [->|Hne].
      - rewrite Hgi. unfold column_sums. rewrite Z.eqb_refl. replace (j + 1) with (Z.of_nat (S (Z.to_nat j))) by lia.
        rewrite gsum_seqZ_snoc, Z2Nat.id by lia. done.
      - destruct (decide (c = j * apc + i)) as [->|Hck].
        + rewrite Emod, Ediv, Z.eqb_refl, (proj2 (Z.ltb_lt j (j + 1))) by lia. exact Hgk.
        + rewrite Hgo by done. unfold column_sums. rewrite (proj2 (Z.eqb_neq c i)) by done.
          destruct (Z.eqb_spec (c mod apc) i) as [Hm|]; [|done]. cbn [andb].
          destruct (Z.ltb_spec (c / apc) j), (Z.ltb_spec (c / apc) (j + 1)); try lia; [done| |done].
          destruct Hck. apply column_cell; lia. }
    destruct (pt_isZero p) eqn:Ez.
    + exists a1. split; [done|]. eapply holds_ext; [exact H1|]. pose proof (pt_isZero_law p Hp Ez) as Hz. rewrite Hpv in Hz.
      apply Hnext; [by rewrite Hz, gplus_0_r|by rewrite Hkf|done].
    + destruct (holds_get _ _ _ i H1) as (q & -> & Hq & Hqv); [nia|]. cbn [mbind option_bind].
      destruct (pt_plus_law q p Hq Hp) as [Ho Hv].
      destruct (holds_set _ _ _ i _ _ H1 ltac:(nia) Ho Hv) as (a2 & -> & H2). cbn [mbind option_bind].
      destruct pt_zero_law as [Hzo Hzv].
      destruct (holds_set _ _ _ (j * apc + i) _ _ H2 Hk Hzo Hzv) as (a3 & -> & H3). exists a3. split; [done|].
      eapply holds_ext; [exact H3|]. apply Hnext.
      * rewrite upd_ne by nia. rewrite upd_eq. by rewrite Hqv, Hpv.
      * apply upd_eq.
      * intros c Hc1 Hc2. by rewrite !upd_ne.
  - exists a'. replace (1 + (nThreads - 1)) with nThreads in Ha' by lia. by split.
Qed.

Definition packed (nThreads apc : Z) (f : Z -> G) (c : Z) : G :=
  if c <? apc then gsum (map (fun t => f (t * apc + c)) (seqZ 0 nThreads)) else gzero.

Lemma packThreads_spec nThreads apc log accs f : 1 <= nThreads -> 0 < apc -> nThreads * apc < 2 ^ 64 ->
  omp_runs nThreads 0 apc log -> holds_sums accs (nThreads * apc) f ->
  exists accs', packThreads nThreads apc log accs = Some accs' /\ holds_sums accs' (nThreads * apc) (packed nThreads apc f).
Proof.
  intros Hn Hapc Hlen [Hp _] Ha. unfold packThreads, omp_for.
  assert (Hnd : NoDup (map fst log)) by (rewrite Hp; apply NoDup_seqZ).
  assert (Hin : forall i, i ∈ map fst log -> 0 <= i < apc) by (intros i Hi; rewrite Hp in Hi; apply elem_of_seqZ in Hi; lia).
  assert (Hall : forall i, 0 <= i < apc -> i ∈ map fst log) by (intros i Hi; rewrite Hp; apply elem_of_seqZ; lia).
  clear Hp. enough (Hloop : exists accs', for_each log (fun '(i, _) => pack_acc nThreads apc i) accs = Some accs' /\
    holds_sums accs' (nThreads * apc) (fun c => if decide (c mod apc ∈ map fst log) then packed nThreads apc f c else f c)).
  { destruct Hloop as (a' & E & H'). exists a'. split; [exact E|]. eapply holds_ext; [exact H'|]. intros c Hc. cbn beta.
    rewrite decide_True; [done|]. apply Hall, Z.mod_pos_bound. lia. }
  clear Hall. revert accs f Ha. induction log as [|[i t] log IH]; intros accs f Ha; cbn [for_each].
  - exists accs. split; [done|]. eapply holds_ext; [exact Ha|]. intros c _. cbn [map]. rewrite decide_False; [done|]. apply not_elem_of_nil.
  - cbn [map fst] in Hnd, Hin. apply list.NoDup_cons in Hnd as [Hi Hnd]. pose proof (Hin i (list_elem_of_here _ _)) as Hir.
    destruct (pack_acc_spec nThreads apc i accs f Hn Hir Hlen Ha) as (a1 & -> & H1). cbn [mbind option_bind].
    destruct (IH Hnd (fun k Hk => Hin k (list_elem_of_further _ _ _ Hk)) a1 _ H1) as (a2 & -> & H2). exists a2. split; [done|].
    eapply holds_ext; [exact H2|]. intros c Hc. cbn beta. cbn [map fst].
    assert (Hother : c mod apc <> i -> packed nThreads apc (column_sums apc i nThreads f) c = packed nThreads apc f c).
    { intros Hne. unfold packed. destruct (Z.ltb_spec c apc); [|done]. apply gsum_ext. intros u _. unfold column_sums.
      rewrite Z.mod_small in Hne by lia. destruct (column_div apc c u) as [-> _]; [lia|].
      rewrite (proj2 (Z.eqb_neq c i)) by done. rewrite (proj2 (Z.eqb_neq (u * apc + c) i)); [done|].
      intros E. destruct (column_div apc c u) as [Em _]; [lia|]. rewrite E, Z.mod_small in Em by lia. done. }
    destruct (decide (c mod apc ∈ map fst log)) as [Hm|Hm].
    + rewrite decide_True by (by apply list_elem_of_further). apply Hother. intros E. by rewrite E in Hm.
    + unfold column_sums. destruct (decide (c mod apc ∈ i :: map fst log)) as [Hm'|Hm'].
      * apply elem_of_cons in Hm' as [Hci|]; [|done]. unfold packed. destruct (Z.eqb_spec c i) as [->|Hne].
        { by rewrite (proj2 (Z.ltb_lt i apc)) by lia. }
        rewrite Hci, Z.eqb_refl, (proj2 (Z.ltb_lt (c / apc) nThreads)) by (apply Z.div_lt_upper_bound; lia). cbn [andb].
        destruct (Z.ltb_spec c apc); [|done]. destruct Hne. by rewrite Z.mod_small in Hci by lia.
      * rewrite (proj2 (Z.eqb_neq c i)), (proj2 (Z.eqb_neq (c mod apc) i)); [done| |].
        -- intros E. apply Hm'. rewrite E. apply list_elem_of_here.
        -- intros ->. apply Hm'. rewrite Z.mod_small by lia. apply list_elem_of_here.
Qed.

(** *** Reducing *)

(** The points of an array add up to [x]. *)
Definition adds_up (sall : array Pt) (len : Z) (x : G) : Prop :=
  exists f, holds_sums sall len f /\ gsum (map f (seqZ 0 len)) = x.

Lemma gsum_upd (f : Z -> G) len k x d : 0 <= k < len -> x = gplus (f k) d ->
  gsum (map (upd f k x) (seqZ 0 len)) = gplus (gsum (map f (seqZ 0 len))) d.
Proof.
  intros Hk ->. replace len with (k + (1 + (len - k - 1))) by lia. rewrite !seqZ_app by lia. rewrite !map_app, !gsum_app.
  rewrite seqZ_1. cbn [map gsum foldr]. rewrite Z.add_0_l, upd_eq, !gplus_0_r.
  assert (E : forall l, (forall c, c ∈ l -> c <> k) -> gsum (map (upd f k (gplus (f k) d)) l) = gsum (map f l)).
  { intros l Hl. apply gsum_ext. intros c Hc. by apply upd_ne, Hl. }
  rewrite !E by (intros c Hc%elem_of_seqZ; lia). rewrite <- !gplus_assoc. do 2 f_equal. apply gplus_comm.
Qed.

Lemma adds_up_add sall len x k p d : adds_up sall len x -> 0 <= k < len -> out_ok p -> out_val p = d ->
  exists t sall', array_get sall k = Some t /\ array_set sall k (pt_plus t p) = Some sall' /\ adds_up sall' len (gplus x d).
Proof.
  intros (f & Hf & Hx) Hk Hp Hd. destruct (holds_get _ _ _ _ Hf Hk) as (t & Et & Ht & Htv).
  destruct (pt_plus_law t p Ht Hp) as [Hq Hqv]. destruct (holds_set _ _ _ _ _ _ Hf Hk Hq Hqv) as (s' & Es & Hs).
  exists t, s'. split; [done|]. split; [done|]. eexists. split; [exact Hs|]. rewrite <- Hx. apply gsum_upd; [done|].
  by rewrite Htv, Hd.
Qed.

(** The cells when the pairs in [l] are done. *)
Definition halved (n : Z) (l : list Z) (f : Z -> G) (c : Z) : G :=
  if decide (c ∈ l) then gplus (f c) (f (n + c)) else if decide (c - n ∈ l) then gzero else f c.

Lemma halved_cons n i l f c : i ∉ l -> (forall k, k ∈ i :: l -> 1 <= k < n) ->
  halved n l (upd (upd f i (gplus (f i) (f (n + i)))) (n + i) gzero) c = halved n (i :: l) f c.
Proof.
  intros Hi Hl. pose proof (Hl i (list_elem_of_here _ _)).
  assert (Hl' : forall k, k ∈ l -> 1 <= k < n) by (intros k Hk; apply Hl; by apply list_elem_of_further).
  assert (Hout : forall k, ~ (1 <= k < n) -> k ∉ l) by (intros k Hk Hin; by apply Hk, Hl').
  unfold halved. destruct (decide (c ∈ l)) as [Hc|Hc].
  - rewrite (decide_True (P := c ∈ i :: l)) by (by apply list_elem_of_further). pose proof (Hl' c Hc).
    assert (c <> i) by (by intros ->). by rewrite !upd_ne by lia.
  - destruct (decide (c ∈ i :: l)) as [Hc'|Hc'].
    + apply elem_of_cons in Hc' as [->|]; [|done]. rewrite decide_False by (apply Hout; lia).
      rewrite upd_ne by lia. by rewrite upd_eq.
    + assert (c <> i) by (intros ->; apply Hc'; apply list_elem_of_here).
      destruct (decide (c - n ∈ l)) as [Hd|Hd].
      * by rewrite decide_True by (by apply list_elem_of_further).
      * destruct (decide (c - n ∈ i :: l)) as [Hd'|Hd'].
        -- apply elem_of_cons in Hd' as [Hd'|]; [|done]. replace c with (n + i) by lia. apply upd_eq.
        -- rewrite !upd_ne; [done|done|]. intros ->. apply Hd'. replace (n + i - n) with i by lia. apply list_elem_of_here.
Qed.

Lemma reduce_pair_loop nThreads n log len accs f sall x :
  NoDup (map fst log) -> Forall (fun r => 0 <= snd r < nThreads) log -> (forall i, i ∈ map fst log -> 1 <= i < n) ->
  2 * n <= len -> holds_sums accs len f -> adds_up sall nThreads x ->
  exists accs' sall', omp_for log (reduce_pair n) (accs, sall) = Some (accs', sall') /\
    holds_sums accs' len (halved n (map fst log) f) /\
    adds_up sall' nThreads (gplus x (gsum (map (fun i => f (n + i)) (map fst log)))).
Proof.
  unfold omp_for. revert accs f sall x. induction log as [|[i t] log IH]; intros accs f sall x Hnd Ht Hin Hlen Ha Hs; cbn [for_each].
  - exists accs, sall. split; [done|]. split; [|cbn; by rewrite gplus_0_r]. eapply holds_ext; [exact Ha|].
    intros c _. unfold halved. cbn [map]. by rewrite !decide_False by apply not_elem_of_nil.
  - cbn [map fst] in *. apply list.NoDup_cons in Hnd as [Hi Hnd]. apply list.Forall_cons in Ht as [Ht Hts]. cbn [snd] in Ht.
    pose proof (Hin i (list_elem_of_here _ _)) as Hir.
    assert (Hstep : exists a1 s1, reduce_pair n t i (accs, sall) = Some (a1, s1) /\
      holds_sums a1 len (upd (upd f i (gplus (f i) (f (n + i)))) (n + i) gzero) /\ adds_up s1 nThreads (gplus x (f (n + i)))).
    { unfold reduce_pair. destruct (holds_get _ _ _ (n + i) Ha) as (p & -> & Hp & Hpv); [lia|]. cbn [mbind option_bind].
      destruct (pt_isZero p) eqn:Ez.
      - pose proof (pt_isZero_law p Hp Ez) as Hz. rewrite Hpv in Hz. exists accs, sall. split; [done|].
        rewrite Hz, !gplus_0_r. split; [|done]. eapply holds_ext; [exact Ha|]. intros c _. unfold upd.
        destruct (Z.eqb_spec c (n + i)) as [->|]; [done|]. by destruct (Z.eqb_spec c i) as [->|].
      - destruct (holds_get _ _ _ i Ha) as (q & -> & Hq & Hqv); [lia|]. cbn [mbind option_bind].
        destruct (pt_plus_law q p Hq Hp) as [Ho Hv]. rewrite Hpv, Hqv in Hv.
        destruct (holds_set _ _ _ i _ _ Ha ltac:(lia) Ho Hv) as (a2 & -> & H2). cbn [mbind option_bind].
        destruct (adds_up_add sall nThreads x t p _ Hs Ht Hp Hpv) as (q2 & s1 & -> & E1 & H3). cbn [mbind option_bind].
        rewrite E1. cbn [mbind option_bind]. destruct pt_zero_law as [Hzo Hzv].
        destruct (holds_set _ _ _ (n + i) _ _ H2 ltac:(lia) Hzo Hzv) as (a3 & -> & H4). cbn [mbind option_bind].
        exists a3, s1. by split. }
    destruct Hstep as (a1 & s1 & -> & H1 & H2). cbn [mbind option_bind].
    destruct (IH a1 _ s1 _ Hnd Hts (fun k Hk => Hin k (list_elem_of_further _ _ _ Hk)) Hlen H1 H2) as (a2 & s2 & -> & H3 & H4).
    exists a2, s2. split; [done|]. split.
    + eapply holds_ext; [exact H3|]. intros c _. by apply halved_cons.
    + cbn [gsum foldr]. fold (gsum (map (fun i => f (n + i)) (map fst log))). rewrite gplus_assoc.
      erewrite gsum_ext; [exact H4|]. intros k Hk. cbn beta.
      assert (k <> i) by (by intros ->). pose proof (Hin k (list_elem_of_further _ _ _ Hk)). by rewrite !upd_ne by lia.
Qed.

Lemma dbl_acc_loop m accs len f k : holds_sums accs len f -> 0 <= k < len -> exists accs',
  for_each (seqZ 0 (Z.of_nat m)) (fun _ => dbl_acc k) accs = Some accs' /\ holds_sums accs' len (upd f k (zmul (2 ^ Z.of_nat m) (f k))).
Proof.
  intros Ha Hk. destruct (for_each_up (fun j accs => holds_sums accs len (upd f k (zmul (2 ^ j) (f k)))) (Z.of_nat m)
    (fun _ => dbl_acc k) accs) as (a' & E & H'); [lia| | |by exists a'].
  - eapply holds_ext; [exact Ha|]. intros c _. unfold upd. destruct (Z.eqb_spec c k) as [->|]; [|done].
    change (2 ^ 0) with 1. by rewrite zmul_1.
  - intros j a1 Hj H1. unfold dbl_acc. destruct (holds_get _ _ _ k H1 Hk) as (p & -> & Hp & Hv). cbn [mbind option_bind].
    destruct (pt_dbl_law p Hp) as [Hq Hqv]. destruct (holds_set _ _ _ k _ _ H1 Hk Hq Hqv) as (a2 & -> & H2).
    exists a2. split; [done|]. eapply holds_ext; [exact H2|]. intros c _. unfold upd. destruct (Z.eqb_spec c k) as [->|]; [|done].
    rewrite Hv, upd_eq, <- zmul_double. f_equal. rewrite Z.pow_add_r by lia. change (2 ^ 1) with 2. ring.
Qed.

Lemma plus_acc_loop sall nThreads x accs len f k : adds_up sall nThreads x -> 0 <= nThreads -> holds_sums accs len f -> 0 <= k < len ->
  exists accs', for_each (seqZ 0 nThreads) (fun i accs => q ← array_get sall i; plus_acc k q accs) accs = Some accs' /\
    holds_sums accs' len (upd f k (gplus (f k) x)).
Proof.
  intros (g & Hg & <-) Hn Ha Hk. destruct (for_each_up (fun j accs => holds_sums accs len (upd f k (gplus (f k) (gsum (map g (seqZ 0 j))))))
    nThreads (fun i accs => q ← array_get sall i; plus_acc k q accs) accs) as (a' & E & H'); [done| | |by exists a'].
  - eapply holds_ext; [exact Ha|]. intros c _. unfold upd. destruct (Z.eqb_spec c k) as [->|]; [|done]. symmetry. apply gplus_0_r.
  - intros j a1 Hj H1. destruct (holds_get _ _ _ j Hg Hj) as (q & -> & Hq & Hqv). cbn [mbind option_bind]. unfold plus_acc.
    destruct (holds_get _ _ _ k H1 Hk) as (p & -> & Hp & Hv). cbn [mbind option_bind].
    destruct (pt_plus_law p q Hp Hq) as [Ho Hov]. destruct (holds_set _ _ _ k _ _ H1 Hk Ho Hov) as (a2 & -> & H2).
    exists a2. split; [done|]. eapply holds_ext; [exact H2|]. intros c _. unfold upd. destruct (Z.eqb_spec c k) as [->|]; [|done].
    rewrite Hv, upd_eq, Hqv. replace (j + 1) with (Z.of_nat (S (Z.to_nat j))) by lia.
    by rewrite gsum_seqZ_snoc, Z2Nat.id, gplus_assoc by lia.
Qed.

(** The cells from 1 on, each as often as its index says. *)
Definition weighted (n : Z) (f : Z -> G) : G := gsum (map (fun c => zmul c (f c)) (seqZ 1 (n - 1))).

Lemma weighted_ext n f g : (forall c, 1 <= c < n -> f c = g c) -> weighted n f = weighted n g.
Proof. intros Hfg. apply gsum_ext. intros c Hc%elem_of_seqZ. by rewrite Hfg by lia. Qed.

Lemma weighted_double n f : 1 <= n ->
  weighted (2 * n) f = gplus (weighted n (fun c => gplus (f c) (f (n + c))))
    (zmul n (gplus (f n) (gsum (map (fun i => f (n + i)) (seqZ 1 (n - 1)))))).
Proof.
  intros Hn. unfold weighted. replace (2 * n - 1) with ((n - 1) + (1 + (n - 1))) by lia.
  rewrite !seqZ_app by lia. rewrite !map_app, !gsum_app. replace (1 + (n - 1)) with n by lia. rewrite seqZ_1.
  cbn [map gsum foldr]. rewrite gplus_0_r, zmul_plus.
  assert (E : gsum (map (fun c => zmul c (f c)) (seqZ (n + 1) (n - 1))) =
    gplus (gsum (map (fun c => zmul c (f (n + c))) (seqZ 1 (n - 1)))) (zmul n (gsum (map (fun i => f (n + i)) (seqZ 1 (n - 1)))))).
  { rewrite zmul_gsum, map_map, <- gsum_plus. replace (seqZ (n + 1) (n - 1)) with (map (Z.add n) (seqZ 1 (n - 1))).
    - rewrite map_map. apply gsum_ext. intros c _. by rewrite (Z.add_comm n c), zmul_add.
    - exact (fmap_add_seqZ n 1 (n - 1)). }
  rewrite E. transitivity (gplus (gplus (gsum (map (fun c => zmul c (f c)) (seqZ 1 (n - 1))))
    (gsum (map (fun c => zmul c (f (n + c))) (seqZ 1 (n - 1))))) (gplus (zmul n (f n)) (zmul n (gsum (map (fun i => f (n + i)) (seqZ 1 (n - 1))))))).
  - rewrite <- !gplus_assoc. f_equal. apply gplus_swap.
  - f_equal. rewrite <- gsum_plus. apply gsum_ext. intros c _. by rewrite zmul_plus.
Qed.

Lemma reduce_spec nThreads logs nBits len accs f : 1 <= nThreads -> (1 <= nBits)%nat -> 2 ^ Z.of_nat nBits <= len ->
  (forall k, (1 <= k)%nat -> omp_runs nThreads 1 (2 ^ (Z.of_nat k - 1) - 1) (logs k)) -> holds_sums accs len f ->
  exists res accs', reduce nThreads logs nBits accs = Some (res, accs') /\ out_ok res /\
    out_val res = weighted (2 ^ Z.of_nat nBits) f /\
    holds_sums accs' len (fun c => if (1 <=? c) && (c <? 2 ^ Z.of_nat nBits) then gzero else f c).
Proof.
  intros Hn Hk Hlen Hlogs. revert accs f Hlen. induction nBits as [|nBits IH]; [lia|]. intros accs f Hlen Ha.
  destruct pt_zero_law as [Hzo Hzv]. destruct nBits as [|m].
  { cbn [reduce]. change (2 ^ Z.of_nat 1) with 2 in *. destruct (holds_get _ _ _ 1 Ha) as (p & -> & Hp & Hv); [lia|]. cbn [mbind option_bind].
    destruct (holds_set _ _ _ 1 _ _ Ha ltac:(lia) Hzo Hzv) as (a1 & -> & H1). cbn [mbind option_bind]. exists p, a1.
    split; [done|]. split; [done|]. split.
    - rewrite Hv. unfold weighted. change (2 - 1) with 1. rewrite seqZ_1. cbn [map gsum foldr]. by rewrite gplus_0_r, zmul_1.
    - eapply holds_ext; [exact H1|]. intros c _. unfold upd.
      destruct (Z.eqb_spec c 1), (Z.leb_spec 1 c), (Z.ltb_spec c 2); done || lia. }
  assert (Hpow : 2 ^ Z.of_nat (S (S m)) = 2 * 2 ^ Z.of_nat (S m)) by (rewrite Nat2Z.inj_succ, Z.pow_succ_r by lia; done).
  specialize (IH ltac:(lia)). change (reduce nThreads logs (S (S m)) accs) with
    (let ndiv2 := Z.shiftl 1 (Z.of_nat (S m)) in
      s ← omp_for (logs (S (S m))) (reduce_pair ndiv2) (accs, replicate (Z.to_nat nThreads) (Some pt_bytes0));
      let '(accs, sall) := s in
      accs ← for_each (seqZ 0 nThreads) (fun i accs => q ← array_get sall i; plus_acc ndiv2 q accs) accs;
      r ← reduce nThreads logs (S m) accs;
      let '(p1, accs) := r in
      accs ← for_each (seqZ 0 (Z.of_nat (S m))) (fun _ => dbl_acc ndiv2) accs;
      a ← array_get accs ndiv2;
      accs ← array_set accs ndiv2 pt_zero;
      Some (pt_plus p1 a, accs)).
  cbn zeta. rewrite Z.shiftl_1_l. destruct (Hlogs (S (S m)) ltac:(lia)) as [Hp Ht].
  replace (Z.of_nat (S (S m)) - 1) with (Z.of_nat (S m)) in Hp by lia. rewrite Hpow in Hlen |- *.
  assert (H2 : 2 <= 2 ^ Z.of_nat (S m)) by (change 2 with (2 ^ 1) at 1; apply Z.pow_le_mono_r; lia).
  set (n := 2 ^ Z.of_nat (S m)) in *.
  assert (Hs0 : adds_up (replicate (Z.to_nat nThreads) (Some pt_bytes0)) nThreads gzero).
  { exists (fun _ => gzero). split; [|apply gsum_zeros]. split; [rewrite length_replicate; lia|]. intros c Hc. exists pt_bytes0.
    destruct (pt_bytes0_law (Affine := Affine)) as [Hb Hbv]. split; [|done]. unfold array_get. rewrite (proj2 (Z.leb_le 0 c)) by lia.
    by rewrite lookup_replicate_2 by lia. }
  destruct (reduce_pair_loop nThreads n (logs (S (S m))) len accs f (replicate (Z.to_nat nThreads) (Some pt_bytes0)) gzero)
    as (a1 & sall & E1 & H1 & Hs1); [| | |done|done|done|].
  { rewrite Hp. apply NoDup_seqZ. }
  { done. }
  { intros i Hi. rewrite Hp in Hi. apply elem_of_seqZ in Hi. lia. }
  rewrite E1. cbn [mbind option_bind]. rewrite gplus_0_l in Hs1.
  destruct (plus_acc_loop sall nThreads _ a1 len _ n Hs1 ltac:(lia) H1 ltac:(lia)) as (a2 & E2 & H3).
  rewrite E2. cbn [mbind option_bind]. destruct (IH a2 _ ltac:(lia) H3) as (p1 & a3 & E3 & Hp1 & Hv1 & H4).
  rewrite E3. cbn [mbind option_bind]. destruct (dbl_acc_loop (S m) a3 len _ n H4 ltac:(lia)) as (a4 & E4 & H5).
  rewrite E4. cbn [mbind option_bind]. destruct (holds_get _ _ _ n H5) as (q & -> & Hq & Hqv); [lia|]. cbn [mbind option_bind].
  destruct (holds_set _ _ _ n _ _ H5 ltac:(lia) Hzo Hzv) as (a5 & -> & H6). cbn [mbind option_bind].
  destruct (pt_plus_law p1 q Hp1 Hq) as [Hr Hrv]. exists (pt_plus p1 q), a5. split; [done|]. split; [done|].
  assert (Hlog : forall c, 1 <= c < n <-> c ∈ map fst (logs (S (S m)))) by (intros c; rewrite Hp, elem_of_seqZ; lia).
  assert (Hgn : (if (1 <=? n) && (n <? n) then gzero else upd (halved n (map fst (logs (S (S m)))) f) n
      (gplus (halved n (map fst (logs (S (S m)))) f n) (gsum (map (fun i => f (n + i)) (map fst (logs (S (S m))))))) n) =
      gplus (f n) (gsum (map (fun i => f (n + i)) (seqZ 1 (n - 1))))).
  { rewrite Z.ltb_irrefl, andb_false_r, upd_eq. f_equal.
    - unfold halved. rewrite !decide_False; [done|rewrite <- Hlog; lia..].
    - apply gsum_perm. change (map (fun i => f (n + i))) with (fmap (M := list) (fun i => f (n + i))). by rewrite Hp. }
  split.
  - rewrite Hrv, Hv1, Hqv, upd_eq, Hgn, weighted_double by lia. f_equal. apply weighted_ext. intros c Hc.
    rewrite upd_ne by lia. unfold halved. by rewrite decide_True by (by apply Hlog).
  - eapply holds_ext; [exact H6|]. intros c Hc. unfold upd. destruct (Z.eqb_spec c n) as [->|Hne].
    { by rewrite (proj2 (Z.leb_le 1 n)), (proj2 (Z.ltb_lt n (2 * n))) by lia. }
    unfold halved. destruct (decide (c ∈ map fst (logs (S (S m))))) as [Hin|Hin].
    { apply Hlog in Hin. by rewrite (proj2 (Z.leb_le 1 c)), (proj2 (Z.ltb_lt c n)), (proj2 (Z.ltb_lt c (2 * n))) by lia. }
    destruct (decide (c - n ∈ map fst (logs (S (S m))))) as [Hin'|Hin']; rewrite <- Hlog in Hin, Hin'.
    + rewrite (proj2 (Z.leb_le 1 c)), (proj2 (Z.ltb_lt c (2 * n))) by lia. cbn [andb]. by destruct (c <? n).
    + destruct (Z.leb_spec 1 c), (Z.ltb_spec c n), (Z.ltb_spec c (2 * n)); cbn [andb]; try reflexivity; exfalso; lia.
Qed.
End Accs.

(** ** The sum *)

Lemma singleton_lookup {A} (l : list A) x : length l = 1%nat -> l !! 0%nat = Some x -> l = [x].
Proof. destruct l as [|y [|]]; [done| |done]. by intros _ [= ->]. Qed.

Section Multiexp.
Context {G Affine Pt : Type} `{CL : CurveLaws G Affine Pt} {GL : AbGroupLaws G} {Z0 : ZeroOps Affine Pt} {ZL : ZeroLaws G Affine Pt}.

(** A scalar of [scalarSize] bytes and a valid point. *)
Definition scalar_ok (scalarSize : Z) (t : list Z * Affine) : Prop :=
  Z.of_nat (length (fst t)) = scalarSize /\ Forall is_byte (fst t) /\ in_ok (snd t).

Context (terms : list (list Z * Affine)) (scalarSize nThreads : Z) (keep : Z -> bool).
Context (Hsize : 8 <= scalarSize < 2 ^ 24) (Hterms : Forall (scalar_ok scalarSize) terms).
Context (Hlength : Z.of_nat (length terms) < 2 ^ 31) (Hthreads : 1 <= nThreads < 2 ^ 32).

Let n := Z.of_nat (length terms).
Let b := me_bitsPerChunk n.
Let m := me_nChunks scalarSize b.
Let apc := Z.shiftl 1 b.
Let scalars := concat (map fst terms).
Let bases := map snd terms.

(** The window [j] of the scalar [i], and the point, zero when it is left out. *)
Let D (j i : Z) : Z := window b (le_value (row scalars scalarSize i)) j.
Let V (i : Z) : G := if keep i then from_option (fun t => in_val (snd t)) gzero (terms !! Z.to_nat i) else gzero.

Lemma me_bits : 2 <= b <= 16.
Proof. apply me_bits_range. unfold n. fold_pows. lia. Qed.

Lemma me_sizes : msm_sizes scalarSize b m.
Proof. apply calcChunkCount_sizes; [done|apply me_bits]. Qed.

Lemma me_apc : apc = 2 ^ b /\ 4 <= apc <= 65536.
Proof.
  unfold apc. rewrite Z.shiftl_1_l. split; [done|]. pose proof me_bits.
  change 4 with (2 ^ 2). change 65536 with (2 ^ 16). split; apply Z.pow_le_mono_r; lia.
Qed.

Lemma me_bytes : Forall is_byte scalars.
Proof.
  unfold scalars. clear -Hterms. induction Hterms as [|t l Ht Hl IH]; cbn; [apply Forall_nil_2|].
  apply Forall_app. split; [apply Ht|by apply IH].
Qed.

Lemma me_length : Z.of_nat (length scalars) = n * scalarSize.
Proof.
  unfold scalars, n. clear -Hterms. induction Hterms as [|t l Ht Hl IH]; cbn; [lia|].
  rewrite length_app. destruct Ht as [Hl' _]. specialize (IH Hl). lia.
Qed.

Lemma me_row i t : terms !! i = Some t -> row scalars scalarSize (Z.of_nat i) = fst t.
Proof.
  intros Hi. unfold row, scalars.
  replace (Z.to_nat (Z.of_nat i * scalarSize)) with (i * Z.to_nat scalarSize)%nat by lia. apply concat_row.
  - apply Forall_map. eapply Forall_impl; [|exact Hterms]. intros t' (Hl & _). lia.
  - change (map fst terms) with (fst <$> terms). by rewrite list_lookup_fmap, Hi.
Qed.

Lemma me_lookup i : 0 <= i < n -> exists t, terms !! Z.to_nat i = Some t /\ scalar_ok scalarSize t.
Proof.
  intros Hi. destruct (lookup_lt_is_Some_2 terms (Z.to_nat i)) as [t Ht]; [unfold n in Hi; lia|].
  exists t. split; [done|]. by eapply Forall_lookup_1.
Qed.

(** *** One chunk *)

Lemma process_point_spec j i t accs f : 0 <= j < m -> 0 <= i < n -> 0 <= t < nThreads -> keep i = true ->
  holds_sums accs (nThreads * apc) f ->
  exists accs', process_point bases scalars scalarSize b apc j t i accs = Some accs' /\
    holds_sums accs' (nThreads * apc) (fun c => gplus (f c) (share apc (D j) V c (i, t))).
Proof.
  intros Hj Hi Ht Hk Ha. destruct (me_lookup i Hi) as (tm & Etm & _ & _ & Hok). destruct me_apc as [Eapc Hapc].
  assert (Hd : 0 <= D j i < apc) by (rewrite Eapc; apply window_range; pose proof me_bits; lia).
  unfold process_point. assert (Eb : bases !! Z.to_nat i = Some (snd tm)).
  { unfold bases. change (map snd terms) with (snd <$> terms). by rewrite list_lookup_fmap, Etm. }
  rewrite Eb. cbn [mbind option_bind]. unfold share. cbn [fst snd]. unfold V. rewrite Hk, Etm. cbn [from_option].
  destruct (aff_isZero (snd tm)) eqn:Ez.
  - exists accs. split; [done|]. eapply holds_ext; [exact Ha|]. intros c _. rewrite (aff_isZero_law _ Hok Ez).
    destruct (_ && _); by rewrite gplus_0_r.
  - rewrite (getChunk_spec scalars scalarSize b m n i j me_sizes me_bytes me_length) by (done || unfold n; lia).
    cbn [mbind option_bind]. fold (D j i).
    apply add_to_acc_spec; [done|unfold is_u64; fold_pows; nia|unfold is_u64; fold_pows; nia|nia|done].
Qed.

(** What is asked of the first step of a chunk: the points kept go to their cells. *)
Definition processes (process : omp_log -> Z -> array Pt -> option (array Pt)) : Prop :=
  forall log j accs f, 0 <= j < m -> omp_runs nThreads 0 n log -> holds_sums accs (nThreads * apc) f ->
  exists accs', process log j accs = Some accs' /\
    holds_sums accs' (nThreads * apc) (fun c => gplus (f c) (gsum (map (share apc (D j) V c) log))).

Lemma log_round (log : omp_log) i t : omp_runs nThreads 0 n log -> (i, t) ∈ log -> 0 <= i < n /\ 0 <= t < nThreads.
Proof.
  intros [Hp Ht] Hin. split; [|by eapply (proj1 (list.Forall_forall _ _) Ht (i, t))].
  assert (Hi : i ∈ map fst log) by (by apply (list_elem_of_fmap_2 fst _ (i, t))). rewrite Hp in Hi. apply elem_of_seqZ in Hi. lia.
Qed.

Lemma processChunk_spec : (forall i, 0 <= i < n -> keep i = true) -> processes (processChunk bases scalars scalarSize b apc).
Proof.
  intros Hk log j accs f Hj Hlog Ha. apply process_loop; [|done]. intros i t a g Hin Hg.
  destruct (log_round log i t Hlog Hin) as [Hi Ht]. by apply process_point_spec; auto.
Qed.

Lemma processChunk_sizes_spec nX size : (forall i, 0 <= i < n -> left_out nX size i = Some (negb (keep i))) ->
  processes (processChunk_sizes nX size bases scalars scalarSize b apc).
Proof.
  intros Hk log j accs f Hj Hlog Ha. apply process_loop; [|done]. intros i t a g Hin Hg.
  destruct (log_round log i t Hlog Hin) as [Hi Ht]. rewrite (Hk i Hi). cbn [mbind option_bind].
  destruct (keep i) eqn:Ek; cbn [negb]; [by apply process_point_spec|]. exists a. split; [done|].
  eapply holds_ext; [exact Hg|]. intros c _. unfold share, V. cbn [fst snd]. rewrite Ek.
  destruct (_ && _); by rewrite gplus_0_r.
Qed.

(** What the cells of a value have from all threads. *)
Lemma packed_shares j log c : 0 <= j < m -> omp_runs nThreads 0 n log -> 1 <= c < apc ->
  packed nThreads apc (fun c => gplus gzero (gsum (map (share apc (D j) V c) log))) c =
  gsum (map (fun i => if c =? D j i then V i else gzero) (seqZ 0 n)).
Proof.
  intros Hj Hlog Hc. unfold packed. rewrite (proj2 (Z.ltb_lt c apc)) by lia.
  rewrite (gsum_ext _ (fun t => gsum (map (fun it => share apc (D j) V (t * apc + c) it) log))) by (intros; apply gplus_0_l).
  rewrite gsum_swap. transitivity (gsum (map (fun it : Z * Z => if c =? D j (fst it) then V (fst it) else gzero) log)).
  - apply gsum_ext. intros [i t] Hin. destruct (log_round log i t Hlog Hin) as [Hi Ht]. cbn [fst].
    assert (Hd : 0 <= D j i < apc) by (rewrite (proj1 me_apc); apply window_range; pose proof me_bits; lia).
    assert (E : forall u, share apc (D j) V (u * apc + c) (i, t) = if u =? t then (if c =? D j i then V i else gzero) else gzero).
    { intros u. unfold share. cbn [fst snd]. destruct (Z.eqb_spec u t) as [->|Hne].
      - destruct (Z.eqb_spec c (D j i)) as [<-|Hne].
        + by rewrite Z.eqb_refl, (proj2 (Z.eqb_neq c 0)) by lia.
        + by rewrite (proj2 (Z.eqb_neq (t * apc + c) _)) by lia.
      - rewrite (proj2 (Z.eqb_neq (u * apc + c) _)); [done|]. nia. }
    rewrite (gsum_ext _ _ _ (fun u _ => E u)). set (x := if c =? D j i then _ else _).
    replace nThreads with (t + (1 + (nThreads - t - 1))) by lia. rewrite !seqZ_app, !map_app, !gsum_app, seqZ_1 by lia.
    cbn [map gsum foldr]. rewrite Z.add_0_l, Z.eqb_refl, gplus_0_r.
    rewrite (gsum_ext _ (fun _ => gzero)), gsum_zeros, gplus_0_l.
    2:{ intros u Hu%elem_of_seqZ. by rewrite (proj2 (Z.eqb_neq u t)) by lia. }
    rewrite (gsum_ext _ (fun _ => gzero)), gsum_zeros, gplus_0_r; [done|].
    intros u Hu%elem_of_seqZ. by rewrite (proj2 (Z.eqb_neq u t)) by lia.
  - destruct Hlog as [Hp _]. rewrite <- (map_map fst (fun i => if c =? D j i then V i else gzero)). apply gsum_perm.
    change (map (fun i => if c =? D j i then V i else gzero)) with (fmap (M := list) (fun i => if c =? D j i then V i else gzero)).
    by rewrite Hp.
Qed.

Lemma weighted_shares j log : 0 <= j < m -> omp_runs nThreads 0 n log ->
  weighted apc (packed nThreads apc (fun c => gplus gzero (gsum (map (share apc (D j) V c) log)))) =
  gsum (map (fun i => zmul (D j i) (V i)) (seqZ 0 n)).
Proof.
  intros Hj Hlog. rewrite (weighted_ext _ _ (fun c => gsum (map (fun i => if c =? D j i then V i else gzero) (seqZ 0 n))))
    by (intros c Hc; by apply packed_shares).
  unfold weighted. rewrite (gsum_ext _ (fun c => gsum (map (fun i => zmul c (if c =? D j i then V i else gzero)) (seqZ 0 n))))
    by (intros c _; rewrite zmul_gsum; f_equal; apply map_map).
  rewrite gsum_swap. apply gsum_ext. intros i _. apply gsum_pick. rewrite (proj1 me_apc). apply window_range. pose proof me_bits. lia.
Qed.

(** Nothing goes to the value 0. *)
Lemma packed_rest j log c : 0 <= j < m -> omp_runs nThreads 0 n log -> c = 0 \/ apc <= c ->
  packed nThreads apc (fun c => gplus gzero (gsum (map (share apc (D j) V c) log))) c = gzero.
Proof.
  intros Hj Hlog Hc. unfold packed. destruct (Z.ltb_spec c apc); [|done]. assert (c = 0) as -> by lia.
  rewrite (gsum_ext _ (fun _ => gzero)), gsum_zeros; [done|]. intros t _. rewrite gplus_0_l.
  rewrite (gsum_ext _ (fun _ => gzero)), gsum_zeros; [done|]. intros [i u] _. unfold share. cbn [fst snd].
  assert (Hd : 0 <= D j i < apc) by (rewrite (proj1 me_apc); apply window_range; pose proof me_bits; lia).
  destruct (Z.eqb_spec (D j i) 0); [by rewrite andb_false_r|]. rewrite (proj2 (Z.eqb_neq (t * apc + 0) (u * apc + D j i))); [done|].
  intros E. assert (E' : (t - u) * apc = D j i) by lia. assert (t - u < 1) by nia. assert (0 < t - u) by nia. lia.
Qed.

(** A chunk leaves its share, and zeros for the next one. *)
Lemma chunk_spec process L j accs : processes process -> omp_logs_ok nThreads n apc m L -> 0 <= j < m ->
  holds_sums accs (nThreads * apc) (fun _ => gzero) ->
  exists a1 a2 res a3, process (process_log L j) j accs = Some a1 /\ packThreads nThreads apc (pack_log L j) a1 = Some a2 /\
    reduce nThreads (reduce_log L j) (Z.to_nat b) a2 = Some (res, a3) /\ holds_sums a3 (nThreads * apc) (fun _ => gzero) /\
    out_ok res /\ out_val res = gsum (map (fun i => zmul (D j i) (V i)) (seqZ 0 n)).
Proof.
  intros Hprocess [_ Hl Hpk Hrd] Hj Ha. pose proof me_bits as Hb. destruct me_apc as [Eapc Hapc].
  destruct (Hprocess _ j accs _ Hj (Hl j Hj) Ha) as (a1 & E1 & H1).
  destruct (packThreads_spec nThreads apc (pack_log L j) a1 _ ltac:(lia) ltac:(lia) ltac:(fold_pows; nia) (Hpk j Hj) H1) as (a2 & E2 & H2).
  destruct (reduce_spec nThreads (reduce_log L j) (Z.to_nat b) (nThreads * apc) a2 _ ltac:(lia) ltac:(lia)
    ltac:(rewrite Z2Nat.id, <- Eapc by lia; nia) (fun k Hk => Hrd j k Hj Hk) H2) as (res & a3 & E3 & Hr & Hv & H3).
  rewrite Z2Nat.id, <- Eapc in Hv, H3 by lia. exists a1, a2, res, a3. split; [done|]. split; [done|]. split; [done|].
  split; [|split; [done|]]; [|by rewrite Hv, weighted_shares by (done || apply Hl, Hj)].
  eapply holds_ext; [exact H3|]. intros c Hc. cbn beta. destruct (Z.leb_spec 1 c), (Z.ltb_spec c apc); cbn [andb]; try done;
    apply packed_rest; done || (apply Hl, Hj) || lia.
Qed.

(** The shares of the chunks are the multiples of the points. *)
Lemma me_chunks_sum : gsum (map (fun j => zmul (2 ^ (b * j)) (gsum (map (fun i => zmul (D j i) (V i)) (seqZ 0 n)))) (seqZ 0 m)) =
  gsum (map (fun i => zmul (from_option (fun t => le_value (fst t)) 0 (terms !! Z.to_nat i)) (V i)) (seqZ 0 n)).
Proof.
  pose proof me_sizes as Hs. pose proof (chunk_count_bound _ _ _ Hs) as Hm. pose proof me_bits as Hb.
  rewrite (gsum_ext _ (fun j => gsum (map (fun i => zmul (2 ^ (b * j)) (zmul (D j i) (V i))) (seqZ 0 n))))
    by (intros j _; rewrite zmul_gsum; f_equal; apply map_map).
  rewrite gsum_swap. apply gsum_ext. intros i Hi%elem_of_seqZ. destruct (me_lookup i ltac:(lia)) as (t & Et & Hl & Hbt & _).
  replace m with (Z.of_nat (Z.to_nat m)) by lia. unfold D. rewrite windows_zmul, Et. cbn [from_option]. f_equal.
  pose proof (me_row (Z.to_nat i) t Et) as Er. rewrite Z2Nat.id in Er by lia. rewrite Er.
  apply windows_value_all; [lia|]. pose proof (le_value_range _ Hbt) as Hr. split; [lia|]. eapply Z.lt_le_trans; [apply Hr|].
  apply Z.pow_le_mono_r; [lia|]. rewrite Hl, Z2Nat.id by lia. apply (size_high _ _ _ Hs).
Qed.

(** The multiples of the points that are kept. *)
Definition kept_sum : G :=
  gsum (map (fun i => zmul (from_option (fun t => le_value (fst t)) 0 (terms !! Z.to_nat i)) (V i)) (seqZ 0 n)).

Lemma multiexp_with_spec (process : Z -> Z -> omp_log -> Z -> array Pt -> option (array Pt)) L : processes (process b apc) ->
  (n = 1 -> keep 0 = true) -> (2 <= n -> omp_logs_ok nThreads n apc m L) ->
  exists r, multiexp_with process nThreads L bases scalars scalarSize n = Some r /\ out_ok r /\ out_val r = kept_sum.
Proof.
  intros Hprocess H1k Hlogs. unfold multiexp_with. fold b. fold apc. fold m. unfold kept_sum.
  destruct (Z.eqb_spec n 0) as [H0|H0].
  { destruct pt_zero_law as [Hz Ez]. exists pt_zero. split; [done|]. split; [done|]. by rewrite H0. }
  destruct (Z.eqb_spec n 1) as [H1|H1].
  { destruct (me_lookup 0) as (t & Ht & Hl & Hb & Hok); [lia|]. change (Z.to_nat 0) with 0%nat in Ht.
    pose proof (singleton_lookup terms t ltac:(unfold n in H1; lia) Ht) as E.
    assert (Eb : bases = [snd t]) by (unfold bases; by rewrite E).
    assert (Es : scalars = fst t) by (unfold scalars; rewrite E; cbn; apply app_nil_r).
    rewrite Eb, Es, H1, seqZ_1. cbn [lookup list_lookup mbind option_bind]. rewrite take_ge by lia. rewrite <- Hl.
    destruct (nafMulByScalar_spec (snd t) (fst t) Hok Hb) as (r & Er & Hr & Hv);
      [lia|change (2 ^ 24) with 16777216 in Hsize; change (2 ^ 27) with 134217728; lia|].
    exists r. split; [exact Er|]. split; [done|]. cbn [map gsum foldr]. unfold V. rewrite H1k by done.
    change (Z.to_nat 0) with 0%nat. rewrite Ht. cbn [from_option]. by rewrite gplus_0_r. }
  assert (Hn2 : 2 <= n) by (unfold n in *; lia). specialize (Hlogs Hn2). pose proof me_sizes as Hs. pose proof me_bits as Hb.
  pose proof (chunk_count_bound _ _ _ Hs) as Hm. destruct me_apc as [Eapc Hapc]. rewrite u64_id by (unfold is_u64; fold_pows; nia).
  destruct (initAccs_spec nThreads (nThreads * apc) (init_accs_log L) ltac:(nia) (ol_init _ _ _ _ _ Hlogs)) as (a0 & -> & Ha0).
  cbn [mbind option_bind].
  set (P := fun j (s : array Pt * array Pt) => holds_sums (fst s) (nThreads * apc) (fun _ => gzero) /\
    Z.of_nat (length (snd s)) = m /\ forall k, 0 <= k < j -> exists p : Pt, array_get (snd s) k = Some p /\ out_ok p /\
      out_val p = gsum (map (fun i => zmul (D k i) (V i)) (seqZ 0 n))).
  match goal with |- context [for_each (seqZ 0 m) ?body _] => destruct (for_each_up P m body (a0, new_array m)) as (s & Es & Ps) end.
  - lia.
  - split; [done|]. split; [apply new_array_length; lia|]. intros k Hk. lia.
  - intros j [accs ch] Hj (Ha & Hl & Hc). cbn [fst snd] in *.
    destruct (chunk_spec (process b apc) L j accs Hprocess Hlogs Hj Ha) as (a1 & a2 & res & a3 & -> & E2 & E3 & H3 & Hr & Hv).
    cbn [mbind option_bind]. rewrite E2. cbn [mbind option_bind]. rewrite E3. cbn [mbind option_bind].
    destruct (array_set_ok ch j res) as (ch' & -> & Hl' & Hg & Ho); [lia|]. cbn [mbind option_bind]. eexists. split; [reflexivity|].
    split; [done|]. cbn [fst snd]. split; [lia|]. intros k Hk. destruct (decide (k = j)) as [->|]; [by exists res|].
    rewrite Ho by done. apply Hc. lia.
  - rewrite Es. cbn [mbind option_bind]. destruct Ps as (_ & _ & Hc).
    destruct (combine_chunks_spec b m (snd s) _ ltac:(lia) ltac:(lia) Hc) as (r & Er & Hr & Hv).
    exists r. split; [done|]. split; [done|]. by rewrite Hv, me_chunks_sum.
Qed.
End Multiexp.

(** ** Sizes *)

(** The point [i] is one of the first [size[i % nX]] of its column. *)
Definition in_column (nX : Z) (size : list Z) (i : Z) : bool := i / nX <? from_option id 0 (size !! Z.to_nat (i mod nX)).

Record sizes_ok (nX : Z) (size : list Z) : Prop := {
  sz_count : 1 <= nX < 2 ^ 32;
  sz_length : Z.of_nat (length size) = nX;
  sz_sizes : Forall (fun s => 1 <= s < 2 ^ 32) size
}.

Lemma left_out_spec nX size i : sizes_ok nX size -> 0 <= i < 2 ^ 31 -> left_out nX size i = Some (negb (in_column nX size i)).
Proof.
  intros [Hn Hl Hs] Hi. unfold left_out, in_column. change (2 ^ 31) with 2147483648 in Hi. change (2 ^ 32) with 4294967296 in *.
  rewrite (proj2 (Z.eqb_neq nX 0)) by lia. pose proof (Z.mod_pos_bound i nX ltac:(lia)) as Hm.
  rewrite (u32_id (i mod nX)) by word_lia.
  destruct (lookup_lt_is_Some_2 size (Z.to_nat (i mod nX))) as [s Es]; [lia|]. rewrite Es. cbn [mbind option_bind from_option id].
  pose proof (Forall_lookup_1 _ _ _ _ Hs Es) as Hsr. cbn beta in Hsr. rewrite (u32_id (s - 1)) by word_lia.
  rewrite (u64_id ((s - 1) * nX)), u64_id by (unfold is_u64; fold_pows; nia). f_equal.
  pose proof (Z.div_mod i nX ltac:(lia)) as E. destruct (Z.ltb_spec (i / nX) s) as [Hq|Hq]; cbn [negb].
  - rewrite Z.gtb_ltb. apply Z.ltb_ge. nia.
  - rewrite Z.gtb_ltb. apply Z.ltb_lt. nia.
Qed.

Section Functions.
Context {G Affine Pt : Type} `{CL : CurveLaws G Affine Pt} {GL : AbGroupLaws G} {Z0 : ZeroOps Affine Pt} {ZL : ZeroLaws G Affine Pt}.
Context (terms : list (list Z * Affine)) (scalarSize nThreads : Z) (L : MultiexpLogs).
Context (Hsize : 8 <= scalarSize < 2 ^ 24) (Hterms : Forall (scalar_ok scalarSize) terms).
Context (Hlen : Z.of_nat (length terms) < 2 ^ 31) (Ht : 1 <= nThreads < 2 ^ 32).
Let n := Z.of_nat (length terms).
Let bits := me_bitsPerChunk n.
Context (Hlogs : 2 <= n -> omp_logs_ok nThreads n (2 ^ bits) (me_nChunks scalarSize bits) L).

Definition multiple (t : list Z * Affine) : G := zmul (le_value (fst t)) (in_val (snd t)).

Lemma logs_shift : 2 <= n -> omp_logs_ok nThreads n (Z.shiftl 1 bits) (me_nChunks scalarSize bits) L.
Proof. rewrite Z.shiftl_1_l. exact Hlogs. Qed.

Lemma multiexp_spec : exists r, multiexp nThreads L (map snd terms) (concat (map fst terms)) scalarSize n = Some r /\
  out_ok r /\ out_val r = gsum (map multiple terms).
Proof.
  destruct (multiexp_with_spec terms scalarSize nThreads (fun _ => true) Hsize Hterms Hlen Ht
    (processChunk (map snd terms) (concat (map fst terms)) scalarSize) L) as (r & E & Hr & Hv);
    [by apply processChunk_spec|done|exact logs_shift|].
  exists r. split; [exact E|]. split; [done|]. rewrite Hv. unfold kept_sum. f_equal. apply map_seqZ_lookup.
  intros i t Hi. by rewrite Nat2Z.id, Hi.
Qed.

Lemma multiexp_sizes_spec nX size : sizes_ok nX size ->
  exists r, multiexp_sizes nThreads L (map snd terms) (concat (map fst terms)) scalarSize n nX size = Some r /\ out_ok r /\
    out_val r = gsum (map (fun i => if in_column nX size i then from_option multiple gzero (terms !! Z.to_nat i) else gzero) (seqZ 0 n)).
Proof.
  intros Hs. assert (Hk : forall i, 0 <= i < n -> left_out nX size i = Some (negb (in_column nX size i)))
    by (intros i Hi; apply left_out_spec; [done|unfold n in Hi; lia]).
  destruct (multiexp_with_spec terms scalarSize nThreads (in_column nX size) Hsize Hterms Hlen Ht
    (processChunk_sizes nX size (map snd terms) (concat (map fst terms)) scalarSize) L) as (r & E & Hr & Hv);
    [by apply processChunk_sizes_spec| |exact logs_shift|].
  - intros _. destruct Hs as [Hn Hl Hs]. unfold in_column. rewrite Zdiv_0_l, Zmod_0_l.
    destruct (lookup_lt_is_Some_2 size (Z.to_nat 0)) as [s Es]; [lia|]. rewrite Es. cbn [from_option id].
    pose proof (Forall_lookup_1 _ _ _ _ Hs Es) as Hsr. cbn beta in Hsr. apply Z.ltb_lt. lia.
  - exists r. split; [exact E|]. split; [done|]. rewrite Hv. unfold kept_sum. apply gsum_ext. intros i _.
    destruct (in_column nX size i); [|apply zmul_zero]. destruct (terms !! Z.to_nat i); [done|apply zmul_zero].
Qed.
End Functions.

(** C13: The multi-exponentiation with its accumulators per thread returns the sum of the
    multiples of the points, for scalars of at least eight bytes and any valid points,
    and with a size per column the sum over the points the sizes leave in; however the
    rounds of its OpenMP loops are spread over the threads, it reads no byte outside the
    scalars, no uninitialised accumulator and no index out of range.  Unlike the bucket
    method it needs no spare bits at the top of the scalars. *)
Theorem multiexp_correct {G Affine Pt : Type} `{CL : CurveLaws G Affine Pt} {GL : AbGroupLaws G} {Z0 : ZeroOps Affine Pt}
    {ZL : ZeroLaws G Affine Pt} (terms : list (list Z * Affine)) scalarSize nThreads L :
  8 <= scalarSize < 2 ^ 24 -> Forall (scalar_ok scalarSize) terms -> Z.of_nat (length terms) < 2 ^ 31 -> 1 <= nThreads < 2 ^ 32 ->
  let n := Z.of_nat (length terms) in
  let bits := me_bitsPerChunk n in
  (2 <= n -> omp_logs_ok nThreads n (2 ^ bits) (me_nChunks scalarSize bits) L) ->
  (exists r, multiexp nThreads L (map snd terms) (concat (map fst terms)) scalarSize n = Some r /\
    out_ok r /\ out_val r = gsum (map multiple terms)) /\
  forall nX size, sizes_ok nX size ->
    exists r, multiexp_sizes nThreads L (map snd terms) (concat (map fst terms)) scalarSize n nX size = Some r /\ out_ok r /\
      out_val r = gsum (map (fun i => if in_column nX size i then from_option multiple gzero (terms !! Z.to_nat i) else gzero) (seqZ 0 n)).
Proof.
  intros Hsize Hterms Hlen Ht n bits Hlogs. split; [by apply multiexp_spec|]. intros nX size Hs. by apply multiexp_sizes_spec.
Qed.

(** ** Instance: integers, two threads, the rounds from the last one on *)

Definition Z_zeros : ZeroOps Z Z := {| aff_isZero := Z.eqb 0; pt_isZero := Z.eqb 0; pt_bytes0 := 0 |}.
Lemma Z_zero_laws : @ZeroLaws Z Z Z _ Z_curve Z_sem Z_zeros.
Proof. split; cbn [aff_isZero pt_isZero pt_bytes0 Z_zeros]; [intros q _ Hq%Z.eqb_eq; by subst q|intros p _ Hp%Z.eqb_eq; by subst p|done]. Qed.

Definition backwards (b n : Z) : omp_log := map (fun i => (i, i mod 2)) (rev (seqZ b n)).
Definition backwards_logs (n accsPerChunk : Z) : MultiexpLogs :=
  mkMultiexpLogs (backwards 0 (2 * accsPerChunk)) (fun _ => backwards 0 n) (fun _ => backwards 0 accsPerChunk)
    (fun _ k => backwards 1 (2 ^ (Z.of_nat k - 1) - 1)).

Lemma backwards_runs b n : omp_runs 2 b n (backwards b n).
Proof.
  unfold backwards. split.
  - rewrite map_map. cbn. rewrite map_id. symmetry. apply Permutation_rev.
  - apply list.Forall_forall. intros r Hr. apply list_elem_of_fmap in Hr as (i & -> & _). cbn. pose proof (Z.mod_pos_bound i 2). lia.
Qed.

Definition demo_multiexp : list (list Z * Z) :=
  [([200; 1; 0; 0; 0; 0; 0; 255], 3); ([255; 255; 255; 255; 255; 255; 255; 255], -2); ([9; 0; 0; 0; 0; 0; 0; 0], 5)].

Lemma demo_multiexp_ok : Forall (@scalar_ok Z Z Z _ Z_curve Z_sem 8) demo_multiexp.
Proof.
  repeat (apply Forall_cons_2; [split; [reflexivity|]; split;
    [repeat (apply Forall_cons_2; [split; [discriminate|reflexivity]|]); apply Forall_nil_2|exact I]|]). apply Forall_nil_2.
Qed.

Lemma multiexp_correct_witness :
  (exists r, @multiexp Z Z Z_curve Z_zeros 2 (backwards_logs 3 4) (map snd demo_multiexp) (concat (map fst demo_multiexp)) 8 3 = Some r /\
    True /\ r = gsum (map (fun t => zmul (le_value (fst t)) (snd t)) demo_multiexp)) /\
  exists r, @multiexp_sizes Z Z Z_curve Z_zeros 2 (backwards_logs 3 4) (map snd demo_multiexp) (concat (map fst demo_multiexp)) 8 3 2 [1; 1] = Some r /\
    True /\ r = gsum (map (fun i => if in_column 2 [1; 1] i
      then from_option (fun t => zmul (le_value (fst t)) (snd t)) gzero (demo_multiexp !! Z.to_nat i) else gzero) (seqZ 0 3)).
Proof.
  destruct (@multiexp_correct Z Z Z _ Z_curve Z_sem Z_curve_laws Z_group_laws Z_zeros Z_zero_laws demo_multiexp 8 2 (backwards_logs 3 4)) as [H1 H2].
  - split; [discriminate|reflexivity].
  - apply demo_multiexp_ok.
  - reflexivity.
  - split; [discriminate|reflexivity].
  - intros _. split; intros; apply backwards_runs.
  - split; [exact H1|]. destruct (H2 2 [1; 1]) as (r & E & _ & Hr).
    + split; [split; [discriminate|reflexivity]|reflexivity|].
      repeat (apply Forall_cons_2; [split; [discriminate|reflexivity]|]). apply Forall_nil_2.
    + exists r. split; [exact E|]. split; [exact I|]. exact Hr.
Defined.

(** The third point is not among the first ones of the two columns. *)
Example multiexp_sizes_demo :
  @multiexp_sizes Z Z Z_curve Z_zeros 2 (backwards_logs 3 4) (map snd demo_multiexp) (concat (map fst demo_multiexp)) 8 3 2 [1; 1] =
  Some (le_value [200; 1; 0; 0; 0; 0; 0; 255] * 3 + le_value [255; 255; 255; 255; 255; 255; 255; 255] * -2).
Proof. vm_compute. reflexivity. Qed.
