(* ===== verification/Engine.v ===== *)
(** The engine of the program, [alt_bn128.hpp]: its two curves as their constructors
    build them from strings, and why the group law holds on them. *)

From Stdlib Require Import Field ArithRing Zmod String.
From S2P Require Import Prelude Limbs Gmp Mpz SplitParStr FrRaw FrElement FrElementWp FrMpz RawFr Primes Group Field Dft Powers ExtField Tower TowerSpec TowerBn FftFr TowerFq TowerText TowerDefault Curve CurveSpec GroupLaw CurveClass.

(** ** Curve objects *)

(** What a [Curve] stores; its kind of [a] and its zeros follow from it. *)
Record CurveData (E : Type) := mkCurve {
  cv_fa : E;
  cv_fb : E;
  cv_fone : Point (E := E);
  cv_foneAffine : PointAffine (E := E)
}.
#[global] Arguments mkCurve {E} _ _ _ _.
#[global] Arguments cv_fa {E} _. #[global] Arguments cv_fb {E} _.
#[global] Arguments cv_fone {E} _. #[global] Arguments cv_foneAffine {E} _.

Section Curves.
Context {E : Type} {FO : FieldOps E} {FT : FieldText E}.

Definition initCurve {T} {F : FieldOps T} (aa ab agx agy : T) : CurveData T :=
  mkCurve aa ab (mkPoint agx agy f_one f_one) (mkPointAffine agx agy).

(** The constructor from strings, over the field and over its quadratic extension. *)
Definition Curve_new (as_ bs gxs gys : string) : CurveData E :=
  initCurve (f_fromString as_) (f_fromString bs) (f_fromString gxs) (f_fromString gys).

Definition Curve_new2 (fuel : nat) (F2 : F2Field E) (as_ bs gxs gys : string) : parsed (CurveData (F2El E)) :=
  aa <~ F2_fromString fuel (text as_);
  ab <~ F2_fromString fuel (text bs);
  agx <~ F2_fromString fuel (text gxs);
  agy <~ F2_fromString fuel (text gys);
  Returns (initCurve (F := F2_ops F2) aa ab agx agy).

(** ** The engine *)

Record EngineData := mkEngine {
  en_f2 : F2Field E;
  en_f6 : F6Field E;
  en_f12 : F12Field E;
  en_g1 : CurveData E;
  en_g2 : CurveData (F2El E)
}.

Definition Engine_new (fuel : nat) : parsed EngineData :=
  let f2 := F2_new "-1" in
  f6 <~ F6_default fuel;
  f12 <~ F12_default fuel;
  let g1 := Curve_new "0" "3" "1" "2" in
  g2 <~ Curve_new2 fuel f2
    "0,0"
    "19485874751759354771024239261021720505790618469301721065564631296452457478373, 266929791119991161246907387137283842545076965332900288569378510910307636690"
    "10857046999023057135944570762232829481370756359578518086990519993285655852781, 11559732032986387107991004021392285783925812861821192530917403151452391805634"
    "8495653923123431417604973247489272438418190587263600148770280649306958101930, 4082367875863433681332203403145435568316851327593401208105741076214120093531";
  Returns (mkEngine f2 f6 f12 g1 g2).
End Curves.
#[global] Arguments EngineData E : clear implicits.

(** ** Curves with [a = 0] *)

Section ZeroA.
Context {K : Type} {KF : KField K}.
Add Field K_field_za : (k_theory (K := K)).
#[local] Open Scope field_scope.

Lemma curve_ok_zero b : 1 + 1 <> 0 -> 1 + 1 + 1 <> 0 -> b <> 0 -> curve_ok 0 b.
Proof.
  intros H2 H3 Hb. split; [done|done|]. intros x Hx E. apply Hb.
  assert (x = 0) as ->.
  { destruct (decide (x = 0)) as [|Hn]; [done|]. exfalso. apply (k_mul_nonzero _ _ H3 (k_mul_nonzero _ _ Hn Hn)).
    rewrite <- E. ring. }
  rewrite <- Hx. ring.
Qed.
End ZeroA.

Section Three.
Context {K : Type} {KF : KField K} {p m : nat} {B : BnBase K p m}.
Add Field K_field_th : (k_theory (K := K)).
#[local] Open Scope field_scope.

Lemma bn_three : (1 + 1 + 1 : K) <> 0.
Proof.
  intros E3. apply (k_one_nonzero (K := K)). pose proof (bn_char (K := K)) as Hc.
  rewrite bn_p, knat_add in Hc.
  assert (E6 : forall n, knat (6 * n) = 0 :> K).
  { induction n as [|n IH]; [done|]. replace (6 * S n)%nat with (6 + 6 * n)%nat by lia.
    rewrite knat_add, IH. unfold knat. cbn [ksum]. transitivity ((1 + 1 + 1) * (1 + 1) : K); [ring|]. rewrite E3. ring. }
  rewrite E6 in Hc. unfold knat in Hc. cbn [ksum] in Hc. rewrite <- Hc. ring.
Qed.
End Three.

(** ** The engine of the program *)

#[local] Existing Instances Fq_params Fq RawFr_rep bn2 bn6 bn12 F2_rep F6_rep F12_rep.

Definition twist_b : Z * Z :=
  (19485874751759354771024239261021720505790618469301721065564631296452457478373,
   266929791119991161246907387137283842545076965332900288569378510910307636690).
Definition g2_x : Z * Z :=
  (10857046999023057135944570762232829481370756359578518086990519993285655852781,
   11559732032986387107991004021392285783925812861821192530917403151452391805634).
Definition g2_y : Z * Z :=
  (8495653923123431417604973247489272438418190587263600148770280649306958101930,
   4082367875863433681332203403145435568316851327593401208105741076214120093531).

Notation three := (1 + 1 + 1 : Kq)%K.

Lemma kq_two : (1 + 1 : Kq)%K <> 0%K. Proof. exact bn_two. Qed.

(** The two curves: [y^2 = x^3 + 3], and its twist [y^2 = x^3 + 3 / xi]. *)
Lemma g1_curve_ok : curve_ok (0%K : Kq) three.
Proof. apply curve_ok_zero; [exact bn_two|exact bn_three|exact bn_three]. Qed.

Lemma twist_b_xi : pair_mul qF twist_b (9, 1) = (3, 0).
Proof. vm_compute. reflexivity. Qed.

Lemma three_pair : of_pair (3, 0) = (three, 0%K : Kq).
Proof. apply (f_equal2 pair); vm_compute; reflexivity. Qed.

Lemma twist_b_value : (of_pair twist_b * q_xi)%K = (three, 0%K) :> Kq2.
Proof. rewrite xi_pair, <- three_pair, <- twist_b_xi. symmetry. apply pair_mul_spec. Qed.

Add Field K_field_q2 : (k_theory (K := Kq2)).

Lemma g2_curve_ok : curve_ok (0%K : Kq2) (of_pair twist_b).
Proof.
  apply curve_ok_zero.
  - intros E. apply (f_equal fst) in E. exact (bn_two E).
  - intros E. apply (f_equal fst) in E. exact (bn_three E).
  - intros E. assert (H : (three, 0%K : Kq) = (0%K : Kq2)) by (rewrite <- twist_b_value, E; ring).
    apply (f_equal fst) in H. exact (bn_three H).
Qed.

(** The generators. *)
Lemma g1_on_curve : on_curve (0%K : Kq) three (Some (1%K, Zmod.of_Z qF 2)).
Proof. apply Zmod.to_Z_inj. vm_compute. reflexivity. Qed.

Lemma g2_equation : pair_square qF g2_y =
  ((fst (pair_mul qF (pair_square qF g2_x) g2_x) + fst twist_b) mod qF,
   (snd (pair_mul qF (pair_square qF g2_x) g2_x) + snd twist_b) mod qF).
Proof. vm_compute. reflexivity. Qed.

Lemma g2_on_curve : on_curve (0%K : Kq2) (of_pair twist_b) (Some (of_pair g2_x, of_pair g2_y)).
Proof.
  pose proof g2_equation as H. apply (f_equal of_pair) in H. rewrite pair_square_spec in H.
  cbn [on_curve]. etransitivity; [exact H|].
  transitivity (of_pair (pair_mul qF (pair_square qF g2_x) g2_x) + of_pair twist_b)%K.
  - unfold of_pair. cbn [fst snd]. rewrite !of_Z_mod, !Zmod.of_Z_add. done.
  - rewrite pair_mul_spec, pair_square_spec. change (q_mul (- (1))%K) with (kmul (K := Kq2)). ring.
Qed.

Section Default.
Context {G : Mpn} {GL : MpnLaws G} {MZ : Mpz} {ML : MpzLaws MZ}.

Lemma read_spaced fuel lit x :
  no_spaces (text lit) = text (decimal (fst x) ++ "," ++ decimal (snd x))%string -> 0 <= fst x < qF -> 0 <= snd x < qF ->
  exists e, F2_fromString (S fuel) (text lit) = Returns e /\ f_rep e (of_pair x).
Proof.
  intros Hl Ha Hb. destruct (read_pair fuel _ x eq_refl Ha Hb) as (e & He & Hr). exists e. split; [|done].
  rewrite <- He, <- Hl. unfold F2_fromString. by rewrite splitParStr_spaces.
Qed.

(** A curve of the engine: [a = 0], [b], and a generator on it. *)
Definition curve_data_ok {K E} {KF : KField K} {F : FieldOps E} {FR : FieldRep K E} (b : K) (C : CurveData E) : Prop :=
  f_rep (cv_fa C) (0%K : K) /\ f_rep (cv_fb C) b /\
  exists A, A <> None /\ on_curve 0%K b A /\ stands_affine (cv_foneAffine C) A /\ stands (cv_fone C) A.

Lemma initCurve_ok {K E} {KF : KField K} {F : FieldOps E} {FR : FieldRep K E} {FL : FieldLaws K E} (b x y : K) aa ab agx agy :
  f_rep aa (0%K : K) -> f_rep ab b -> f_rep agx x -> f_rep agy y -> on_curve 0%K b (Some (x, y)) ->
  curve_data_ok b (initCurve aa ab agx agy).
Proof.
  intros Ha Hb Hx Hy Hon. split; [done|]. split; [done|]. exists (Some (x, y)). split; [done|]. split; [done|].
  split; [done|]. exists 1%K. split; [apply k_one_nonzero|]. cbn [initCurve cv_fone px py pzz pzzz].
  pose proof (k_theory (K := K)) as T. pose proof (f_one_rep (K := K)) as H1.
  repeat split; (eapply f_rep_eq; [eassumption|]); rewrite !(F_R T).(Rmul_1_l); try done;
    rewrite (F_R T).(Rmul_comm); by rewrite (F_R T).(Rmul_1_l).
Qed.

Ltac read_s x c H :=
  match goal with |- context [F2_fromString (S ?fuel) (text ?l)] =>
    destruct (read_spaced fuel l x) as (c & -> & H);
      [vm_compute; reflexivity|split; [vm_compute; discriminate|vm_compute; reflexivity]..|]
  end; cbn [pbind].

Lemma engine_default fuel : exists EN : EngineData Element,
  Engine_new (S fuel) = Returns EN /\
  curve_data_ok (FR := RawFr_rep) three (en_g1 EN) /\
  curve_data_ok (FR := F2_rep) (F := F2_ops (en_f2 EN)) (of_pair twist_b : Kq2) (en_g2 EN) /\
  @FieldLaws Kq2 (F2El Element) _ (F2_ops (en_f2 EN)) _.
Proof.
  destruct (tower_default fuel) as (anr & c1 & c2 & c3 & c4 & c5 & c6 & E2 & E6 & E12 & Ha & H1 & H2 & H5 & H3 & H4 & H6).
  unfold Engine_new. rewrite E6, E12. cbn [pbind]. unfold Curve_new2.
  read_s (0, 0) d1 D1. read_s twist_b d2 D2. read_s g2_x d3 D3. read_s g2_y d4 D4.
  assert (L2 : @FieldLaws Kq2 (F2El Element) _ (F2_ops (F2_new "-1")) _).
  { rewrite E2. exact (xl_laws (XiLaws := be_xi (BnEngine :=
      bn_engine (K := Kq) anr c1 c2 c5 c3 c4 c6 Ha H1 H2 H5 H3 H4 H6))). }
  eexists. split; [reflexivity|]. cbn [en_g1 en_g2 en_f2]. split; [|split; [|exact L2]].
  - apply (initCurve_ok (K := Kq) three (Zmod.of_Z qF 1) (Zmod.of_Z qF 2)).
    + eapply f_rep_eq; [exact (read_number "0" 0 eq_refl)|]. apply Zmod.to_Z_inj. vm_compute. reflexivity.
    + eapply f_rep_eq; [exact (read_number "3" 3 eq_refl)|]. apply Zmod.to_Z_inj. vm_compute. reflexivity.
    + eapply f_rep_eq; [exact (read_number "1" 1 eq_refl)|]. apply Zmod.to_Z_inj. vm_compute. reflexivity.
    + exact (read_number "2" 2 eq_refl).
    + apply g1_on_curve.
  - apply (initCurve_ok (K := Kq2) (F := F2_ops (F2_new "-1")) (FL := L2) (of_pair twist_b) (of_pair g2_x) (of_pair g2_y)).
    + eapply f_rep_eq; [exact D1|]. apply (f_equal2 pair); apply Zmod.to_Z_inj; vm_compute; reflexivity.
    + exact D2.
    + exact D3.
    + exact D4.
    + apply g2_on_curve.
Qed.

(** *** The group each curve object computes in *)

Lemma residue_val (e : Element) (x : Kq) : f_rep e x -> Zmod.of_Z qF (eval (RawFr_fromMontgomery e)) = x.
Proof.
  intros [Hx He]. pose proof (from_mont _ _ He Hx) as (_ & Hv & _).
  unfold RawFr_fromMontgomery. rewrite Hv. apply Zmod.of_Z_to_Z.
Qed.

#[export] Instance Fq_val : FieldVal Kq Element := {|
  f_val e := Zmod.of_Z qF (eval (RawFr_fromMontgomery e)); f_val_rep := residue_val
|}.

#[export] Instance F2_val : FieldVal Kq2 (F2El Element).
Proof.
  refine {| f_val e := (f_val (f2a e), f_val (f2b e)) |}.
  intros [e1 e2] [x1 x2] [H1 H2]. cbn [f2a f2b]. by rewrite (f_val_rep _ _ H1), (f_val_rep _ _ H2).
Defined.

(** C18: The constructor of the engine returns, and each of its two curve objects is well
    formed: its equation is non-singular, its generator is on the curve, and the
    operations of the template with its constants implement the group of the points of
    that curve, so that sums may be computed in any order. *)
Theorem engine_correct fuel : exists EN : EngineData Element,
  Engine_new (S fuel) = Returns EN /\
  curve_data_ok (FR := RawFr_rep) three (en_g1 EN) /\
  curve_data_ok (FR := F2_rep) (F := F2_ops (en_f2 EN)) (of_pair twist_b : Kq2) (en_g2 EN) /\
  AbGroupLaws (curve_point (0%K : Kq) three) /\
  AbGroupLaws (curve_point (0%K : Kq2) (of_pair twist_b)) /\
  CurveLaws (curve_point (0%K : Kq) three) PointAffine Point
    (C := template_curve (cv_fa (en_g1 EN))) (S := sem_mixed _ _ (cv_fa (en_g1 EN))) /\
  CurveLaws (curve_point (0%K : Kq2) (of_pair twist_b)) PointAffine Point
    (C := template_curve (F := F2_ops (en_f2 EN)) (cv_fa (en_g2 EN)))
    (S := sem_mixed (F := F2_ops (en_f2 EN)) _ _ (cv_fa (en_g2 EN))).
Proof.
  destruct (engine_default fuel) as (EN & E & H1 & H2 & L2). exists EN. split; [exact E|].
  split; [exact H1|]. split; [exact H2|].
  split; [exact (curve_group_laws _ _ g1_curve_ok)|]. split; [exact (curve_group_laws _ _ g2_curve_ok)|].
  split.
  - exact (template_curve_laws _ _ _ (proj1 H1) g1_curve_ok).
  - exact (template_curve_laws (F := F2_ops (en_f2 EN)) (FL := L2) _ _ _ (proj1 H2) g2_curve_ok).
Qed.
End Default.

Lemma engine_correct_witness : exists EN : EngineData Element,
  Engine_new 1 = Returns EN /\ curve_data_ok (FR := RawFr_rep) three (en_g1 EN).
Proof. destruct (engine_correct 0) as (EN & E & H & _). exists EN. split; [exact E|exact H]. Defined.
