(* ===== verification/Pairing.v ===== *)
(** The verifier of [src/groth16.cpp] and [groth16.hpp]: the lines and the loop of the
    pairing, its final exponentiation, the product of pairings, and the verification
    of a proof.  The objects a routine writes are its results; the operations of the
    tower may write an operand (see [Tower.v]), and [newR] is never the point it is
    computed from. *)

From Stdlib Require Import String.
From S2P Require Import Prelude Mpz SplitParStr Group Naf Field Tower Curve.

(** ** The engine of a verifier, [Verifier<Engine>] *)

Record Verifier (E : Type) := mkVerifier {
  v_f2 : F2Field E;
  v_f6 : F6Field E;
  v_f12 : F12Field E;
  v_xiToPMinus1Over3 : F2El E;
  v_xiToPMinus1Over2 : F2El E;
  v_xiToPSquaredMinus1Over3 : E
}.
#[global] Arguments mkVerifier {E} _ _ _ _ _ _.
#[global] Arguments v_f2 {E} _. #[global] Arguments v_f6 {E} _. #[global] Arguments v_f12 {E} _.
#[global] Arguments v_xiToPMinus1Over3 {E} _. #[global] Arguments v_xiToPMinus1Over2 {E} _.
#[global] Arguments v_xiToPSquaredMinus1Over3 {E} _.

Section Pairing.
Context {E : Type} {FO : FieldOps E}.

(** The constructor; [Engine::engine] holds the fields. *)
Definition Verifier_new {FT : FieldText E} (fuel : nat) : parsed (Verifier E) :=
  f6 <~ F6_default fuel;
  f12 <~ F12_default fuel;
  c1 <~ F2_fromString fuel (text
    ("21575463638280843010398324269430826099269044274347216827212613867836435027261," ++
     "10307601595873709700152284273816112264069230130616436755625194854815875713954"));
  c2 <~ F2_fromString fuel (text
    ("2821565182194536844548159561693502659359617185244120367078079554186484126554," ++
     "3505843767911556378687030309984248845540243509899259641013678093033130930403"));
  Returns (mkVerifier (F2_new "-1") f6 f12 c1 c2
    (f_fromString "21888242871839275220042445260109153167277707414472061641714758635765020556616")).

Context (V : Verifier E).
Let F2 := v_f2 V.
Let F6 := v_f6 V.
Let F12 := v_f12 V.
Notation G1Point := (Point (E := E)).
Notation G1PointAffine := (PointAffine (E := E)).
Notation G2Point := (Point (E := F2El E)).
Notation G2PointAffine := (PointAffine (E := F2El E)).

(** Copies between the kinds of points, of either group. *)
Definition fresh {T} (p : Point (E := T)) : pmem (E := T) := fun _ => p.
Definition toAffine {T} {F : FieldOps T} (p : Point (E := T)) : PointAffine := result (copyToAffine (PArg 0)) (fresh p).
Definition fromAffine {T} {F : FieldOps T} (a : PointAffine (E := T)) : Point :=
  exec (copyFromAffine (PArg 0) a) (fresh (curve_zero (E := T))) (PArg 0).

(** [lineFunctionAdd]: [a], [b], [c] and [rOut]. *)
Definition lineFunctionAdd (r : G2Point) (p : G2PointAffine) (q : G1PointAffine) (r2 : F2El E) :
    F2El E * F2El E * F2El E * G2Point :=
  let B := F2_mul F2 (ax p) (pzzz r) in
  let D := F2_add (ay p) (pzz r) in
  let D := F2_square F2 D in
  let D := F2_sub D r2 in
  let D := F2_sub D (pzzz r) in
  let D := F2_mul F2 D (pzzz r) in
  let H := F2_sub B (px r) in
  let I := F2_square F2 H in
  let E1 := F2_add I I in
  let E1 := F2_add E1 E1 in
  let J := F2_mul F2 H E1 in
  let L1 := F2_sub D (py r) in
  let L1 := F2_sub L1 (py r) in
  let V := F2_mul F2 (px r) E1 in
  let ox := F2_square F2 L1 in
  let ox := F2_sub ox J in
  let ox := F2_sub ox V in
  let ox := F2_sub ox V in
  let ozz := F2_add (pzz r) H in
  let ozz := F2_square F2 ozz in
  let ozz := F2_sub ozz (pzzz r) in
  let ozz := F2_sub ozz I in
  let t := F2_sub V ox in
  let t := F2_mul F2 t L1 in
  let t2 := F2_mul F2 (py r) J in
  let t2 := F2_add t2 t2 in
  let oy := F2_sub t t2 in
  let ozzz := F2_square F2 ozz in
  let t := F2_add (ay p) ozz in
  let t := F2_square F2 t in
  let t := F2_sub t r2 in
  let t := F2_sub t ozzz in
  let t2 := F2_mul F2 L1 (ax p) in
  let t2 := F2_add t2 t2 in
  let a := F2_sub t2 t in
  let c := F2_mulScalar ozz (ay q) in
  let c := F2_add c c in
  let b := F2_copy (f2_fZero F2) in
  let b := F2_sub b L1 in
  let b := F2_mulScalar b (ax q) in
  let b := F2_add b b in
  (a, b, c, mkPoint ox oy ozz ozzz).

Definition lineFunctionDouble (r : G2Point) (q : G1PointAffine) :
    F2El E * F2El E * F2El E * G2Point :=
  let A := F2_square F2 (px r) in
  let B := F2_square F2 (py r) in
  let C_ := F2_square F2 B in
  let D := F2_add (px r) B in
  let D := F2_square F2 D in
  let D := F2_sub D A in
  let D := F2_sub D C_ in
  let D := F2_add D D in
  let E1 := F2_add A A in
  let E1 := F2_add E1 A in
  let G := F2_square F2 E1 in
  let ox := F2_sub G D in
  let ox := F2_sub ox D in
  let ozz := F2_add (py r) (pzz r) in
  let ozz := F2_square F2 ozz in
  let ozz := F2_sub ozz B in
  let ozz := F2_sub ozz (pzzz r) in
  let oy := F2_sub D ox in
  let oy := F2_mul F2 oy E1 in
  let t := F2_add C_ C_ in
  let t := F2_add t t in
  let t := F2_add t t in
  let oy := F2_sub oy t in
  let ozzz := F2_square F2 ozz in
  let t := F2_mul F2 E1 (pzzz r) in
  let t := F2_add t t in
  let b := F2_copy (f2_fZero F2) in
  let b := F2_sub b t in
  let b := F2_mulScalar b (ax q) in
  let a := F2_add (px r) E1 in
  let a := F2_square F2 a in
  let a := F2_sub a A in
  let a := F2_sub a G in
  let t := F2_add B B in
  let t := F2_add t t in
  let a := F2_sub a t in
  let c := F2_mul F2 ozz (pzzz r) in
  let c := F2_add c c in
  let c := F2_mulScalar c (ay q) in
  (a, b, c, mkPoint ox oy ozz ozzz).

(** [mulLine]: the value of [ret] afterwards. *)
Definition mulLine (ret : F12El E) (a b c : F2El E) : F12El E :=
  let a2 := mkF6 (F2_copy (f2_fZero F2)) (F2_copy a) (F2_copy b) in
  let a2 := F6_mul F6 a2 (f12x ret) in
  let t3 := F6_mulScalar F6 (f12y ret) c in
  let t := F2_add b c in
  let t2 := mkF6 (F2_copy (f2_fZero F2)) (F2_copy a) (F2_copy t) in
  let retx := F6_add (f12x ret) (f12y ret) in
  let rety := F6_copy t3 in
  let retx := F6_mul F6 retx t2 in
  let retx := F6_sub retx a2 in
  let retx := F6_sub retx rety in
  let a2 := F6_mulTau a2 in
  let rety := F6_add rety a2 in
  mkF12 retx rety.

(** ** The loop *)

Definition sixuPlus2NAF : list Z :=
  [0; 0; 0; 1; 0; 1; 0; -1; 0; 0; 1; -1; 0; 0; 1; 0;
   0; 1; 1; 0; -1; 0; 0; 1; 0; -1; 0; 0; 0; 0; 1; 1;
   1; 0; 0; -1; 0; 0; 1; 0; 0; 0; 0; 0; -1; 0; 0; 1;
   1; 0; 0; -1; 0; 0; 0; 1; 1; 0; -1; 0; 0; 1; 0; 1; 1].

Definition count : nat := length sixuPlus2NAF - 1.

(** A line through [r] and what it adds to the state. *)
Definition line_step (ret : F12El E) (l : F2El E * F2El E * F2El E * G2Point) : F12El E * G2Point :=
  let '(a, b, c, newR) := l in (mulLine ret a b c, newR).

(** The rounds [i = n], ..., [1]. *)
Fixpoint miller_loop (aAffine minusA : G2PointAffine) (bAffine : G1PointAffine) (r2 : F2El E)
    (n : nat) (st : F12El E * G2Point) : F12El E * G2Point :=
  match n with
  | O => st
  | S i =>
      let '(ret, r) := st in
      let l := lineFunctionDouble r bAffine in
      let ret := if (n =? count)%nat then ret else F12_square F12 ret in
      let st := line_step ret l in
      let st :=
        let '(ret, r) := st in
        let d := nth i sixuPlus2NAF 0 in
        if d =? 1 then line_step ret (lineFunctionAdd r aAffine bAffine r2)
        else if d =? -1 then line_step ret (lineFunctionAdd r minusA bAffine r2)
        else st in
      miller_loop aAffine minusA bAffine r2 i st
  end.

Definition miller (q : G2Point) (p : G1Point) : F12El E :=
  let ret := f12_fOne F12 in
  let aAffine := toAffine (F := F2_ops F2) q in
  let bAffine := toAffine p in
  let minusA := negAffine (F := F2_ops F2) aAffine in
  let r := fromAffine (F := F2_ops F2) aAffine in
  let r2 := F2_square F2 (ay aAffine) in
  let '(ret, r) := miller_loop aAffine minusA bAffine r2 count (ret, r) in
  let q1x := F2_conjugate (ax aAffine) in
  let q1x := F2_mul F2 q1x (v_xiToPMinus1Over3 V) in
  let q1y := F2_conjugate (ay aAffine) in
  let q1y := F2_mul F2 q1y (v_xiToPMinus1Over2 V) in
  let q1 := mkPoint q1x q1y (F2_copy (f2_fOne F2)) (F2_copy (f2_fOne F2)) in
  let minusQ2 := mkPoint (F2_mulScalar (ax aAffine) (v_xiToPSquaredMinus1Over3 V)) (F2_copy (ay aAffine))
    (F2_copy (f2_fOne F2)) (F2_copy (f2_fOne F2)) in
  let r2 := F2_square F2 (py q1) in
  let q1Affine := toAffine (F := F2_ops F2) q1 in
  let '(ret, r) := line_step ret (lineFunctionAdd r q1Affine bAffine r2) in
  let minusQ2Affine := toAffine (F := F2_ops F2) minusQ2 in
  let r2 := F2_square F2 (py minusQ2) in
  let '(ret, r) := line_step ret (lineFunctionAdd r minusQ2Affine bAffine r2) in
  ret.

(** ** The final exponentiation *)

Definition bn_u : Z := 4965661367192848881.

Definition finalExponentiation (in_ : F12El E) : F12El E :=
  let u := le_bytes 8 bn_u in
  let t1 := mkF12 (F6_neg (f12x in_)) (F6_copy (f12y in_)) in
  let inv := F12_inv F12 in_ in
  let t1 := F12_mul F12 t1 inv in
  let t2 := F12_FrobeniusP2 F12 t1 in
  let t1 := F12_mul F12 t1 t2 in
  let fp := F12_Frobenius F12 t1 in
  let fp2 := F12_FrobeniusP2 F12 t1 in
  let fp3 := F12_Frobenius F12 fp2 in
  let fu := F12_exp F12 false t1 u 8 in
  let fu2 := F12_exp F12 false fu u 8 in
  let fu3 := F12_exp F12 false fu2 u 8 in
  let y3 := F12_Frobenius F12 fu in
  let fu2p := F12_Frobenius F12 fu2 in
  let fu3p := F12_Frobenius F12 fu3 in
  let y2 := F12_FrobeniusP2 F12 fu2 in
  let y0 := F12_mul F12 fp fp2 in
  let y0 := F12_mul F12 y0 fp3 in
  let y1 := F12_conjugate t1 in
  let y5 := F12_conjugate fu2 in
  let y3 := F12_conjugate y3 in
  let y4 := F12_mul F12 fu fu2p in
  let y4 := F12_conjugate y4 in
  let y6 := F12_mul F12 fu3 fu3p in
  let y6 := F12_conjugate y6 in
  let t0 := F12_square F12 y6 in
  let t0 := F12_mul F12 t0 y4 in
  let t0 := F12_mul F12 t0 y5 in
  let t1 := F12_mul F12 y3 y5 in
  let t1 := F12_mul F12 t1 t0 in
  let t0 := F12_mul F12 t0 y2 in
  let t1 := F12_square F12 t1 in
  let t1 := F12_mul F12 t1 t0 in
  let t1 := F12_square F12 t1 in
  let t0 := F12_mul F12 t1 y1 in
  let t1 := F12_mul F12 t1 y0 in
  let t0 := F12_square F12 t0 in
  let t0 := F12_mul F12 t0 t1 in
  t0.

(** ** The product of pairings *)

Definition pairing_step (acc : F12El E) (ab : G1Point * G2Point) : F12El E :=
  let '(a, b) := ab in
  if f_isZero (pzz a) || F2_isZero (pzz b) then acc
  else F12_mul F12 acc (miller b a).

Definition pairingCheck (ab : list (G1Point * G2Point)) : bool :=
  let acc := fold_left pairing_step ab (f12_fOne F12) in
  let ret := finalExponentiation acc in
  F12_isOne ret.
End Pairing.
