(* ===== verification/FinalExp.v ===== *)
(** The final exponentiation raises to a power: [F12Field::exp] is exponentiation, the
    Frobenius routines multiply the exponent by [p], conjugation inverts in the
    subgroup the exponentiation enters first, and the chain of
    [Verifier::finalExponentiation] adds up to the exponent of the reduced pairing. *)

From Stdlib Require Import Field ArithRing.
From S2P Require Import Prelude Mpz SplitParStr RawFr Field Dft Powers ExtField Tower TowerSpec TowerBn Curve Pairing.

(** ** [F12Field::exp] *)

Lemma bit_is_set_testbit scalar n :
  Forall is_byte scalar -> (n < 8 * length scalar)%nat ->
  bit_is_set scalar n = Z.testbit (le_value scalar) (Z.of_nat n).
Proof.
  intros Hs. revert n. induction Hs as [|b s Hb Hs IH]; intros n Hn; cbn [length] in Hn; [lia|].
  unfold bit_is_set. cbn [le_value]. unfold is_byte in Hb.
  destruct (Nat.lt_ge_cases n 8) as [Hlt|Hge].
  - rewrite Nat.div_small, Nat.mod_small by done. cbn [nth].
    rewrite <- (Z.mod_pow2_bits_low (b + _) 8) by lia.
    rewrite Z.mul_comm, Z.mod_add, Z.mod_small by lia. done.
  - specialize (IH (n - 8)%nat ltac:(lia)). unfold bit_is_set in IH.
    replace n with (n - 8 + 1 * 8)%nat at 1 2 by lia. rewrite Nat.div_add, Nat.Div0.mod_add, Nat.add_1_r by lia.
    cbn [nth]. rewrite IH. replace (Z.of_nat n) with (Z.of_nat (n - 8) + 8) by lia.
    rewrite <- Z.div_pow2_bits by lia. f_equal. rewrite Z.mul_comm, Z.div_add, (Z.div_small b) by lia. lia.
Qed.

Section Exp.
Context {K6 E : Type} {KF : KField K6} {FO : FieldOps E} {R : FieldRep K6 (F6El E)}
  {KF12 : KField (K6 * K6)} {R12 : FieldRep (K6 * K6) (F12El E)} (D : F12Field E)
  {L : @FieldLaws (K6 * K6) (F12El E) _ (F12_ops D) _}
  (Hcopy : forall a (x : K6 * K6), f_rep a x -> f_rep (F12_copy a) x).
#[local] Open Scope field_scope.
Notation K12 := (K6 * K6)%type.
Add Field K_field_exp : (k_theory (K := K12)).

Lemma F12_exp_loop_spec a (x : K12) scalar : f_rep a x -> Forall is_byte scalar -> forall n r,
  (n <= 8 * length scalar)%nat ->
  f_rep r (kpow x (Z.to_nat (le_value scalar / 2 ^ Z.of_nat n))) ->
  f_rep (F12_exp_loop D false a scalar n r) (kpow x (Z.to_nat (le_value scalar))).
Proof.
  intros Ha Hs n. pose proof (le_value_range _ Hs) as Hv. induction n as [|n IH]; intros r Hn Hr; cbn [F12_exp_loop].
  - by rewrite Z.pow_0_r, Z.div_1_r in Hr.
  - apply IH; [lia|]. rewrite bit_is_set_testbit by (done || lia). rewrite exp_bits_step by lia.
    replace (Z.of_nat n + 1)%Z with (Z.of_nat (S n)) by lia.
    pose proof (Z.div_pos (le_value scalar) (2 ^ Z.of_nat (S n)) ltac:(lia) ltac:(apply Z.pow_pos_nonneg; lia)) as Hh.
    set (h := (le_value scalar / 2 ^ Z.of_nat (S n))%Z) in *.
    pose proof (f_square_rep (H0 := F12_ops D) _ _ Hr) as Hsq.
    destruct (Z.testbit _ _); cbn [Z.b2z].
    + eapply f_rep_eq; [apply (f_mul_rep (H0 := F12_ops D)); [exact Hsq|exact Ha]|].
      replace (Z.to_nat (2 * h + 1)) with (S (Z.to_nat h + Z.to_nat h)) by lia.
      cbn [kpow]. rewrite kpow_add. ring.
    + eapply f_rep_eq; [apply Hcopy; exact Hsq|].
      replace (Z.to_nat (2 * h + 0)) with (Z.to_nat h + Z.to_nat h)%nat by lia. by rewrite kpow_add.
Qed.

Lemma F12_exp_spec a (x : K12) scalar : f_rep a x -> Forall is_byte scalar ->
  f_rep (F12_exp D false a scalar (length scalar)) (kpow x (Z.to_nat (le_value scalar))).
Proof.
  intros Ha Hs. pose proof (le_value_range _ Hs) as Hv. unfold F12_exp. apply F12_exp_loop_spec; [done|done|lia|].
  rewrite Z.div_small.
  - cbn [Z.to_nat kpow]. apply Hcopy. apply (f_one_rep (H0 := F12_ops D)).
  - split; [lia|]. eapply Z.lt_le_trans; [apply Hv|]. apply Z.pow_le_mono_r; lia.
Qed.
End Exp.

(** ** Conjugation is the sixth power of the Frobenius map *)

Section Conjugate.
Context {K : Type} {KF : KField K} {p m : nat} {B : BnBase K p m} {g : K * K} {T : BnTower K p m B g}.
Add Field K_field_fe : (k_theory (K := K)).
#[local] Open Scope field_scope.
#[local] Existing Instances bn2 bn6 bn12.
Notation nr := (- (1) : K).
Notation xi := (q_xi : K * K).
Notation K2 := (K * K)%type.
Notation K6 := (K * K * (K * K) * (K * K))%type.
Notation K12 := (K6 * K6)%type.
Notation n1 := (q_norm nr g).
Add Field K_field_fe2 : (@k_theory _ bn2).

Lemma n1_cube : n1 * (n1 * n1) = - (1).
Proof.
  pose proof (bn_g3 (g := g)) as H3. cbv zeta in H3.
  assert (H6 : (n1 * (n1 * n1)) * (n1 * (n1 * n1)) = 1 * 1).
  { rewrite <- (norm_gamma (g := g)), <- !kpow_add. transitivity (1 : K); [|ring].
    etransitivity; [|apply (bn_order (q_norm nr xi)), norm_xi]. f_equal. lia. }
  by destruct (k_squares _ _ H6) as [|].
Qed.

Notation nu := ((n1, 0) : K2).

Lemma nu_cube : nu * (nu * nu) = - (1).
Proof.
  change (q_mul nr nu (q_mul nr nu nu) = q_neg q_one). pose proof n1_cube as H.
  unfold q_mul, q_neg, q_one. cbn [fst snd]. apply (f_equal2 pair); [|ring].
  transitivity (n1 * (n1 * n1)); [ring|exact H].
Qed.

Lemma frob_twice (x y z x' y' z' : K2) :
  kpow (kpow (((x, y, z), (x', y', z')) : K12) p) p =
    ((x * (nu * nu * (nu * nu)), y * (nu * nu), z),
     (x' * (nu * nu * (nu * nu)) * nu, y' * (nu * nu) * nu, z' * nu)).
Proof.
  rewrite frob12_twice. cbn [fst snd]. rewrite !frob6_twice, <- n1_square, <- n1_fourth.
  apply (f_equal2 pair); [done|].
  change (c_mul xi (x' * (nu * nu * (nu * nu)), y' * (nu * nu), z') (0, 0, nu) =
    (x' * (nu * nu * (nu * nu)) * nu, y' * (nu * nu) * nu, z' * nu)).
  unfold c_mul. apply (f_equal2 pair); [apply (f_equal2 pair); ring|ring].
Qed.

Lemma nu_powers (x : K2) :
  x * (nu * nu) * (nu * nu) * (nu * nu) = x /\
  x * (nu * nu * (nu * nu)) * (nu * nu * (nu * nu)) * (nu * nu * (nu * nu)) = x /\
  x * nu * nu * nu = - x.
Proof.
  pose proof nu_cube as H. set (v := nu) in *. repeat split.
  - transitivity (x * (v * (v * v)) * (v * (v * v))); [ring|]. rewrite H. ring.
  - transitivity (x * (v * (v * v)) * (v * (v * v)) * (v * (v * v)) * (v * (v * v))); [ring|]. rewrite H. ring.
  - transitivity (x * (v * (v * v))); [ring|]. rewrite H. ring.
Qed.

Lemma conj_frobenius (x : K12) : q_conj x = kpow (kpow (kpow (kpow (kpow (kpow x p) p) p) p) p) p.
Proof.
  destruct x as [[[x y] z] [[x' y'] z']]. rewrite !frob_twice. unfold q_conj. cbn [fst snd].
  change (- ((x', y', z') : K6)) with ((- x', - y', - z') : K6).
  pose proof (nu_powers x) as (Hx2 & Hx4 & Hx1). pose proof (nu_powers y) as (Hy2 & Hy4 & Hy1).
  pose proof (nu_powers (x' * nu * nu * nu)) as (_ & Ex & _). pose proof (nu_powers (y' * nu * nu * nu)) as (Ey & _ & _).
  pose proof (nu_powers x') as (_ & _ & Hx'). pose proof (nu_powers y') as (_ & _ & Hy').
  pose proof (nu_powers z') as (_ & _ & Hz').
  apply (f_equal2 pair); apply (f_equal2 pair); [apply (f_equal2 pair)| |apply (f_equal2 pair)|].
  - by rewrite Hx4.
  - by rewrite Hy2.
  - done.
  - rewrite <- Hx', <- Ex at 1. ring.
  - rewrite <- Hy', <- Ey at 1. ring.
  - by rewrite Hz'.
Qed.
End Conjugate.

(** ** The chain of the final exponentiation *)

(** The exponent of the chain's second half, in the order of its terms. *)
Definition hard_part (P u : Z) : Z :=
  36 * - (u * u * u + u * u * u * P) + 18 * - (u + u * u * P) + 30 * - (u * u) + 12 * - (u * P) +
  6 * (u * u * (P * P)) + 2 * - (1) + (P + P * P + P * P * P).

Definition final_exponent (P u : Z) : Z := (P ^ 6 - 1) * (P * P + 1) * hard_part P u.

Section Final.
Context {K E : Type} {KF : KField K} {p m : nat} {B : BnBase K p m} {g : K * K} {T : BnTower K p m B g}
  {FO : FieldOps E} {R : FieldRep K E} (V : Verifier E)
  {BE : BnEngine (v_f2 V) (v_f6 V) (v_f12 V)}.
#[local] Open Scope field_scope.
#[local] Existing Instances bn2 bn6 bn12 F2_rep F6_rep F12_rep.
Notation K12 := (K * K * (K * K) * (K * K) * (K * K * (K * K) * (K * K)))%type.
Notation P := (Z.of_nat p).
Let F12 := v_f12 V.
Add Field K_field_fin : (@k_theory _ bn12).
#[local] Instance final_laws : @FieldLaws K12 (F12El E) _ (F12_ops F12) _ := be_12.

Lemma v_mul a b (x y : K12) : f_rep a x -> f_rep b y -> f_rep (F12_mul F12 a b) (x * y).
Proof. exact (@f_mul_rep K12 (F12El E) _ (F12_ops F12) _ final_laws a b x y). Qed.
Lemma v_square a (x : K12) : f_rep a x -> f_rep (F12_square F12 a) (x * x).
Proof. exact (@f_square_rep K12 (F12El E) _ (F12_ops F12) _ final_laws a x). Qed.
Lemma v_inv a (x : K12) : f_rep a x -> x <> 0 -> f_rep (F12_inv F12 a) (kinv x).
Proof. exact (@f_inv_rep K12 (F12El E) _ (F12_ops F12) _ final_laws a x). Qed.

Lemma frob_zpow (x : K12) e : x <> 0 -> kpow (zpow x e) p = zpow x (e * P)%Z.
Proof. intros Hx. by rewrite zpow_mul, zpow_nat. Qed.

Lemma conj_zpow (x : K12) : x <> 0 -> q_conj x = zpow x (P ^ 6)%Z.
Proof.
  intros Hx. rewrite conj_frobenius. rewrite <- (zpow_1 x) at 1.
  rewrite !frob_zpow by done. f_equal. ring.
Qed.

Lemma zpow_cycle (x : K12) : x <> 0 -> zpow x (P ^ 12 - 1)%Z = 1.
Proof.
  intros Hx. pose proof (zpow_nonzero x (P ^ 6) Hx) as H6.
  assert (E12 : zpow x (P ^ 12)%Z = x).
  { replace (P ^ 12)%Z with (P ^ 6 * P ^ 6)%Z by ring. rewrite zpow_mul by done.
    rewrite <- (conj_zpow (zpow x (P ^ 6))), <- conj_zpow by done. apply q_conj_conj. }
  pose proof (zpow_add x (P ^ 12 - 1) 1 Hx) as Ea. rewrite Z.sub_add, E12, zpow_1 in Ea.
  transitivity (zpow x (P ^ 12 - 1)%Z * x / x); [kfield|]. rewrite <- Ea. kfield.
Qed.

(** The subgroup conjugation inverts in. *)
Definition cyclotomic (t : K12) : Prop := t <> 0 /\ zpow t (P ^ 6 + 1)%Z = 1.

Lemma conj_inverse t e : cyclotomic t -> q_conj (zpow t e) = zpow t (- e)%Z.
Proof.
  intros [Ht Hc]. rewrite conj_zpow by (by apply zpow_nonzero). rewrite <- zpow_mul by done.
  replace (e * P ^ 6)%Z with ((P ^ 6 + 1) * e + - e)%Z by ring.
  rewrite zpow_add, zpow_order by done. ring.
Qed.

Lemma easy_part (x : K12) : x <> 0 -> cyclotomic (zpow x ((P ^ 6 - 1) * (P * P + 1))%Z).
Proof.
  intros Hx. split; [by apply zpow_nonzero|]. rewrite <- zpow_mul by done.
  replace ((P ^ 6 - 1) * (P * P + 1) * (P ^ 6 + 1))%Z with ((P ^ 12 - 1) * (P * P + 1))%Z by ring.
  apply zpow_order; [done|]. by apply zpow_cycle.
Qed.

(** [a] stands for the power [e] of [t]. *)
Definition stands_pow (t : K12) (a : F12El E) (e : Z) : Prop := f_rep a (zpow t e).

Lemma pow_eq t a e e' : stands_pow t a e -> e = e' -> stands_pow t a e'.
Proof. by intros ? <-. Qed.
Lemma pow_mul t a b e e' : t <> 0 -> stands_pow t a e -> stands_pow t b e' -> stands_pow t (F12_mul F12 a b) (e + e').
Proof.
  intros Ht Ha Hb. eapply f_rep_eq; [apply v_mul; [exact Ha|exact Hb]|].
  by rewrite zpow_add.
Qed.
Lemma pow_square t a e : t <> 0 -> stands_pow t a e -> stands_pow t (F12_square F12 a) (e + e).
Proof.
  intros Ht Ha. eapply f_rep_eq; [apply v_square; exact Ha|]. by rewrite zpow_add.
Qed.
Lemma pow_conj t a e : cyclotomic t -> stands_pow t a e -> stands_pow t (F12_conjugate a) (- e).
Proof. intros Ht Ha. unfold stands_pow. rewrite <- conj_inverse by done. by apply be_conj12. Qed.
Lemma pow_frob t a e : t <> 0 -> stands_pow t a e -> stands_pow t (F12_Frobenius F12 a) (e * P).
Proof. intros Ht Ha. unfold stands_pow. rewrite <- frob_zpow by done. by apply be_frob. Qed.
Lemma pow_frob2 t a e : t <> 0 -> stands_pow t a e -> stands_pow t (F12_FrobeniusP2 F12 a) (e * P * P).
Proof. intros Ht Ha. unfold stands_pow. rewrite <- !frob_zpow by done. by apply be_frob2. Qed.
Lemma pow_exp t a e : t <> 0 -> stands_pow t a e -> stands_pow t (F12_exp F12 false a (le_bytes 8 bn_u) 8) (e * bn_u).
Proof.
  intros Ht Ha.
  assert (H := @F12_exp_spec _ E FO bn12 F12_rep F12 final_laws be_copy12 a (zpow t e) (le_bytes 8 bn_u) Ha (le_bytes_byte 8 bn_u)).
  rewrite le_bytes_length in H. eapply f_rep_eq; [exact H|].
  rewrite le_value_bytes by (unfold bn_u; lia). by rewrite zpow_mul, (zpow_nonneg _ bn_u).
Qed.

(** Reads the exponent off an expression of operations. *)
Ltac chain Ht Hc H :=
  lazymatch goal with
  | |- stands_pow _ (F12_mul _ _ _) _ => apply pow_mul; [exact Ht|chain Ht Hc H|chain Ht Hc H]
  | |- stands_pow _ (F12_square _ _) _ => apply pow_square; [exact Ht|chain Ht Hc H]
  | |- stands_pow _ (F12_conjugate _) _ => apply pow_conj; [exact Hc|chain Ht Hc H]
  | |- stands_pow _ (F12_Frobenius _ _) _ => apply pow_frob; [exact Ht|chain Ht Hc H]
  | |- stands_pow _ (F12_FrobeniusP2 _ _) _ => apply pow_frob2; [exact Ht|chain Ht Hc H]
  | |- stands_pow _ (F12_exp _ _ _ _ _) _ => apply pow_exp; [exact Ht|chain Ht Hc H]
  | _ => exact H
  end.

Lemma finalExponentiation_rep a (x : K12) :
  f_rep a x -> x <> 0 -> f_rep (finalExponentiation V a) (zpow x (final_exponent P bn_u)).
Proof.
  intros Ha Hx. unfold final_exponent. rewrite zpow_mul by done. pose proof (easy_part x Hx) as Hc.
  set (t := zpow x ((P ^ 6 - 1) * (P * P + 1))) in *. pose proof (proj1 Hc) as Ht.
  unfold finalExponentiation. cbv zeta.
  set (t1 := F12_mul (v_f12 V) (mkF12 _ _) _).
  assert (H1 : f_rep t1 (zpow x (P ^ 6 - 1)%Z)).
  { replace (P ^ 6 - 1)%Z with (P ^ 6 + - (1))%Z by ring. rewrite zpow_add, zpow_opp, zpow_1, <- conj_zpow by done.
    apply v_mul; [by apply be_conj12|]. by apply v_inv. }
  set (t2 := F12_mul (v_f12 V) t1 _).
  assert (H2 : stands_pow t t2 1).
  { unfold stands_pow. rewrite zpow_1. unfold t.
    replace ((P ^ 6 - 1) * (P * P + 1))%Z with ((P ^ 6 - 1) + (P ^ 6 - 1) * P * P)%Z by ring.
    rewrite zpow_add, <- !frob_zpow by done. apply v_mul; [done|]. by apply be_frob2. }
  eapply pow_eq.
  - chain Ht Hc H2.
  - unfold hard_part. ring.
Qed.
End Final.
