(* ===== verification/MillerSpec.v ===== *)
(** The loop of the pairing computes Miller's function of the optimal ate pairing: the
    line functions double and add points of the twist in Jacobian coordinates and
    return the tangent or chord at the affine point, up to a factor of the quadratic
    extension, and [mulLine] multiplies by it. *)

From Stdlib Require Import Field ArithRing.
From S2P Require Import Prelude Mpz Field Dft Powers ExtField Tower TowerSpec TowerBn Curve CurveSpec Pairing FinalExp.

(** ** Miller's function, on affine points

    The point [(x, y)] of the twist stands for [(x * w^2, y * w^3)]. *)
Section Reference.
Context {K : Type} {KF : KField K} {p m : nat} {B : BnBase K p m} {g : K * K} {T : BnTower K p m B g}.
#[local] Existing Instances bn2 bn6 bn12.
#[local] Open Scope field_scope.
Notation K2 := (K * K)%type.
Notation K6 := (K * K * (K * K) * (K * K))%type.
Notation K12 := (K6 * K6)%type.

(** An element of the quadratic extension in the last one. *)
Definition embed (s : K2) : K12 := ((0, 0, s), 0).

(** The line with slope [l] through the point [t] of the twist, at [(xp, yp)]:
    [yp - l * xp * w + (l * x - y) * w^3]. *)
Definition line (l : K2) (t : K2 * K2) (xp yp : K) : K12 :=
  ((0, 0, (yp, 0)), (0, l * fst t - snd t, - (l * (xp, 0)))).

Definition tangent (t : K2 * K2) : option K2 :=
  if decide (snd t + snd t = 0) then None else Some ((1 + 1 + 1) * (fst t * fst t) / (snd t + snd t)).

Definition chord (t q : K2 * K2) : option K2 :=
  if decide (fst t = fst q) then None else Some ((snd q - snd t) / (fst q - fst t)).

(** The third point of the line, negated. *)
Definition meet (l : K2) (t : K2 * K2) (x2 : K2) : K2 * K2 :=
  let x3 := l * l - fst t - x2 in (x3, l * (fst t - x3) - snd t).

(** [f := f * line; t := t + t], and the same for a chord. *)
Definition double_step (xp yp : K) (ft : K12 * (K2 * K2)) : option (K12 * (K2 * K2)) :=
  let '(f, t) := ft in
  l ← tangent t; Some (f * line l t xp yp, meet l t (fst t)).

Definition add_step (xp yp : K) (q : K2 * K2) (ft : K12 * (K2 * K2)) : option (K12 * (K2 * K2)) :=
  let '(f, t) := ft in
  l ← chord t q; Some (f * line l t xp yp, meet l t (fst q)).

Definition opposite (q : K2 * K2) : K2 * K2 := (fst q, - snd q).

(** The loop over the digits, most significant first. *)
Fixpoint ate_loop (xp yp : K) (q : K2 * K2) (digits : list Z) (ft : K12 * (K2 * K2)) :
    option (K12 * (K2 * K2)) :=
  match digits with
  | [] => Some ft
  | d :: digits =>
      ft ← double_step xp yp (fst ft * fst ft, snd ft);
      ft ← (if d =? 1 then add_step xp yp q ft
            else if d =? -1 then add_step xp yp (opposite q) ft else Some ft);
      ate_loop xp yp q digits ft
  end.

(** The Frobenius map of the twist. *)
Definition twist_frobenius (q : K2 * K2) : K2 * K2 := (kpow (fst q) p * (g * g), kpow (snd q) p * (g * g * g)).

(** Miller's function for [digits], followed by the lines to the images of [q]; [None]
    when a line is vertical, or the point is of order two. *)
Definition ate (digits : list Z) (q : K2 * K2) (xp yp : K) : option K12 :=
  if decide (yp = 0) then None
  else
    let q1 := twist_frobenius q in
    let q2 := twist_frobenius q1 in
    ft ← ate_loop xp yp q digits (1, q);
    ft ← add_step xp yp q1 ft;
    ft ← add_step xp yp (opposite q2) ft;
    Some (fst ft).
End Reference.

(** ** Copies between the kinds of points *)

Section Copies.
Context {K E : Type} {KF : KField K} {F : FieldOps E} {FR : FieldRep K E} {FL : FieldLaws K E}.
Add Field K_field_cp : (k_theory (K := K)).
#[local] Open Scope field_scope.

Lemma toAffine_stands (P : Point) (x y : K) :
  stands P (Some (x, y)) -> f_rep (ax (toAffine P)) x /\ f_rep (ay (toAffine P)) y.
Proof.
  intros HP. pose proof (isZero_stands _ _ HP) as Hz. destruct HP as (z & Hz0 & Hx & Hy & H2 & H3).
  unfold toAffine, copyToAffine, isZero, result, op2, ZZ, X, Y, ZZZ, sbind, sget, sret, fresh.
  cbn [fst snd]. rewrite Hz. cbn [fst snd ax ay].
  split; (eapply f_rep_eq; [apply f_div_rep; [eassumption|eassumption|auto]|field; auto]).
Qed.

Lemma affine_stands (x y : E) (u v : K) (one one' : E) :
  f_rep x u -> f_rep y v -> f_rep one 1 -> f_rep one' 1 -> stands (mkPoint x y one one') (Some (u, v)).
Proof.
  intros. exists 1. split; [apply k_one_nonzero|]. cbn [px py pzz pzzz].
  repeat split; (eapply f_rep_eq; [eassumption|ring]).
Qed.

Lemma fromAffine_nonzero (a : PointAffine (E := E)) (y : K) :
  f_rep (ay a) y -> y <> 0 -> fromAffine a = mkPoint (ax a) (ay a) f_one f_one.
Proof.
  intros Hy Hn. unfold fromAffine, copyFromAffine, isZeroAffine.
  rewrite (f_isZero_rep _ _ Hy), (bool_decide_eq_false_2 (y = 0)), andb_false_r by done. done.
Qed.
End Copies.

(** ** The line functions *)

Section Lines.
Context {K E : Type} {KF : KField K} {p m : nat} {B : BnBase K p m} {g : K * K} {T : BnTower K p m B g}
  {FO : FieldOps E} {R : FieldRep K E} {L : FieldLaws K E} (V : Verifier E)
  {BE : BnEngine (v_f2 V) (v_f6 V) (v_f12 V)}.
#[local] Existing Instances bn2 bn6 bn12 F2_rep F6_rep F12_rep.
#[local] Open Scope field_scope.
Notation K2 := (K * K)%type.
Notation K6 := (K * K * (K * K) * (K * K))%type.
Notation K12 := (K6 * K6)%type.
Add Field K_field_ml2 : (@k_theory _ bn2).
Add Field K_field_ml6 : (@k_theory _ bn6).
Add Field K_field_ml12 : (@k_theory _ bn12).
Let F2 := v_f2 V.
#[local] Instance line_laws2 : @FieldLaws K2 (F2El E) _ (F2_ops F2) _ := xl_laws (XiLaws := be_xi).

Lemma w_add (a b : F2El E) (x y : K2) : f_rep a x -> f_rep b y -> f_rep (F2_add a b) (x + y).
Proof. apply (f_add_rep (H0 := F2_ops F2)). Qed.
Lemma w_sub (a b : F2El E) (x y : K2) : f_rep a x -> f_rep b y -> f_rep (F2_sub a b) (x - y).
Proof. apply (f_sub_rep (H0 := F2_ops F2)). Qed.
Lemma w_mul (a b : F2El E) (x y : K2) : f_rep a x -> f_rep b y -> f_rep (F2_mul F2 a b) (x * y).
Proof. apply (f_mul_rep (H0 := F2_ops F2)). Qed.
Lemma w_square (a : F2El E) (x : K2) : f_rep a x -> f_rep (F2_square F2 a) (x * x).
Proof. apply (f_square_rep (H0 := F2_ops F2)). Qed.
Lemma w_zero : f_rep (F2_copy (f2_fZero F2)) (0 : K2).
Proof. apply (xl_copy (XiLaws := be_xi)), (f_zero_rep (H0 := F2_ops F2)). Qed.
#[local] Hint Resolve w_add w_sub w_mul w_square w_zero be_scalar2 : tower_rep.

(** [r] is the affine point [t] in Jacobian coordinates. *)
Definition jac (r : Point (E := F2El E)) (t : K2 * K2) (z : K2) : Prop :=
  z <> 0 /\ f_rep (px r) (fst t * (z * z)) /\ f_rep (py r) (snd t * (z * (z * z))) /\
  f_rep (pzz r) z /\ f_rep (pzzz r) (z * z).

(** The coefficients are the line times [s]. *)
Definition line_rep (abc : F2El E * F2El E * F2El E) (s l : K2) (t : K2 * K2) (xp yp : K) : Prop :=
  let '(a, b, c) := abc in
  f_rep a (s * (l * fst t - snd t)) /\ f_rep b (s * - (l * (xp, 0))) /\ f_rep c (s * (yp, 0)).

Lemma k2_two : (1 + 1 : K2) <> 0.
Proof.
  intros [= H2 _]. by apply (bn_two (K := K)).
Qed.

Lemma tangent_some (t : K2 * K2) l : tangent t = Some l ->
  snd t + snd t <> 0 /\ l = (1 + 1 + 1) * (fst t * fst t) / (snd t + snd t).
Proof. unfold tangent. case_decide; [done|]. intros Hl. split; [done|congruence]. Qed.

Lemma chord_some (t q : K2 * K2) l : chord t q = Some l ->
  fst t <> fst q /\ l = (snd q - snd t) / (fst q - fst t).
Proof. unfold chord. case_decide; [done|]. intros Hl. split; [done|congruence]. Qed.

Lemma lineFunctionDouble_spec r q t z l xp yp :
  jac r t z -> f_rep (ax q) xp -> f_rep (ay q) yp -> tangent t = Some l ->
  exists s z', s <> 0 /\ line_rep (fst (lineFunctionDouble V r q)) s l t xp yp /\
    jac (snd (lineFunctionDouble V r q)) (meet l t (fst t)) z'.
Proof.
  intros (Hz & Hx & Hy & Hzz & Hzzz) Hxp Hyp [Hy0 ->]%tangent_some.
  destruct t as [x y]. cbn [fst snd] in *.
  assert (Hy1 : y <> 0) by (intros ->; apply Hy0; ring).
  pose proof k2_two as H2. set (two := (1 + 1 : K2)) in *.
  assert (Et : y + y = two * y) by (unfold two; ring). 
  exists (two * two * y * (z * z * z * z * z * z)), (two * (y * (z * z * z * z))).
  split; [auto 12|]. split.
  - unfold line_rep, lineFunctionDouble. cbn [fst snd]. fold F2. rewrite Et.
    split; [|split].
    + eapply f_rep_eq; [eauto 400 with tower_rep|]. unfold two in *. field. auto.
    + eapply f_rep_eq; [eauto 400 with tower_rep|]. unfold two in *. field. auto.
    + eapply f_rep_eq; [eauto 400 with tower_rep|]. unfold two in *. ring.
  - unfold jac, meet, lineFunctionDouble. cbn [fst snd px py pzz pzzz]. fold F2. rewrite Et.
    split; [auto 12|]. split; [|split; [|split]]; (eapply f_rep_eq; [eauto 400 with tower_rep|]);
      unfold two in *; try ring; field; auto.
Qed.

Lemma lineFunctionAdd_spec r pt q r2 t x2 z l xp yp :
  jac r t z -> f_rep (ax pt) (fst x2) -> f_rep (ay pt) (snd x2) -> f_rep r2 (snd x2 * snd x2) ->
  f_rep (ax q) xp -> f_rep (ay q) yp -> chord t x2 = Some l ->
  exists s z', s <> 0 /\ line_rep (fst (lineFunctionAdd V r pt q r2)) s l t xp yp /\
    jac (snd (lineFunctionAdd V r pt q r2)) (meet l t (fst x2)) z'.
Proof.
  intros (Hz & Hx & Hy & Hzz & Hzzz) Hx2 Hy2 Hr2 Hxp Hyp [Hd ->]%chord_some.
  destruct t as [x y], x2 as [u v]. cbn [fst snd] in *.
  assert (Hd1 : u - x <> 0) by (intros H0; apply Hd; symmetry; by apply k_sub_zero).
  pose proof k2_two as H2. set (two := (1 + 1 : K2)) in *.
  exists (two * (two * (z * z * z * (u - x)))), (two * (z * z * z * (u - x))).
  split; [auto 12|]. split.
  - unfold line_rep, lineFunctionAdd. cbn [fst snd]. fold F2.
    split; [|split]; (eapply f_rep_eq; [eauto 400 with tower_rep|]); unfold two in *; try ring; field; auto.
  - unfold jac, meet, lineFunctionAdd. cbn [fst snd px py pzz pzzz]. fold F2.
    split; [auto 12|]. split; [|split; [|split]]; (eapply f_rep_eq; [eauto 400 with tower_rep|]);
      unfold two in *; try ring; field; auto.
Qed.

(** ** Multiplication by a line *)

#[local] Instance line_laws6 : @FieldLaws K6 (F6El E) _ (F6_ops (v_f6 V)) _ := tl_laws (TauLaws := be_tau).

Lemma x_add (a b : F6El E) (x y : K6) : f_rep a x -> f_rep b y -> f_rep (F6_add a b) (x + y).
Proof. exact (@f_add_rep K6 (F6El E) _ (F6_ops (v_f6 V)) _ line_laws6 a b x y). Qed.
Lemma x_sub (a b : F6El E) (x y : K6) : f_rep a x -> f_rep b y -> f_rep (F6_sub a b) (x - y).
Proof. exact (@f_sub_rep K6 (F6El E) _ (F6_ops (v_f6 V)) _ line_laws6 a b x y). Qed.
Lemma x_mul (a b : F6El E) (x y : K6) : f_rep a x -> f_rep b y -> f_rep (F6_mul (v_f6 V) a b) (x * y).
Proof. exact (@f_mul_rep K6 (F6El E) _ (F6_ops (v_f6 V)) _ line_laws6 a b x y). Qed.
Lemma x_tau (a : F6El E) (x : K6) : f_rep a x -> f_rep (F6_mulTau a) (tau * x).
Proof. apply (tl_mulTau (TauLaws := be_tau)). Qed.
Lemma x_copy (a : F6El E) (x : K6) : f_rep a x -> f_rep (F6_copy a) x.
Proof. apply (tl_copy (TauLaws := be_tau)). Qed.
Lemma x_sparse a b (x y : K2) : f_rep a x -> f_rep b y ->
  f_rep (mkF6 (F2_copy (f2_fZero F2)) (F2_copy a) (F2_copy b)) ((0, x, y) : K6).
Proof.
  intros. split; [apply w_zero|]. by split; apply (xl_copy (XiLaws := be_xi)).
Qed.
#[local] Hint Resolve x_add x_sub x_mul x_tau x_copy x_sparse be_scalar6 : tower_rep.

Lemma mulLine_rep ret a b c (f : K12) (x y z : K2) :
  f_rep ret f -> f_rep a x -> f_rep b y -> f_rep c z ->
  f_rep (mulLine V ret a b c) (f * ((0, 0, z), (0, x, y))).
Proof.
  intros [Hc Hd] Ha Hb Hz. destruct f as [C D]. cbn [fst snd] in *.
  assert (Es : ((0, x, y + z) : K6) = (0, x, y) + (0, 0, z)).
  { change ((0, x, y + z) = c_add (0, x, y) (0, 0, z)). unfold c_add.
    apply (f_equal2 pair); [apply (f_equal2 pair); ring|done]. }
  change ((C, D) * ((0, 0, z), (0, x, y))) with
    (C * (0, 0, z) + tau * (D * (0, x, y)), C * (0, x, y) + D * (0, 0, z)).
  split; unfold mulLine; cbn [f12x f12y fst snd]; fold F2; (eapply f_rep_eq; [eauto 100 with tower_rep|]).
  - ring.
  - rewrite Es. ring.
Qed.

Lemma scalar6 (s x y z : K2) : ((0, 0, s) : K6) * (x, y, z) = (s * x, s * y, s * z).
Proof.
  change (c_mul q_xi (0, 0, s) (x, y, z) = (s * x, s * y, s * z)). unfold c_mul.
  apply (f_equal2 pair); [apply (f_equal2 pair); ring|ring].
Qed.

Lemma embed_mul (s : K2) (x y : K6) : embed s * ((x, y) : K12) = ((0, 0, s) * x, (0, 0, s) * y).
Proof.
  change (q_mul tau (embed s) (x, y) = ((0, 0, s) * x, (0, 0, s) * y)). unfold q_mul, embed.
  cbn [fst snd]. apply (f_equal2 pair); ring.
Qed.

Lemma embed_embed (s s' : K2) : embed s * embed s' = (embed (s * s') : K12).
Proof.
  unfold embed at 2 3. rewrite embed_mul, scalar6. apply (f_equal2 pair); [|ring].
  apply (f_equal2 pair); [apply (f_equal2 pair); ring|done].
Qed.

Lemma embed_one : (embed 1 : K12) = 1.
Proof. done. Qed.

Lemma mulLine_line ret abc s s' l t xp yp (f : K12) :
  f_rep ret (embed s * f) -> line_rep abc s' l t xp yp ->
  f_rep (mulLine V ret (fst (fst abc)) (snd (fst abc)) (snd abc)) (embed (s * s') * (f * line l t xp yp)).
Proof.
  destruct abc as [[a b] c]. intros Hf (Ha & Hb & Hc). cbn [fst snd].
  eapply f_rep_eq; [apply mulLine_rep; [exact Hf|exact Ha|exact Hb|exact Hc]|].
  assert (El : (((0, 0, s' * (yp, 0)), (0, s' * (l * fst t - snd t), s' * - (l * (xp, 0)))) : K12) =
    embed s' * line l t xp yp).
  { unfold line. rewrite embed_mul, !scalar6. 
    apply (f_equal2 pair); (apply (f_equal2 pair); [apply (f_equal2 pair)|]); ring || done. }
  rewrite El, <- embed_embed. ring.
Qed.

(** ** The loop *)

(** The state of the loop, up to a factor of the quadratic extension. *)
Definition loop_rep (st : F12El E * Point (E := F2El E)) (ft : K12 * (K2 * K2)) : Prop :=
  exists s z, s <> 0 /\ f_rep (fst st) (embed s * fst ft) /\ jac (snd st) (snd ft) z.

Lemma loop_double ret r q ft ft' xp yp :
  loop_rep (ret, r) ft -> f_rep (ax q) xp -> f_rep (ay q) yp -> double_step xp yp ft = Some ft' ->
  loop_rep (line_step V ret (lineFunctionDouble V r q)) ft'.
Proof.
  destruct ft as [f t]. intros (s & z & Hs & Hf & Hr) Hxp Hyp Hd. cbn [fst snd double_step] in *.
  destruct (tangent t) as [l|] eqn:El; [|done]. 
  assert (ft' = (f * line l t xp yp, meet l t (fst t))) as -> by (cbn [mbind option_bind] in Hd; congruence).
  destruct (lineFunctionDouble_spec r q t z l xp yp Hr Hxp Hyp El) as (s' & z' & Hs' & Hl & Hr').
  destruct (lineFunctionDouble V r q) as [[[a b] c] newR]. cbn [fst snd line_step] in *.
  exists (s * s'), z'. split; [auto|]. split; [|done]. by apply (mulLine_line ret (a, b, c)).
Qed.

Lemma loop_add ret r q pt r2 x2 ft ft' xp yp :
  loop_rep (ret, r) ft -> f_rep (ax pt) (fst x2) -> f_rep (ay pt) (snd x2) -> f_rep r2 (snd x2 * snd x2) ->
  f_rep (ax q) xp -> f_rep (ay q) yp -> add_step xp yp x2 ft = Some ft' ->
  loop_rep (line_step V ret (lineFunctionAdd V r pt q r2)) ft'.
Proof.
  destruct ft as [f t]. intros (s & z & Hs & Hf & Hr) Hx Hy H2 Hxp Hyp Hd. cbn [fst snd add_step] in *.
  destruct (chord t x2) as [l|] eqn:El; [|done].
  assert (ft' = (f * line l t xp yp, meet l t (fst x2))) as -> by (cbn [mbind option_bind] in Hd; congruence).
  destruct (lineFunctionAdd_spec r pt q r2 t x2 z l xp yp Hr Hx Hy H2 Hxp Hyp El) as (s' & z' & Hs' & Hl & Hr').
  destruct (lineFunctionAdd V r pt q r2) as [[[a b] c] newR]. cbn [fst snd line_step] in *.
  exists (s * s'), z'. split; [auto|]. split; [|done]. by apply (mulLine_line ret (a, b, c)).
Qed.

Lemma loop_square ret r f t :
  loop_rep (ret, r) (f, t) -> loop_rep (F12_square (v_f12 V) ret, r) (f * f, t).
Proof.
  intros (s & z & Hs & Hf & Hr). exists (s * s), z. split; [auto|]. split; [|done]. cbn [fst snd] in *.
  eapply f_rep_eq; [apply (v_square V); exact Hf|]. rewrite <- embed_embed. ring.
Qed.

Lemma w_neg (a : F2El E) (x : K2) : f_rep a x -> f_rep (F2_neg a) (- x).
Proof. apply (f_neg_rep (H0 := F2_ops F2)). Qed.

Lemma miller_loop_spec aA q r2 x2 xp yp :
  f_rep (ax aA) (fst x2) -> f_rep (ay aA) (snd x2) -> f_rep r2 (snd x2 * snd x2) ->
  f_rep (ax q) xp -> f_rep (ay q) yp -> forall n st ft ft',
  (n <= count)%nat -> loop_rep st ft -> (n = count -> fst ft = 1) ->
  ate_loop xp yp x2 (rev (take n sixuPlus2NAF)) ft = Some ft' ->
  loop_rep (miller_loop V aA (negAffine (F := F2_ops F2) aA) q r2 n st) ft'.
Proof.
  intros Hx Hy H2 Hxp Hyp n. induction n as [|n IH]; intros [ret r] [f t] ft' Hn Hst Hone Hl.
  - change (Some (f, t) = Some ft') in Hl. cbn [miller_loop]. congruence.
  - destruct (lookup_lt_is_Some_2 sixuPlus2NAF n) as [d Hd]; [unfold count in Hn; lia|].
    rewrite (take_S_r _ _ d Hd), rev_app_distr in Hl. cbn [rev app ate_loop fst snd] in Hl.
    destruct (double_step xp yp (f * f, t)) as [[f1 t1]|] eqn:E1; [|done]. cbn [mbind option_bind] in Hl.
    assert (H1 : loop_rep (line_step V (if (S n =? count)%nat then ret else F12_square (v_f12 V) ret)
      (lineFunctionDouble V r q)) (f1, t1)).
    { eapply loop_double; [|exact Hxp|exact Hyp|exact E1]. destruct (Nat.eqb_spec (S n) count) as [Ec|].
      - specialize (Hone Ec). cbn [fst] in Hone. subst f. destruct Hst as (s & z & Hs & Hf & Hr).
        exists s, z. split; [done|]. split; [|done]. eapply f_rep_eq; [exact Hf|]. cbn [fst]. ring.
      - by apply loop_square. }
    cbn [miller_loop]. destruct (line_step V _ (lineFunctionDouble V r q)) as [ret1 r1].
    rewrite (nth_lookup_Some _ _ 0%Z _ Hd).
    destruct (d =? 1) eqn:Ed1; [|destruct (d =? -1) eqn:Ed2].
    + destruct (add_step xp yp x2 (f1, t1)) as [ft2|] eqn:E2; [|done]. cbn [mbind option_bind] in Hl.
      eapply IH; [lia| |lia|exact Hl]. by eapply loop_add.
    + destruct (add_step xp yp (opposite x2) (f1, t1)) as [ft2|] eqn:E2; [|done]. cbn [mbind option_bind] in Hl.
      eapply IH; [lia| |lia|exact Hl]. apply (loop_add ret1 r1 q _ r2 (opposite x2) (f1, t1) ft2 xp yp); [exact H1|exact Hx|exact (w_neg _ _ Hy)| |exact Hxp|exact Hyp|exact E2].
      eapply f_rep_eq; [exact H2|]. cbn [opposite snd]. ring.
    + cbn [mbind option_bind] in Hl. eapply IH; [lia|exact H1|lia|exact Hl].
Qed.

(** ** The whole function *)

Notation n1 := (q_norm (- (1)) g).

(** The constants of the verifier. *)
Definition verifier_constants : Prop :=
  f_rep (v_xiToPMinus1Over3 V) (g * g : K2) /\ f_rep (v_xiToPMinus1Over2 V) (g * g * g : K2) /\
  f_rep (v_xiToPSquaredMinus1Over3 V) (n1 * n1).

Context (HV : verifier_constants).

Lemma opposite_twist (q : K2 * K2) :
  opposite (twist_frobenius (g := g) (twist_frobenius (g := g) q)) = (fst q * (n1 * n1, 0), snd q).
Proof.
  destruct q as [x y]. unfold twist_frobenius, opposite. cbn [fst snd].
  rewrite !kpow_mul_l, !conj_conj. pose proof (gamma_norm (g := g)) as Hg. rewrite <- n1_square, <- Hg.
  pose proof nu_cube as H3. rewrite <- Hg in H3. apply (f_equal2 pair); [ring|].
  transitivity (- (y * (g * kpow g p * (g * kpow g p * (g * kpow g p))))); [ring|]. rewrite H3. ring.
Qed.

Lemma miller_spec Q P (q : K2 * K2) (xp yp : K) f :
  stands Q (Some q) -> stands P (Some (xp, yp)) ->
  ate (g := g) (rev (take count sixuPlus2NAF)) q xp yp = Some f ->
  exists s, s <> 0 /\ f_rep (miller V Q P) (embed s * f).
Proof.
  destruct HV as (C3 & C2 & CS). destruct q as [x y]. intros HQ HP Ha.
  destruct (toAffine_stands (F := F2_ops F2) _ _ _ HQ) as [Hx Hy]. destruct (toAffine_stands _ _ _ HP) as [Hxp Hyp].
  unfold ate in Ha. destruct (decide (yp = 0)) as [|Hyp0]; [done|]. cbv zeta in Ha.
  destruct (ate_loop xp yp (x, y) _ _) as [ft|] eqn:El; [|done]. cbn [mbind option_bind] in Ha.
  destruct (add_step _ _ _ ft) as [ft1|] eqn:E1; [|done]. cbn [mbind option_bind] in Ha.
  destruct (add_step _ _ _ ft1) as [ft2|] eqn:E2; [|done]. cbn [mbind option_bind] in Ha.
  assert (Hy0 : y <> 0).
  { change (rev (take count sixuPlus2NAF)) with (1%Z :: tl (rev (take count sixuPlus2NAF))) in El.
    cbn [ate_loop fst snd] in El. destruct (double_step _ _ _) eqn:Ed; [|done]. unfold double_step in Ed.
    destruct (tangent (x, y)) eqn:Et; [|done]. apply tangent_some in Et as [Ht _]. cbn [snd] in Ht.
    intros ->. apply Ht. ring. }
  assert (Hone : f_rep (F2_copy (f2_fOne F2)) (1 : K2))
    by (apply (xl_copy (XiLaws := be_xi)), (f_one_rep (H0 := F2_ops F2))).
  unfold miller. cbv zeta. rewrite (fromAffine_nonzero (F := F2_ops F2) _ _ Hy Hy0).
  assert (H0 : loop_rep (f12_fOne (v_f12 V),
      mkPoint (ax (toAffine (F := F2_ops F2) Q)) (ay (toAffine (F := F2_ops F2) Q))
        (f2_fOne F2) (f2_fOne F2)) (1, (x, y))).
  { exists 1, 1. split; [apply k_one_nonzero|]. split.
    - eapply f_rep_eq; [apply (f_one_rep (FieldLaws := be_12))|]. rewrite embed_one. cbn [fst]. ring.
    - pose proof (f_one_rep (H0 := F2_ops F2) (FieldLaws := line_laws2)) as H1.
      split; [apply k_one_nonzero|]. cbn [snd fst px py pzz pzzz].
      split; [|split; [|split]]; (eapply f_rep_eq; [first [exact Hx | exact Hy | exact H1]|ring]). }
  pose proof (miller_loop_spec _ _ _ (x, y) xp yp Hx Hy (w_square _ _ Hy) Hxp Hyp count _ _ ft
    ltac:(lia) H0 ltac:(done) El) as Hl.
  change (f_one (FieldOps := F2_ops F2)) with (f2_fOne F2).
  destruct (miller_loop V _ _ _ _ _ _) as [ret r].
  pose proof (w_mul _ _ _ _ (be_conj2 _ _ Hx) C3) as Q1x. pose proof (w_mul _ _ _ _ (be_conj2 _ _ Hy) C2) as Q1y.
  destruct (toAffine_stands (F := F2_ops F2) _ _ _ (affine_stands _ _ _ _ _ _ Q1x Q1y Hone Hone)) as [A1x A1y].
  pose proof (be_scalar2 _ _ _ _ Hx CS) as Q2x. pose proof (xl_copy (XiLaws := be_xi) _ _ Hy) as Q2y.
  destruct (toAffine_stands (F := F2_ops F2) _ _ _ (affine_stands _ _ _ _ _ _ Q2x Q2y Hone Hone)) as [A2x A2y].
  pose proof (loop_add _ _ _ _ _ (twist_frobenius (g := g) (x, y)) _ _ _ _ Hl A1x A1y (w_square _ _ Q1y) Hxp Hyp E1) as Hl1.
  cbn [py]. destruct (line_step V ret _) as [ret1 r1].
  rewrite opposite_twist in E2. cbn [fst snd] in E2.
  pose proof (loop_add _ _ _ _ _ (x * (n1 * n1, 0), y) _ _ _ _ Hl1 A2x A2y (w_square _ _ Q2y) Hxp Hyp E2) as Hl2.
  destruct (line_step V ret1 _) as [ret2 r2]. destruct Hl2 as (s & z & Hs & Hf & _).
  exists s. split; [done|]. cbn [fst] in Hf. replace f with (fst ft2) by congruence. done.
Qed.
End Lines.
