(* ===== verification/PairingSpec.v ===== *)
(** The product of pairings: [Verifier::pairingCheck] decides whether the product of the
    reduced optimal ate pairings of its points is one. *)

From Stdlib Require Import Field ArithRing Zmod String.
From S2P Require Import Prelude Limbs Gmp Mpz SplitParStr FrRaw FrElement FrMpz RawFr Primes Field Dft Powers ExtField Tower TowerSpec TowerBn FftFr TowerFq TowerText TowerDefault Curve CurveSpec Pairing FinalExp MillerSpec.

Section Product.
Context {K E : Type} {KF : KField K} {p m : nat} {B : BnBase K p m} {g : K * K} {T : BnTower K p m B g}
  {FO : FieldOps E} {R : FieldRep K E} {L : FieldLaws K E} (V : Verifier E)
  {BE : BnEngine (v_f2 V) (v_f6 V) (v_f12 V)} (HV : verifier_constants (g := g) V).
#[local] Existing Instances bn2 bn6 bn12 F2_rep F6_rep F12_rep.
#[local] Open Scope field_scope.
Notation K2 := (K * K)%type.
Notation K6 := (K * K * (K * K) * (K * K))%type.
Notation K12 := (K6 * K6)%type.
Notation P := (Z.of_nat p).
Add Field K_field_ps : (@k_theory _ bn12).

(** *** Factors of the quadratic extension vanish *)

Lemma embed_pow (s : K2) n : kpow (embed s : K12) n = embed (kpow s n).
Proof.
  induction n as [|n IH]; [apply embed_one|]. cbn [kpow]. by rewrite IH, embed_embed.
Qed.

Lemma embed_nonzero (s : K2) : s <> 0 -> (embed s : K12) <> 0.
Proof. intros Hs E0. apply Hs. by injection E0. Qed.

Lemma embed_order (s : K2) : s <> 0 -> zpow (embed s : K12) (P * P - 1)%Z = 1.
Proof.
  intros Hs. pose proof (embed_nonzero s Hs) as Hn.
  assert (Es : zpow (embed s : K12) (P * P)%Z = embed s).
  { rewrite zpow_mul, !zpow_nat, !embed_pow by done. f_equal. apply conj_conj. }
  pose proof (zpow_add (embed s) (P * P - 1) 1 Hn) as Ea. rewrite Z.sub_add, Es, zpow_1 in Ea.
  transitivity (zpow (embed s) (P * P - 1)%Z * embed s / embed s); [kfield|]. rewrite <- Ea. kfield.
Qed.

Lemma final_embed (s : K2) (f : K12) u : s <> 0 -> f <> 0 ->
  zpow (embed s * f) (final_exponent P u) = zpow f (final_exponent P u).
Proof.
  intros Hs Hf. rewrite (zpow_mul_l (embed s) f _ (embed_nonzero s Hs) Hf).
  unfold final_exponent at 1.
  replace ((P ^ 6 - 1) * (P * P + 1) * hard_part P u)%Z
    with ((P * P - 1) * ((P ^ 4 + P ^ 2 + 1) * (P * P + 1) * hard_part P u))%Z by ring.
  rewrite (zpow_order (embed s) (P * P - 1)) by (by apply embed_nonzero || by apply embed_order). ring.
Qed.

(** *** Miller's function is not zero *)

Lemma line_nonzero l t (xp yp : K) : yp <> 0 -> (line l t xp yp : K12) <> 0.
Proof. intros Hy E0. apply Hy. unfold line in E0. by injection E0. Qed.

Lemma double_step_nonzero xp yp (ft ft' : K12 * (K2 * K2)) :
  yp <> 0 -> fst ft <> 0 -> double_step xp yp ft = Some ft' -> fst ft' <> 0.
Proof.
  destruct ft as [f t]. intros Hy Hf. unfold double_step. destruct (tangent t) as [l|]; [|done].
  cbn [mbind option_bind]. intros H. replace ft' with (f * line l t xp yp, meet l t (fst t)) by congruence.
  cbn [fst] in *. apply k_mul_nonzero; [done|]. by apply line_nonzero.
Qed.

Lemma add_nonzero xp yp q (ft ft' : K12 * (K2 * K2)) :
  yp <> 0 -> fst ft <> 0 -> add_step xp yp q ft = Some ft' -> fst ft' <> 0.
Proof.
  destruct ft as [f t]. intros Hy Hf. unfold add_step. destruct (chord t q) as [l|]; [|done].
  cbn [mbind option_bind]. intros H. replace ft' with (f * line l t xp yp, meet l t (fst q)) by congruence.
  cbn [fst] in *. apply k_mul_nonzero; [done|]. by apply line_nonzero.
Qed.

Lemma ate_loop_nonzero xp yp q ds : yp <> 0 -> forall ft ft' : K12 * (K2 * K2),
  fst ft <> 0 -> ate_loop xp yp q ds ft = Some ft' -> fst ft' <> 0.
Proof.
  intros Hy. induction ds as [|d ds IH]; intros ft ft' Hf; cbn [ate_loop]; [by intros [= <-]|].
  destruct (double_step xp yp _) as [ft1|] eqn:E1; [|done]. cbn [mbind option_bind].
  apply double_step_nonzero in E1; [|done|by apply k_mul_nonzero].
  destruct (d =? 1); [|destruct (d =? -1)].
  - destruct (add_step xp yp q ft1) as [ft2|] eqn:E2; [|done]. cbn [mbind option_bind].
    apply IH. by eapply add_nonzero.
  - destruct (add_step xp yp (opposite q) ft1) as [ft2|] eqn:E2; [|done]. cbn [mbind option_bind].
    apply IH. by eapply add_nonzero.
  - cbn [mbind option_bind]. by apply IH.
Qed.

Lemma ate_nonzero ds q xp yp f : ate (g := g) ds q xp yp = Some f -> f <> (0 : K12).
Proof.
  unfold ate. destruct (decide (yp = 0)) as [|Hy]; [done|]. cbv zeta.
  destruct (ate_loop xp yp q ds _) as [ft|] eqn:El; [|done]. cbn [mbind option_bind].
  destruct (add_step _ _ _ ft) as [ft1|] eqn:E1; [|done]. cbn [mbind option_bind].
  destruct (add_step _ _ _ ft1) as [ft2|] eqn:E2; [|done]. cbn [mbind option_bind]. intros H.
  replace f with (fst ft2) by congruence.
  apply (add_nonzero _ _ _ _ _ Hy) in E2; [done|]. apply (add_nonzero _ _ _ _ _ Hy) in E1; [done|].
  apply (ate_loop_nonzero _ _ _ _ Hy) in El; [done|]. apply k_one_nonzero.
Qed.

(** *** The product *)

(** The digits the loop reads, most significant first, the leading one left out. *)
Definition ate_digits : list Z := rev (take count sixuPlus2NAF).

(** Miller's function of the optimal ate pairing; one where a point is infinity. *)
Definition ate_pair (A : option (K * K)) (Q : option (K2 * K2)) : option K12 :=
  match A, Q with
  | Some (xp, yp), Some q => ate (g := g) ate_digits q xp yp
  | _, _ => Some 1
  end.

Fixpoint ate_product (l : list (option (K * K) * option (K2 * K2))) : option K12 :=
  match l with
  | [] => Some 1
  | (A, Q) :: l => f ← ate_pair A Q; f' ← ate_product l; Some (f * f')
  end.

Definition stands_pair (ab : Point (E := E) * Point (E := F2El E)) (AQ : option (K * K) * option (K2 * K2)) : Prop :=
  stands (fst ab) (fst AQ) /\ stands (snd ab) (snd AQ).

Lemma infinite_is_zero (Q : Point (E := F2El E)) (B0 : option (K2 * K2)) :
  stands Q B0 -> F2_isZero (pzz Q) = bool_decide (B0 = None).
Proof. apply (isZero_stands (F := F2_ops (v_f2 V)) (FL := line_laws2 V)). Qed.

Lemma product_spec ab l : Forall2 stands_pair ab l -> forall acc (f f' : K12) s,
  s <> 0 -> f <> 0 -> f_rep acc (embed s * f) -> ate_product l = Some f' ->
  exists s', s' <> 0 /\ f' <> 0 /\ f_rep (fold_left (pairing_step V) ab acc) (embed s' * (f * f')).
Proof.
  induction 1 as [|[a b] [A Q] ab l [Ha Hb] _ IH]; intros acc f f' s Hs Hf Hacc Hp.
  - cbn [ate_product] in Hp. exists s. split; [done|]. replace f' with (1 : K12) by congruence.
    split; [apply k_one_nonzero|]. eapply f_rep_eq; [exact Hacc|ring].
  - cbn [ate_product] in Hp. destruct (ate_pair A Q) as [f1|] eqn:E1; [|done]. cbn [mbind option_bind] in Hp.
    destruct (ate_product l) as [f2|]; [|done]. cbn [mbind option_bind] in Hp.
    replace f' with (f1 * f2) by congruence. clear Hp. cbn [fst snd] in Ha, Hb. cbn [fold_left pairing_step].
    assert (Hstep : exists s1, s1 <> 0 /\ f1 <> 0 /\
      f_rep (if f_isZero (pzz a) || F2_isZero (pzz b) then acc else F12_mul (v_f12 V) acc (miller V b a))
        (embed s1 * (f * f1))).
    { rewrite (isZero_stands _ _ Ha), (infinite_is_zero _ _ Hb). destruct A as [[xp yp]|].
      - destruct Q as [q|]; cbn [ate_pair] in E1.
        + rewrite !bool_decide_eq_false_2 by done. cbn [orb].
          destruct (miller_spec V HV b a q xp yp f1 Hb Ha E1) as (s2 & Hs2 & Hm).
          exists (s * s2). split; [auto|]. split; [by eapply ate_nonzero|].
          eapply f_rep_eq; [apply (v_mul V); [exact Hacc|exact Hm]|]. rewrite <- embed_embed. ring.
        + rewrite (bool_decide_eq_true_2 (@None (K2 * K2) = None)), orb_true_r by done. exists s. split; [done|].
          replace f1 with (1 : K12) by congruence. split; [apply k_one_nonzero|]. eapply f_rep_eq; [exact Hacc|ring].
      - rewrite (bool_decide_eq_true_2 (@None (K * K) = None)) by done. cbn [orb]. exists s. split; [done|].
        cbn [ate_pair] in E1. replace f1 with (1 : K12) by congruence.
        split; [apply k_one_nonzero|]. eapply f_rep_eq; [exact Hacc|ring]. }
    destruct Hstep as (s1 & Hs1 & Hf1 & Hstep).
    destruct (IH _ (f * f1) f2 s1 Hs1 ltac:(auto) Hstep eq_refl) as (s' & Hs' & Hf2 & Hr).
    exists s'. split; [done|]. split; [auto|]. eapply f_rep_eq; [exact Hr|ring].
Qed.

Lemma pairingCheck_spec ab l f :
  Forall2 stands_pair ab l -> ate_product l = Some f ->
  pairingCheck V ab = bool_decide (zpow f (final_exponent P bn_u) = 1).
Proof.
  intros Hl Hf.
  destruct (product_spec ab l Hl (f12_fOne (v_f12 V)) 1 f 1) as (s & Hs & Hf0 & Hr);
    [apply k_one_nonzero|apply k_one_nonzero| |done|].
  { eapply f_rep_eq; [apply (f_one_rep (FieldLaws := be_12))|]. rewrite embed_one. ring. }
  unfold pairingCheck. cbv zeta.
  assert (Hsf : embed s * (1 * f) <> 0) by (apply k_mul_nonzero; [by apply embed_nonzero|auto]).
  rewrite (be_isOne12 _ _ (finalExponentiation_rep V _ _ Hr Hsf)).
  apply bool_decide_ext. rewrite final_embed by (done || auto).
  by replace (1 * f) with f by ring.
Qed.
End Product.

(** C10: [Verifier::pairingCheck], over a tower with the right constants: on points that
    stand for affine points or infinity, where no line of the textbook's Miller loop
    is vertical, it returns whether the product of the textbook's Miller functions,
    raised to the exponent of the addition chain, is one.  The factors the Jacobian
    coordinates and the division-free lines leave vanish in the exponentiation. *)
Theorem pairingCheck_correct {K E : Type} {KF : KField K} {p m : nat} {B : BnBase K p m} {g : K * K}
    {T : BnTower K p m B g} {FO : FieldOps E} {R : FieldRep K E} {L : FieldLaws K E} (V : Verifier E) ab l f :
  BnEngine (v_f2 V) (v_f6 V) (v_f12 V) -> verifier_constants (g := g) V ->
  Forall2 stands_pair ab l -> ate_product (g := g) l = Some f ->
  pairingCheck V ab = bool_decide (zpow (H := bn12) f (final_exponent (Z.of_nat p) bn_u) = k1 (KField := bn12)).
Proof. intros BE HV. by apply pairingCheck_spec. Qed.

(** ** The verifier of the program *)

(** The loop runs over the digits of [6 u + 2]. *)
Lemma ate_digits_value :
  length sixuPlus2NAF = 65%nat /\ foldr (fun d v => d + 2 * v) 0 sixuPlus2NAF = 6 * bn_u + 2 /\
  sixuPlus2NAF !! 64%nat = Some 1.
Proof. done. Qed.

(** The two moduli are the values at [u] of the polynomials of the family of curves,
    and the chain's exponent is the one of the reduced pairing. *)
Lemma bn_moduli :
  qF = 36 * bn_u ^ 4 + 36 * bn_u ^ 3 + 24 * bn_u ^ 2 + 6 * bn_u + 1 /\
  q (P := Fr_params) = 36 * bn_u ^ 4 + 36 * bn_u ^ 3 + 18 * bn_u ^ 2 + 6 * bn_u + 1 /\
  hard_part qF bn_u * q (P := Fr_params) = qF ^ 4 - qF ^ 2 + 1.
Proof. split; [|split]; vm_compute; reflexivity. Qed.

Lemma final_exponent_value : final_exponent qF bn_u = (qF ^ 12 - 1) / q (P := Fr_params).
Proof.
  destruct bn_moduli as (_ & _ & H). pose proof (q_pos (P := Fr_params)) as Hr.
  set (e := hard_part qF bn_u) in *. set (r := q (P := Fr_params)) in *. unfold final_exponent. fold e.
  apply Z.div_unique_exact; [lia|].
  transitivity ((qF ^ 6 - 1) * (qF * qF + 1) * (e * r)); [|ring]. rewrite H. ring.
Qed.

Section Program.
Context {G : Mpn} {GL : MpnLaws G} {MZ : Mpz} {ML : MpzLaws MZ}.
#[local] Existing Instances Fq_params Fq RawFr_rep bn2 bn6 bn12 F2_rep F6_rep F12_rep.

Definition gamma3 : Z * Z :=
  (2821565182194536844548159561693502659359617185244120367078079554186484126554,
   3505843767911556378687030309984248845540243509899259641013678093033130930403).

Lemma gamma3_power : gamma3 = pair_mul qF gamma2 gamma.
Proof. vm_compute. reflexivity. Qed.

(** The constructor of the verifier. *)
Lemma verifier_default fuel : exists V : Verifier Element,
  Verifier_new (S fuel) = Returns V /\ BnEngine (K := Kq) (v_f2 V) (v_f6 V) (v_f12 V) /\
  verifier_constants (K := Kq) (g := of_pair gamma) V.
Proof.
  destruct (tower_default fuel) as (anr & c1 & c2 & c3 & c4 & c5 & c6 & E2 & E6 & E12 & Ha & H1 & H2 & H5 & H3 & H4 & H6).
  destruct gamma_constants as (G2 & _ & GN & GN2 & _).
  unfold Verifier_new. rewrite E6, E12, E2. cbn [pbind].
  read gamma2 d1 D1. read gamma3 d2 D2.
  eexists. split; [reflexivity|]. split; cbn [v_f2 v_f6 v_f12].
  - exact (bn_engine anr c1 c2 c5 c3 c4 c6 Ha H1 H2 H5 H3 H4 H6).
  - assert (X2 : of_pair gamma2 = (of_pair gamma * of_pair gamma)%K) by (rewrite G2; apply pair_square_spec).
    assert (X3 : of_pair gamma3 = (of_pair gamma * of_pair gamma * of_pair gamma)%K)
      by (rewrite gamma3_power, <- X2; apply pair_mul_spec).
    unfold verifier_constants. cbn [v_xiToPMinus1Over3 v_xiToPMinus1Over2 v_xiToPSquaredMinus1Over3].
    rewrite <- X3, <- X2. split; [exact D1|]. split; [exact D2|].
    eapply f_rep_eq; [exact (read_number _ norm2 (eq_sym (proj1 (proj2 norm_literals))))|].
    rewrite GN2, of_Z_mod, GN, norm_of_pair. apply Zmod.of_Z_mul.
Qed.

(** The verifier the program constructs: its final exponentiation raises to the exponent
    of the reduced pairing, [(p^12 - 1) / r], and its product of pairings decides
    whether the product of the reduced optimal ate pairings is one. *)
Theorem verifier_correct fuel : exists V : Verifier Element,
  Verifier_new (S fuel) = Returns V /\
  (forall a (x : Kq12), f_rep a x -> x <> 0%K ->
     f_rep (finalExponentiation V a) (zpow x ((qF ^ 12 - 1) / q (P := Fr_params)))) /\
  (forall ab l (f : Kq12), Forall2 stands_pair ab l -> ate_product (g := of_pair gamma) l = Some f ->
     pairingCheck V ab = bool_decide (zpow f ((qF ^ 12 - 1) / q (P := Fr_params)) = 1%K)).
Proof.
  destruct (verifier_default fuel) as (V & EV & BE & HV). exists V. split; [exact EV|].
  assert (Ee : ((qF ^ 12 - 1) / q (P := Fr_params))%Z = final_exponent (Z.of_nat fq_p) bn_u)
    by (rewrite fq_p_Z; symmetry; apply final_exponent_value).
  rewrite Ee. split.
  - intros a x. by apply finalExponentiation_rep.
  - intros ab l f. by apply pairingCheck_spec.
Qed.
End Program.

Section ProgramInstance.
#[local] Existing Instances Fq_params Fq RawFr_rep bn2 bn6 bn12 F2_rep F6_rep F12_rep.

Lemma verifier_correct_witness : exists V : Verifier Element,
  Verifier_new 1 = Returns V /\
  (forall a (x : Kq12), f_rep a x -> x <> 0%K ->
     f_rep (finalExponentiation V a) (zpow x ((qF ^ 12 - 1) / q (P := Fr_params)))).
Proof. destruct (verifier_correct 0) as (V & E & H & _). exists V. split; [exact E|exact H]. Defined.
End ProgramInstance.

(** ** Instance: the field of 79 elements

    It has no square root of -1, and [9 + u] is neither a square nor a cube in its
    quadratic extension. *)

Section Small.

Lemma prime_79 : Z.prime 79.
Proof. by_trial 10%nat. Qed.

#[local] Instance F79 : KField (Zmod 79) := Zmod_field 79 prime_79.
#[local] Existing Instances field_class_rep bn2 bn6 bn12 F2_rep F6_rep F12_rep.
#[local] Instance F79_ops : FieldOps (Zmod 79) := field_class F79.
#[local] Instance F79_laws : FieldLaws (Zmod 79) (Zmod 79) := field_class_laws F79.
Notation s79 := (Zmod.of_Z 79).
Notation s79_2 a b := (s79 a, s79 b).

Ltac in_F79 := apply Zmod.to_Z_inj; vm_compute; reflexivity.
Ltac not_in_F79 := intros Heq; apply (f_equal Zmod.to_Z) in Heq; vm_compute in Heq; discriminate Heq.

Lemma F79_fermat (x : Zmod 79) : kpow x 79 = x.
Proof.
  assert (E : forall n, kpow x n = Zmod.pow x (Z.of_nat n)).
  { intros n. induction n as [|n IH]; [by rewrite Zmod.pow_0_r|].
    rewrite Nat2Z.inj_succ, Zmod.pow_succ_nonneg_r by lia. cbn [kpow]. by rewrite IH. }
  rewrite E. apply (Zmod.fermat x prime_79).
Qed.

#[export] Instance F79_base : BnBase (Zmod 79) 79 13.
Proof. split; [apply prime_79|in_F79|apply F79_fermat|reflexivity|in_F79]. Qed.

#[export] Instance F79_tower : BnTower (Zmod 79) 79 13 F79_base (s79 6, s79 64).
Proof. split; cbv zeta; [apply (f_equal2 pair); in_F79|not_in_F79|not_in_F79]. Qed.

(** The verifier with the constants of this tower. *)
Definition small_g : F2El (Zmod 79) := mkF2 (s79 6) (s79 64).
Definition small_F2 : F2Field (Zmod 79) := F2_initField (s79 (-1)).
Definition small_g2 : F2El (Zmod 79) := F2_mul small_F2 small_g small_g.
Definition small_F6 : F6Field (Zmod 79) :=
  F6_new small_F2 (F2_mul small_F2 small_g2 small_g2) small_g2 (s79 (24 ^ 4)) (s79 (24 ^ 2)).
Definition small_verifier : Verifier (Zmod 79) :=
  mkVerifier small_F2 small_F6 (F12_new small_F6 small_g (s79 24)) small_g2
    (F2_mul small_F2 small_g2 small_g) (s79 (24 ^ 2)).

Lemma small_engine : BnEngine (K := Zmod 79) small_F2 small_F6 (F12_new small_F6 small_g (s79 24)).
Proof.
  apply bn_engine; [in_F79|split; in_F79|split; in_F79|split; in_F79|in_F79|in_F79|in_F79].
Qed.

Lemma small_constants : verifier_constants (K := Zmod 79) (g := s79_2 6 64) small_verifier.
Proof. split; [split; in_F79|split; [split; in_F79|in_F79]]. Qed.

(** The point [(2, 3)] scaled by 5, and the point [(1, 2 + u)] of the twist. *)
Definition small_P : Point (E := Zmod 79) := mkPoint (s79 50) (s79 375) (s79 25) (s79 125).
Definition small_Q : Point (E := F2El (Zmod 79)) :=
  mkPoint (mkF2 (s79 1) (s79 0)) (mkF2 (s79 2) (s79 1)) (mkF2 (s79 1) (s79 0)) (mkF2 (s79 1) (s79 0)).
Definition small_pairs : list (option (Zmod 79 * Zmod 79) * option (Zmod 79 * Zmod 79 * (Zmod 79 * Zmod 79))) :=
  [(Some (s79 2, s79 3), Some (s79_2 1 0, s79_2 2 1)); (None, Some (s79_2 1 0, s79_2 2 1))].

Lemma small_stands :
  Forall2 stands_pair [(small_P, small_Q); (curve_zero (E := Zmod 79), small_Q)] small_pairs.
Proof.
  assert (HQ : stands small_Q (Some (s79_2 1 0, s79_2 2 1))).
  { exists (s79_2 1 0). split; [intros H; apply (f_equal fst) in H; revert H; not_in_F79|].
    repeat split; in_F79. }
  apply Forall2_cons; [|apply Forall2_cons; [|apply Forall2_nil]].
  - split; [|exact HQ]. exists (s79 5). split; [not_in_F79|]. repeat split; in_F79.
  - split; [|exact HQ]. exists (s79 1), (s79 1). split; [not_in_F79|]. repeat split; in_F79.
Qed.

Definition small_value := default (k1 (KField := bn12)) (ate_product (g := s79_2 6 64) small_pairs).

Lemma small_defined : ate_product (g := s79_2 6 64) small_pairs = Some small_value.
Proof.
  unfold small_value. destruct (ate_product _) as [f|] eqn:E; [done|].
  assert (H : (if ate_product (g := s79_2 6 64) small_pairs then true else false) = true) by (vm_compute; reflexivity).
  rewrite E in H. discriminate H.
Qed.

Lemma pairingCheck_correct_witness :
  pairingCheck small_verifier [(small_P, small_Q); (curve_zero (E := Zmod 79), small_Q)] =
  bool_decide (zpow (H := bn12) small_value (final_exponent 79 bn_u) = k1 (KField := bn12)).
Proof.
  apply (pairingCheck_correct (B := F79_base) (T := F79_tower) small_verifier _ small_pairs small_value).
  - apply small_engine.
  - apply small_constants.
  - apply small_stands.
  - apply small_defined.
Defined.
End Small.
