(* ===== verification/Verify.v ===== *)
(** The verification of a proof, [Verifier::verify] of [src/groth16.cpp]: the check of
    the number of inputs, the point of the public inputs and the four pairings. *)

From Stdlib Require Import Field Zmod String.
From S2P Require Import Prelude Limbs Gmp Mpz SplitParStr FrRaw FrElement FrElementWp FrMpz RawFr Primes Group Naf Field Dft Powers ExtField Tower TowerSpec TowerBn FftFr TowerFq TowerText TowerDefault Curve CurveSpec GroupLaw CurveClass Engine Pairing FinalExp MillerSpec PairingSpec.

(** ** Proofs and keys *)

Record ProofData (E : Type) := mkProofData {
  proof_A : PointAffine (E := E);
  proof_B : PointAffine (E := F2El E);
  proof_C : PointAffine (E := E)
}.
#[global] Arguments mkProofData {E} _ _ _.
#[global] Arguments proof_A {E} _. #[global] Arguments proof_B {E} _. #[global] Arguments proof_C {E} _.

Record VerificationKey (E : Type) := mkVerificationKey {
  Alpha : PointAffine (E := E);
  Beta : PointAffine (E := F2El E);
  Gamma : PointAffine (E := F2El E);
  Delta : PointAffine (E := F2El E);
  IC : list (PointAffine (E := E))
}.
#[global] Arguments mkVerificationKey {E} _ _ _ _ _.
#[global] Arguments Alpha {E} _. #[global] Arguments Beta {E} _. #[global] Arguments Gamma {E} _.
#[global] Arguments Delta {E} _. #[global] Arguments IC {E} _.

(** The bytes of an array of limbs. *)
Definition element_bytes (a : list Z) : list Z := flat_map (le_bytes 8) a.

Section Verify.
Context {E : Type} {FO : FieldOps E} {G : Mpn} (V : Verifier E) (g1 : CurveData E).
Let fa := cv_fa g1.

(** The loop over the inputs from [i] on. *)
Fixpoint vk_loop (key : VerificationKey E) (inputs : list Element) (i : nat) (vkX : Point) : option (Point (E := E)) :=
  match inputs with
  | [] => Some vkX
  | x :: inputs =>
      let input := RawFr_fromMontgomery (P := Fr_params) x in
      base ← IC key !! S i;
      p1 ← nafMulByScalar (PO := template_mixed fa) base (element_bytes input) 32;
      vk_loop key inputs (S i) (call2 (add fa (PArg 0) (PArg 0) (PArg 1)) vkX p1)
  end.

(** [Verifier::verify]; [inl] is the exception with its message. *)
Definition verify (proof : ProofData E) (inputs : list Element) (key : VerificationKey E) : option (string + bool) :=
  if negb (length inputs + 1 =? length (IC key))%nat then Some (inl "len(inputs)+1 != len(vk.IC)"%string)
  else
    vkX ← vk_loop key inputs 0 (curve_zero (E := E));
    ic0 ← IC key !! 0%nat;
    let vkX := call1 (addMixed fa (PArg 0) (PArg 0) ic0) vkX in
    let pA := fromAffine (proof_A proof) in
    let negAlpha := call1 (negFromAffine (PArg 0) (Alpha key)) (curve_zero (E := E)) in
    let negvkX := call2 (neg (PArg 0) (PArg 1)) (curve_zero (E := E)) vkX in
    let negC := call1 (negFromAffine (PArg 0) (proof_C proof)) (curve_zero (E := E)) in
    let F := F2_ops (v_f2 V) in
    let pB := fromAffine (F := F) (proof_B proof) in
    let pBeta := fromAffine (F := F) (Beta key) in
    let pGamma := fromAffine (F := F) (Gamma key) in
    let pDelta := fromAffine (F := F) (Delta key) in
    Some (inr (pairingCheck V [(pA, pB); (negAlpha, pBeta); (negvkX, pGamma); (negC, pDelta)])).
End Verify.

(** ** Scalars *)

Lemma element_bytes_limbs n l : limbs n l -> le_value (element_bytes l) = eval l /\
  length (element_bytes l) = (8 * n)%nat /\ Forall is_byte (element_bytes l).
Proof.
  revert n. induction l as [|x l IH]; intros n Hl.
  - destruct Hl as [Hn _]. cbn in Hn. subst n. repeat split. apply Forall_nil_2.
  - destruct n as [|n]; [by destruct Hl|]. apply limbs_cons in Hl as [Hx Hl]. destruct (IH n Hl) as (Hv & Hlen & Hb).
    cbn [element_bytes flat_map]. change (flat_map (le_bytes 8) l) with (element_bytes l).
    assert (Hval : forall a b, le_value (a ++ b) = le_value a + 2 ^ (8 * Z.of_nat (length a)) * le_value b).
    { intros a b. induction a as [|c a IHa]; cbn [app le_value length]; [cbn; lia|]. rewrite IHa.
      replace (8 * Z.of_nat (S (length a))) with (8 + 8 * Z.of_nat (length a)) by lia. rewrite Z.pow_add_r by lia. ring. }
    rewrite Hval, length_app, le_bytes_length, Hv, Hlen, le_value_bytes by exact Hx. cbn [eval].
    split; [reflexivity|]. split; [lia|]. apply Forall_app. split; [apply le_bytes_byte|done].
Qed.

Lemma input_bytes {G : Mpn} {GL : MpnLaws G} x s : elem (P := Fr_params) x s ->
  let bs := element_bytes (RawFr_fromMontgomery (P := Fr_params) x) in
  le_value bs = s /\ length bs = 32%nat /\ Forall is_byte bs.
Proof.
  intros [Hs Hx]. pose proof (from_mont _ _ Hx Hs) as (Hl & Hv & _).
  destruct (element_bytes_limbs _ _ Hl) as (H1 & H2 & H3). cbv zeta. unfold RawFr_fromMontgomery.
  rewrite H1, Hv. done.
Qed.

(** ** Copies and negations of affine points *)

Section Points.
Context {K E : Type} {KF : KField K} {F : FieldOps E} {FR : FieldRep K E} {FL : FieldLaws K E}
  (b : K) (Hc : curve_ok 0%K b).
Add Field K_field_vp : (k_theory (K := K)).
#[local] Open Scope field_scope.

Lemma fromAffine_stands p A : stands_affine p A -> on_curve 0 b A -> stands (fromAffine p) A.
Proof.
  intros Hp HA. destruct (sums_copyFromAffine 0 b Hc (PArg 0) p (fresh (curve_zero (E := E))) A Hp HA) as (P & [HP _] & Hs).
  unfold fromAffine. by rewrite HP.
Qed.

Lemma negFromAffine_stands p r (x y : K) : stands_affine p (Some (x, y)) ->
  stands (call1 (negFromAffine (E := E) (PArg 0) p) r) (aff_opp (Some (x, y))).
Proof.
  intros [Hx Hy]. change (call1 (negFromAffine (PArg 0) p) r) with (mkPoint (ax p) (f_neg (ay p)) f_one f_one).
  exists 1. split; [apply k_one_nonzero|]. cbn [px py pzz pzzz].
  split; [eapply f_rep_eq; [exact Hx|ring]|]. split; [eapply f_rep_eq; [by apply f_neg_rep|ring]|].
  split; (eapply f_rep_eq; [apply f_one_rep|ring]).
Qed.

Lemma neg_stands p r A : stands p A -> stands (call2 (E := E) (neg (PArg 0) (PArg 1)) r p) (aff_opp A).
Proof.
  intros Hp. destruct (sums_neg (PArg 0) (PArg 1) (args r p) A Hp) as (P & [HP _] & Hs). unfold call2. by rewrite HP.
Qed.
End Points.

(** ** The point of the public inputs *)

Section VkX.
Context {K E : Type} {KF : KField K} {F : FieldOps E} {FR : FieldRep K E} {FV : FieldVal K E} {FL : FieldLaws K E}
  {GM : Mpn} {GML : MpnLaws GM} (b : K) (Hc : curve_ok 0%K b) (g1 : CurveData E) (Hg : f_rep (cv_fa g1) (0%K : K)).
Notation G1 := (curve_point (0%K : K) b).
#[local] Instance g1_group_laws : AbGroupLaws G1 := curve_group_laws _ _ Hc.

(** [IC[0] + sum of input_i IC[i + 1]] *)
Definition vk_x (X0 : G1) (Xs : list G1) (ss : list Z) : G1 := gplus (gsum (zip_with zmul ss Xs)) X0.

Lemma zero_value : point_val (0%K : K) b (curve_zero (E := E)) = gzero.
Proof. apply curve_point_eq. exact (point_val_stands _ _ _ _ zero_stands I). Qed.

Lemma value_stands p X : point_ok (0%K : K) b p -> point_val (0%K : K) b p = X -> stands p (proj1_sig X).
Proof. intros (A & Hs & Hon) <-. by rewrite (point_val_stands _ _ _ _ Hs Hon). Qed.

Definition ic_point (p : PointAffine (E := E)) (X : G1) : Prop := stands_affine p (proj1_sig X).

Lemma ic_value p X : ic_point p X -> affine_ok (0%K : K) b p /\ affine_val (0%K : K) b p = X.
Proof.
  intros Hp. pose proof (curve_point_on _ _ X) as Hon. split; [by exists (proj1_sig X)|].
  apply curve_point_eq. by apply affine_val_stands.
Qed.

Lemma vk_loop_spec key X0 Xs : Forall2 ic_point (IC key) (X0 :: Xs) ->
  forall (inputs : list Element) ss, Forall2 (elem (P := Fr_params)) inputs ss ->
  forall i vkX, point_ok (0%K : K) b vkX -> (i + length inputs <= length Xs)%nat ->
  exists r, vk_loop g1 key inputs i vkX = Some r /\ point_ok (0%K : K) b r /\
    point_val (0%K : K) b r = gplus (point_val (0%K : K) b vkX) (gsum (zip_with zmul ss (drop i Xs))).
Proof.
  intros HIC. induction 1 as [|x s inputs ss Hx _ IH]; intros i vkX Hok Hi.
  - exists vkX. split; [done|]. split; [done|]. change (gsum (zip_with zmul [] (drop i Xs))) with (gzero : G1).
    by rewrite gplus_0_r.
  - cbn [length] in Hi. destruct (lookup_lt_is_Some_2 Xs i) as [X HX]; [lia|].
    destruct (Forall2_lookup_r _ _ _ (S i) X HIC HX) as (p & Hp & HpX). apply ic_value in HpX as [Hpok Hpv].
    cbn [vk_loop]. rewrite Hp. cbn [mbind option_bind].
    destruct (input_bytes x s Hx) as (Hv & Hl & Hb).
    destruct (nafMulByScalar_spec (H0 := template_mixed (cv_fa g1)) (H1 := sem_mixed 0%K b (cv_fa g1)) (PL := template_mixed_laws _ _ _ Hg Hc) p _ Hpok Hb) as (r & Er & Hr & Hrv); [lia|by rewrite Hl|].
    cbn [out_ok out_val in_val sem_mixed] in Hr, Hrv. rewrite Hl in Er. change (Z.of_nat 32) with 32 in Er. rewrite Er. cbn [mbind option_bind].
    destruct (add_law _ _ _ Hg Hc vkX r Hok Hr) as [Ha Hav].
    destruct (IH (S i) _ Ha ltac:(lia)) as (r' & Er' & Hr' & Hv').
    exists r'. split; [exact Er'|]. split; [exact Hr'|].
    rewrite Hv', Hav, Hrv, Hpv, Hv, (drop_S _ _ _ HX), <- gplus_assoc. done.
Qed.

(** The point of the verification equation. *)
Lemma vk_point_spec key X0 Xs (inputs : list Element) ss :
  Forall2 ic_point (IC key) (X0 :: Xs) -> Forall2 (elem (P := Fr_params)) inputs ss -> length inputs = length Xs ->
  exists r ic0, vk_loop g1 key inputs 0 (curve_zero (E := E)) = Some r /\ IC key !! 0%nat = Some ic0 /\
    stands (call1 (addMixed (cv_fa g1) (PArg 0) (PArg 0) ic0) r) (proj1_sig (vk_x X0 Xs ss)).
Proof.
  intros HIC Hin Heq. destruct (vk_loop_spec key X0 Xs HIC inputs ss Hin 0 (curve_zero (E := E))) as (r & Er & Hr & Hrv);
    [by exists None; split; [apply zero_stands|]|lia|].
  destruct (IC key) as [|ic0 ics] eqn:EIC; [inversion HIC|]. exists r, ic0. split; [exact Er|]. split; [done|].
  apply Forall2_cons_1 in HIC as [Hic0 _]. destruct (ic_value _ _ Hic0) as [Hok0 Hv0].
  destruct (pt_add_law (PointLaws := template_mixed_laws _ _ _ Hg Hc) r ic0 Hr Hok0) as [Hx Hxv].
  apply value_stands; [exact Hx|]. etransitivity; [exact Hxv|]. cbn [out_val in_val sem_mixed].
  rewrite Hrv, Hv0, zero_value, gplus_0_l. done.
Qed.
End VkX.

(** ** The verification *)

Section Correct.
Context {K E : Type} {KF : KField K} {p m : nat} {B : BnBase K p m} {g : K * K} {T : BnTower K p m B g}
  {FO : FieldOps E} {R : FieldRep K E} {FV : FieldVal K E} {L : FieldLaws K E} {GM : Mpn} {GML : MpnLaws GM}
  (V : Verifier E) {BE : BnEngine (v_f2 V) (v_f6 V) (v_f12 V)} (HV : verifier_constants (g := g) V)
  (b1 : K) (Hc1 : curve_ok 0%K b1) (g1 : CurveData E) (Hg : f_rep (cv_fa g1) (0%K : K)).
#[local] Existing Instances bn2 bn6 bn12 F2_rep F6_rep F12_rep.
Context (b2 : K * K) (Hc2 : curve_ok 0%K b2).
Notation G1 := (curve_point (0%K : K) b1).

(** The pairs of points whose product of pairings is to be one. *)
Definition verification_pairs (A C alpha : apoint (K := K)) (X : G1) (B_ beta gamma delta : apoint (K := K * K)) :
    list (apoint (K := K) * apoint (K := K * K)) :=
  [(A, B_); (aff_opp alpha, beta); (aff_opp (proj1_sig X), gamma); (aff_opp C, delta)].

(** What the arguments stand for; infinity as [alpha] or [C] is excluded, since the code
    does not negate it. *)
Record arguments_ok (proof : ProofData E) (key : VerificationKey E) (A C alpha : apoint (K := K)) (X0 : G1) (Xs : list G1)
    (B_ beta gamma delta : apoint (K := K * K)) : Prop := {
  ok_A : stands_affine (proof_A proof) A /\ on_curve 0%K b1 A;
  ok_B : stands_affine (proof_B proof) B_ /\ on_curve 0%K b2 B_;
  ok_C : stands_affine (proof_C proof) C /\ C <> None;
  ok_alpha : stands_affine (Alpha key) alpha /\ alpha <> None;
  ok_beta : stands_affine (Beta key) beta /\ on_curve 0%K b2 beta;
  ok_gamma : stands_affine (Gamma key) gamma /\ on_curve 0%K b2 gamma;
  ok_delta : stands_affine (Delta key) delta /\ on_curve 0%K b2 delta;
  ok_IC : Forall2 (ic_point b1) (IC key) (X0 :: Xs)
}.

Lemma verify_spec proof (inputs : list Element) key A C alpha X0 Xs B_ beta gamma delta ss f :
  arguments_ok proof key A C alpha X0 Xs B_ beta gamma delta ->
  Forall2 (elem (P := Fr_params)) inputs ss ->
  (length inputs <> length Xs -> verify V g1 proof inputs key = Some (inl "len(inputs)+1 != len(vk.IC)"%string)) /\
  (length inputs = length Xs ->
   ate_product (g := g) (verification_pairs A C alpha (vk_x b1 X0 Xs ss) B_ beta gamma delta) = Some f ->
   verify V g1 proof inputs key =
     Some (inr (bool_decide (zpow (H := bn12) f (final_exponent (Z.of_nat p) bn_u) = k1 (KField := bn12))))).
Proof.
  intros Hargs Hin. pose proof (Forall2_length (ok_IC _ _ _ _ _ _ _ _ _ _ _ Hargs)) as Hlen. cbn [length] in Hlen.
  unfold verify. split.
  { intros Hne. destruct (Nat.eqb_spec (length inputs + 1) (length (IC key))); [exfalso; lia|reflexivity]. }
  intros Heq Hf. rewrite Heq, Hlen, Nat.add_1_r, Nat.eqb_refl. cbn [negb].
  destruct Hargs as [[HA HoA] [HB HoB] [HC HnC] [Ha Hna] [Hb Hob] [Hgm Hog] [Hd Hod] HIC].
  destruct (vk_point_spec b1 Hc1 g1 Hg key X0 Xs inputs ss HIC Hin Heq) as (r & ic0 & Er & Ei & Hx).
  rewrite Er. cbn [mbind option_bind]. rewrite Ei. cbn [mbind option_bind].
  f_equal. f_equal. eapply (pairingCheck_spec V HV); [|exact Hf].
  destruct C as [[xc yc]|]; [|done]. destruct alpha as [[xa ya]|]; [|done].
  repeat apply Forall2_cons; try apply Forall2_nil; split; cbn [fst snd].
  - by apply (fromAffine_stands b1 Hc1).
  - apply (fromAffine_stands (F := F2_ops (v_f2 V)) (FL := line_laws2 V) b2 Hc2); done.
  - by apply negFromAffine_stands.
  - apply (fromAffine_stands (F := F2_ops (v_f2 V)) (FL := line_laws2 V) b2 Hc2); done.
  - by apply neg_stands.
  - apply (fromAffine_stands (F := F2_ops (v_f2 V)) (FL := line_laws2 V) b2 Hc2); done.
  - by apply negFromAffine_stands.
  - apply (fromAffine_stands (F := F2_ops (v_f2 V)) (FL := line_laws2 V) b2 Hc2); done.
Qed.
End Correct.

(** C8: [Verifier::verify], over a tower with the right constants and a curve object with
    [a = 0]: it throws when the number of inputs does not fit the key, and otherwise
    returns whether the product of the four reduced optimal ate pairings of the Groth16
    equation is one, with [IC[0]] plus the multiples of the other points by the inputs,
    computed in the group of the curve.  All points but [alpha] and [C] may be infinity;
    their lines must not be vertical, as for the pairing. *)
Theorem verify_correct {K E : Type} {KF : KField K} {p m : nat} {B : BnBase K p m} {g : K * K} {T : BnTower K p m B g}
    {FO : FieldOps E} {R : FieldRep K E} {FV : FieldVal K E} {L : FieldLaws K E} {GM : Mpn} {GML : MpnLaws GM}
    (V : Verifier E) (b1 : K) (b2 : K * K) (g1 : CurveData E)
    proof (inputs : list Element) key A C alpha X0 Xs B_ beta gamma delta ss f :
  BnEngine (v_f2 V) (v_f6 V) (v_f12 V) -> verifier_constants (g := g) V ->
  curve_ok 0%K b1 -> @curve_ok _ bn2 (@k0 _ bn2) b2 -> f_rep (cv_fa g1) (0%K : K) ->
  arguments_ok b1 b2 proof key A C alpha X0 Xs B_ beta gamma delta ->
  Forall2 (elem (P := Fr_params)) inputs ss ->
  (length inputs <> length Xs -> verify V g1 proof inputs key = Some (inl "len(inputs)+1 != len(vk.IC)"%string)) /\
  (length inputs = length Xs ->
   ate_product (g := g) (verification_pairs b1 A C alpha (vk_x b1 X0 Xs ss) B_ beta gamma delta) = Some f ->
   verify V g1 proof inputs key =
     Some (inr (bool_decide (zpow (H := bn12) f (final_exponent (Z.of_nat p) bn_u) = k1 (KField := bn12))))).
Proof. intros BE HV Hc1 Hc2 Hg. by apply verify_spec. Qed.

(** ** The verifier of the program *)

Section Program.
Context {G : Mpn} {GL : MpnLaws G} {MZ : Mpz} {ML : MpzLaws MZ}.
#[local] Existing Instances Fq_params Fq RawFr_rep bn2 bn6 bn12 F2_rep F6_rep F12_rep.

(** The verifier and the engine the program constructs verify a proof by the Groth16
    equation over the two curves of the engine, with the exponent [(p^12 - 1) / r] of
    the reduced pairing. *)
Lemma program_verify_spec fuel : exists (V : Verifier Element) (EN : EngineData Element),
  Verifier_new (S fuel) = Returns V /\ Engine_new (S fuel) = Returns EN /\
  forall proof (inputs : list Element) key A C alpha X0 Xs B_ beta gamma delta ss f,
    arguments_ok (three : Kq) (of_pair twist_b) proof key A C alpha X0 Xs B_ beta gamma delta ->
    Forall2 (elem (P := Fr_params)) inputs ss -> length inputs = length Xs ->
    ate_product (g := of_pair TowerFq.gamma)
      (verification_pairs three A C alpha (vk_x three X0 Xs ss) B_ beta gamma delta) = Some f ->
    verify V (en_g1 EN) proof inputs key =
      Some (inr (bool_decide (zpow f ((qF ^ 12 - 1) / q (P := Fr_params)) = (1%K : Kq12)))).
Proof.
  destruct (verifier_default fuel) as (V & EV & BE & HV). destruct (engine_default fuel) as (EN & EE & H1 & _).
  exists V, EN. split; [exact EV|]. split; [exact EE|].
  intros proof inputs key A C alpha X0 Xs B_ beta gamma delta ss f Hargs Hin Hlen Hf.
  destruct (verify_spec (BE := BE) V HV three g1_curve_ok (en_g1 EN) (proj1 H1) (of_pair twist_b) g2_curve_ok
    proof inputs key A C alpha X0 Xs B_ beta gamma delta ss f Hargs Hin) as [_ H].
  rewrite (H Hlen Hf), fq_p_Z, final_exponent_value. done.
Qed.
End Program.

(** ** Instance: over the field of 79 elements *)

Section Small.
#[local] Existing Instances F79 field_class_rep bn2 bn6 bn12 F2_rep F6_rep F12_rep.
#[local] Existing Instance F79_ops.
#[local] Existing Instance F79_laws.
Notation s79 := (Zmod.of_Z 79).
Notation s79_2 a b := (s79 a, s79 b).

Ltac in_F79 := apply Zmod.to_Z_inj; vm_compute; reflexivity.
Ltac not_in_F79 := intros Heq; apply (f_equal Zmod.to_Z) in Heq; vm_compute in Heq; discriminate Heq.

#[local] Instance F79_val : FieldVal (Zmod 79) (Zmod 79) := {| f_val e := e; f_val_rep e x H := H |}.

Definition small_g1 : CurveData (Zmod 79) := initCurve (s79 0) (s79 1) (s79 2) (s79 3).
Definition small_A : apoint (K := Zmod 79) := Some (s79 2, s79 3).
Definition small_B : apoint (K := Zmod 79 * Zmod 79) := Some (s79_2 1 0, s79_2 2 1).

Lemma small_curve : curve_ok (k0 : Zmod 79) (s79 1).
Proof. apply curve_ok_zero; not_in_F79. Qed.

Lemma small_twist : @curve_ok _ bn2 (@k0 _ bn2) (s79_2 2 4).
Proof. apply curve_ok_zero; intros H; apply (f_equal fst) in H; revert H; not_in_F79. Qed.

Lemma small_A_on : on_curve (k0 : Zmod 79) (s79 1) small_A.
Proof. in_F79. Qed.
Lemma small_B_on : @on_curve _ bn2 (@k0 _ bn2) (s79_2 2 4) small_B.
Proof. apply (f_equal2 pair); in_F79. Qed.

Definition small_X : curve_point (k0 : Zmod 79) (s79 1) := to_curve _ _ small_A small_A_on.
Definition small_proof : ProofData (Zmod 79) :=
  mkProofData (mkPointAffine (s79 2) (s79 3)) (mkPointAffine (mkF2 (s79 1) (s79 0)) (mkF2 (s79 2) (s79 1)))
    (mkPointAffine (s79 2) (s79 3)).
Definition small_key : VerificationKey (Zmod 79) :=
  let P := proof_A small_proof in let Q := proof_B small_proof in
  mkVerificationKey P Q Q Q [P; P].
Definition small_input : Element := of_Z 4 (mont (P := Fr_params) 3).

Lemma small_input_ok : elem (P := Fr_params) small_input 3.
Proof. split; [split; [vm_compute; discriminate|vm_compute; reflexivity]|]. apply rep_of_Z, mont_range. Qed.

Definition small_quad :=
  verification_pairs (s79 1) small_A small_A small_A (vk_x (s79 1) small_X [small_X] [3]) small_B small_B small_B small_B.
Definition small_f := default (k1 (KField := bn12)) (ate_product (g := s79_2 6 64) small_quad).

Lemma small_quad_defined : ate_product (g := s79_2 6 64) small_quad = Some small_f.
Proof.
  unfold small_f. destruct (ate_product _) as [f|] eqn:E; [done|].
  assert (H : (if ate_product (g := s79_2 6 64) small_quad then true else false) = true) by (vm_compute; reflexivity).
  rewrite E in H. discriminate H.
Qed.

Lemma small_arguments : arguments_ok (s79 1) (s79_2 2 4) small_proof small_key small_A small_A small_A small_X [small_X]
  small_B small_B small_B small_B.
Proof.
  assert (HA : stands_affine (mkPointAffine (s79 2) (s79 3)) small_A) by (split; reflexivity).
  assert (HB : stands_affine (mkPointAffine (mkF2 (s79 1) (s79 0)) (mkF2 (s79 2) (s79 1))) small_B)
    by (split; split; reflexivity).
  split; try (split; [assumption|first [apply small_A_on | apply small_B_on | discriminate]]).
  apply Forall2_cons; [exact HA|]. apply Forall2_cons; [exact HA|apply Forall2_nil].
Qed.

Lemma verify_correct_witness :
  verify small_verifier small_g1 small_proof [small_input] small_key =
    Some (inr (bool_decide (zpow (H := bn12) small_f (final_exponent 79 bn_u) = k1 (KField := bn12)))) /\
  verify small_verifier small_g1 small_proof [] small_key = Some (inl "len(inputs)+1 != len(vk.IC)"%string).
Proof.
  split.
  - apply (verify_correct (B := F79_base) (T := F79_tower) small_verifier (s79 1) (s79_2 2 4) small_g1 small_proof
      [small_input] small_key small_A small_A small_A small_X [small_X] small_B small_B small_B small_B [3] small_f).
    + apply small_engine.
    + apply small_constants.
    + apply small_curve.
    + apply small_twist.
    + reflexivity.
    + apply small_arguments.
    + apply Forall2_cons; [apply small_input_ok|apply Forall2_nil].
    + reflexivity.
    + apply small_quad_defined.
  - apply (verify_correct (B := F79_base) (T := F79_tower) small_verifier (s79 1) (s79_2 2 4) small_g1 small_proof
      [] small_key small_A small_A small_A small_X [small_X] small_B small_B small_B small_B [] small_f).
    + apply small_engine.
    + apply small_constants.
    + apply small_curve.
    + apply small_twist.
    + reflexivity.
    + apply small_arguments.
    + apply Forall2_nil.
    + discriminate.
Defined.
End Small.
