(* ===== verification/MultiExpCurve.v ===== *)
(** The multi-exponentiation on the curve template: [reduce] begins its sums with points
    whose bytes are all zero, which the additions and doublings take for zero, though
    they are not the zero point of the class; and what [Curve::eq] makes of them. *)

From Stdlib Require Import Field Zmod.
From S2P Require Import Prelude Mpz Group Field Naf Loops Parallel Msm MsmSpec Curve CurveSpec GroupLaw CurveClass Primes ExtField TowerBn PairingSpec Verify MultiExp MultiExpSpec.

Section Template.
Context {E : Type} {F : FieldOps E} (fa : E).
Notation point := (Point (E := E)).
Notation affine := (PointAffine (E := E)).

(** [memset(..., 0, ...)]: the zero of the field classes is made of zero bytes. *)
Definition bytes0_point : point := mkPoint f_zero f_zero f_zero f_zero.

Definition template_zeros : ZeroOps affine point := {|
  aff_isZero := isZeroAffine;
  pt_isZero p := f_isZero (pzz p);
  pt_bytes0 := bytes0_point
|}.

Lemma exec_isZero {A} p (k : bool -> pcmd (E := E) A) m :
  exec (sbind (isZero p) k) m = exec (k (f_isZero (pzz (m p)))) m.
Proof. done. Qed.

(** The calls on zeros copy their other operand. *)
Lemma zero_dbl r : f_isZero (pzz r) = true -> call1 (dbl fa (PArg 0) (PArg 0)) r = r.
Proof.
  intros Hz. unfold call1, dbl. rewrite exec_isZero. change (args r r (PArg 0)) with r. rewrite Hz. by destruct r.
Qed.

Lemma zero_add_l r s : f_isZero (pzz r) = true -> call2 (add fa (PArg 0) (PArg 0) (PArg 1)) r s = s.
Proof.
  intros Hz. unfold call2, add. rewrite exec_isZero. change (args r s (PArg 0)) with r. rewrite Hz. by destruct s.
Qed.

Lemma zero_add_r r s : f_isZero (pzz r) = false -> f_isZero (pzz s) = true ->
  call2 (add fa (PArg 0) (PArg 0) (PArg 1)) r s = r.
Proof.
  intros Hr Hs. unfold call2, add. rewrite exec_isZero. change (args r s (PArg 0)) with r. rewrite Hr.
  rewrite exec_isZero. change (args r s (PArg 1)) with s. rewrite Hs. by destruct r.
Qed.

Lemma zero_addMixed r s q : f_isZero (pzz r) = true -> f_isZero (pzz s) = true ->
  call1 (addMixed fa (PArg 0) (PArg 0) q) r = call1 (addMixed fa (PArg 0) (PArg 0) q) s.
Proof.
  intros Hr Hs. unfold call1, addMixed. rewrite !exec_isZero. change (args r r (PArg 0)) with r. change (args s s (PArg 0)) with s.
  rewrite Hr, Hs. unfold copyFromAffine. by destruct (isZeroAffine q).
Qed.
End Template.

Section Laws.
Context {K E : Type} {KF : KField K} {F : FieldOps E} {FR : FieldRep K E} {FV : FieldVal K E} {FL : FieldLaws K E}.
Context (a b : K) (fa : E) (Hfa : f_rep fa a) (Hcurve : curve_ok a b).
Add Field K_field_mc : (k_theory (K := K)).
#[local] Open Scope field_scope.
Notation point := (Point (E := E)).
Notation affine := (PointAffine (E := E)).
Notation G := (curve_point a b).

#[local] Instance mc_group_laws : AbGroupLaws G := curve_group_laws _ _ Hcurve.

(** Any point the class takes for zero. *)
Definition zero_like (p : point) : Prop := f_rep (pzz p) 0.

Definition point_ok0 (p : point) : Prop := point_ok a b p \/ zero_like p.

Lemma zero_like_isZero p : zero_like p -> f_isZero (pzz p) = true.
Proof. intros H. rewrite (f_isZero_rep _ _ H). by apply bool_decide_eq_true_2. Qed.

Lemma zero_like_val p : zero_like p -> point_val a b p = gzero.
Proof.
  intros H. unfold point_val. rewrite (f_val_rep _ _ H), decide_True by done. apply curve_point_eq. by rewrite at_point_on.
Qed.

Lemma isZero_like p : point_ok a b p -> f_isZero (pzz p) = true -> zero_like p.
Proof.
  intros (A & Hs & _) Hz. rewrite (isZero_stands _ _ Hs) in Hz. apply bool_decide_eq_true in Hz. subst A.
  by destruct Hs as (x & y & _ & _ & _ & H & _).
Qed.

Definition sem0 : @PointSem G affine point _ (template_mixed fa) :=
  @Build_PointSem G affine point _ (template_mixed fa) (affine_ok a b) point_ok0 (affine_val a b) (point_val a b).

Lemma zero_ok : point_ok a b (curve_zero (E := E)) /\ zero_like (curve_zero (E := E)).
Proof. split; [exists None; split; [apply zero_stands|done]|]. exact f_zero_rep. Qed.

(** Adding to a zero is adding to the zero. *)
Lemma mixed_law0 (q' : affine) p (Y : G) : point_ok0 p ->
  (forall r, point_ok a b r -> let c := call1 (addMixed fa (PArg 0) (PArg 0) q') r in
     point_ok a b c /\ point_val a b c = gplus (point_val a b r) Y) ->
  let c := call1 (addMixed fa (PArg 0) (PArg 0) q') p in point_ok0 c /\ point_val a b c = gplus (point_val a b p) Y.
Proof.
  intros [Hp|Hp] H; [destruct (H p Hp); split; [by left|done]|]. cbn zeta.
  destruct zero_ok as [Hzo Hz]. rewrite (zero_addMixed fa p curve_zero q') by (by apply zero_like_isZero).
  destruct (H _ Hzo) as [H1 H2]. split; [by left|]. rewrite H2. by rewrite !zero_like_val.
Qed.

Lemma template_laws0 : @CurveLaws G affine point _ (template_curve fa) sem0.
Proof.
  pose proof (template_mixed_laws a b fa Hfa Hcurve) as L. destruct zero_ok as [Hzo Hzl].
  split; [split; cbn [pt_zero pt_dbl pt_add pt_sub in_ok out_ok in_val out_val sem0 template_mixed mixed_ops template_curve]|].
  - split; [by left|]. apply (pt_zero_law (PointLaws := L)).
  - intros r [Hr|Hr].
    + destruct (pt_dbl_law (PointLaws := L) r Hr) as [H1 H2]. split; [by left|exact H2].
    + rewrite zero_dbl by (by apply zero_like_isZero). split; [by right|]. by rewrite zero_like_val, gplus_0_l.
  - intros r q Hr Hq. apply (mixed_law0 q r _ Hr). intros p Hp. exact (pt_add_law (PointLaws := L) p q Hp Hq).
  - intros r q Hr Hq. apply (mixed_law0 (negAffine q) r _ Hr). intros p Hp. exact (pt_sub_law (PointLaws := L) p q Hp Hq).
  - intros r s Hr Hs. cbn [pt_plus template_curve].
    destruct Hr as [Hr|Hr]; [|rewrite zero_add_l by (by apply zero_like_isZero); split; [done|];
      by cbn [out_val sem0]; rewrite (zero_like_val r), gplus_0_l].
    destruct Hs as [Hs|Hs].
    + destruct (add_law a b fa Hfa Hcurve r s Hr Hs) as [H1 H2]. split; [by left|exact H2].
    + destruct (f_isZero (pzz r)) eqn:Ez.
      * rewrite zero_add_l by done. split; [by right|]. pose proof (isZero_like r Hr Ez) as Hz. cbn [out_val sem0].
        by rewrite (zero_like_val r), gplus_0_l.
      * rewrite zero_add_r by (done || by apply zero_like_isZero). split; [by left|]. cbn [out_val sem0].
        by rewrite (zero_like_val s), gplus_0_r.
Qed.

Lemma template_zero_laws : @ZeroLaws G affine point _ (template_curve fa) sem0 template_zeros.
Proof.
  split; cbn [aff_isZero pt_isZero pt_bytes0 in_ok out_ok in_val out_val sem0 template_zeros].
  - intros q (A & Hq & HA) Hz. rewrite (isZeroAffine_stands a b Hcurve _ _ Hq HA) in Hz. apply bool_decide_eq_true in Hz. subst A.
    apply curve_point_eq. by rewrite (affine_val_stands a b Hcurve q None).
  - intros p [Hp|Hp] Hz; apply zero_like_val; [by apply isZero_like|done].
  - assert (H : zero_like (bytes0_point (E := E))) by exact f_zero_rep. split; [by right|by apply zero_like_val].
Qed.

(** [Curve::eq] asks its second operand only when the first is zero: a point whose bytes
    are zero is equal to any point on its left. *)
Lemma eq_bytes0 p1 p2 m x y :
  stands (m p1) (Some (x, y)) -> m p2 = bytes0_point -> pwp (eq p1 p2) (fun r m' => r = true /\ m' = m) m.
Proof.
  intros H1 H2. unfold eq. repeat pstep. rewrite (isZero_stands _ _ H1), bool_decide_eq_false_2 by done. repeat pstep.
  split; [|done]. rewrite H2. unfold bytes0_point. cbn [px py pzz pzzz].
  destruct H1 as (z & Hz & Hx & Hy & Hzz & Hzzz).
  assert (Hzero : forall u v x y, f_rep u x -> f_rep v y -> f_isZero (f_sub (f_mul f_zero u) (f_mul v f_zero)) = true).
  { intros u v x' y' Hu Hv. rewrite (f_isZero_rep _ 0).
    - by apply bool_decide_eq_true_2.
    - eapply f_rep_eq; [apply f_sub_rep; apply f_mul_rep; (exact Hu || exact Hv || apply f_zero_rep)|ring]. }
  by rewrite (Hzero _ _ _ _ Hzz Hx), (Hzero _ _ _ _ Hzzz Hy).
Qed.
End Laws.

(** On the curve the multi-exponentiation computes in the group of the points. *)
Lemma multiexp_on_curve {K E : Type} {KF : KField K} {F : FieldOps E} {FR : FieldRep K E} {FV : FieldVal K E} {FL : FieldLaws K E}
    (a b : K) (fa : E) (Hfa : f_rep fa a) (Hcurve : curve_ok a b) (terms : list (list Z * PointAffine (E := E))) scalarSize nThreads L :
  8 <= scalarSize < 2 ^ 24 ->
  Forall (fun t => Z.of_nat (length (fst t)) = scalarSize /\ Forall is_byte (fst t) /\ affine_ok a b (snd t)) terms ->
  Z.of_nat (length terms) < 2 ^ 31 -> 1 <= nThreads < 2 ^ 32 ->
  let n := Z.of_nat (length terms) in
  let bits := me_bitsPerChunk n in
  (2 <= n -> omp_logs_ok nThreads n (2 ^ bits) (me_nChunks scalarSize bits) L) ->
  exists r, multiexp (C := template_curve fa) (Z0 := template_zeros) nThreads L (map snd terms) (concat (map fst terms)) scalarSize n = Some r /\
    point_ok0 a b r /\
    point_val a b r = gsum (G := curve_point a b) (map (fun t => zmul (le_value (fst t)) (affine_val a b (snd t))) terms).
Proof.
  intros Hsize Hterms Hlen Ht n bits Hlogs.
  exact (multiexp_spec (C := template_curve fa) (S0 := sem0 a b fa) (Z0 := template_zeros)
    (CL := template_laws0 a b fa Hfa Hcurve) (GL := curve_group_laws _ _ Hcurve) (ZL := template_zero_laws a b fa Hcurve)
    terms scalarSize nThreads L Hsize Hterms Hlen Ht Hlogs).
Qed.

(** ** Instance: the multiples of two points by zero, on the curve over 79 elements

    The result is the point of zero bytes, which [Curve::eq] finds equal to [(2, 3)]. *)
#[local] Existing Instances F79 F79_ops.

Definition zero_scalars_result : option (Point (E := Zmod 79)) :=
  let P := mkPointAffine (Zmod.of_Z 79 2) (Zmod.of_Z 79 3) in
  let in_order b n := map (fun i => (i, 0)) (seqZ b n) in
  multiexp (C := template_curve (Zmod.of_Z 79 0)) (Z0 := template_zeros) 1
    (mkMultiexpLogs (in_order 0 4) (fun _ => in_order 0 2) (fun _ => in_order 0 4)
      (fun _ k => in_order 1 (2 ^ (Z.of_nat k - 1) - 1)))
    [P; P] (replicate 16 0) 8 2.

Example zero_scalars_bytes0 : option_map (fun p => map Zmod.to_Z [px p; py p; pzz p; pzzz p]) zero_scalars_result = Some [0; 0; 0; 0].
Proof. vm_compute. reflexivity. Qed.

Example zero_scalars_equal : option_map (fun p =>
    result (eq (PArg 0) (PArg 1)) (args (mkPoint (Zmod.of_Z 79 2) (Zmod.of_Z 79 3) (Zmod.of_Z 79 1) (Zmod.of_Z 79 1)) p))
  zero_scalars_result = Some true.
Proof. vm_compute. reflexivity. Qed.
