(* ===== verification/Json.v ===== *)
(** Values of the JSON library, [depends/json/single_include/nlohmann/json.hpp]: the
    accessors and the serialization the provers and verifiers call.  An object is its
    pairs in the order of the keys.  Parsing is left to an interface; so are the texts
    of floating-point numbers and of strings outside ASCII. *)

From Stdlib Require Import String Ascii DecimalString.
From S2P Require Import Prelude.

Inductive json :=
  | jnull
  | jboolean (b : bool)
  | jnumber_integer (z : Z)
  | jnumber_float (bits : Z)
  | jstring (s : string)
  | jarray (l : list json)
  | jobject (l : list (string * json)).

(** A call returns, throws, or is undefined: the library asserts or reads outside a
    vector. *)
Inductive attempt (A : Type) := Value (x : A) | Thrown (what : string) | Undefined.
#[global] Arguments Value {A} x. #[global] Arguments Thrown {A} what. #[global] Arguments Undefined {A}.

Definition abind {A B} (m : attempt A) (f : A -> attempt B) : attempt B :=
  match m with Value x => f x | Thrown w => Thrown w | Undefined => Undefined end.
Notation "x <~~ m ; k" := (abind m (fun x => k)) (at level 90, m at next level, k at level 200, right associativity).

Fixpoint amap {A B} (f : A -> attempt B) (l : list A) : attempt (list B) :=
  match l with
  | [] => Value []
  | x :: l => y <~~ f x; ys <~~ amap f l; Value (y :: ys)
  end.

(** ** Access *)

Fixpoint find_key (l : list (string * json)) (key : string) : option json :=
  match l with
  | [] => None
  | (k, v) :: l => if (k =? key)%string then Some v else find_key l key
  end.

(** [operator[](idx) const] *)
Definition json_index (j : json) (idx : nat) : attempt json :=
  match j with
  | jarray l => match l !! idx with Some v => Value v | None => Undefined end
  | _ => Thrown "cannot use operator[] with a numeric argument"
  end.

(** [operator[](key) const] *)
Definition json_key (j : json) (key : string) : attempt json :=
  match j with
  | jobject l => match find_key l key with Some v => Value v | None => Undefined end
  | _ => Thrown "cannot use operator[] with a string argument"
  end.

(** The value [operator[](key)] refers to; it inserts a null where there was none. *)
Definition json_key_ref (j : json) (key : string) : attempt json :=
  match j with
  | jnull => Value jnull
  | jobject l => Value (default jnull (find_key l key))
  | _ => Thrown "cannot use operator[] with a string argument"
  end.

(** [get<std::string>], [get<int64_t>] and [get<std::vector<std::string>>]; the number
    is not used by the callers. *)
Definition get_string (j : json) : attempt string :=
  match j with jstring s => Value s | _ => Thrown "type must be string" end.
Definition get_number (j : json) : attempt unit :=
  match j with
  | jnumber_integer _ | jnumber_float _ => Value tt
  | _ => Thrown "type must be number"
  end.
Definition get_strings (j : json) : attempt (list string) :=
  match j with jarray l => amap get_string l | _ => Thrown "type must be array" end.

(** The values [items()] enumerates. *)
Definition json_items (j : json) : list json :=
  match j with
  | jnull => []
  | jarray l => l
  | jobject l => map snd l
  | _ => [j]
  end.

(** ** Construction *)

(** [push_back] *)
Definition push_back (j v : json) : attempt json :=
  match j with
  | jnull => Value (jarray [v])
  | jarray l => Value (jarray (l ++ [v]))
  | _ => Thrown "cannot use push_back()"
  end.

(** [j[key] = v]: the pairs stay in the order of [std::map]. *)
Fixpoint insert_key (l : list (string * json)) (key : string) (v : json) : list (string * json) :=
  match l with
  | [] => [(key, v)]
  | (k, w) :: l =>
      match String.compare key k with
      | Lt => (key, v) :: (k, w) :: l
      | Eq => (key, v) :: l
      | Gt => (k, w) :: insert_key l key v
      end
  end.

Definition set_key (j : json) (key : string) (v : json) : attempt json :=
  match j with
  | jnull => Value (jobject [(key, v)])
  | jobject l => Value (jobject (insert_key l key v))
  | _ => Thrown "cannot use operator[] with a string argument"
  end.

(** ** Serialization, without indentation *)

Definition hex_digit (n : nat) : ascii :=
  if (n <? 10)%nat then ascii_of_nat (48 + n) else ascii_of_nat (87 + n).

(** What [dump_escaped] writes for a character; [None] outside ASCII. *)
Definition escaped (c : ascii) : option (list ascii) :=
  let n := nat_of_ascii c in
  let bs := ascii_of_nat 92 in
  if (128 <=? n)%nat then None
  else if (n =? 8)%nat then Some [bs; "b"%char]
  else if (n =? 9)%nat then Some [bs; "t"%char]
  else if (n =? 10)%nat then Some [bs; "n"%char]
  else if (n =? 12)%nat then Some [bs; "f"%char]
  else if (n =? 13)%nat then Some [bs; "r"%char]
  else if (n =? 34)%nat then Some [bs; c]
  else if (n =? 92)%nat then Some [bs; bs]
  else if (n <=? 31)%nat then Some [bs; "u"%char; "0"%char; "0"%char; hex_digit (n / 16); hex_digit (n mod 16)]
  else Some [c].

Fixpoint escape_all (s : list ascii) : option (list ascii) :=
  match s with
  | [] => Some []
  | c :: s => e ← escaped c; r ← escape_all s; Some (e ++ r)
  end.

Definition quote : ascii := ascii_of_nat 34.
Definition chars (s : string) : list ascii := list_ascii_of_string s.

Definition dump_escaped (s : string) : option (list ascii) :=
  e ← escape_all (chars s); Some (quote :: e ++ [quote]).

Fixpoint joined (l : list (list ascii)) : list ascii :=
  match l with [] => [] | [x] => x | x :: l => x ++ ","%char :: joined l end.

Fixpoint dump (j : json) : option (list ascii) :=
  match j with
  | jnull => Some (chars "null")
  | jboolean b => Some (chars (if b then "true" else "false"))
  | jnumber_integer z => Some (chars (NilEmpty.string_of_int (Z.to_int z)))
  | jnumber_float _ => None
  | jstring s => dump_escaped s
  | jarray l =>
      ds ← (fix go l := match l with [] => Some [] | v :: l => d ← dump v; ds ← go l; Some (d :: ds) end) l;
      Some ("["%char :: joined ds ++ ["]"%char])
  | jobject l =>
      ds ← (fix go l := match l with
                        | [] => Some []
                        | (k, v) :: l => e ← dump_escaped k; d ← dump v; ds ← go l; Some ((e ++ ":"%char :: d) :: ds)
                        end) l;
      Some ("{"%char :: joined ds ++ ["}"%char])
  end.

Example dump_sample : dump (jobject [("a", jarray [jstring "1"; jnull]); ("b", jobject [])])%string =
  Some (chars "{") ≫= fun o => a ← dump_escaped "a"; one ← dump_escaped "1"; b ← dump_escaped "b";
    Some (o ++ a ++ chars ":[" ++ one ++ chars ",null]," ++ b ++ chars ":{}}").
Proof. reflexivity. Qed.

(** ** Parsing: [json::parse] returns a value or throws. *)

Class JsonLib := { json_parse : string -> option json }.

Definition parse {JL : JsonLib} (s : string) : attempt json :=
  match json_parse s with Some j => Value j | None => Thrown "parse error" end.

(** ** Lengths *)

Lemma length_joined l : l <> [] -> (length (joined l) + 1 = sum_list_with (fun x => length x + 1) l)%nat.
Proof.
  induction l as [|x [|y l] IH]; intros H; [done|cbn; lia|].
  cbn [joined sum_list_with]. rewrite length_app. cbn [length].
  specialize (IH ltac:(done)). cbn [joined sum_list_with] in IH |- *. lia.
Qed.

Lemma escape_plain s : Forall (fun c => escaped c = Some [c]) s -> escape_all s = Some s.
Proof.
  induction 1 as [|c s Hc _ IH]; [done|]. cbn [escape_all]. rewrite Hc. cbn [mbind option_bind]. by rewrite IH.
Qed.
