(* ===== verification/ProofJson.v ===== *)
(** Proofs and verification keys as JSON: [toJson], [toJsonStr] and [fromJson] of
    [src/groth16.cpp].  What [toJson] writes is read back, and its text has the bound
    the C interface advertises. *)

From Stdlib Require Import String Ascii Zmod Decimal DecimalString.
From S2P Require Import Prelude Limbs Gmp Mpz SplitParStr FrRaw FrElement FrElementWp FrMpz RawFr Field Tower TowerText Curve Json Verify.

Section ProofJson.
Context {E : Type} {FT : FieldText E}.

Definition str_of (e : E) : json := jstring (f_toString e).

(** [j[key] = {}], then [j[key].push_back(v)] for each [v]. *)
Definition push_at (p : json) (key : string) (v : json) : attempt json :=
  j <~~ json_key_ref p key; j <~~ push_back j v; set_key p key j.

(** [Proof::toJson] *)
Definition toJson (prf : ProofData E) : attempt json :=
  let A := proof_A prf in let B := proof_B prf in let C := proof_C prf in
  p <~~ set_key jnull "pi_a" jnull;
  p <~~ push_at p "pi_a" (str_of (ax A));
  p <~~ push_at p "pi_a" (str_of (ay A));
  p <~~ push_at p "pi_a" (jstring "1");
  x2 <~~ push_back jnull (str_of (f2a (ax B)));
  x2 <~~ push_back x2 (str_of (f2b (ax B)));
  y2 <~~ push_back jnull (str_of (f2a (ay B)));
  y2 <~~ push_back y2 (str_of (f2b (ay B)));
  z2 <~~ push_back jnull (jstring "1");
  z2 <~~ push_back z2 (jstring "0");
  p <~~ set_key p "pi_b" jnull;
  p <~~ push_at p "pi_b" x2;
  p <~~ push_at p "pi_b" y2;
  p <~~ push_at p "pi_b" z2;
  p <~~ set_key p "pi_c" jnull;
  p <~~ push_at p "pi_c" (str_of (ax C));
  p <~~ push_at p "pi_c" (str_of (ay C));
  p <~~ push_at p "pi_c" (jstring "1");
  set_key p "protocol" (jstring "groth16").

(** [Proof::toJsonStr] *)
Definition toJsonStr (prf : ProofData E) : list ascii :=
  let A := proof_A prf in let B := proof_B prf in let C := proof_C prf in
  let s e := chars (f_toString e) in
  let q := [quote] in
  let b := q ++ chars "," ++ q in
  chars "{ " ++ q ++ chars "pi_a" ++ q ++ chars ":[" ++ q ++ s (ax A) ++ b ++ s (ay A) ++ b ++ chars "1" ++ q ++ chars "], " ++
  chars " " ++ q ++ chars "pi_b" ++ q ++ chars ": [[" ++ q ++ s (f2a (ax B)) ++ b ++ s (f2b (ax B)) ++ q ++ chars "],[" ++
  q ++ s (f2a (ay B)) ++ b ++ s (f2b (ay B)) ++ q ++ chars "], [" ++ q ++ chars "1" ++ b ++ chars "0" ++ q ++ chars "]], " ++
  chars " " ++ q ++ chars "pi_c" ++ q ++ chars ": [" ++ q ++ s (ax C) ++ b ++ s (ay C) ++ b ++ chars "1" ++ q ++ chars "], " ++
  chars " " ++ q ++ chars "protocol" ++ q ++ chars ":" ++ q ++ chars "groth16" ++ q ++ chars " }".

(** [E.f1.fromString(point.x, value)] *)
Definition coordinate_of (value : json) : attempt E := s <~~ get_string value; Value (f_fromString s).

Definition G1PointAffineFromJson (value : json) : attempt (PointAffine (E := E)) :=
  j <~~ json_index value 0; x <~~ coordinate_of j;
  j <~~ json_index value 1; y <~~ coordinate_of j;
  Value (mkPointAffine x y).

Definition G2PointAffineFromJson (value : json) : attempt (PointAffine (E := F2El E)) :=
  j <~~ json_index value 0; j <~~ json_index j 0; xa <~~ coordinate_of j;
  j <~~ json_index value 0; j <~~ json_index j 1; xb <~~ coordinate_of j;
  j <~~ json_index value 1; j <~~ json_index j 0; ya <~~ coordinate_of j;
  j <~~ json_index value 1; j <~~ json_index j 1; yb <~~ coordinate_of j;
  Value (mkPointAffine (mkF2 xa xb) (mkF2 ya yb)).

(** [Proof::fromJson] *)
Definition Proof_fromJson (proof : json) : attempt (ProofData E) :=
  j <~~ json_key proof "pi_a"; A <~~ G1PointAffineFromJson j;
  j <~~ json_key proof "pi_b"; B <~~ G2PointAffineFromJson j;
  j <~~ json_key proof "pi_c"; C <~~ G1PointAffineFromJson j;
  Value (mkProofData A B C).

(** [VerificationKey::fromJson] *)
Definition VerificationKey_fromJson (key : json) : attempt (VerificationKey E) :=
  j <~~ json_key key "vk_alpha_1"; Alpha <~~ G1PointAffineFromJson j;
  j <~~ json_key key "vk_beta_2"; Beta <~~ G2PointAffineFromJson j;
  j <~~ json_key key "vk_gamma_2"; Gamma <~~ G2PointAffineFromJson j;
  j <~~ json_key key "vk_delta_2"; Delta <~~ G2PointAffineFromJson j;
  j_ic <~~ json_key key "IC";
  IC <~~ amap G1PointAffineFromJson (json_items j_ic);
  Value (mkVerificationKey Alpha Beta Gamma Delta IC).

(** The value [toJson] builds. *)
Definition proof_value (prf : ProofData E) : json :=
  let A := proof_A prf in let B := proof_B prf in let C := proof_C prf in
  jobject [("pi_a", jarray [str_of (ax A); str_of (ay A); jstring "1"]);
           ("pi_b", jarray [jarray [str_of (f2a (ax B)); str_of (f2b (ax B))];
                            jarray [str_of (f2a (ay B)); str_of (f2b (ay B))];
                            jarray [jstring "1"; jstring "0"]]);
           ("pi_c", jarray [str_of (ax C); str_of (ay C); jstring "1"]);
           ("protocol", jstring "groth16")]%string.

Lemma toJson_value prf : toJson prf = Value (proof_value prf).
Proof. reflexivity. Qed.

(** The coordinates of a proof. *)
Definition coordinates (prf : ProofData E) : list E :=
  let A := proof_A prf in let B := proof_B prf in let C := proof_C prf in
  [ax A; ay A; f2a (ax B); f2b (ax B); f2a (ay B); f2b (ay B); ax C; ay C].

Lemma fromJson_value prf : Forall (fun e => f_fromString (f_toString e) = e) (coordinates prf) ->
  Proof_fromJson (proof_value prf) = Value prf.
Proof.
  destruct prf as [[a1 a2] [[b1 b2] [b3 b4]] [c1 c2]]. unfold coordinates. cbn [proof_A proof_B proof_C ax ay f2a f2b].
  rewrite !Forall_cons_iff. intros (E1 & E2 & E3 & E4 & E5 & E6 & E7 & E8 & _).
  cbn. by rewrite E1, E2, E3, E4, E5, E6, E7, E8.
Qed.
End ProofJson.

(** ** Texts of numbers *)

Lemma escaped_uint d : Forall (fun c => escaped c = Some [c]) (chars (NilEmpty.string_of_uint d)).
Proof.
  induction d as [|d IH|d IH|d IH|d IH|d IH|d IH|d IH|d IH|d IH|d IH]; [apply Forall_nil_2|..];
    (apply Forall_cons_2; [reflexivity|exact IH]).
Qed.

Lemma dump_decimal v : dump (jstring (decimal v)) = Some (quote :: chars (decimal v) ++ [quote]).
Proof.
  cbn [dump]. unfold dump_escaped. rewrite escape_plain; [done|]. unfold decimal.
  destruct (Z.to_int v) as [d|d]; cbn [NilEmpty.string_of_int]; [apply escaped_uint|].
  apply Forall_cons_2; [reflexivity|apply escaped_uint].
Qed.

Lemma chars_length s : length (chars s) = String.length s.
Proof. induction s as [|c s IH]; [done|]. cbn. f_equal. exact IH. Qed.

Section Bounds.
Context {P : FieldParams} {OK : FieldOk P} {G : Mpn} {GL : MpnLaws G} {MZ : Mpz} {ML : MpzLaws MZ}.

(** A residue takes at most 77 digits. *)
Lemma element_digits (e : Element) v : elem e v -> f_toString e = decimal v /\ (length (chars (decimal v)) <= 77)%nat.
Proof.
  intros He. split; [by apply toString_decimal|]. rewrite chars_length. apply decimal_bound; [|lia].
  destruct He as [Hv _]. pose proof q_bounds. assert (2 ^ 254 < 10 ^ Z.of_nat 77) by (vm_compute; reflexivity).
  pose proof (q_range (FieldOk := OK)). lia.
Qed.

Lemma dump_element (e : Element) v : elem e v -> exists s, dump (str_of e) = Some s /\ (length s <= 79)%nat.
Proof.
  intros He. destruct (element_digits e v He) as [Hs Hl]. unfold str_of. rewrite Hs, dump_decimal.
  eexists. split; [reflexivity|]. cbn [length]. rewrite length_app. cbn [length]. lia.
Qed.

Definition residue (e : Element) : Prop := exists v, elem e v.

Lemma residue_text (e : Element) : residue e -> f_fromString (f_toString e) = e.
Proof. intros [v He]. rewrite (proj1 (element_digits e v He)). by apply read_written. Qed.

Lemma proof_text (prf : ProofData Element) : Forall residue (coordinates prf) ->
  exists s, dump (proof_value prf) = Some s /\ (length s + 1 <= 810)%nat.
Proof.
  destruct prf as [[a1 a2] [[b1 b2] [b3 b4]] [c1 c2]]. unfold coordinates. cbn [proof_A proof_B proof_C ax ay f2a f2b].
  rewrite !Forall_cons_iff. intros (H1 & H2 & H3 & H4 & H5 & H6 & H7 & H8 & _).
  repeat match goal with H : residue ?e |- _ =>
    destruct H as [? H]; apply dump_element in H; let s := fresh "s" in let E := fresh "E" in let L := fresh "L" in
    destruct H as (s & E & L) end.
  eexists. split.
  - unfold proof_value. cbn [proof_A proof_B proof_C ax ay f2a f2b].
    cbn [dump]. unfold str_of in *. cbn [dump] in *.
    rewrite E, E0, E1, E2, E3, E4, E5, E6. reflexivity.
  - cbn. repeat (rewrite length_app || cbn [length]). lia.
Qed.
End Bounds.

(** C38: A proof whose coordinates are residues: [toJson] builds a value that [fromJson]
    reads back as the same proof, and the text of that value fits, with its final null
    character, the 810 bytes [groth16_proof_size] reports. *)
Theorem proof_json_correct {P : FieldParams} {OK : FieldOk P} {G : Mpn} {GL : MpnLaws G} {MZ : Mpz} {ML : MpzLaws MZ}
    (prf : ProofData Element) :
  Forall residue (coordinates prf) ->
  exists j s, toJson prf = Value j /\ Proof_fromJson j = Value prf /\ dump j = Some s /\ (length s + 1 <= 810)%nat.
Proof.
  intros H. destruct (proof_text prf H) as (s & Es & Hl). exists (proof_value prf), s.
  split; [apply toJson_value|]. split; [|by split]. apply fromJson_value.
  eapply Forall_impl; [|exact H]. apply residue_text.
Qed.

Section Demo.
#[local] Existing Instances Fq_params Mpn_reference Mpz_reference.

Definition demo_coordinate (v : Z) : Element := of_Z 4 (mont v).

Lemma demo_residue v : 0 <= v < q -> residue (demo_coordinate v).
Proof. intros Hv. exists v. split; [done|]. apply rep_of_Z, mont_range. Qed.

Definition demo_proof : ProofData Element :=
  let e := demo_coordinate in
  mkProofData (mkPointAffine (e 1) (e 2)) (mkPointAffine (mkF2 (e 3) (e 0)) (mkF2 (e 5) (e (10 ^ 60))))
    (mkPointAffine (e 1) (e 2)).

Lemma proof_json_correct_witness :
  exists j s, toJson demo_proof = Value j /\ Proof_fromJson j = Value demo_proof /\ dump j = Some s /\
    (length s + 1 <= 810)%nat.
Proof.
  apply (proof_json_correct (P := Fq_params)).
  repeat (apply Forall_cons_2; [apply demo_residue; split; [vm_compute; discriminate|vm_compute; reflexivity]|]).
  apply Forall_nil_2.
Defined.
End Demo.
