(* ===== verification/VerifierApi.v ===== *)
(** The C interface of the verifier, [src/verifier.cpp]: the three parsers and
    [groth16_verify] with its error codes and message buffer; and the format of the three
    texts, apart from the code that reads them. *)

From Stdlib Require Import String Ascii Zmod.
From S2P Require Import Prelude Limbs Gmp Mpz SplitParStr FrRaw FrElement FrElementWp FrMpz RawFr Primes Field Tower TowerText Curve CurveSpec Engine Pairing PairingSpec Json Verify ProofJson.

(** [strncpy(error_msg, what, maxsize)] into a buffer, its first [maxsize] characters. *)
Definition strncpy (buffer : list ascii) (what : list ascii) (maxsize : nat) : list ascii :=
  take maxsize (what ++ replicate (maxsize - length what) "000"%char) ++ drop maxsize buffer.

Definition VERIFIER_VALID_PROOF : Z := 0.
Definition VERIFIER_INVALID_PROOF : Z := 1.
Definition VERIFIER_ERROR : Z := 2.

Section Api.
Context {JL : JsonLib} {G : Mpn} {MZ : Mpz}.
Notation Fr := Fr_params.

(** [try { ... } catch (...) { throw std::invalid_argument(what); }] *)
Definition catch_all {A} (m : attempt A) (what : string) : attempt A :=
  match m with Thrown _ => Thrown what | r => r end.

Section Parsers.
Context {E : Type} {FT : FieldText E}.

Definition parse_proof (proof_str : string) : attempt (ProofData E) :=
  catch_all
    (proof_json <~~ parse proof_str;
     j <~~ json_key_ref proof_json "protocol"; protocol <~~ get_string j;
     if negb (protocol =? "groth16")%string then Thrown "invalid proof data"
     else Proof_fromJson proof_json)
    "invalid proof data".

Definition parse_inputs (inputs_str : string) : attempt (list Element) :=
  catch_all
    (inputs_json <~~ parse inputs_str;
     inputs_str_vec <~~ get_strings inputs_json;
     match inputs_str_vec with
     | [] => Thrown "invalid inputs data"
     | _ => Value (map (RawFr_fromString (P := Fr)) inputs_str_vec)
     end)
    "invalid inputs data".

Definition parse_key (key_str : string) : attempt (VerificationKey E) :=
  catch_all
    (key_json <~~ parse key_str;
     j <~~ json_key_ref key_json "protocol"; protocol <~~ get_string j;
     j <~~ json_key_ref key_json "curve"; curve <~~ get_string j;
     j <~~ json_key_ref key_json "nPublic"; nPublic <~~ get_number j;
     if negb (protocol =? "groth16")%string || negb (curve =? "bn128")%string
     then Thrown "invalid verification key data"
     else
       key <~~ VerificationKey_fromJson key_json;
       match IC key with [] => Thrown "invalid verification key data" | _ => Value key end)
    "invalid verification key data".
End Parsers.

(** The [try] block of [groth16_verify], with the objects its constructors give. *)
Definition verify_texts {E} {FO : FieldOps E} {FT : FieldText E} (V : Verifier E) (g1 : CurveData E)
    (proof inputs verification_key : string) : attempt Z :=
  proof_value <~~ parse_proof proof;
  inputs_value <~~ parse_inputs inputs;
  key_value <~~ parse_key verification_key;
  match verify V g1 proof_value inputs_value key_value with
  | None => Undefined
  | Some (inl what) => Thrown what
  | Some (inr valid) => Value (if valid : bool then VERIFIER_VALID_PROOF else VERIFIER_INVALID_PROOF)
  end.

(** [groth16_verify]: the code it returns and the message buffer, if there is one. *)
Definition groth16_verify {E} {FO : FieldOps E} {FT : FieldText E} (V : Verifier E) (g1 : CurveData E)
    (proof inputs verification_key : string) (error_msg : option (list ascii)) (error_msg_maxsize : nat) :
    attempt (Z * option (list ascii)) :=
  match verify_texts V g1 proof inputs verification_key with
  | Value code => Value (code, error_msg)
  | Thrown what =>
      Value (VERIFIER_ERROR, fmap (fun b => strncpy b (chars what) error_msg_maxsize) error_msg)
  | Undefined => Undefined
  end.
End Api.

(** ** What the texts mean *)

Section Spec.
Context {JL : JsonLib} {G : Mpn} {GL : MpnLaws G} {MZ : Mpz} {ML : MpzLaws MZ}.
Context {E : Type} {FO : FieldOps E} {FT : FieldText E}.

Definition g1_json (p : PointAffine (E := E)) : json := jarray [str_of (ax p); str_of (ay p); jstring "1"].
Definition g2_json (p : PointAffine (E := F2El E)) : json :=
  jarray [jarray [str_of (f2a (ax p)); str_of (f2b (ax p))]; jarray [str_of (f2a (ay p)); str_of (f2b (ay p))];
          jarray [jstring "1"; jstring "0"]].

(** A verification key as the tools that make it write it. *)
Definition key_json (key : VerificationKey E) (nPublic : Z) : json :=
  jobject [("IC", jarray (map g1_json (IC key))); ("curve", jstring "bn128"); ("nPublic", jnumber_integer nPublic);
           ("protocol", jstring "groth16"); ("vk_alpha_1", g1_json (Alpha key)); ("vk_beta_2", g2_json (Beta key));
           ("vk_delta_2", g2_json (Delta key)); ("vk_gamma_2", g2_json (Gamma key))]%string.

(** Public inputs as decimal numbers. *)
Definition inputs_json (xs : list Z) : json := jarray (map (fun x => jstring (decimal x)) xs).

Definition read_back (e : E) : Prop := f_fromString (f_toString e) = e.
Definition read_back1 (p : PointAffine (E := E)) : Prop := read_back (ax p) /\ read_back (ay p).
Definition read_back2 (p : PointAffine (E := F2El E)) : Prop :=
  (read_back (f2a (ax p)) /\ read_back (f2b (ax p))) /\ read_back (f2a (ay p)) /\ read_back (f2b (ay p)).
Record key_read_back (key : VerificationKey E) : Prop := {
  rb_alpha : read_back1 (Alpha key);
  rb_beta : read_back2 (Beta key);
  rb_gamma : read_back2 (Gamma key);
  rb_delta : read_back2 (Delta key);
  rb_IC : Forall read_back1 (IC key)
}.

Lemma g1_read p : read_back1 p -> G1PointAffineFromJson (g1_json p) = Value p.
Proof. destruct p as [x y]. unfold read_back1, read_back. cbn. intros [-> ->]. done. Qed.

Lemma g2_read p : read_back2 p -> G2PointAffineFromJson (g2_json p) = Value p.
Proof.
  destruct p as [[xa xb] [ya yb]]. unfold read_back2, read_back. cbn. intros [[-> ->] [-> ->]]. done.
Qed.

Lemma key_read key n : key_read_back key -> VerificationKey_fromJson (key_json key n) = Value key.
Proof.
  intros [Ha Hb Hg Hd HI]. unfold VerificationKey_fromJson, key_json. cbn [json_key find_key String.eqb Ascii.eqb Bool.eqb abind].
  rewrite (g1_read _ Ha). cbn [abind]. rewrite (g2_read _ Hb). cbn [abind]. rewrite (g2_read _ Hg). cbn [abind].
  rewrite (g2_read _ Hd). cbn [abind json_items].
  assert (EI : amap G1PointAffineFromJson (map g1_json (IC key)) = Value (IC key)).
  { induction HI as [|p l Hp _ IH]; [done|]. cbn [map amap]. rewrite (g1_read _ Hp). cbn [abind]. by rewrite IH. }
  rewrite EI. by destruct key.
Qed.

Lemma inputs_read xs : amap get_string (map (fun x => jstring (decimal x)) xs) = Value (map decimal xs).
Proof. induction xs as [|x xs IH]; [done|]. cbn [map amap get_string abind]. by rewrite IH. Qed.

Lemma inputs_elements xs :
  Forall2 (elem (P := Fr_params)) (map (RawFr_fromString (P := Fr_params)) (map decimal xs))
    (map (fun x => x mod q (P := Fr_params)) xs).
Proof.
  induction xs as [|x xs IH]; cbn [map]; [apply Forall2_nil|]. apply Forall2_cons; [apply fromString_decimal|exact IH].
Qed.

(** The outcome of [groth16_verify] for an outcome of [Verifier::verify]. *)
Definition code_of (r : option (string + bool)) (error_msg : option (list ascii)) (maxsize : nat) : attempt (Z * option (list ascii)) :=
  match r with
  | Some (inr true) => Value (0, error_msg)
  | Some (inr false) => Value (1, error_msg)
  | Some (inl what) => Value (2, fmap (fun b => strncpy b (chars what) maxsize) error_msg)
  | None => Undefined
  end.

Lemma verify_texts_read (V : Verifier E) g1 proof inputs vkey prf key n xs error_msg maxsize :
  json_parse proof = Some (proof_value prf) -> Forall read_back (coordinates prf) ->
  json_parse inputs = Some (inputs_json xs) -> xs <> [] ->
  json_parse vkey = Some (key_json key n) -> key_read_back key -> IC key <> [] ->
  groth16_verify V g1 proof inputs vkey error_msg maxsize =
  code_of (verify V g1 prf (map (RawFr_fromString (P := Fr_params)) (map decimal xs)) key) error_msg maxsize.
Proof.
  intros Hp Hprf Hi Hxs Hk Hkey HIC. unfold groth16_verify, verify_texts.
  assert (E1 : parse_proof proof = Value prf).
  { unfold parse_proof, parse. rewrite Hp. cbn [abind]. rewrite <- (fromJson_value prf Hprf). done. }
  assert (E2 : parse_inputs inputs = Value (map (RawFr_fromString (P := Fr_params)) (map decimal xs))).
  { unfold parse_inputs, parse. rewrite Hi. cbn [abind inputs_json get_strings]. rewrite inputs_read. cbn [abind].
    destruct xs; done. }
  assert (E3 : parse_key vkey = Value key).
  { unfold parse_key, parse. rewrite Hk. cbn [abind].
    change (json_key_ref (key_json key n) "protocol") with (Value (jstring "groth16")).
    change (json_key_ref (key_json key n) "curve") with (Value (jstring "bn128")).
    change (json_key_ref (key_json key n) "nPublic") with (Value (jnumber_integer n)).
    cbn [abind get_string get_number String.eqb Ascii.eqb Bool.eqb negb orb].
    rewrite (key_read key n Hkey). cbn [abind]. by destruct (IC key). }
  rewrite E1, E2, E3. cbn [abind].
  destruct (verify V g1 prf _ key) as [[what|[|]]|]; reflexivity.
Qed.

(** Texts that are no JSON, or of another protocol or curve. *)
Lemma verify_texts_rejected (V : Verifier E) g1 proof inputs vkey error_msg maxsize :
  (json_parse proof = None \/ (exists l, json_parse proof = Some (jobject l) /\ find_key l "protocol" <> Some (jstring "groth16"))) ->
  groth16_verify V g1 proof inputs vkey error_msg maxsize =
    Value (2, fmap (fun b => strncpy b (chars "invalid proof data") maxsize) error_msg).
Proof.
  intros H. unfold groth16_verify, verify_texts.
  assert (E1 : parse_proof proof = Thrown "invalid proof data"); [|by rewrite E1].
  unfold parse_proof, parse. destruct H as [-> |(l & -> & Hl)]; [done|]. cbn [abind json_key_ref].
  revert Hl. destruct (find_key l "protocol") as [[| | | |s| |]|]; intros Hl; try done. cbn [default id get_string abind].
  destruct (String.eqb_spec s "groth16") as [->|]; [done|]. done.
Qed.
End Spec.

(** ** The format of the three texts

    A table of the places the strings of a text are at, read from left to right: all of
    them are there; or the first that is not there is [Refused], because it is something
    else than a string, or lies in something else than an array; or it is [Outside], past
    the end of an array or under a missing key, where the library makes no promise. *)

Inductive reading := Good (ss : list string) | Refused | Outside.

Definition rapp (r r' : reading) : reading :=
  match r with Good ss => match r' with Good ss' => Good (ss ++ ss') | r' => r' end | r => r end.
Lemma rapp_assoc r r' r'' : rapp (rapp r r') r'' = rapp r (rapp r' r'').
Proof. destruct r, r', r''; cbn; by rewrite <- ?app_assoc. Qed.

Lemma rapp_nil r : rapp (Good []) r = r.
Proof. by destruct r. Qed.

Definition rconcat : list reading -> reading := foldr rapp (Good []).

(** The string at a path of indices. *)
Fixpoint string_at (v : json) (path : list nat) : reading :=
  match path with
  | [] => match v with jstring s => Good [s] | _ => Refused end
  | i :: path =>
      match v with
      | jarray l => match l !! i with Some w => string_at w path | None => Outside end
      | _ => Refused
      end
  end.

Definition place : Type := list (list nat).
Definition g1_place : place := [[0]; [1]]%nat.
Definition g2_place : place := [[0; 0]; [0; 1]; [1; 0]; [1; 1]]%nat.

Definition strings_at (v : json) (pl : place) : reading := rconcat (map (string_at v) pl).
Definition member_at (l : list (string * json)) (m : string * place) : reading :=
  match find_key l (fst m) with Some v => strings_at v (snd m) | None => Outside end.
Definition members_at (l : list (string * json)) (ms : list (string * place)) : reading := rconcat (map (member_at l) ms).

Definition has_string (l : list (string * json)) (key s : string) : bool :=
  match find_key l key with Some (jstring t) => (t =? s)%string | _ => false end.
Definition has_number (l : list (string * json)) (key : string) : bool :=
  match find_key l key with Some (jnumber_integer _ | jnumber_float _) => true | _ => false end.

(** A proof: an object of the protocol groth16 with three points. *)
Definition proof_reading (text : option json) : reading :=
  match text with
  | Some (jobject l) =>
      if has_string l "protocol" "groth16"
      then members_at l [("pi_a", g1_place); ("pi_b", g2_place); ("pi_c", g1_place)]%string
      else Refused
  | _ => Refused
  end.

(** Public inputs: a non-empty array of strings. *)
Definition inputs_reading (text : option json) : reading :=
  match text with
  | Some (jarray ((_ :: _) as l)) => rconcat (map (fun v => string_at v []) l)
  | _ => Refused
  end.

(** A key: an object of the protocol groth16 for the curve bn128 with a number of public
    inputs, four points, and the points of the inputs, one at least. *)
Definition key_reading (text : option json) : reading :=
  match text with
  | Some (jobject l) =>
      if has_string l "protocol" "groth16" && has_string l "curve" "bn128" && has_number l "nPublic" then
        rapp (members_at l [("vk_alpha_1", g1_place); ("vk_beta_2", g2_place); ("vk_gamma_2", g2_place); ("vk_delta_2", g2_place)]%string)
          match find_key l "IC" with
          | Some ic => match json_items ic with [] => Refused | vs => rconcat (map (fun v => strings_at v g1_place) vs) end
          | None => Outside
          end
      else Refused
  | _ => Refused
  end.

Section Format.
Context {JL : JsonLib} {G : Mpn} {MZ : Mpz} {E : Type} {FO : FieldOps E} {FT : FieldText E}.

(** The numbers a proof and a key are made of, in the order of their strings. *)
Definition g1_numbers (p : PointAffine (E := E)) : list E := [ax p; ay p].
Definition g2_numbers (p : PointAffine (E := F2El E)) : list E := [f2a (ax p); f2b (ax p); f2a (ay p); f2b (ay p)].
Definition key_numbers (key : VerificationKey E) : list E :=
  g1_numbers (Alpha key) ++ g2_numbers (Beta key) ++ g2_numbers (Gamma key) ++ g2_numbers (Delta key) ++
  flat_map g1_numbers (IC key).

(** The call [m] does what the reading [r] says: it returns an object of the numbers
    [before] and of those of the strings, throws, or is undefined. *)
Definition reads {A} (before : list E) (m : attempt A) (r : reading) (numbers : A -> list E) : Prop :=
  match r with
  | Good ss => exists x, m = Value x /\ numbers x = before ++ map f_fromString ss
  | Refused => exists w, m = Thrown w
  | Outside => m = Undefined
  end.

Lemma reads_bind {A B} before (m : attempt A) (k : A -> attempt B) r r' num num' :
  reads [] m r num -> (forall x, reads (before ++ num x) (k x) r' num') -> reads before (abind m k) (rapp r r') num'.
Proof.
  destruct r as [ss| |]; cbn [reads rapp]; [|by intros [w ->] _; exists w|by intros -> _].
  intros (x & -> & Hx) Hk. cbn [abind]. specialize (Hk x). destruct r' as [ss'| |]; cbn [reads] in *; [|done..].
  destruct Hk as (y & -> & Hy). exists y. split; [done|]. by rewrite Hy, Hx, map_app, <- app_assoc.
Qed.

Lemma reads_value {A} before (x : A) num : num x = before -> reads before (Value x) (Good []) num.
Proof. intros <-. exists x. by rewrite app_nil_r. Qed.

Lemma abind_assoc {A B C} (m : attempt A) (f : A -> attempt B) (g : B -> attempt C) :
  abind m (fun x => abind (f x) g) = abind (abind m f) g.
Proof. by destruct m. Qed.

(** One coordinate, and one at an index of what holds it. *)
Lemma coordinate_reads {A} before v (k : E -> attempt A) r num : (forall x, reads (before ++ [x]) (k x) r num) ->
  reads before (x <~~ coordinate_of v; k x) (rapp (string_at v []) r) num.
Proof.
  intros H. apply (reads_bind before (coordinate_of v) k _ r (fun x => [x])); [|exact H].
  destruct v; cbn; by eexists.
Qed.

Lemma index_reads {A} before v i path (f : json -> attempt A) r num :
  (forall w, reads before (f w) (rapp (string_at w path) r) num) ->
  reads before (j <~~ json_index v i; f j) (rapp (string_at v (i :: path)) r) num.
Proof.
  intros H. cbn [string_at]. destruct v as [| | | | |l|]; cbn; try (by eexists). destruct (l !! i) as [w|]; [apply H|done].
Qed.

Ltac reads_coordinates := repeat (repeat (apply index_reads; intros ?); apply coordinate_reads; intros ?); by apply reads_value.

Lemma g1_reads v : reads [] (G1PointAffineFromJson v) (strings_at v g1_place) g1_numbers.
Proof. reads_coordinates. Qed.
Lemma g2_reads v : reads [] (G2PointAffineFromJson v) (strings_at v g2_place) g2_numbers.
Proof. reads_coordinates. Qed.

(** A member of an object. *)
Lemma member_reads {A B} before l key pl (f : json -> attempt A) (k : A -> attempt B) r num num' :
  (forall v, reads [] (f v) (strings_at v pl) num) -> (forall x, reads (before ++ num x) (k x) r num') ->
  reads before (j <~~ json_key (jobject l) key; x <~~ f j; k x) (rapp (member_at l (key, pl)) r) num'.
Proof.
  intros Hf Hk. unfold member_at. cbn [json_key fst snd]. destruct (find_key l key) as [v|]; [|done].
  cbn [abind]. by eapply reads_bind.
Qed.

Lemma proof_reads l :
  reads [] (Proof_fromJson (jobject l)) (members_at l [("pi_a", g1_place); ("pi_b", g2_place); ("pi_c", g1_place)]%string) coordinates.
Proof.
  unfold Proof_fromJson, members_at, rconcat. cbn [map foldr].
  eapply member_reads; [apply g1_reads|intros A]. eapply member_reads; [apply g2_reads|intros B].
  eapply member_reads; [apply g1_reads|intros C]. by apply reads_value.
Qed.

Lemma reads_last {A B} before (m : attempt A) (g : A -> B) r num num' : reads [] m r num ->
  (forall x, num' (g x) = before ++ num x) -> reads before (x <~~ m; Value (g x)) r num'.
Proof.
  intros Hm Hg. destruct r as [ss| |]; cbn in *; [|by destruct Hm as [w ->]; exists w|by rewrite Hm].
  destruct Hm as (x & -> & Hx). exists (g x). split; [done|]. by rewrite Hg, Hx.
Qed.

Lemma items_reads vs : reads [] (amap G1PointAffineFromJson vs) (rconcat (map (fun v => strings_at v g1_place) vs)) (flat_map g1_numbers).
Proof.
  induction vs as [|v vs IH]; cbn [amap map]; [by apply reads_value|].
  eapply reads_bind; [apply g1_reads|]. intros p. by eapply reads_last.
Qed.

(** The points of a key, before it is looked at whether there are points of inputs. *)
Lemma key_reads l :
  reads [] (VerificationKey_fromJson (jobject l))
    (rapp (members_at l [("vk_alpha_1", g1_place); ("vk_beta_2", g2_place); ("vk_gamma_2", g2_place); ("vk_delta_2", g2_place)]%string)
      match find_key l "IC" with
      | Some ic => rconcat (map (fun v => strings_at v g1_place) (json_items ic))
      | None => Outside
      end) key_numbers.
Proof.
  unfold VerificationKey_fromJson, members_at, rconcat at 1. cbn [map foldr]. rewrite !rapp_assoc.
  eapply member_reads; [apply g1_reads|intros A]. eapply member_reads; [apply g2_reads|intros B].
  eapply member_reads; [apply g2_reads|intros C]. eapply member_reads; [apply g2_reads|intros D]. rewrite rapp_nil.
  cbn [json_key]. destruct (find_key l "IC") as [ic|]; [|done]. cbn [abind].
  eapply reads_last; [apply items_reads|]. intros points. unfold key_numbers. cbn [Alpha Beta Gamma Delta IC app].
  by rewrite <- !app_assoc.
Qed.

(** ** The parsers *)

(** What a parser does with a text: the object of its strings, the exception [what], or
    undefined. *)
Definition parsed {A} (m : attempt A) (r : reading) (numbers : A -> list E) (what : string) : Prop :=
  match r with
  | Good ss => exists x, m = Value x /\ numbers x = map f_fromString ss
  | Refused => m = Thrown what
  | Outside => m = Undefined
  end.

Lemma reads_parsed {A} (m : attempt A) r num what : reads [] m r num -> parsed (catch_all m what) r num what.
Proof. destruct r; cbn; [|by intros [w ->]|by intros ->]. intros (x & -> & Hx). by exists x. Qed.

Lemma string_member {A} l key (k : string -> attempt A) :
  (j <~~ json_key_ref (jobject l) key; t <~~ get_string j; k t) =
  match find_key l key with Some (jstring t) => k t | _ => Thrown "type must be string" end.
Proof. cbn. destruct (find_key l key) as [[]|]; reflexivity. Qed.

Lemma parse_proof_parsed text : parsed (parse_proof text) (proof_reading (json_parse text)) coordinates "invalid proof data".
Proof.
  unfold parse_proof, parse, proof_reading, has_string. destruct (json_parse text) as [[| | | | | |l]|]; try done. cbn [abind].
  rewrite string_member. destruct (find_key l "protocol") as [[| | | |t| |]|]; try done.
  destruct (t =? "groth16")%string; cbn [negb]; [|done]. apply reads_parsed, proof_reads.
Qed.

Lemma strings_read vs : match rconcat (map (fun v => string_at v []) vs) with
  | Good ss => amap get_string vs = Value ss
  | _ => exists w, amap get_string vs = Thrown w
  end.
Proof.
  unfold rconcat. induction vs as [|v vs IH]; [done|]. cbn [map foldr amap].
  destruct v; cbn [string_at rapp get_string abind]; try (by eexists).
  destruct (foldr rapp _ _) as [ss| |]; [by rewrite IH|by destruct IH as [w ->]; exists w..].
Qed.

Lemma parse_inputs_reading text : parse_inputs text =
  match inputs_reading (json_parse text) with
  | Good ss => Value (map (RawFr_fromString (P := Fr_params)) ss)
  | _ => Thrown "invalid inputs data"
  end.
Proof.
  unfold parse_inputs, parse, inputs_reading. destruct (json_parse text) as [[| | | | |l|]|]; try done. cbn [abind get_strings].
  destruct l as [|v l]; [done|]. pose proof (strings_read (v :: l)) as H.
  set (r := rconcat _) in H |- *. clearbody r. destruct r as [ss| |]; [|destruct H as [w ->]; reflexivity..]. rewrite H. cbn [abind].
  destruct ss as [|s ss]; [|done]. exfalso. revert H. clear. cbn [amap]. destruct (get_string v); [|done..]. cbn [abind].
  by destruct (amap get_string l).
Qed.

Lemma amap_length {A B} (f : A -> attempt B) l ys : amap f l = Value ys -> length ys = length l.
Proof.
  revert ys. induction l as [|x l IH]; intros ys; cbn [amap]; [by intros [= <-]|].
  destruct (f x); [|done..]. cbn [abind]. destruct (amap f l) as [zs| |]; [|done..]. cbn [abind]. intros [= <-].
  cbn [length]. by rewrite (IH zs).
Qed.

Lemma key_IC l ic key : find_key l "IC" = Some ic -> VerificationKey_fromJson (jobject l) = Value key ->
  length (IC key) = length (json_items ic).
Proof.
  intros Hic. unfold VerificationKey_fromJson. do 4 (rewrite abind_assoc; destruct (abind (json_key _ _) _); cbn [abind]; [|discriminate..]).
  cbn [json_key]. rewrite Hic. cbn [abind]. destruct (amap _ _) as [points| |] eqn:Hp; [|done..]. cbn [abind]. intros [= <-].
  by apply amap_length in Hp.
Qed.

Lemma key_checked l what :
  parsed (catch_all (key <~~ VerificationKey_fromJson (jobject l); match IC key with [] => Thrown what | _ => Value key end) what)
    (rapp (members_at l [("vk_alpha_1", g1_place); ("vk_beta_2", g2_place); ("vk_gamma_2", g2_place); ("vk_delta_2", g2_place)]%string)
      match find_key l "IC" with
      | Some ic => match json_items ic with [] => Refused | vs => rconcat (map (fun v => strings_at v g1_place) vs) end
      | None => Outside
      end) key_numbers what.
Proof.
  pose proof (key_reads l) as H. pose proof (key_IC l) as HI. set (M := members_at l _) in H |- *. clearbody M.
  destruct (find_key l "IC") as [ic|].
  - specialize (HI ic). destruct (json_items ic) as [|v vs].
    + destruct M as [ss| |]; cbn in H |- *; [|by destruct H as [w ->]|by rewrite H].
      destruct H as (key & E1 & _). rewrite E1 in HI |- *. specialize (HI key eq_refl eq_refl). cbn [abind]. by destruct (IC key).
    + set (r := rapp _ _) in H |- *. clearbody r. destruct r as [ss| |]; cbn in H |- *; [|by destruct H as [w ->]|by rewrite H].
      destruct H as (key & E1 & Hn). rewrite E1 in HI |- *. specialize (HI key eq_refl eq_refl). exists key. cbn [abind].
      by destruct (IC key).
  - destruct M as [ss| |]; cbn in H |- *; [by rewrite H|by destruct H as [w ->]|by rewrite H].
Qed.

Lemma parse_key_parsed text : parsed (parse_key text) (key_reading (json_parse text)) key_numbers "invalid verification key data".
Proof.
  unfold parse_key, parse, key_reading, has_string, has_number. destruct (json_parse text) as [[| | | | | |l]|]; try done. cbn [abind].
  rewrite string_member. destruct (find_key l "protocol") as [[| | | |t| |]|]; try done.
  rewrite string_member. destruct (find_key l "curve") as [[| | | |c| |]|]; try (by rewrite andb_false_r).
  cbn [json_key_ref abind].
  destruct (find_key l "nPublic") as [[]|]; cbn [default id get_number abind]; try (by rewrite andb_false_r);
    rewrite andb_true_r, <- negb_andb; (destruct (_ && _); cbn [negb]; [|done]); apply key_checked.
Qed.

(** The error code with a message. *)
Definition error_code (what : string) (error_msg : option (list ascii)) (maxsize : nat) : attempt (Z * option (list ascii)) :=
  Value (VERIFIER_ERROR, fmap (fun b => strncpy b (chars what) maxsize) error_msg).

(** What [groth16_verify] answers for any three texts, by what they hold. *)
Lemma verify_readings (V : Verifier E) g1 proof inputs vkey error_msg maxsize :
  let answer := groth16_verify V g1 proof inputs vkey error_msg maxsize in
  match proof_reading (json_parse proof), inputs_reading (json_parse inputs), key_reading (json_parse vkey) with
  | Outside, _, _ => answer = Undefined
  | Refused, _, _ => answer = error_code "invalid proof data" error_msg maxsize
  | Good _, (Refused | Outside), _ => answer = error_code "invalid inputs data" error_msg maxsize
  | Good _, Good _, Outside => answer = Undefined
  | Good _, Good _, Refused => answer = error_code "invalid verification key data" error_msg maxsize
  | Good ps, Good xs, Good ks => exists prf key,
      coordinates prf = map f_fromString ps /\ key_numbers key = map f_fromString ks /\
      answer = code_of (verify V g1 prf (map (RawFr_fromString (P := Fr_params)) xs) key) error_msg maxsize
  end.
Proof.
  cbv zeta. pose proof (parse_proof_parsed proof) as Hp. pose proof (parse_inputs_reading inputs) as Hi. pose proof (parse_key_parsed vkey) as Hk.
  unfold groth16_verify, verify_texts.
  destruct (proof_reading _) as [ps| |]; cbn [parsed] in Hp; [|by rewrite Hp..]. destruct Hp as (prf & -> & Hprf). cbn [abind].
  destruct (inputs_reading _) as [xs| |]; rewrite Hi; cbn [abind]; [|done..].
  destruct (key_reading _) as [ks| |]; cbn [parsed] in Hk; [|by rewrite Hk..]. destruct Hk as (key & -> & Hkey). cbn [abind].
  exists prf, key. do 2 (split; [done|]). by destruct (verify V g1 prf _ key) as [[what|[|]]|].
Qed.

End Format.

(** C27: [groth16_verify], for any three texts.  The first text that does not hold what it
    should decides: the code is 2 with "invalid proof data" for a text that is no object
    of protocol groth16 or has something else than a string where a coordinate is read,
    "invalid inputs data" for one that is no array of strings or is empty, "invalid
    verification key data" for one of another protocol or curve, without a number of public
    inputs, with something else than a string at a coordinate, or with no point of an input; the
    message is cut to the buffer, without a final null character if it is longer.  A missing
    member or a short array of coordinates is an access the library makes no promise on.  Else
    the code is that of [Verifier::verify] for the objects made of the strings: 0 or 1 as it
    accepts or rejects the proof, 2 with the message of its exception.  On the texts the
    tools write it decides the proof for the residues of the numbers, so that a number and
    the same number plus the modulus are the same input. *)
Theorem groth16_verify_correct {JL : JsonLib} {G : Mpn} {GL : MpnLaws G} {MZ : Mpz} {ML : MpzLaws MZ}
    {E : Type} {FO : FieldOps E} {FT : FieldText E} (V : Verifier E) g1 proof inputs vkey error_msg maxsize :
  let answer := groth16_verify V g1 proof inputs vkey error_msg maxsize in
  match proof_reading (json_parse proof), inputs_reading (json_parse inputs), key_reading (json_parse vkey) with
  | Outside, _, _ => answer = Undefined
  | Refused, _, _ => answer = error_code "invalid proof data" error_msg maxsize
  | Good _, (Refused | Outside), _ => answer = error_code "invalid inputs data" error_msg maxsize
  | Good _, Good _, Outside => answer = Undefined
  | Good _, Good _, Refused => answer = error_code "invalid verification key data" error_msg maxsize
  | Good ps, Good xs, Good ks => exists prf key,
      coordinates prf = map f_fromString ps /\ key_numbers key = map f_fromString ks /\
      answer = code_of (verify V g1 prf (map (RawFr_fromString (P := Fr_params)) xs) key) error_msg maxsize
  end /\
  (forall prf key n xs,
   json_parse proof = Some (proof_value prf) -> Forall read_back (coordinates prf) ->
   json_parse inputs = Some (inputs_json xs) -> xs <> [] ->
   json_parse vkey = Some (key_json key n) -> key_read_back key -> IC key <> [] ->
   exists els, Forall2 (elem (P := Fr_params)) els (map (fun x => x mod q (P := Fr_params)) xs) /\
     answer = code_of (verify V g1 prf els key) error_msg maxsize).
Proof.
  cbv zeta. split; [apply verify_readings|]. intros prf key n xs **.
  exists (map (RawFr_fromString (P := Fr_params)) (map decimal xs)). split; [apply inputs_elements|].
  by eapply verify_texts_read.
Qed.

(** ** Instance *)

Section Small.
#[local] Existing Instances F79 field_class_rep F79_ops Mpn_reference Mpz_reference.

#[local] Instance F79_text : FieldText (Zmod 79) := {|
  f_fromString s := Zmod.of_Z 79 (mpz_set_str s); f_toString e := decimal (Zmod.to_Z e)
|}.

(** A library that knows three texts. *)
#[local] Instance small_json : JsonLib := {|
  json_parse s := if (s =? "proof")%string then Some (proof_value small_proof)
    else if (s =? "inputs")%string then Some (inputs_json [3])
    else if (s =? "key")%string then Some (key_json small_key 1)
    else if (s =? "nothing")%string then Some (jarray [])
    else if (s =? "flag")%string then Some (jobject [("curve", jstring "bn128"); ("nPublic", jboolean true); ("protocol", jstring "groth16")]%string)
    else if (s =? "empty")%string then Some (key_json (mkVerificationKey (Alpha small_key) (Beta small_key) (Gamma small_key) (Delta small_key) []) 1)
    else None
|}.

(** Texts of keys: another value of a member, and none at all. *)
Example key_samples :
  let other key v := match key_json small_key 1 with jobject l => jobject (insert_key l key v) | j => j end in
  map (fun j => match key_reading (Some j) with Good ss => Some (length ss) | Refused => None | Outside => Some 0%nat end)
    [key_json small_key 1; other "curve" (jstring "bls12381"); other "protocol" (jstring "plonk"); other "nPublic" (jboolean true);
     other "IC" jnull; other "IC" (jarray [jarray [jstring "1"]]); jnull]%string =
  [Some 18%nat; None; None; None; None; Some 0%nat; None].
Proof. vm_compute. reflexivity. Qed.

Ltac reads := unfold read_back; apply Zmod.to_Z_inj; vm_compute; reflexivity.

Lemma groth16_verify_correct_witness :
  (exists els, Forall2 (elem (P := Fr_params)) els [3] /\
    groth16_verify small_verifier small_g1 "proof" "inputs" "key" (Some []) 0 =
      code_of (verify small_verifier small_g1 small_proof els small_key) (Some []) 0) /\
  groth16_verify small_verifier small_g1 "?" "inputs" "key" (Some (chars "....")) 4 = Value (2, Some (chars "inva")) /\
  groth16_verify small_verifier small_g1 "proof" "nothing" "key" None 0 = error_code "invalid inputs data" None 0 /\
  groth16_verify small_verifier small_g1 "proof" "inputs" "flag" None 0 = error_code "invalid verification key data" None 0 /\
  groth16_verify small_verifier small_g1 "proof" "inputs" "empty" None 0 = error_code "invalid verification key data" None 0.
Proof.
  split; [|split; [|split; [|split]]].
  - destruct (groth16_verify_correct small_verifier small_g1 "proof" "inputs" "key" (Some []) 0) as [_ H].
    apply (H small_proof small_key 1 [3]).
    + reflexivity.
    + repeat (apply Forall_cons_2; [reads|]). apply Forall_nil_2.
    + reflexivity.
    + discriminate.
    + reflexivity.
    + split; [split; reads|split; split; reads|split; split; reads|split; split; reads|].
      repeat (apply Forall_cons_2; [split; reads|]). apply Forall_nil_2.
    + discriminate.
  - exact (proj1 (groth16_verify_correct small_verifier small_g1 "?" "inputs" "key" (Some (chars "....")) 4)).
  - exact (proj1 (groth16_verify_correct small_verifier small_g1 "proof" "nothing" "key" None 0)).
  - exact (proj1 (groth16_verify_correct small_verifier small_g1 "proof" "inputs" "flag" None 0)).
  - exact (proj1 (groth16_verify_correct small_verifier small_g1 "proof" "inputs" "empty" None 0)).
Defined.
End Small.
