(* ===== verification/Quotient.v ===== *)
(** The polynomials behind the transforms of the prover: interpolation on the powers of
    a root, products of coefficient lists, and the exact division by [X^n - 1]. *)

From Stdlib Require Import Field ArithRing.
From S2P Require Import Prelude Field Dft.

(** The polynomial with the [n] coefficients [p], at [x]. *)
Definition ev {K} `{KField K} (p : nat -> K) (n : nat) (x : K) : K := ksum (fun t => kpow x t * p t)%K n.

(** The coefficients of a product, and of its quotient by [X^n - 1]. *)
Definition conv {K} `{KField K} (p r : nat -> K) (n k : nat) : K :=
  ksum (fun t => if ((t <=? k) && (k <? t + n))%nat then (p t * r (k - t)%nat)%K else 0%K) n.
Definition quotient {K} `{KField K} (p r : nat -> K) (n j : nat) : K := conv p r n (n + j).

(** [p] takes the values [x] on the powers of [w]. *)
Definition interpolates {K} `{KField K} (w : K) (n : nat) (p x : nat -> K) : Prop :=
  forall i, (i < n)%nat -> ev p n (kpow w i) = x i.

Section Polynomials.
Context {K : Type} {F : KField K}.
Add Field K_field_q : (k_theory (K := K)).
#[local] Open Scope field_scope.
Implicit Types (p r x : nat -> K) (w y : K) (n : nat).

Lemma ksum_app f n m : ksum f (n + m) = ksum f n + ksum (fun j => f (n + j)%nat) m.
Proof.
  induction m as [|m IH]; cbn [ksum]; [rewrite Nat.add_0_r; ring|].
  rewrite Nat.add_succ_r. cbn [ksum]. rewrite IH. ring.
Qed.

Lemma ksum_zeros f n : (forall i, (i < n)%nat -> f i = 0) -> ksum f n = 0.
Proof. intros H. by rewrite (ksum_ext f (fun _ => 0)), ksum_zero. Qed.

(** A window of a sum. *)
Lemma ksum_window f t n m : (t + n <= m)%nat ->
  ksum (fun k => if ((t <=? k) && (k <? t + n))%nat then f (k - t)%nat else 0) m = ksum f n.
Proof.
  intros Hm. replace m with (t + (n + (m - t - n)))%nat by lia. rewrite !ksum_app.
  rewrite ksum_zeros.
  2:{ intros i Hi. by rewrite (proj2 (Nat.leb_gt t i)) by lia. }
  rewrite (ksum_zeros _ (m - t - n)).
  2:{ intros i Hi. rewrite (proj2 (Nat.ltb_ge _ (t + n))) by lia. by rewrite andb_false_r. }
  rewrite (ksum_ext _ f); [ring|]. intros i Hi.
  rewrite (proj2 (Nat.leb_le t _)), (proj2 (Nat.ltb_lt _ (t + n))) by lia. cbn. f_equal. lia.
Qed.

Lemma ev_ext p r n y : (forall t, (t < n)%nat -> p t = r t) -> ev p n y = ev r n y.
Proof. intros H. apply ksum_ext. intros t Ht. by rewrite H. Qed.

Lemma ev_plus p r n y : ev (fun t => p t + r t) n y = ev p n y + ev r n y.
Proof. unfold ev. rewrite <- ksum_plus. apply ksum_ext. intros; ring. Qed.

Lemma ev_scale c p n y : ev (fun t => c * p t) n y = c * ev p n y.
Proof. unfold ev. rewrite <- ksum_scale. apply ksum_ext. intros; ring. Qed.

Lemma ev_shift c p n y : ev (fun t => kpow c t * p t) n y = ev p n (c * y).
Proof. apply ksum_ext. intros t _. rewrite kpow_mul_l. ring. Qed.

Lemma ev_product p r n y : ev p n y * ev r n y = ev (conv p r n) (n + n) y.
Proof.
  transitivity (ksum (fun t => kpow y t * p t * ev r n y) n).
  { transitivity (ev r n y * ev p n y); [ring|]. unfold ev at 2. rewrite <- ksum_scale. apply ksum_ext. intros; ring. }
  transitivity (ksum (fun t => ksum (fun k => kpow y k *
    (if ((t <=? k) && (k <? t + n))%nat then p t * r (k - t)%nat else 0)) (n + n)) n).
  { apply ksum_ext. intros t Ht. transitivity (ksum (fun u => kpow y (t + u) * (p t * r u)) n).
    { unfold ev. rewrite <- ksum_scale. apply ksum_ext. intros u _. rewrite kpow_add. ring. }
    rewrite <- (ksum_window _ t n (n + n)) by lia. apply ksum_ext. intros k _.
    destruct (Nat.leb_spec t k); cbn [andb]; [|ring]. destruct (k <? t + n)%nat; [|ring].
    by replace (t + (k - t))%nat with k by lia. }
  rewrite ksum_swap. apply ksum_ext. intros k _. unfold conv. by rewrite <- ksum_scale.
Qed.

(** Reduction modulo [X^n - 1]. *)
Lemma ev_reduce c n y :
  ev c (n + n) y = ev (fun j => c j + c (n + j)%nat) n y + (kpow y n - 1) * ev (fun j => c (n + j)%nat) n y.
Proof.
  unfold ev at 1. rewrite ksum_app. fold (ev c n y).
  replace (ksum (fun j => kpow y (n + j) * c (n + j)%nat) n) with (kpow y n * ev (fun j => c (n + j)%nat) n y).
  2:{ unfold ev. rewrite <- ksum_scale. apply ksum_ext. intros; rewrite kpow_add; ring. }
  rewrite ev_plus. ring.
Qed.

(** ** Interpolation *)

Section Root.
Context (d : nat) (w : K) (Htwo : 1 + 1 <> 0) (Hw : root2 d w).
Notation n := (2 ^ d)%nat.

Lemma dft_ev p i : dft w n p i = ev p n (kpow w i).
Proof. apply ksum_ext. intros t _. by rewrite kpow_mul. Qed.

Lemma root_inverse : exists w', w * w' = 1 /\ root2 d w'.
Proof.
  assert (H : w * kinv w = 1) by (field; by eapply root2_nonzero).
  exists (kinv w). split; [done|]. by eapply root2_inverse.
Qed.

(** Coefficients are determined by the values. *)
Lemma interpolates_unique p r x t : interpolates w n p x -> interpolates w n r x -> (t < n)%nat -> p t = r t.
Proof.
  intros Hp Hr Ht. destruct root_inverse as (w' & Hinv & Hw').
  assert (E : kpow (1 + 1) d * p t = kpow (1 + 1) d * r t).
  { rewrite <- !(dft_inverse d w w') by done. unfold dft at 1 3. apply ksum_ext. intros i Hi.
    rewrite !dft_ev. by rewrite Hp, Hr. }
  assert (Hn : kpow (1 + 1) d <> 0) by (by apply kpow_nonzero).
  transitivity (kpow (1 + 1) d * p t / kpow (1 + 1) d); [by field|]. rewrite E. by field.
Qed.

(** The inverse transform interpolates. *)
Lemma idft_interpolates w' k x : w * w' = 1 -> kpow (1 + 1) d * k = 1 ->
  interpolates w n (fun t => dft w' n x t * k) x.
Proof.
  intros Hinv Hk i Hi. transitivity (k * dft w n (dft w' n x) i).
  { rewrite dft_ev, <- ev_scale. apply ev_ext. intros; ring. }
  rewrite (dft_inverse d w' w); [|done|by eapply root2_inverse|done| |done].
  - transitivity (kpow (1 + 1) d * k * x i); [ring|]. rewrite Hk. ring.
  - rewrite <- Hinv. ring.
Qed.

Lemma kpow_root i : kpow (kpow w i) n = 1.
Proof. by rewrite <- kpow_mul, Nat.mul_comm, kpow_mul, root2_one, kpow_one. Qed.

(** When [c] takes the products of the values of [a] and [b], the difference of the
    polynomials is a multiple of [X^n - 1]. *)
Lemma division a b c xa xb : interpolates w n a xa -> interpolates w n b xb ->
  interpolates w n c (fun i => xa i * xb i) -> forall y,
  ev a n y * ev b n y - ev c n y = (kpow y n - 1) * ev (quotient a b n) n y.
Proof.
  intros Ha Hb Hc y. rewrite ev_product, ev_reduce.
  rewrite (ev_ext (fun j => conv a b n j + conv a b n (n + j)%nat) c).
  { unfold quotient. ring. }
  intros t Ht. apply (interpolates_unique (fun j => conv a b n j + conv a b n (n + j)%nat) c (fun i => xa i * xb i) t); [|exact Hc|done]. intros i Hi.
  rewrite <- Ha, <- Hb by done. rewrite ev_product, ev_reduce, kpow_root. ring.
Qed.
End Root.

(** On the coset of a root of minus one the factor is minus two. *)
Lemma division_coset d eta a b c xa xb i : 1 + 1 <> 0 -> root2 (S d) eta ->
  let n := (2 ^ d)%nat in let w := kpow eta 2 in
  interpolates w n a xa -> interpolates w n b xb -> interpolates w n c (fun i => xa i * xb i) ->
  let y := eta * kpow w i in
  ev a n y * ev b n y - ev c n y = - (1 + 1) * ev (quotient a b n) n y.
Proof.
  intros H2 He n w Ha Hb Hc y. assert (Hw : root2 d w) by (by apply root2_square).
  rewrite (division d w H2 Hw a b c xa xb Ha Hb Hc). f_equal.
  unfold y. rewrite kpow_mul_l. unfold n. rewrite (kpow_root d w Hw). cbn [root2] in He. rewrite He. ring.
Qed.
End Polynomials.
