(* ===== verification/Groth16.v ===== *)
(** The prover of [src/groth16.cpp] and [src/groth16.hpp]: the class [Prover], its
    constructor and [prove], from the witness in memory to the affine points of the
    proof.  The calls of the thread pool run along logs; memory the key points to is the
    lists of its points and coefficients, and what lies outside them is undefined. *)

From Stdlib Require Import String Zmod.
From S2P Require Import Prelude Limbs Gmp Mpz FrRaw FrElement FrElementWp FrMpz RawFr Group Naf Loops Parallel Schedule Msm Field Fft FftFr Tower Curve CurveSpec CurveClass Engine Pairing Verify.

(** [struct Coef] *)
Record Coef := mkCoef { cf_m : Z; cf_c : Z; cf_s : Z; cf_coef : Element }.

(** The fields of [Prover]. *)
Record Prover (E : Type) := mkProver {
  nVars : Z;
  nPublic : Z;
  domainSize : Z;
  nCoefs : Z;
  vk_alpha1 : PointAffine (E := E);
  vk_beta1 : PointAffine (E := E);
  vk_beta2 : PointAffine (E := F2El E);
  vk_delta1 : PointAffine (E := E);
  vk_delta2 : PointAffine (E := F2El E);
  coefs : list Coef;
  pointsA : list (PointAffine (E := E));
  pointsB1 : list (PointAffine (E := E));
  pointsB2 : list (PointAffine (E := F2El E));
  pointsC : list (PointAffine (E := E));
  pointsH : list (PointAffine (E := E));
  fft : Fft Element
}.
#[global] Arguments mkProver {E}. #[global] Arguments nVars {E}. #[global] Arguments nPublic {E}.
#[global] Arguments domainSize {E}. #[global] Arguments nCoefs {E}. #[global] Arguments vk_alpha1 {E}.
#[global] Arguments vk_beta1 {E}. #[global] Arguments vk_beta2 {E}. #[global] Arguments vk_delta1 {E}.
#[global] Arguments vk_delta2 {E}. #[global] Arguments coefs {E}. #[global] Arguments pointsA {E}.
#[global] Arguments pointsB1 {E}. #[global] Arguments pointsB2 {E}. #[global] Arguments pointsC {E}.
#[global] Arguments pointsH {E}. #[global] Arguments fft {E}.

(** ** What the threads do *)

Notation log := (list (JobRange * nat)).

(** In the loops of a call of [MSM::run]. *)
Record MsmLogs := mkMsmLogs { msm_log1 : log; msm_log2 : log }.

(** In [ifft], the shift and [fft] of one of the three arrays. *)
Record CosetLogs := mkCosetLogs {
  ifft_logs : Z -> log;
  ifft_log : log;
  shift_log : log;
  fft_logs_ : Z -> log
}.

(** In a call of [prove].  The rounds of the loop over the coefficients add to shared
    cells, each under a lock; [coefs_order] is the order in which they do. *)
Record ProveLogs := mkProveLogs {
  logs_A : MsmLogs;
  logs_B1 : MsmLogs;
  logs_B2 : MsmLogs;
  logs_C : MsmLogs;
  logs_H : MsmLogs;
  init_log : log;
  coefs_order : list Z;
  product_log : log;
  coset_a : CosetLogs;
  coset_b : CosetLogs;
  coset_c : CosetLogs;
  abc_log : log
}.

(** The first [n] bytes of an element replaced by [bytes], as [randombytes_buf] does. *)
Definition element_of_bytes (b : list Z) : Element :=
  map (fun i => le_value (take 8 (drop (8 * i) b))) (seq 0 4).
Definition randombytes_buf (x : Element) (bytes : list Z) : Element :=
  element_of_bytes (bytes ++ drop (length bytes) (element_bytes x)).

Section Prove.
Context {E : Type} {FO : FieldOps E} {FO2 : FieldOps (F2El E)} {G : Mpn} {MZ : Mpz}.
#[local] Existing Instance Fr_params.

(** [makeProver]: the coefficients begin four bytes into their section, the transform is
    built for twice the domain; the product is one of 32-bit words. *)
Definition makeProver (fuel : nat) (nThreads : Z) (roots_log : list (Z * nat)) (nVars nPublic domainSize nCoefs : Z)
    vk_alpha1 vk_beta1 vk_beta2 vk_delta1 vk_delta2 coefs pointsA pointsB1 pointsB2 pointsC pointsH :
    option (string + Prover E) :=
  fft ← FFT_new fuel nThreads roots_log (u32 (domainSize * 2));
  Some (match fft with
  | inl what => inl what
  | inr fft => inr (mkProver nVars nPublic domainSize nCoefs vk_alpha1 vk_beta1 vk_beta2 vk_delta1 vk_delta2
      coefs pointsA pointsB1 pointsB2 pointsC pointsH fft)
  end).

(** ** The quotient *)

(** [a[i] = b[i] = 0] *)
Definition init_cell (i : Z) (ab : array Element * array Element) : option (array Element * array Element) :=
  let '(a, b) := ab in
  a ← array_set a i (RawFr_copy RawFr_zero);
  b ← array_set b i (RawFr_copy RawFr_zero);
  Some (a, b).

Definition add_at (c : Z) (aux : Element) (a : array Element) : option (array Element) :=
  x ← array_get a c;
  array_set a c (RawFr_add x aux).

(** The round [i] of the loop over the coefficients. *)
Definition coef_step (coefs : list Coef) (wtns : list Element) (i : Z) (ab : array Element * array Element) :
    option (array Element * array Element) :=
  let '(a, b) := ab in
  cf ← coefs !! Z.to_nat i;
  w ← wtns !! Z.to_nat (cf_s cf);
  let aux := RawFr_mul w (cf_coef cf) in
  if cf_m cf =? 0 then a ← add_at (cf_c cf) aux a; Some (a, b)
  else b ← add_at (cf_c cf) aux b; Some (a, b).

Definition product_cell (a b : array Element) (i : Z) (c : array Element) : option (array Element) :=
  x ← array_get a i;
  y ← array_get b i;
  array_set c i (RawFr_mul x y).

(** [a[i] *= root(domainPower + 1, i)] *)
Definition shift_cell (F : Fft Element) (domainPower i : Z) (a : array Element) : option (array Element) :=
  x ← array_get a i;
  r ← FFT_root F (u32 (domainPower + 1)) i;
  array_set a i (RawFr_mul x r).

(** From the values on the domain to those on its coset. *)
Definition to_coset (F : Fft Element) (domainSize domainPower : Z) (L : CosetLogs) (a : array Element) :
    option (array Element) :=
  a ← FFT_ifft F (ifft_logs L) (ifft_log L) a domainSize;
  a ← run_log (shift_log L) (fun _ => shift_cell F domainPower) a;
  FFT_fft F (fft_logs_ L) a domainSize.

Definition abc_cell (b c : array Element) (i : Z) (a : array Element) : option (array Element) :=
  x ← array_get a i;
  y ← array_get b i;
  z ← array_get c i;
  array_set a i (RawFr_fromMontgomery (RawFr_sub (RawFr_mul x y) z)).

(** The scalars of the points [pointsH]. *)
Definition quotient_scalars (p : Prover E) (L : ProveLogs) (wtns : list Element) : option (array Element) :=
  let n := domainSize p in
  ab ← run_log (init_log L) (fun _ => init_cell) (new_array n, new_array n);
  ab ← for_each (coefs_order L) (coef_step (coefs p) wtns) ab;
  let '(a, b) := ab in
  c ← run_log (product_log L) (fun _ => product_cell a b) (new_array n);
  domainPower ← FFT_log2 n;
  a ← to_coset (fft p) n domainPower (coset_a L) a;
  b ← to_coset (fft p) n domainPower (coset_b L) b;
  c ← to_coset (fft p) n domainPower (coset_c L) c;
  run_log (abc_log L) (fun _ => abc_cell b c) a.

(** ** The proof *)

(** The bytes of the first [n] cells of an array, if they are initialised. *)
Definition array_bytes (n : Z) (a : array Element) : option (list Z) :=
  l ← mapM (array_get a) (seqZ 0 n); Some (flat_map element_bytes l).

Definition sizeof_element : Z := 32.

Section Points.
Context (fa : E) (fa2 : F2El E).
#[local] Instance curve1 : CurveOps (PointAffine (E := E)) (Point (E := E)) := template_curve fa.
#[local] Instance curve2 : CurveOps (PointAffine (E := F2El E)) (Point (E := F2El E)) := template_curve fa2.

(** [multiMulByScalarMSM] *)
Definition msm1 (nThreads : Z) (L : MsmLogs) (bases : list (PointAffine (E := E))) (scalars : list Z) (n : Z) :=
  msm_run nThreads (msm_log1 L) (msm_log2 L) bases scalars sizeof_element n.
Definition msm2 (nThreads : Z) (L : MsmLogs) (bases : list (PointAffine (E := F2El E))) (scalars : list Z) (n : Z) :=
  msm_run nThreads (msm_log1 L) (msm_log2 L) bases scalars sizeof_element n.

(** [mulByScalar] of an affine point and of a point. *)
Definition mul1 (base : PointAffine (E := E)) (k : Element) :=
  nafMulByScalar (PO := template_mixed fa) base (element_bytes k) sizeof_element.
Definition mul2 (base : PointAffine (E := F2El E)) (k : Element) :=
  nafMulByScalar (PO := template_mixed fa2) base (element_bytes k) sizeof_element.
Definition mul_point (base : Point (E := E)) (k : Element) :=
  nafMulByScalar (PO := template_full fa) base (element_bytes k) sizeof_element.

(** The end of [prove]: the blinding factors and the points of the proof. *)
Definition assemble (p : Prover E) (pi_a pib1 pi_c pih : Point (E := E)) (pi_b : Point (E := F2El E))
    (random_r random_s : list Z) : option (ProofData E) :=
  let r := randombytes_buf (RawFr_copy RawFr_zero) random_r in
  let s := randombytes_buf (RawFr_copy RawFr_zero) random_s in
  let pi_a := pt_add pi_a (vk_alpha1 p) in
  p1 ← mul1 (vk_delta1 p) r;
  let pi_a := pt_plus pi_a p1 in
  let pi_b := pt_add pi_b (vk_beta2 p) in
  p2 ← mul2 (vk_delta2 p) s;
  let pi_b := pt_plus pi_b p2 in
  let pib1 := pt_add pib1 (vk_beta1 p) in
  p1 ← mul1 (vk_delta1 p) s;
  let pib1 := pt_plus pib1 p1 in
  let pi_c := pt_plus pi_c pih in
  p1 ← mul_point pi_a s;
  let pi_c := pt_plus pi_c p1 in
  p1 ← mul_point pib1 r;
  let pi_c := pt_plus pi_c p1 in
  let rs := RawFr_toMontgomery (RawFr_mul r s) in
  p1 ← mul1 (vk_delta1 p) rs;
  let pi_c := pt_sub (PointOps := template_full fa) pi_c p1 in
  Some (mkProofData (toAffine pi_a) (toAffine pi_b) (toAffine pi_c)).

(** [Prover::prove]; [random_r] and [random_s] are what the generator writes. *)
Definition prove (nThreads : Z) (L : ProveLogs) (random_r random_s : list Z) (p : Prover E) (wtns : list Element) :
    option (ProofData E) :=
  let bytes := flat_map element_bytes wtns in
  let sW := sizeof_element in
  pi_a ← msm1 nThreads (logs_A L) (pointsA p) bytes (nVars p);
  pib1 ← msm1 nThreads (logs_B1 L) (pointsB1 p) bytes (nVars p);
  pi_b ← msm2 nThreads (logs_B2 L) (pointsB2 p) bytes (nVars p);
  pi_c ← msm1 nThreads (logs_C L) (pointsC p) (drop (Z.to_nat (u32 (u32 (nPublic p + 1) * sW))) bytes)
    (u32 (u32 (nVars p - nPublic p) - 1));
  a ← quotient_scalars p L wtns;
  h ← array_bytes (domainSize p) a;
  pih ← msm1 nThreads (logs_H L) (pointsH p) h (domainSize p);
  assemble p pi_a pib1 pi_c pih pi_b random_r random_s.
End Points.
End Prove.
