(* ===== verification/QuotientSpec.v ===== *)
(** The scalars the prover multiplies the points [pointsH] by: the values of the
    quotient of the product of the two interpolated polynomials, on every schedule. *)

From Stdlib Require Import Field ArithRing Zmod.
From S2P Require Import Prelude Limbs Gmp Mpz FrRaw FrElement FrElementWp FrMpz RawFr Loops Parallel Schedule Field Dft Quotient Fft FftSpec FftFr Groth16.

(** ** Parallel loops over the cells of an array *)

Section CellLoops.
Context {A : Type}.

(** Each round writes its own cell, from what it finds. *)
Lemma write_cells nThreads N log (body : Z -> array A -> option (array A)) (a : array A)
    (Q : Z -> array A -> Prop) (P : Z -> A -> Prop) :
  0 <= N < 2 ^ 31 -> 1 <= nThreads < 2 ^ 32 -> call_log true nThreads (parallelFor 0 N nThreads) log ->
  N <= Z.of_nat (length a) ->
  (forall i k (b b' : array A) e, i <> k -> array_set b i e = Some b' -> Q k b -> Q k b') ->
  (forall i, 0 <= i < N -> Q i a) ->
  (forall i b, 0 <= i < N -> Q i b -> exists e, body i b = array_set b i e /\ P i e) ->
  exists a', run_log log (fun _ => body) a = Some a' /\
    forall i, 0 <= i < N -> exists e, array_get a' i = Some e /\ P i e.
Proof.
  intros HN Hn Hlog Hlen Hkeep Hq Hbody.
  destruct (parallelFor_steps (fun b : array A => N <= Z.of_nat (length b)) Q
    (fun i b => exists e, array_get b i = Some e /\ P i e) nThreads 0 N log (fun _ => body) a)
    as (a' & Ea & Hl & HP); [lia|unfold is_i32; fold_pows; lia|unfold is_i32; fold_pows; lia|done|done|done|done| |by exists a'].
  intros i t b Hi _ Hb HQ. destruct (Hbody i b Hi HQ) as (e & Eb & He).
  destruct (array_set_ok b i e) as (b' & Es & Hl & Hg & Hk); [lia|].
  exists b'. split; [by rewrite Eb|]. split; [lia|]. split; [by exists e|].
  intros k Hk' Hne. split.
  - by apply (Hkeep i k b b' e).
  - intros (e' & He' & HP'). exists e'. by rewrite Hk.
Qed.

(** Each round replaces its own cell. *)
Lemma map_cells nThreads N log (body : Z -> array A -> option (array A)) (a : array A) (Q P : Z -> A -> Prop) :
  0 <= N < 2 ^ 31 -> 1 <= nThreads < 2 ^ 32 -> call_log true nThreads (parallelFor 0 N nThreads) log ->
  N <= Z.of_nat (length a) ->
  (forall i, 0 <= i < N -> exists e, array_get a i = Some e /\ Q i e) ->
  (forall i b e, 0 <= i < N -> array_get b i = Some e -> Q i e ->
    exists e', body i b = array_set b i e' /\ P i e') ->
  exists a', run_log log (fun _ => body) a = Some a' /\
    forall i, 0 <= i < N -> exists e, array_get a' i = Some e /\ P i e.
Proof.
  intros HN Hn Hlog Hlen Hq Hbody.
  apply (write_cells nThreads N log body a (fun i b => exists e, array_get b i = Some e /\ Q i e) P); try done.
  - intros i k b b' e Hne Hs (e' & He' & HQ). exists e'. split; [|done].
    destruct (array_set_ok b i e) as (b2 & Es & _ & _ & Hk).
    { unfold array_set in Hs. destruct (Z.leb_spec 0 i), (Z.ltb_spec i (Z.of_nat (length b))); cbn in Hs; done || lia. }
    rewrite Es in Hs. injection Hs as <-. by rewrite Hk.
  - intros i b Hi (e & He & HQ). by apply (Hbody i b e).
Qed.
End CellLoops.

(** ** Sums over lists, in any order *)

Section Sums.
Context {K : Type} {KF : KField K}.
Add Field K_field_qs : (k_theory (K := K)).
#[local] Open Scope field_scope.

Definition lsum (l : list K) : K := foldr kadd 0 l.

Lemma lsum_permutation (l1 l2 : list K) : l1 ≡ₚ l2 -> lsum l1 = lsum l2.
Proof.
  unfold lsum. induction 1 as [|x l1 l2 _ IH|x y l|l1 l2 l3 _ IH1 _ IH2]; cbn [foldr];
    [done|by rewrite IH|ring|by rewrite IH1].
Qed.

Lemma lsum_app l1 l2 : lsum (l1 ++ l2) = lsum l1 + lsum l2.
Proof. unfold lsum. induction l1 as [|x l1 IH]; cbn [app foldr]; [ring|]. rewrite IH. ring. Qed.
End Sums.

(** ** The values of the coefficients *)

Section Values.
#[local] Existing Instance Fr_params.
#[local] Existing Instances RawFr_rep Fr_residues.
Notation Kr := (Zmod q).

(** A coefficient is stored twice in Montgomery form, the witness is not. *)
Definition coef_val (cf : Coef) : Kr := Zmod.of_Z q (eval (cf_coef cf) * Rinv * Rinv).
Definition wt_val (x : Element) : Kr := Zmod.of_Z q (eval x).

(** What the coefficient adds to the cell [c] of the first ([side = true]) or the second
    array. *)
Definition contribution (wtns : list Element) (side : bool) (c : nat) (cf : Coef) : Kr :=
  if Bool.eqb (cf_m cf =? 0) side && (cf_c cf =? Z.of_nat c)
  then (wt_val (wtns !!! Z.to_nat (cf_s cf)) * coef_val cf)%K else 0%K.

(** The row [c] of one of the two matrices times the witness. *)
Definition row_value (coefs : list Coef) (wtns : list Element) (side : bool) (c : nat) : Kr :=
  lsum (map (contribution wtns side c) coefs).

Record coef_ok (wtns : list Element) (N : Z) (cf : Coef) : Prop := {
  co_value : exists v, rep (cf_coef cf) v;
  co_cell : 0 <= cf_c cf < N;
  co_signal : 0 <= cf_s cf < Z.of_nat (length wtns)
}.

(** A witness element: four limbs. *)
Definition wt_ok (x : Element) : Prop := limbs 4 x /\ eval x < 2 ^ 254.
End Values.

(** ** The loops *)

Section Loops.
Context {G : Mpn} {GL : MpnLaws G} {MZ : Mpz} {ML : MpzLaws MZ}.
#[local] Existing Instance Fr_params.
#[local] Existing Instances RawFr_rep Fr_residues.
Notation Kr := (Zmod q).
Add Field K_field_loops : (k_theory (K := Kr)).
#[local] Open Scope field_scope.

#[local] Instance Fr_field_laws : FieldLaws Kr Element := RawFr_field_laws Fr_q_prime.

Lemma holds_Z (a : array Element) d (x : nat -> Kr) :
  holds a (2 ^ d) x <-> forall i, (0 <= i < 2 ^ Z.of_nat d)%Z -> exists e, array_get a i = Some e /\ f_rep e (x (Z.to_nat i)).
Proof.
  split; intros H i Hi.
  - specialize (H (Z.to_nat i)). rewrite Z2Nat.id in H by lia. apply H. apply Nat2Z.inj_lt. rewrite pow2_Z. lia.
  - apply Nat2Z.inj_lt in Hi. rewrite pow2_Z in Hi. destruct (H (Z.of_nat i)) as (e & He & Hr); [lia|].
    rewrite Nat2Z.id in Hr. by exists e.
Qed.

Lemma zero_rep : f_rep (RawFr_copy RawFr_zero) (0 : Kr).
Proof. apply RawFr_copy_spec. exact f_zero_rep. Qed.

Lemma init_spec nThreads d log : (d < 31)%nat -> (1 <= nThreads < 2 ^ 32)%Z ->
  call_log true nThreads (parallelFor 0 (2 ^ Z.of_nat d) nThreads) log ->
  exists a b, run_log log (fun _ => init_cell) (new_array (2 ^ Z.of_nat d), new_array (2 ^ Z.of_nat d)) = Some (a, b) /\
    holds a (2 ^ d) (fun _ => 0) /\ holds b (2 ^ d) (fun _ => 0).
Proof.
  intros Hd Hn Hlog. assert (HN : (0 < 2 ^ Z.of_nat d < 2 ^ 31)%Z).
  { split; [apply Z.pow_pos_nonneg; lia|apply Z.pow_lt_mono_r; lia]. }
  destruct (parallelFor_steps
    (fun ab : array Element * array Element => Z.of_nat (length (fst ab)) = (2 ^ Z.of_nat d)%Z /\
      Z.of_nat (length (snd ab)) = (2 ^ Z.of_nat d)%Z) (fun _ _ => True)
    (fun i ab => cell (fst ab) i (0 : Kr) /\ cell (snd ab) i (0 : Kr))
    nThreads 0 (2 ^ Z.of_nat d) log (fun _ => init_cell) (new_array (2 ^ Z.of_nat d), new_array (2 ^ Z.of_nat d)))
    as ([a b] & E & _ & HP); [lia|unfold is_i32; fold_pows; lia|unfold is_i32; fold_pows; lia|done|done| |done| |].
  - cbn [fst snd]. rewrite !new_array_length by lia. done.
  - intros i t [a b] Hi _ [Ha Hb] _. cbn [fst snd] in *. unfold init_cell.
    destruct (cell_set a i (RawFr_copy RawFr_zero) (0 : Kr)) as (a' & Ea & La & Ca & Ka); [lia|apply zero_rep|].
    destruct (cell_set b i (RawFr_copy RawFr_zero) (0 : Kr)) as (b' & Eb & Lb & Cb & Kb); [lia|apply zero_rep|].
    rewrite Ea. cbn [mbind option_bind]. rewrite Eb. exists (a', b'). cbn [fst snd mbind option_bind].
    split; [done|]. rewrite La, Lb. split; [done|]. split; [done|]. intros k _ Hne. split; [done|].
    intros [H1 H2]. split; [by apply Ka|by apply Kb].
  - exists a, b. split; [done|]. split; apply holds_Z; intros i Hi; by destruct (HP i Hi).
Qed.

(** *** The coefficients *)

Lemma coef_product (w : Element) cf : wt_ok w -> (exists v, rep (cf_coef cf) v) ->
  f_rep (RawFr_mul w (cf_coef cf)) (wt_val w * coef_val cf).
Proof.
  intros [Hw _] [v Hv]. unfold f_rep, RawFr_rep. cbn [kmul Fr_residues Zmod_field].
  rewrite Zmod.to_Z_mul. unfold wt_val, coef_val. rewrite !Zmod.to_Z_of_Z, (rep_eval _ _ Hv).
  eapply elem_intro; [by apply Fr_rawMMul_spec|]. rewrite Z.mod_mod by apply q_nonzero. solve_mont.
Qed.

Lemma add_at_spec (a : array Element) n (x : nat -> Kr) c aux (v : Kr) : (c < n)%nat -> holds a n x -> f_rep aux v ->
  exists a', add_at (Z.of_nat c) aux a = Some a' /\
    holds a' n (fun k => x k + (if Nat.eqb k c then v else 0)).
Proof.
  intros Hc Ha Hv. destruct (Ha c Hc) as (e & He & Hr). unfold add_at. rewrite He. cbn [mbind option_bind].
  destruct (cell_set a (Z.of_nat c) (RawFr_add e aux) (x c + v)) as (a' & Ea & _ & Ca & Ka).
  { by eapply array_get_range. } { exact (f_add_rep e aux (x c) v Hr Hv). }
  exists a'. split; [done|]. intros k Hk. destruct (Nat.eqb_spec k c) as [->|Hne]; [done|].
  eapply cell_eq; [apply Ka; [lia|by apply Ha]|ring].
Qed.

Definition contr (coefs : list Coef) (wtns : list Element) (side : bool) (c : nat) (i : Z) : Kr :=
  from_option (contribution wtns side c) 0 (coefs !! Z.to_nat i).

Lemma coef_step_spec coefs wtns n i cf (a b : array Element) (x y : nat -> Kr) :
  Forall wt_ok wtns -> coefs !! Z.to_nat i = Some cf -> coef_ok wtns (Z.of_nat n) cf -> holds a n x -> holds b n y ->
  exists a' b', coef_step coefs wtns i (a, b) = Some (a', b') /\
    holds a' n (fun c => x c + contr coefs wtns true c i) /\ holds b' n (fun c => y c + contr coefs wtns false c i).
Proof.
  intros Hw Hi [Hv Hc Hs] Ha Hb. unfold coef_step. rewrite Hi. cbn [mbind option_bind].
  destruct (lookup_lt_is_Some_2 wtns (Z.to_nat (cf_s cf))) as [w Ew]; [lia|]. rewrite Ew. cbn [mbind option_bind].
  pose proof (coef_product w cf (Forall_lookup_1 _ _ _ _ Hw Ew) Hv) as Haux.
  assert (Hcell : forall side c, contr coefs wtns side c i =
    if Bool.eqb (cf_m cf =? 0)%Z side && Nat.eqb c (Z.to_nat (cf_c cf)) then wt_val w * coef_val cf else 0).
  { intros side c. unfold contr. rewrite Hi. cbn [from_option]. unfold contribution.
    rewrite (list_lookup_total_correct _ _ _ Ew).
    replace (cf_c cf =? Z.of_nat c)%Z with (Nat.eqb c (Z.to_nat (cf_c cf))); [done|].
    destruct (Nat.eqb_spec c (Z.to_nat (cf_c cf))); symmetry; [apply Z.eqb_eq|apply Z.eqb_neq]; lia. }
  assert (Hz : Z.of_nat (Z.to_nat (cf_c cf)) = cf_c cf) by lia.
  destruct (cf_m cf =? 0)%Z eqn:Em; pose proof (Hcell true) as Ht; pose proof (Hcell false) as Hf; cbn [Bool.eqb andb] in Ht, Hf.
  - destruct (add_at_spec a n x (Z.to_nat (cf_c cf)) _ _ ltac:(lia) Ha Haux) as (a' & Ea & Ha').
    rewrite Hz in Ea. rewrite Ea. cbn [mbind option_bind]. exists a', b. split; [done|]. split; intros c Hk.
    + apply (cell_eq _ _ _ _ (Ha' c Hk)). by rewrite Ht.
    + apply (cell_eq _ _ _ _ (Hb c Hk)). rewrite Hf. ring.
  - destruct (add_at_spec b n y (Z.to_nat (cf_c cf)) _ _ ltac:(lia) Hb Haux) as (b' & Eb & Hb').
    rewrite Hz in Eb. rewrite Eb. cbn [mbind option_bind]. exists a, b'. split; [done|]. split; intros c Hk.
    + apply (cell_eq _ _ _ _ (Ha c Hk)). rewrite Ht. ring.
    + apply (cell_eq _ _ _ _ (Hb' c Hk)). by rewrite Hf.
Qed.

Lemma coefs_loop coefs wtns n order : Forall wt_ok wtns ->
  Forall (fun i => exists cf, coefs !! Z.to_nat i = Some cf /\ coef_ok wtns (Z.of_nat n) cf) order ->
  forall (a b : array Element) (x y : nat -> Kr), holds a n x -> holds b n y ->
  exists a' b', for_each order (coef_step coefs wtns) (a, b) = Some (a', b') /\
    holds a' n (fun c => x c + lsum (map (contr coefs wtns true c) order)) /\
    holds b' n (fun c => y c + lsum (map (contr coefs wtns false c) order)).
Proof.
  intros Hw. induction 1 as [|i order (cf & Hi & Hok) _ IH]; intros a b x y Ha Hb.
  - exists a, b. split; [done|]. split; intros c Hc; [apply (cell_eq _ _ _ _ (Ha c Hc))|apply (cell_eq _ _ _ _ (Hb c Hc))]; unfold lsum; cbn [map foldr]; ring.
  - destruct (coef_step_spec coefs wtns n i cf a b x y Hw Hi Hok Ha Hb) as (a1 & b1 & E1 & Ha1 & Hb1).
    destruct (IH a1 b1 _ _ Ha1 Hb1) as (a2 & b2 & E2 & Ha2 & Hb2).
    cbn [for_each]. rewrite E1. cbn [mbind option_bind]. exists a2, b2. split; [done|].
    split; intros c Hc; [apply (cell_eq _ _ _ _ (Ha2 c Hc))|apply (cell_eq _ _ _ _ (Hb2 c Hc))]; unfold lsum; cbn [map foldr]; ring.
Qed.

Lemma contr_all coefs wtns side c : map (contr coefs wtns side c) (seqZ 0 (Z.of_nat (length coefs))) =
  map (contribution wtns side c) coefs.
Proof.
  apply list_eq. intros i. change (@map ?A ?B) with (@fmap list _ A B). rewrite !list_lookup_fmap.
  destruct (Nat.lt_ge_cases i (length coefs)) as [Hi|Hi].
  - rewrite lookup_seqZ_lt by lia. cbn. unfold contr. replace (Z.to_nat (0 + Z.of_nat i)) with i by lia.
    destruct (lookup_lt_is_Some_2 coefs i Hi) as [cf ->]. done.
  - rewrite lookup_seqZ_ge by lia. by rewrite lookup_ge_None_2 by lia.
Qed.

Lemma coefs_spec coefs wtns n order (a b : array Element) : Forall wt_ok wtns -> Forall (coef_ok wtns (Z.of_nat n)) coefs ->
  order ≡ₚ seqZ 0 (Z.of_nat (length coefs)) -> holds a n (fun _ => 0 : Kr) -> holds b n (fun _ => 0 : Kr) ->
  exists a' b', for_each order (coef_step coefs wtns) (a, b) = Some (a', b') /\
    holds a' n (row_value coefs wtns true) /\ holds b' n (row_value coefs wtns false).
Proof.
  intros Hw Hc Hp Ha Hb.
  destruct (coefs_loop coefs wtns n order Hw) with (a := a) (b := b) (x := fun _ : nat => (0 : Kr)) (y := fun _ : nat => (0 : Kr))
    as (a' & b' & E & Ha' & Hb'); [|done|done|].
  - rewrite Hp. apply list.Forall_forall. intros i Hi. apply elem_of_seqZ in Hi.
    destruct (lookup_lt_is_Some_2 coefs (Z.to_nat i)) as [cf Hcf]; [lia|]. exists cf. split; [done|].
    by eapply Forall_lookup_1.
  - exists a', b'. split; [done|].
    assert (Hr : forall side c, 0 + lsum (map (contr coefs wtns side c) order) = row_value coefs wtns side c).
    { intros side c. unfold row_value. rewrite <- contr_all.
      rewrite (lsum_permutation (map (contr coefs wtns side c) order) (map (contr coefs wtns side c) (seqZ 0 (Z.of_nat (length coefs)))));
        [ring|by apply Permutation_map]. }
    split; intros c Hk; [apply (cell_eq _ _ _ _ (Ha' c Hk))|apply (cell_eq _ _ _ _ (Hb' c Hk))]; apply Hr.
Qed.

(** *** The domain and its coset *)

Lemma array_length (a : array Element) n (x : nat -> Kr) : holds a n x -> (n <= length a)%nat.
Proof.
  intros Ha. destruct n as [|n]; [lia|]. destruct (Ha n ltac:(lia)) as (e & He & _).
  apply array_get_range in He. lia.
Qed.

Lemma product_cells_spec nThreads d log (a b : array Element) (x y : nat -> Kr) : (d < 31)%nat -> (1 <= nThreads < 2 ^ 32)%Z ->
  call_log true nThreads (parallelFor 0 (2 ^ Z.of_nat d) nThreads) log ->
  holds a (2 ^ d) x -> holds b (2 ^ d) y ->
  exists c, run_log log (fun _ => product_cell a b) (new_array (2 ^ Z.of_nat d)) = Some c /\
    holds c (2 ^ d) (fun i => x i * y i).
Proof.
  intros Hd Hn Hlog Ha Hb. rewrite holds_Z in Ha, Hb.
  assert (HN : (0 < 2 ^ Z.of_nat d < 2 ^ 31)%Z) by (split; [apply Z.pow_pos_nonneg; lia|apply Z.pow_lt_mono_r; lia]).
  destruct (write_cells nThreads (2 ^ Z.of_nat d) log (product_cell a b) (new_array (2 ^ Z.of_nat d)) (fun _ _ => True)
    (fun i e => f_rep e (x (Z.to_nat i) * y (Z.to_nat i)))) as (c & Ec & Hc);
    [lia|done|done|rewrite new_array_length; lia|done|done| |].
  - intros i c Hi _. destruct (Ha i Hi) as (e & He & Re), (Hb i Hi) as (f & Hf & Rf).
    unfold product_cell. rewrite He. cbn [mbind option_bind]. rewrite Hf. cbn [mbind option_bind].
    exists (RawFr_mul e f). split; [done|]. exact (f_mul_rep e f _ _ Re Rf).
  - exists c. split; [done|]. by rewrite holds_Z.
Qed.

(** The logs of the way to the coset. *)
Record coset_logs_ok (nThreads : Z) (d : nat) (L : CosetLogs) : Prop := {
  cl_ifft : fft_logs nThreads d (ifft_logs L);
  cl_back : call_log true nThreads (parallelFor 1 (Z.shiftr (2 ^ Z.of_nat d) 1) nThreads) (ifft_log L);
  cl_shift : call_log true nThreads (parallelFor 0 (2 ^ Z.of_nat d) nThreads) (shift_log L);
  cl_fft : fft_logs nThreads d (fft_logs_ L)
}.

(** The values of an array become those of the polynomial that interpolates them, on
    the coset of [eta]. *)
Lemma to_coset_spec F s (w : Kr) nThreads d L (a : array Element) (x : nat -> Kr) :
  fft_table F s w -> (1 <= nThreads < 2 ^ 32)%Z -> (S d <= s)%nat -> (d < 31)%nat -> coset_logs_ok nThreads d L ->
  holds a (2 ^ d) x ->
  let eta := fft_root s (S d) w in
  exists p a', interpolates (kpow eta 2) (2 ^ d) p x /\
    to_coset F (2 ^ Z.of_nat d) (Z.of_nat d) L a = Some a' /\
    holds a' (2 ^ d) (fun i => ev p (2 ^ d) (eta * kpow (kpow eta 2) i)).
Proof.
  intros Ht Hn Hds Hd [Hl1 Hl2 Hl3 Hl4] Ha eta. unfold to_coset.
  assert (Hw : fft_root s d w = kpow eta 2).
  { unfold eta, fft_root. rewrite <- kpow_mul. f_equal. replace (s - d)%nat with (S (s - S d)) by lia.
    rewrite Nat.pow_succ_r'. lia. }
  assert (He : root2 (S d) eta) by (apply root2_pow; replace (S d + (s - S d))%nat with s by lia; apply Ht).
  assert (Hr : root2 d (kpow eta 2)) by (by apply root2_square).
  destruct (FFT_ifft_spec F s w nThreads (ifft_logs L) (ifft_log L) d a x Ht Hn ltac:(lia) Hd Hl1 Hl2 Ha)
    as (a1 & w' & k & E1 & Hinv & Hk & H1). rewrite Hw in Hinv.
  rewrite E1. cbn [mbind option_bind]. set (p t := dft w' (2 ^ d) x t * k) in *.
  destruct (map_cells nThreads (2 ^ Z.of_nat d) (shift_log L) (shift_cell F (Z.of_nat d)) a1
    (fun i e => f_rep e (p (Z.to_nat i))) (fun i e => f_rep e (kpow eta (Z.to_nat i) * p (Z.to_nat i)))) as (a2 & E2 & H2).
  - split; [lia|apply Z.pow_lt_mono_r; lia].
  - done.
  - done.
  - apply array_length in H1. apply inj_le in H1. by rewrite pow2_Z in H1.
  - by rewrite <- holds_Z.
  - intros i b e Hi He' Hre. unfold shift_cell. rewrite He'. cbn [mbind option_bind].
    assert (Hi' : (Z.to_nat i < 2 ^ S d)%nat).
    { apply Nat2Z.inj_lt. rewrite pow2_Z, Nat2Z.inj_succ, Z.pow_succ_r by lia. lia. }
    destruct (FFT_root_spec F s w (S d) (Z.to_nat i) Ht Hds Hi') as (r & Er & Hrr).
    rewrite Z2Nat.id, Nat2Z.inj_succ in Er by lia. rewrite u32_id by word_lia.
    rewrite <- Z.add_1_r in Er. rewrite Er. cbn [mbind option_bind].
    exists (RawFr_mul e r). split; [done|].
    eapply f_rep_eq; [exact (f_mul_rep e r _ _ Hre Hrr)|]. fold eta. ring.
  - rewrite E2. cbn [mbind option_bind]. rewrite <- (holds_Z a2 d (fun t => kpow eta t * p t)) in H2.
    destruct (FFT_fft_spec F s w nThreads (fft_logs_ L) d a2 _ Ht Hn ltac:(lia) Hd Hl4 H2) as (a3 & E3 & H3).
    exists p, a3. split; [exact (idft_interpolates d (kpow eta 2) (table_two F s w Ht) Hr w' k x Hinv Hk)|]. split; [exact E3|].
    intros i Hi. apply (cell_eq _ _ _ _ (H3 i Hi)). rewrite Hw, dft_ev. apply ev_shift.
Qed.

Lemma abc_spec nThreads d log (a b c : array Element) (x y z : nat -> Kr) : (d < 31)%nat -> (1 <= nThreads < 2 ^ 32)%Z ->
  call_log true nThreads (parallelFor 0 (2 ^ Z.of_nat d) nThreads) log ->
  holds a (2 ^ d) x -> holds b (2 ^ d) y -> holds c (2 ^ d) z ->
  exists r, run_log log (fun _ => abc_cell b c) a = Some r /\
    forall i, (0 <= i < 2 ^ Z.of_nat d)%Z -> exists e, array_get r i = Some e /\
      rep e (Zmod.to_Z (x (Z.to_nat i) * y (Z.to_nat i) - z (Z.to_nat i))).
Proof.
  intros Hd Hn Hlog Ha Hb Hc. pose proof (array_length _ _ _ Ha) as Hlen. apply inj_le in Hlen. rewrite pow2_Z in Hlen.
  rewrite holds_Z in Ha, Hb, Hc.
  apply (map_cells nThreads (2 ^ Z.of_nat d) log (abc_cell b c) a (fun i e => f_rep e (x (Z.to_nat i))));
    [split; [lia|apply Z.pow_lt_mono_r; lia]|done|done|done|done|].
  intros i m e Hi He Re. destruct (Hb i Hi) as (f & Hf & Rf), (Hc i Hi) as (g & Hg & Rg).
  unfold abc_cell. rewrite He. cbn [mbind option_bind]. rewrite Hf. cbn [mbind option_bind].
  rewrite Hg. cbn [mbind option_bind]. eexists. split; [done|].
  assert (Hr : f_rep (RawFr_sub (RawFr_mul e f) g) (x (Z.to_nat i) * y (Z.to_nat i) - z (Z.to_nat i))).
  { exact (f_sub_rep _ g _ _ (f_mul_rep e f _ _ Re Rf) Rg). }
  destruct Hr as [Hv Hm]. by apply from_mont.
Qed.
End Loops.

(** ** The scalars *)

(** The logs of the computation of the scalars. *)
Record scalar_logs_ok (nThreads : Z) (d : nat) (nCoefs : Z) (L : ProveLogs) : Prop := {
  sl_init : call_log true nThreads (parallelFor 0 (2 ^ Z.of_nat d) nThreads) (init_log L);
  sl_coefs : coefs_order L ≡ₚ seqZ 0 nCoefs;
  sl_product : call_log true nThreads (parallelFor 0 (2 ^ Z.of_nat d) nThreads) (product_log L);
  sl_a : coset_logs_ok nThreads d (coset_a L);
  sl_b : coset_logs_ok nThreads d (coset_b L);
  sl_c : coset_logs_ok nThreads d (coset_c L);
  sl_abc : call_log true nThreads (parallelFor 0 (2 ^ Z.of_nat d) nThreads) (abc_log L)
}.

Section Scalars.
Context {E : Type} {G : Mpn} {GL : MpnLaws G} {MZ : Mpz} {ML : MpzLaws MZ}.
#[local] Existing Instance Fr_params.
#[local] Existing Instances RawFr_rep Fr_residues.
Notation Kr := (Zmod q).
Add Field K_field_scalars : (k_theory (K := Kr)).
#[local] Open Scope field_scope.

(** The domain, its coefficients and its tables. *)
Record domain_ok (p : Prover E) (wtns : list Element) (s d : nat) (w : Kr) : Prop := {
  dm_table : fft_table (fft p) s w;
  dm_room : (S d <= s)%nat;
  dm_power : (d < 31)%nat;
  dm_size : domainSize p = (2 ^ Z.of_nat d)%Z;
  dm_wtns : Forall wt_ok wtns;
  dm_coefs : Forall (coef_ok wtns (2 ^ Z.of_nat d)) (coefs p);
  dm_count : nCoefs p = Z.of_nat (length (coefs p))
}.

(** The value of the scalar [i] for the two polynomials. *)
Definition scalar_value (eta : Kr) (n : nat) (pa pb : nat -> Kr) (i : nat) : Kr :=
  (- (1 + 1) * ev (quotient pa pb n) n (eta * kpow (kpow eta 2) i))%K.

Lemma quotient_scalars_spec (p : Prover E) wtns s d (w : Kr) nThreads L :
  domain_ok p wtns s d w -> (1 <= nThreads < 2 ^ 32)%Z -> scalar_logs_ok nThreads d (nCoefs p) L ->
  let eta := fft_root s (S d) w in let n := (2 ^ d)%nat in
  root2 (S d) eta /\
  exists pa pb a, interpolates (kpow eta 2) n pa (row_value (coefs p) wtns true) /\
    interpolates (kpow eta 2) n pb (row_value (coefs p) wtns false) /\
    quotient_scalars p L wtns = Some a /\
    forall i, (0 <= i < 2 ^ Z.of_nat d)%Z -> exists e, array_get a i = Some e /\
      rep e (Zmod.to_Z (scalar_value eta n pa pb (Z.to_nat i))).
Proof.
  intros [Ht Hds Hd HN Hw Hc Hcount] Hn [H1 H2 H3 H4 H5 H6 H7] eta n.
  assert (He : root2 (S d) eta) by (apply root2_pow; replace (S d + (s - S d))%nat with s by lia; apply Ht).
  split; [done|]. unfold quotient_scalars. rewrite HN.
  destruct (init_spec nThreads d (init_log L) Hd Hn H1) as (a0 & b0 & E0 & Ha0 & Hb0).
  rewrite E0. cbn [mbind option_bind]. rewrite Hcount in H2. rewrite <- pow2_Z in Hc.
  destruct (coefs_spec (coefs p) wtns (2 ^ d) (coefs_order L) a0 b0 Hw Hc H2 Ha0 Hb0) as (a1 & b1 & E1 & Ha1 & Hb1).
  rewrite E1. cbn [mbind option_bind].
  destruct (product_cells_spec nThreads d (product_log L) a1 b1 _ _ Hd Hn H3 Ha1 Hb1) as (c1 & Ec & Hc1).
  rewrite Ec, FFT_log2_pow2 by lia. cbn [mbind option_bind].
  destruct (to_coset_spec (fft p) s w nThreads d (coset_a L) a1 _ Ht Hn Hds Hd H4 Ha1) as (pa & a2 & Ia & Ea & Ha2).
  destruct (to_coset_spec (fft p) s w nThreads d (coset_b L) b1 _ Ht Hn Hds Hd H5 Hb1) as (pb & b2 & Ib & Eb & Hb2).
  destruct (to_coset_spec (fft p) s w nThreads d (coset_c L) c1 _ Ht Hn Hds Hd H6 Hc1) as (pc & c2 & Ic & Ec2 & Hc2).
  rewrite Ea. cbn [mbind option_bind]. rewrite Eb. cbn [mbind option_bind]. rewrite Ec2. cbn [mbind option_bind].
  destruct (abc_spec nThreads d (abc_log L) a2 b2 c2 _ _ _ Hd Hn H7 Ha2 Hb2 Hc2) as (r & Er & Hr).
  exists pa, pb, r. split; [exact Ia|]. split; [exact Ib|]. split; [exact Er|].
  intros i Hi. destruct (Hr i Hi) as (e & Ge & Re). exists e. split; [exact Ge|].
  eapply rep_cast; [exact Re|]. f_equal.
  exact (division_coset d eta pa pb pc _ _ (Z.to_nat i) (table_two _ _ _ Ht) He Ia Ib Ic).
Qed.
End Scalars.
