(* ===== verification/ProverPoints.v ===== *)
(** The points of the prover: its multi-scalar and scalar multiplications in the group
    of the curve, the random factors, and the copy of the result to affine points. *)

From Stdlib Require Import Field Zmod.
From S2P Require Import Prelude Limbs Gmp Mpz FrRaw FrElement FrElementWp FrMpz RawFr Group Naf Loops Parallel Schedule Msm MsmDigits MsmSpec Field Tower Curve CurveSpec GroupLaw CurveClass Engine Pairing MillerSpec Verify Groth16 QuotientSpec.

(** ** Bytes *)

Lemma limbs_bytes l : limbs 4 l ->
  le_value (element_bytes l) = eval l /\ length (element_bytes l) = 32%nat /\ Forall is_byte (element_bytes l).
Proof. intros Hl. by destruct (element_bytes_limbs 4 l Hl) as (H1 & H2 & H3). Qed.

Lemma element_of_bytes_spec b : length b = 32%nat -> Forall is_byte b ->
  limbs 4 (element_of_bytes b) /\ eval (element_of_bytes b) = le_value b.
Proof.
  intros Hl Hb. unfold element_of_bytes. cbn [seq map]. rewrite !Nat.mul_0_r, drop_0.
  change (8 * 1)%nat with 8%nat. change (8 * 2)%nat with 16%nat. change (8 * 3)%nat with 24%nat.
  assert (Hpart : forall k, (k + 8 <= 32)%nat -> is_u64 (le_value (take 8 (drop k b)))).
  { intros k Hk. pose proof (le_value_range (take 8 (drop k b)) (Forall_take _ 8 _ (Forall_drop _ k _ Hb))) as H.
    rewrite length_take, length_drop, Hl, Nat.min_l in H by lia. exact H. }
  split.
  - repeat (apply limbs_cons; split; [first [apply (Hpart 0%nat)|apply Hpart]; lia|]). apply limbs_nil.
  - assert (Hsplit : forall k, (k + 8 <= 32)%nat ->
      le_value (drop k b) = le_value (take 8 (drop k b)) + 2 ^ 64 * le_value (drop (k + 8) b)).
    { intros k Hk. rewrite <- (take_drop 8 (drop k b)) at 1. rewrite le_value_app, drop_drop, length_take, length_drop, Hl.
      by rewrite Nat.min_l by lia. }
    pose proof (Hsplit 0%nat ltac:(lia)) as E0. pose proof (Hsplit 8%nat ltac:(lia)) as E1.
    pose proof (Hsplit 16%nat ltac:(lia)) as E2. pose proof (Hsplit 24%nat ltac:(lia)) as E3.
    rewrite drop_0 in E0. cbn [Nat.add] in E0, E1, E2, E3. rewrite (drop_ge b 32) in E3 by lia. cbn [le_value] in E3.
    cbn [eval]. rewrite E0, E1, E2, E3. lia.
Qed.

(** ** Scalars *)

Section Scalars.
Context {G : Mpn} {GL : MpnLaws G} {MZ : Mpz} {ML : MpzLaws MZ}.
#[local] Existing Instance Fr_params.

Lemma zero_bytes : element_bytes (RawFr_copy RawFr_zero) = replicate 32 0.
Proof.
  replace (RawFr_copy RawFr_zero) with [0; 0; 0; 0]; [reflexivity|].
  apply (rep_inj _ _ 0).
  - apply rep_intro; [repeat (apply limbs_cons; split; [split; reflexivity || discriminate|]); apply limbs_nil| |reflexivity].
    pose proof q_pos. lia.
  - pose proof (RawFr_set_spec 0 ltac:(unfold is_i32; lia)) as [_ H]. apply Fr_rawCopy_spec.
    eapply rep_cast; [exact H|]. reflexivity.
Qed.

(** A blinding factor is the number its 31 random bytes spell. *)
Lemma random_spec bytes : length bytes = 31%nat -> Forall is_byte bytes ->
  rep (randombytes_buf (RawFr_copy RawFr_zero) bytes) (le_value bytes).
Proof.
  intros Hl Hb. unfold randombytes_buf. rewrite zero_bytes, Hl. change (drop 31 (replicate 32 0)) with [0].
  destruct (element_of_bytes_spec (bytes ++ [0])) as [H1 H2].
  - rewrite length_app, Hl. done.
  - apply Forall_app. split; [done|]. apply Forall_cons_2; [split; [discriminate|reflexivity]|apply Forall_nil_2].
  - pose proof (le_value_range bytes Hb) as Hr. rewrite Hl in Hr. pose proof (q_bounds (P := Fr_params)) as Hq.
    apply rep_intro; [done| |].
    + assert (2 ^ (8 * Z.of_nat 31) < 2 ^ 253) by (apply Z.pow_lt_mono_r; lia). lia.
    + rewrite H2, le_value_app, Hl. cbn [le_value]. lia.
Qed.

(** The product of two numbers that are not in Montgomery form. *)
Lemma plain_product r s vr vs : rep r vr -> rep s vs ->
  rep (RawFr_toMontgomery (RawFr_mul r s)) ((vr * vs) mod q).
Proof.
  intros Hr Hs. eapply rep_cast; [apply Fr_rawToMontgomery_spec; by apply MMul_rep|].
  symmetry. apply mod_eq_of_range; [apply Z.mod_pos_bound, q_pos|]. solve_mont.
Qed.
End Scalars.

(** ** Points *)

Section Points.
Context {K E : Type} {KF : KField K} {F : FieldOps E} {FR : FieldRep K E} {FV : FieldVal K E} {FL : FieldLaws K E}.
Context (a b : K) (fa : E) (Hfa : f_rep fa a) (Hc : curve_ok a b).
Notation Gr := (curve_point a b).
#[local] Instance pp_group_laws : AbGroupLaws Gr := curve_group_laws _ _ Hc.

(** An affine point of the key is an element of the group. *)
Definition at_affine (p : PointAffine (E := E)) (X : Gr) : Prop := stands_affine p (proj1_sig X).

Lemma at_affine_value p X : at_affine p X -> affine_ok a b p /\ affine_val a b p = X.
Proof.
  intros Hp. pose proof (curve_point_on _ _ X) as Hon. split; [by exists (proj1_sig X)|].
  apply curve_point_eq. by apply affine_val_stands.
Qed.

(** A point in memory is an element of the group. *)
Definition at_value (p : Point (E := E)) (X : Gr) : Prop := point_ok a b p /\ point_val a b p = X.

Lemma add_value p r X Y : at_value p X -> at_value r Y -> at_value (pt_plus (CurveOps := template_curve fa) p r) (gplus X Y).
Proof. intros [Hp <-] [Hr <-]. by apply (add_law a b fa Hfa Hc). Qed.

Lemma add_affine_value p r X Y : at_value p X -> at_affine r Y ->
  at_value (pt_add (PointOps := mixed_ops (CurveOps := template_curve fa)) p r) (gplus X Y).
Proof.
  intros [Hp <-] [Hr <-]%at_affine_value. exact (pt_add_law (PointLaws := template_mixed_laws _ _ _ Hfa Hc) p r Hp Hr).
Qed.

Lemma sub_value p r X Y : at_value p X -> at_value r Y ->
  at_value (pt_sub (PointOps := template_full fa) p r) (gplus X (gopp Y)).
Proof. intros [Hp <-] [Hr <-]. exact (pt_sub_law (PointLaws := template_full_laws _ _ _ Hfa Hc) p r Hp Hr). Qed.

Lemma mul_affine_value p X k v : at_affine p X -> limbs 4 k -> eval k = v ->
  exists r, nafMulByScalar (PO := template_mixed fa) p (element_bytes k) sizeof_element = Some r /\ at_value r (zmul v X).
Proof.
  intros [Hp <-]%at_affine_value Hk <-. destruct (limbs_bytes k Hk) as (Hv & Hl & Hb).
  destruct (nafMulByScalar_spec (H0 := template_mixed fa) (H1 := sem_mixed a b fa) (PL := template_mixed_laws _ _ _ Hfa Hc)
    p _ Hp Hb) as (r & Er & Hr & Hrv); [rewrite Hl; lia|by rewrite Hl|].
  rewrite Hl in Er. exists r. split; [exact Er|]. split; [exact Hr|]. rewrite <- Hv. exact Hrv.
Qed.

Lemma mul_point_value p X k v : at_value p X -> limbs 4 k -> eval k = v ->
  exists r, nafMulByScalar (PO := template_full fa) p (element_bytes k) sizeof_element = Some r /\ at_value r (zmul v X).
Proof.
  intros [Hp <-] Hk <-. destruct (limbs_bytes k Hk) as (Hv & Hl & Hb).
  destruct (nafMulByScalar_spec (H0 := template_full fa) (H1 := sem_full a b fa) (PL := template_full_laws _ _ _ Hfa Hc)
    p _ Hp Hb) as (r & Er & Hr & Hrv); [rewrite Hl; lia|by rewrite Hl|].
  rewrite Hl in Er. exists r. split; [exact Er|]. split; [exact Hr|]. rewrite <- Hv. exact Hrv.
Qed.

(** The copy to an affine point. *)
Lemma toAffine_value p X : at_value p X -> stands_affine (toAffine p) (proj1_sig X).
Proof.
  intros [(A & Hs & HA) <-]. rewrite (point_val_stands _ _ _ _ Hs HA). destruct A as [[x y]|].
  - destruct (toAffine_stands p x y Hs) as [Hx Hy]. by split.
  - pose proof (isZero_stands _ _ Hs) as Hz. rewrite bool_decide_eq_true_2 in Hz by done.
    unfold toAffine, copyToAffine, isZero, result, op2, ZZ, X, Y, ZZZ, sbind, sget, sret, fresh.
    cbn [fst snd]. rewrite Hz. split; exact f_zero_rep.
Qed.

(** *** Multi-scalar multiplication *)

Definition msm_logs_ok (nThreads n : Z) (L : MsmLogs) : Prop :=
  2 <= n -> call_log true nThreads (parallelFor 0 n nThreads) (msm_log1 L) /\
    call_log true nThreads (parallelFor 0 (calcChunkCount 32 (calcBitsPerChunk n 32)) nThreads) (msm_log2 L).

Lemma flat_map_bytes ws : flat_map element_bytes ws = concat (map element_bytes ws).
Proof. by rewrite flat_map_concat_map. Qed.

Lemma msm_value nThreads L bases Xs ws n :
  Forall2 at_affine bases Xs -> Forall wt_ok ws -> length ws = length bases -> Z.of_nat (length ws) = n ->
  n < 2 ^ 31 -> 1 <= nThreads < 2 ^ 32 -> msm_logs_ok nThreads n L ->
  exists r, msm_run (C := template_curve fa) nThreads (msm_log1 L) (msm_log2 L) bases (flat_map element_bytes ws)
    sizeof_element n = Some r /\ at_value r (gsum (zip_with zmul (map eval ws) Xs)).
Proof.
  unfold Element in *. intros HX Hw Hlen Hn Hn31 Ht HL. set (terms := zip (map element_bytes ws) bases).
  assert (Hlt : length terms = length ws).
  { unfold terms. rewrite length_zip, length_map. lia. }
  assert (E1 : map snd terms = bases).
  { unfold terms. change (@map ?A ?B) with (@fmap list _ A B). apply snd_zip. rewrite length_fmap. lia. }
  assert (E2 : concat (map fst terms) = flat_map element_bytes ws).
  { rewrite flat_map_bytes. f_equal. unfold terms. change (@map ?A ?B) with (@fmap list _ A B).
    apply fst_zip. rewrite length_fmap. lia. }
  destruct (msm_run_spec (CL := template_curve_laws a b fa Hfa Hc) terms 32 nThreads) with (log1 := msm_log1 L) (log2 := msm_log2 L)
    as (r & Er & Hr & Hv).
  - split; [discriminate|reflexivity].
  - unfold terms. clear -HX Hw Hlen Hc FL. revert ws Hw Hlen. induction HX as [|p X bases Xs Hp _ IH]; intros [|w ws] Hw Hlen;
      cbn [map zip zip_with]; try apply Forall_nil_2; try done.
    apply Forall_cons_iff in Hw as [[Hl Hlt] Hw]. apply Forall_cons_2; [|by apply IH; [|injection Hlen]].
    destruct (limbs_bytes w Hl) as (Hbv & Hbl & Hbb). split; [cbn [fst]; by rewrite Hbl|]. split; [done|].
    split; [cbn [fst]; by rewrite Hbv|]. apply (at_affine_value p X Hp).
  - rewrite Hlt. lia.
  - done.
  - rewrite Hlt, Hn. exact HL.
  - rewrite Hlt, Hn, E1, E2 in Er. exists r. split; [exact Er|]. split; [exact Hr|]. etransitivity; [exact Hv|].
    f_equal. unfold terms. cbn [in_val sem_mixed]. clear -HX Hw Hlen Hc FL.
    revert ws Hw Hlen. induction HX as [|p X bases Xs Hp _ IH]; intros [|w ws] Hw Hlen; try done.
    apply Forall_cons_iff in Hw as [[Hl _] Hw]. cbn [map zip zip_with fst snd].
    rewrite (proj1 (limbs_bytes w Hl)), (proj2 (at_affine_value p X Hp)). f_equal. apply IH; [done|by injection Hlen].
Qed.
End Points.
