(* ===== verification/Groth16Spec.v ===== *)
(** The proof [Prover::prove] returns: its three points, for every schedule of the
    threads and every value of the random generator, and why they satisfy the equation
    of the verification when the key comes from a setup. *)

From Stdlib Require Import Field ArithRing Zmod String.
From S2P Require Import Prelude Limbs Gmp Mpz FrRaw FrElement FrElementWp FrMpz RawFr Group Naf Loops Parallel Schedule Msm MsmSpec Field Dft Quotient Fft FftSpec FftFr Tower Curve CurveSpec GroupLaw CurveClass Engine Pairing Verify Groth16 QuotientSpec ProverPoints.

(** The sum of multiples. *)
Definition msum {Gr} `{AbGroup Gr} (ss : list Z) (Xs : list Gr) : Gr := gsum (zip_with zmul ss Xs).

(** ** The points of a key and of a proof, in any groups *)

Section Groups.
Context {G1 G2 : Type} `{AbGroup G1} `{AbGroup G2}.
#[local] Existing Instance Fr_params.

Record KeyPoints := mkKeyPoints {
  kp_alpha1 : G1; kp_beta1 : G1; kp_beta2 : G2; kp_delta1 : G1; kp_delta2 : G2;
  kp_A : list G1; kp_B1 : list G1; kp_B2 : list G2; kp_C : list G1; kp_H : list G1
}.

Definition proof_point_A (k : KeyPoints) (ws : list Z) (r : Z) : G1 :=
  gplus (gplus (msum ws (kp_A k)) (kp_alpha1 k)) (zmul r (kp_delta1 k)).
Definition proof_point_B (k : KeyPoints) (ws : list Z) (s : Z) : G2 :=
  gplus (gplus (msum ws (kp_B2 k)) (kp_beta2 k)) (zmul s (kp_delta2 k)).
Definition proof_point_B1 (k : KeyPoints) (ws : list Z) (s : Z) : G1 :=
  gplus (gplus (msum ws (kp_B1 k)) (kp_beta1 k)) (zmul s (kp_delta1 k)).
Definition proof_point_C (k : KeyPoints) (nPublic : Z) (ws hs : list Z) (r s : Z) : G1 :=
  gplus (gplus (gplus (gplus (msum (drop (Z.to_nat (nPublic + 1)) ws) (kp_C k)) (msum hs (kp_H k)))
    (zmul s (proof_point_A k ws r))) (zmul r (proof_point_B1 k ws s)))
    (gopp (zmul ((r * s) mod q) (kp_delta1 k))).

End Groups.
#[global] Arguments KeyPoints : clear implicits.

Section Spec.
Context {K E : Type} {KF : KField K} {FO : FieldOps E} {FR : FieldRep K E} {FV : FieldVal K E} {FL : FieldLaws K E}.
Context {K2 : Type} {KF2 : KField K2} {FO2 : FieldOps (F2El E)} {FR2 : FieldRep K2 (F2El E)} {FV2 : FieldVal K2 (F2El E)}
  {FL2 : FieldLaws K2 (F2El E)}.
Context {G : Mpn} {GL : MpnLaws G} {MZ : Mpz} {ML : MpzLaws MZ}.
#[local] Existing Instance Fr_params.
#[local] Existing Instances RawFr_rep Fr_residues.
Context (a1 b1 : K) (fa : E) (Hfa : f_rep fa a1) (Hc1 : curve_ok a1 b1).
Context (a2 b2 : K2) (fa2 : F2El E) (Hfa2 : f_rep fa2 a2) (Hc2 : curve_ok a2 b2).
Notation G1 := (curve_point a1 b1).
Notation G2 := (curve_point a2 b2).
Notation Kr := (Zmod q).
#[local] Instance gs_group1 : AbGroupLaws G1 := curve_group_laws _ _ Hc1.
#[local] Instance gs_group2 : AbGroupLaws G2 := curve_group_laws _ _ Hc2.

(** ** Keys in memory *)

Record key_points (p : Prover E) (k : KeyPoints G1 G2) : Prop := {
  ky_alpha1 : at_affine a1 b1 (vk_alpha1 p) (kp_alpha1 k);
  ky_beta1 : at_affine a1 b1 (vk_beta1 p) (kp_beta1 k);
  ky_beta2 : at_affine a2 b2 (vk_beta2 p) (kp_beta2 k);
  ky_delta1 : at_affine a1 b1 (vk_delta1 p) (kp_delta1 k);
  ky_delta2 : at_affine a2 b2 (vk_delta2 p) (kp_delta2 k);
  ky_A : Forall2 (at_affine a1 b1) (pointsA p) (kp_A k);
  ky_B1 : Forall2 (at_affine a1 b1) (pointsB1 p) (kp_B1 k);
  ky_B2 : Forall2 (at_affine a2 b2) (pointsB2 p) (kp_B2 k);
  ky_C : Forall2 (at_affine a1 b1) (pointsC p) (kp_C k);
  ky_H : Forall2 (at_affine a1 b1) (pointsH p) (kp_H k)
}.

(** The lengths of the sections of a key for a witness. *)
Record key_sizes (p : Prover E) (k : KeyPoints G1 G2) (wtns : list Element) : Prop := {
  kz_vars : nVars p = Z.of_nat (length wtns);
  kz_small : nVars p < 2 ^ 27;
  kz_public : 0 <= nPublic p < nVars p;
  kz_A : length (kp_A k) = length wtns;
  kz_B1 : length (kp_B1 k) = length wtns;
  kz_B2 : length (kp_B2 k) = length wtns;
  kz_C : Z.of_nat (length (kp_C k)) = nVars p - nPublic p - 1;
  kz_H : Z.of_nat (length (kp_H k)) = domainSize p
}.

(** What the threads do in all the calls. *)
Record prove_logs_ok (nThreads : Z) (p : Prover E) (d : nat) (L : ProveLogs) : Prop := {
  pl_A : msm_logs_ok nThreads (nVars p) (logs_A L);
  pl_B1 : msm_logs_ok nThreads (nVars p) (logs_B1 L);
  pl_B2 : msm_logs_ok nThreads (nVars p) (logs_B2 L);
  pl_C : msm_logs_ok nThreads (nVars p - nPublic p - 1) (logs_C L);
  pl_H : msm_logs_ok nThreads (domainSize p) (logs_H L);
  pl_scalars : scalar_logs_ok nThreads d (nCoefs p) L
}.

Lemma assemble_spec p (k : KeyPoints G1 G2) pi_a pib1 pi_c pih pi_b XA XB1 XC XH XB random_r random_s :
  key_points p k -> at_value a1 b1 pi_a XA -> at_value a1 b1 pib1 XB1 -> at_value a1 b1 pi_c XC -> at_value a1 b1 pih XH ->
  at_value a2 b2 pi_b XB ->
  length random_r = 31%nat -> Forall is_byte random_r -> length random_s = 31%nat -> Forall is_byte random_s ->
  let r := le_value random_r in let s := le_value random_s in
  let A := gplus (gplus XA (kp_alpha1 k)) (zmul r (kp_delta1 k)) in
  let B1 := gplus (gplus XB1 (kp_beta1 k)) (zmul s (kp_delta1 k)) in
  exists proof, assemble fa fa2 p pi_a pib1 pi_c pih pi_b random_r random_s = Some proof /\
    stands_affine (proof_A proof) (proj1_sig A) /\
    stands_affine (proof_B proof) (proj1_sig (gplus (gplus XB (kp_beta2 k)) (zmul s (kp_delta2 k)))) /\
    stands_affine (proof_C proof) (proj1_sig (gplus (gplus (gplus (gplus XC XH) (zmul s A)) (zmul r B1))
      (gopp (zmul ((r * s) mod q) (kp_delta1 k))))).
Proof.
  intros Hk HA HB1 HC HH HB Lr Br Ls Bs r s A B1.
  pose proof (random_spec random_r Lr Br) as Hr. pose proof (random_spec random_s Ls Bs) as Hs.
  fold r in Hr. fold s in Hs. unfold assemble.
  set (er := randombytes_buf _ random_r) in *. set (es := randombytes_buf _ random_s) in *.
  pose proof (add_affine_value a1 b1 fa Hfa Hc1 _ _ _ _ HA (ky_alpha1 p k Hk)) as HA1.
  destruct (mul_affine_value a1 b1 fa Hfa Hc1 _ _ er r (ky_delta1 p k Hk) (rep_limbs _ _ Hr) (rep_eval _ _ Hr)) as (m1 & E1 & M1).
  pose proof (add_value a1 b1 fa Hfa Hc1 _ _ _ _ HA1 M1) as HA2.
  pose proof (add_affine_value a2 b2 fa2 Hfa2 Hc2 _ _ _ _ HB (ky_beta2 p k Hk)) as HB2.
  destruct (mul_affine_value a2 b2 fa2 Hfa2 Hc2 _ _ es s (ky_delta2 p k Hk) (rep_limbs _ _ Hs) (rep_eval _ _ Hs)) as (m2 & E2 & M2).
  pose proof (add_value a2 b2 fa2 Hfa2 Hc2 _ _ _ _ HB2 M2) as HB3.
  pose proof (add_affine_value a1 b1 fa Hfa Hc1 _ _ _ _ HB1 (ky_beta1 p k Hk)) as HD1.
  destruct (mul_affine_value a1 b1 fa Hfa Hc1 _ _ es s (ky_delta1 p k Hk) (rep_limbs _ _ Hs) (rep_eval _ _ Hs)) as (m3 & E3 & M3).
  pose proof (add_value a1 b1 fa Hfa Hc1 _ _ _ _ HD1 M3) as HD2.
  pose proof (add_value a1 b1 fa Hfa Hc1 _ _ _ _ HC HH) as HC1.
  destruct (mul_point_value a1 b1 fa Hfa Hc1 _ _ es s HA2 (rep_limbs _ _ Hs) (rep_eval _ _ Hs)) as (m4 & E4 & M4).
  pose proof (add_value a1 b1 fa Hfa Hc1 _ _ _ _ HC1 M4) as HC2.
  destruct (mul_point_value a1 b1 fa Hfa Hc1 _ _ er r HD2 (rep_limbs _ _ Hr) (rep_eval _ _ Hr)) as (m5 & E5 & M5).
  pose proof (add_value a1 b1 fa Hfa Hc1 _ _ _ _ HC2 M5) as HC3.
  pose proof (plain_product er es r s Hr Hs) as Hrs.
  destruct (mul_affine_value a1 b1 fa Hfa Hc1 _ _ _ _ (ky_delta1 p k Hk) (rep_limbs _ _ Hrs) (rep_eval _ _ Hrs)) as (m6 & E6 & M6).
  pose proof (sub_value a1 b1 fa Hfa Hc1 _ _ _ _ HC3 M6) as HC4.
  unfold mul1, mul2, mul_point, curve1, curve2. cbv zeta.
  rewrite E1. cbn [mbind option_bind]. rewrite E2. cbn [mbind option_bind]. rewrite E3. cbn [mbind option_bind].
  rewrite E4. cbn [mbind option_bind]. rewrite E5. cbn [mbind option_bind]. rewrite E6. cbn [mbind option_bind].
  eexists. split; [reflexivity|]. cbn [proof_A proof_B proof_C].
  split; [exact (toAffine_value a1 b1 _ _ HA2)|]. split; [exact (toAffine_value a2 b2 _ _ HB3)|].
  exact (toAffine_value a1 b1 _ _ HC4).
Qed.

Lemma drop_bytes ws k : Forall wt_ok ws -> drop (32 * k) (flat_map element_bytes ws) = flat_map element_bytes (drop k ws).
Proof.
  revert k. induction ws as [|w ws IH]; intros k Hw; [by destruct k|].
  apply Forall_cons_iff in Hw as [[Hl _] Hw]. destruct k as [|k]; [done|].
  cbn [flat_map drop]. rewrite <- IH by done. destruct (limbs_bytes w Hl) as (_ & H32 & _).
  replace (32 * S k)%nat with (length (element_bytes w) + 32 * k)%nat by (rewrite H32; lia).
  by rewrite drop_app_add.
Qed.

(** The scalars as the bytes of an array. *)
Lemma scalar_bytes (a : array Element) N (v : nat -> Z) :
  (forall i, 0 <= i < Z.of_nat N -> exists e, array_get a i = Some e /\ rep e (v (Z.to_nat i))) ->
  exists l, array_bytes (Z.of_nat N) a = Some (flat_map element_bytes l) /\ Forall wt_ok l /\ length l = N /\
    map eval l = map v (seq 0 N).
Proof.
  intros H. unfold array_bytes.
  destruct (mapM_is_Some_2 (array_get a) (seqZ 0 (Z.of_nat N))) as [l Hl].
  { apply list.Forall_forall. intros i Hi. apply elem_of_seqZ in Hi. destruct (H i) as (e & He & _); [lia|]. by exists e. }
  exists l. split; [exact (f_equal (fun o => o ≫= fun l => Some (flat_map element_bytes l)) Hl)|]. unfold Element in *. apply mapM_Some in Hl.
  assert (Hn : length l = N).
  { apply Forall2_length in Hl. rewrite length_seqZ in Hl. lia. }
  assert (Hi : forall i e, l !! i = Some e -> rep e (v i)).
  { intros i e Hle. pose proof (lookup_lt_Some _ _ _ Hle) as Hlt.
    destruct (Forall2_lookup_r _ _ _ _ _ Hl Hle) as (j & Hj & Hg).
    rewrite lookup_seqZ_lt in Hj by lia. injection Hj as <-. destruct (H (0 + Z.of_nat i)) as (e' & He' & Hr); [lia|].
    rewrite Hg in He'. injection He' as <-. by rewrite Z.add_0_l, Nat2Z.id in Hr. }
  split; [|split; [done|]].
  - apply Forall_lookup. intros i e He. apply Hi in He. split; [by eapply rep_limbs|].
    rewrite (rep_eval _ _ He). apply (rep_below _ _ He).
  - apply list_eq. intros i. change (@map ?A ?B) with (@fmap list _ A B). rewrite !list_lookup_fmap.
    destruct (l !! i) as [e|] eqn:He.
    + rewrite lookup_seq_lt by (apply lookup_lt_Some in He; lia). cbn. f_equal. apply rep_eval, Hi. exact He.
    + apply lookup_ge_None in He. by rewrite lookup_seq_ge by lia.
Qed.

Definition scalar_values (eta : Kr) (n : nat) (pa pb : nat -> Kr) : list Z :=
  map (fun i => Zmod.to_Z (scalar_value eta n pa pb i)) (seq 0 n).

Lemma prove_spec p (k : KeyPoints G1 G2) wtns s d (w : Kr) nThreads L random_r random_s :
  key_points p k -> key_sizes p k wtns -> domain_ok p wtns s d w -> 1 <= nThreads < 2 ^ 32 -> prove_logs_ok nThreads p d L ->
  length random_r = 31%nat -> Forall is_byte random_r -> length random_s = 31%nat -> Forall is_byte random_s ->
  let eta := fft_root s (S d) w in let n := (2 ^ d)%nat in
  let ws := map eval wtns in let r := le_value random_r in let s := le_value random_s in
  exists pa pb proof, interpolates (kpow eta 2) n pa (row_value (coefs p) wtns true) /\
    interpolates (kpow eta 2) n pb (row_value (coefs p) wtns false) /\
    prove fa fa2 nThreads L random_r random_s p wtns = Some proof /\
    stands_affine (proof_A proof) (proj1_sig (proof_point_A k ws r)) /\
    stands_affine (proof_B proof) (proj1_sig (proof_point_B k ws s)) /\
    stands_affine (proof_C proof)
      (proj1_sig (proof_point_C k (nPublic p) ws (scalar_values eta n pa pb) r s)).
Proof.
  intros Hk [Zv Zs Zp ZA ZB1 ZB2 ZC ZH] Hd Hn [LA LB1 LB2 LC LH LS] Lr Br Ls Bs eta n ws r s0.
  destruct (quotient_scalars_spec p wtns s d w nThreads L Hd Hn LS) as (He & pa & pb & a & Ia & Ib & Ea & Ha).
  pose proof (dm_wtns _ _ _ _ _ Hd) as Hw. pose proof (dm_size _ _ _ _ _ Hd) as HN.
  rewrite <- pow2_Z in Ha. destruct (scalar_bytes a _ (fun i => Zmod.to_Z (scalar_value (fft_root s (S d) w) (2 ^ d) pa pb i)) Ha) as (l & El & Hl & Ll & Vl).
  destruct (msm_value a1 b1 fa Hfa Hc1 nThreads (logs_A L) (pointsA p) (kp_A k) wtns (nVars p)) as (m1 & E1 & M1);
    [apply Hk|done|rewrite (Forall2_length (ky_A p k Hk)); lia|lia|lia|done|done|].
  destruct (msm_value a1 b1 fa Hfa Hc1 nThreads (logs_B1 L) (pointsB1 p) (kp_B1 k) wtns (nVars p)) as (m2 & E2 & M2);
    [apply Hk|done|rewrite (Forall2_length (ky_B1 p k Hk)); lia|lia|lia|done|done|].
  destruct (msm_value a2 b2 fa2 Hfa2 Hc2 nThreads (logs_B2 L) (pointsB2 p) (kp_B2 k) wtns (nVars p)) as (m3 & E3 & M3);
    [apply Hk|done|rewrite (Forall2_length (ky_B2 p k Hk)); lia|lia|lia|done|done|].
  destruct (msm_value a1 b1 fa Hfa Hc1 nThreads (logs_C L) (pointsC p) (kp_C k) (drop (Z.to_nat (nPublic p + 1)) wtns)
    (nVars p - nPublic p - 1)) as (m4 & E4 & M4);
    [apply Hk|by apply Forall_drop|rewrite length_drop, (Forall2_length (ky_C p k Hk)); lia|rewrite length_drop; lia|lia|done|done|].
  destruct (msm_value a1 b1 fa Hfa Hc1 nThreads (logs_H L) (pointsH p) (kp_H k) l (domainSize p)) as (m5 & E5 & M5);
    [apply Hk|done|etransitivity; [exact Ll|rewrite (Forall2_length (ky_H p k Hk)); apply Nat2Z.inj; by rewrite ZH, HN, pow2_Z]
    |etransitivity; [exact (f_equal Z.of_nat Ll)|by rewrite HN, pow2_Z]|rewrite HN; apply Z.pow_lt_mono_r; pose proof (dm_power _ _ _ _ _ Hd); lia|done|done|].
  destruct (assemble_spec p k m1 m2 m4 m5 m3 _ _ _ _ _ random_r random_s Hk M1 M2 M4 M5 M3 Lr Br Ls Bs) as (proof & Ep & HA & HB & HC).
  exists pa, pb, proof. split; [exact Ia|]. split; [exact Ib|]. split; [|split; [exact HA|split; [exact HB|]]].
  - unfold prove, msm1, msm2, curve1, curve2, sizeof_element in *. cbv zeta.
    rewrite E1. cbn [mbind option_bind]. rewrite E2. cbn [mbind option_bind]. rewrite E3. cbn [mbind option_bind].
    rewrite <- (drop_bytes wtns) in E4 by done.
    rewrite !u32_id by (rewrite ?u32_id by word_lia; word_lia).
    replace (Z.to_nat ((nPublic p + 1) * 32)) with (32 * Z.to_nat (nPublic p + 1))%nat by lia.
    rewrite E4. cbn [mbind option_bind]. rewrite Ea. cbn [mbind option_bind].
    rewrite HN, <- pow2_Z, El. cbn [mbind option_bind]. rewrite pow2_Z, <- HN, E5. exact Ep.
  - unfold proof_point_C, msum. rewrite Vl in HC. 
    replace (drop (Z.to_nat (nPublic p + 1)) ws) with (map eval (drop (Z.to_nat (nPublic p + 1)) wtns))
      by (exact (fmap_drop eval (Z.to_nat (nPublic p + 1)) wtns)).
    exact HC.
Qed.
End Spec.

(** The constructor: on a domain of [2 ^ d] rows, [d <= 27], it makes the tables the
    computation of the scalars needs. *)
Lemma makeProver_spec {E : Type} {G : Mpn} {GL : MpnLaws G} {MZ : Mpz} {ML : MpzLaws MZ}
    fuel nThreads log d (nv np : Z) nc (al be1 : PointAffine (E := E)) be2 de1 de2 cs pA pB1 pB2 pC pH :
  (3 <= fuel)%nat -> 1 <= nThreads < 2 ^ 32 -> call_log false nThreads (parallelBlock nThreads) log -> (d <= 27)%nat ->
  exists F w, makeProver fuel nThreads log nv np (2 ^ Z.of_nat d) nc al be1 be2 de1 de2 cs pA pB1 pB2 pC pH =
      Some (inr (mkProver nv np (2 ^ Z.of_nat d) nc al be1 be2 de1 de2 cs pA pB1 pB2 pC pH F)) /\
    fft_table (H := Fr_residues) (H0 := RawFr_rep (P := Fr_params)) F (S d) w.
Proof.
  intros Hf Hn Hlog Hd. unfold makeProver.
  assert (Hp : 2 ^ Z.of_nat d * 2 = 2 ^ Z.of_nat (S d)) by (rewrite Nat2Z.inj_succ, Z.pow_succ_r by lia; lia).
  assert (H31 : 0 < 2 ^ Z.of_nat (S d) < 2 ^ 31) by (split; [apply Z.pow_pos_nonneg; lia|apply Z.pow_lt_mono_r; lia]).
  rewrite Hp, u32_id by word_lia.
  destruct (FFT_constructor_spec fuel nThreads log (2 ^ Z.of_nat (S d)) Hf Hn Hlog ltac:(lia)) as [H _].
  rewrite Z.log2_pow2 in H by lia. destruct (H ltac:(lia)) as (F & w & E1 & Ht).
  rewrite E1. cbn [mbind option_bind]. exists F, w. split; [done|].
  replace (Z.to_nat (Z.max 1 (Z.of_nat (S d)))) with (S d) in Ht by lia. exact Ht.
Qed.

(** C6: [Prover::prove], over any two field classes and curves: on a key whose points are
    elements of the groups of the curves, a witness of values below [2 ^ 254], any
    number of threads, any schedule of its parallel loops and any random bytes, it
    reaches its end without undefined behaviour and returns the points
    [A = sum_j w_j A_j + alpha + r delta], [B = sum_j w_j B_j + beta + s delta] and
    [C = sum_j>nPublic w_j C_j + sum_i h_i H_i + s A + r B1 - r s delta], where the [h_i]
    are the values on the coset, times minus two, of the quotient by [X^n - 1] of the
    product of the two polynomials that interpolate the rows of the key's matrices
    applied to the witness. *)
Theorem prove_correct {K E : Type} {KF : KField K} {FO : FieldOps E} {FR : FieldRep K E} {FV : FieldVal K E} {FL : FieldLaws K E}
    {K2 : Type} {KF2 : KField K2} {FO2 : FieldOps (F2El E)} {FR2 : FieldRep K2 (F2El E)} {FV2 : FieldVal K2 (F2El E)}
    {FL2 : FieldLaws K2 (F2El E)} {G : Mpn} {GL : MpnLaws G} {MZ : Mpz} {ML : MpzLaws MZ}
    (a1 b1 : K) (fa : E) (a2 b2 : K2) (fa2 : F2El E) (p : Prover E) (k : KeyPoints (curve_point a1 b1) (curve_point a2 b2))
    (wtns : list Element) (s d : nat) (w : Zmod (q (P := Fr_params))) nThreads L random_r random_s :
  f_rep fa a1 -> curve_ok a1 b1 -> f_rep fa2 a2 -> curve_ok a2 b2 ->
  key_points a1 b1 a2 b2 p k -> key_sizes a1 b1 a2 b2 p k wtns -> domain_ok p wtns s d w ->
  1 <= nThreads < 2 ^ 32 -> prove_logs_ok nThreads p d L ->
  length random_r = 31%nat -> Forall is_byte random_r -> length random_s = 31%nat -> Forall is_byte random_s ->
  let eta := fft_root (H := Fr_residues) s (S d) w in let n := (2 ^ d)%nat in
  let ws := map eval wtns in let r := le_value random_r in let s := le_value random_s in
  exists pa pb proof,
    interpolates (H := Fr_residues) (kpow (H := Fr_residues) eta 2) n pa (row_value (coefs p) wtns true) /\
    interpolates (H := Fr_residues) (kpow (H := Fr_residues) eta 2) n pb (row_value (coefs p) wtns false) /\
    prove fa fa2 nThreads L random_r random_s p wtns = Some proof /\
    stands_affine (proof_A proof) (proj1_sig (proof_point_A k ws r)) /\
    stands_affine (proof_B proof) (proj1_sig (proof_point_B k ws s)) /\
    stands_affine (proof_C proof) (proj1_sig (proof_point_C k (nPublic p) ws (scalar_values eta n pa pb) r s)).
Proof. intros Hfa Hc1 Hfa2 Hc2. by apply prove_spec. Qed.
