(* ===== verification/Groth16Demo.v ===== *)
(** The prover on a small key: a curve over the field of 79 elements, three variables
    and a domain of four rows, with one thread. *)

From Stdlib Require Import Field Zmod.
From S2P Require Import Prelude Limbs Gmp Mpz FrRaw FrElement FrElementWp FrMpz RawFr Group Loops Parallel Schedule Msm Primes Field Dft Powers Quotient Fft FftSpec FftFr ExtField Tower TowerSpec TowerBn TowerFq TowerText TowerDefault Curve CurveSpec GroupLaw CurveClass Engine Pairing FinalExp MillerSpec PairingSpec Verify Groth16 QuotientSpec ProverPoints Groth16Spec.

#[local] Existing Instances Fr_params F79 field_class_rep bn2 bn6 bn12 F2_rep F6_rep F12_rep.
#[local] Existing Instances F79_ops F79_laws F79_val Mpn_reference Mpz_reference RawFr_rep Fr_residues.
Notation s79 := (Zmod.of_Z 79).

#[local] Instance F79_ops2 : FieldOps (F2El (Zmod 79)) := F2_ops (v_f2 small_verifier).
#[local] Instance F79_laws2 : FieldLaws (Zmod 79 * Zmod 79) (F2El (Zmod 79)) := line_laws2 (BE := small_engine) small_verifier.
#[local] Instance F79_val2 : FieldVal (Zmod 79 * Zmod 79) (F2El (Zmod 79)).
Proof. refine {| f_val e := (f2a e, f2b e) |}. intros e x [H1 H2]. destruct x. f_equal; [exact H1|exact H2]. Defined.

Notation G1 := (curve_point (k0 : Zmod 79) (s79 1)).
Notation G2 := (curve_point (K := Zmod 79 * Zmod 79) (k0 (KField := bn2)) (s79 2, s79 4)).

Definition small_Y : G2 := to_curve _ _ small_B small_B_on.

(** The key: every point is the one of the curve or of the twist. *)
Definition demo_coef (m c s v : Z) : Coef := mkCoef m c s (of_Z 4 (mont (mont v))).
Definition demo_prover (F : Fft Element) : Prover (Zmod 79) :=
  let P := mkPointAffine (s79 2) (s79 3) in
  let Q := mkPointAffine (mkF2 (s79 1) (s79 0)) (mkF2 (s79 2) (s79 1)) in
  mkProver 3 1 4 3 P P Q P Q [demo_coef 0 2 1 7; demo_coef 1 2 2 1; demo_coef 0 0 2 5]
    [P; P; P] [P; P; P] [Q; Q; Q] [P] [P; P; P; P] F.
Definition demo_key : KeyPoints G1 G2 :=
  mkKeyPoints small_X small_X small_Y small_X small_Y [small_X; small_X; small_X] [small_X; small_X; small_X]
    [small_Y; small_Y; small_Y] [small_X] [small_X; small_X; small_X; small_X].
Definition demo_wtns : list Element := [of_Z 4 1; of_Z 4 35; of_Z 4 5].

Definition alone n := alone_log true (parallelFor 0 n 1).
Definition demo_msm (n : Z) : MsmLogs := mkMsmLogs (alone n) (alone (calcChunkCount 32 (calcBitsPerChunk n 32))).
Definition demo_fft (s : Z) : list (JobRange * nat) := if s =? 0 then alone 4 else alone 2.
Definition demo_coset : CosetLogs := mkCosetLogs demo_fft (alone_log true (parallelFor 1 2 1)) (alone 4) demo_fft.
Definition demo_prove_logs : ProveLogs :=
  mkProveLogs (demo_msm 3) (demo_msm 3) (demo_msm 3) (demo_msm 1) (demo_msm 4) (alone 4) [2; 0; 1] (alone 4)
    demo_coset demo_coset demo_coset (alone 4).

Ltac alone_tac := apply alone_call_log; vm_compute; reflexivity.

Lemma demo_coset_ok : coset_logs_ok 1 2 demo_coset.
Proof.
  assert (Hf : FftSpec.fft_logs 1 2 demo_fft).
  { split; [alone_tac|]. intros s Hs. unfold demo_fft. destruct (Z.eqb_spec s 0) as [->|_]; [lia|]. alone_tac. }
  split; [exact Hf|alone_tac|alone_tac|exact Hf].
Qed.

Lemma demo_prove_logs_ok F : prove_logs_ok 1 (demo_prover F) 2 demo_prove_logs.
Proof.
  split; try (intros _; split; alone_tac).
  split; try alone_tac; try apply demo_coset_ok.
  change (seqZ 0 _) with [0; 1; 2]. cbn [coefs_order demo_prove_logs]. solve_Permutation.
Qed.

Lemma demo_wt_ok v : 0 <= v < 2 ^ 253 -> wt_ok (of_Z 4 v).
Proof.
  intros Hv. pose proof (q_bounds (P := Fr_params)).
  assert (Hr : rep (of_Z 4 v) v) by (apply rep_of_Z; lia). split; [by eapply rep_limbs|].
  rewrite (rep_eval _ _ Hr). lia.
Qed.

Lemma demo_domain F w : fft_table F 3 w -> domain_ok (demo_prover F) demo_wtns 3 2 w.
Proof.
  intros Ht. split; [exact Ht|lia|lia|reflexivity| | |reflexivity].
  - repeat (apply Forall_cons_2; [apply demo_wt_ok; lia|]). apply Forall_nil_2.
  - repeat (apply Forall_cons_2; [split; [eexists; apply rep_of_Z, mont_range|cbn; lia|cbn; lia]|]). apply Forall_nil_2.
Qed.

Lemma demo_key_points F : key_points (k0 : Zmod 79) (s79 1) (k0 (KField := bn2)) (s79 2, s79 4) (demo_prover F) demo_key.
Proof.
  assert (HP : at_affine (k0 : Zmod 79) (s79 1) (mkPointAffine (s79 2) (s79 3)) small_X) by (split; reflexivity).
  assert (HQ : at_affine (k0 (KField := bn2)) (s79 2, s79 4) (mkPointAffine (mkF2 (s79 1) (s79 0)) (mkF2 (s79 2) (s79 1))) small_Y)
    by (split; split; reflexivity).
  split; try assumption; repeat (apply Forall2_cons; [assumption|]); apply Forall2_nil.
Qed.

Lemma demo_key_sizes F : key_sizes (k0 : Zmod 79) (s79 1) (k0 (KField := bn2)) (s79 2, s79 4) (demo_prover F) demo_key demo_wtns.
Proof. split; try reflexivity. split; [discriminate|reflexivity]. Qed.

Definition demo_random : list Z := replicate 31 201.
Lemma demo_random_bytes : Forall is_byte demo_random.
Proof. apply Forall_replicate. split; [discriminate|reflexivity]. Qed.

Lemma prove_correct_witness : exists (F : Fft Element) (w : Zmod q),
  let eta := fft_root 3 3 w in let ws := map eval demo_wtns in let r := le_value demo_random in
  exists pa pb proof,
    interpolates (kpow eta 2) 4 pa (row_value (coefs (demo_prover F)) demo_wtns true) /\
    interpolates (kpow eta 2) 4 pb (row_value (coefs (demo_prover F)) demo_wtns false) /\
    prove (s79 0) (mkF2 (s79 0) (s79 0)) 1 demo_prove_logs demo_random demo_random (demo_prover F) demo_wtns = Some proof /\
    stands_affine (proof_A proof) (proj1_sig (proof_point_A demo_key ws r)) /\
    stands_affine (proof_B proof) (proj1_sig (proof_point_B demo_key ws r)) /\
    stands_affine (proof_C proof) (proj1_sig (proof_point_C demo_key 1 ws (scalar_values eta 4 pa pb) r r)).
Proof.
  destruct demo_table as (F & w & Ht). exists F, w.
  apply (prove_correct (k0 : Zmod 79) (s79 1) (s79 0) (k0 (KField := bn2)) (s79 2, s79 4) (mkF2 (s79 0) (s79 0))
    (demo_prover F) demo_key demo_wtns 3 2 w 1 demo_prove_logs demo_random demo_random).
  - reflexivity.
  - apply small_curve.
  - split; reflexivity.
  - apply small_twist.
  - apply demo_key_points.
  - apply demo_key_sizes.
  - apply (demo_domain F w Ht).
  - split; [discriminate|reflexivity].
  - apply demo_prove_logs_ok.
  - reflexivity.
  - apply demo_random_bytes.
  - reflexivity.
  - apply demo_random_bytes.
Defined.
