(* ===== verification/Groth16Setup.v ===== *)
(** Completeness: on a key made from a setup and a witness that satisfies the
    constraints, the points of the proof satisfy the equation the verification decides,
    for every bilinear pairing of groups whose generators have the order of the scalar
    field. *)

From Stdlib Require Import Field ArithRing Zmod.
From S2P Require Import Prelude Limbs Gmp Mpz FrRaw FrElement FrElementWp FrMpz RawFr Group Loops Parallel Field Dft Quotient Fft FftSpec FftFr ExtField Tower TowerSpec TowerBn Curve CurveSpec GroupLaw CurveClass Engine Pairing PairingSpec Verify Groth16 QuotientSpec ProverPoints Groth16Spec Groth16Demo.

#[local] Existing Instance Fr_params.
#[local] Existing Instance Fr_residues.
Notation Kr := (Zmod q).

(** ** Multiples by residues *)

(** [x] times the generator. *)
Definition in_exp {Gr} `{AbGroup Gr} (g : Gr) (x : Kr) : Gr := zmul (Zmod.to_Z x) g.
#[global] Arguments in_exp {Gr _} g x%_K.

Section Exponents.
Context {Gr : Type} `{GL : AbGroupLaws Gr} (g : Gr) (Hg : zmul q g = gzero).
Add Field K_field_ex : (k_theory (K := Kr)).
#[local] Open Scope field_scope.

Lemma zmul_mod_q z : zmul (z mod q)%Z g = zmul z g.
Proof.
  rewrite (Z.div_mod z q) at 2 by apply q_nonzero. rewrite zmul_add, Z.mul_comm, zmul_mul, Hg, zmul_zero.
  by rewrite gplus_0_l.
Qed.

Lemma in_exp_add x y : in_exp g (x + y) = gplus (in_exp g x) (in_exp g y).
Proof.
  unfold in_exp. change (x + y)%K with (Zmod.add x y). by rewrite Zmod.to_Z_add, zmul_mod_q, zmul_add.
Qed.

Lemma in_exp_zero : in_exp g 0 = gzero.
Proof. reflexivity. Qed.

Lemma in_exp_opp x : in_exp g (- x) = gopp (in_exp g x).
Proof.
  apply gopp_unique. rewrite <- in_exp_add. replace (x + - x) with (0 : Kr) by ring. apply in_exp_zero.
Qed.

Lemma zmul_in_exp z x : zmul z (in_exp g x) = in_exp g (Zmod.of_Z q z * x).
Proof.
  unfold in_exp. change (Zmod.of_Z q z * x) with (Zmod.mul (Zmod.of_Z q z) x).
  rewrite Zmod.to_Z_mul, Zmod.to_Z_of_Z, Zmult_mod_idemp_l, zmul_mod_q. by rewrite zmul_mul.
Qed.

(** A multi-scalar multiplication in the exponent. *)
Lemma msum_in_exp (ws : list Z) (x : nat -> Kr) a :
  msum ws (map (fun j => in_exp g (x j)) (seq a (length ws))) =
  in_exp g (ksum (fun j => Zmod.of_Z q (ws !!! j) * x (a + j)%nat) (length ws)).
Proof.
  revert a. induction ws as [|z ws IH] using rev_ind; intros a; [reflexivity|].
  rewrite length_app. cbn [length]. rewrite Nat.add_1_r, seq_S, map_app. unfold msum in *.
  rewrite zip_with_app by (by rewrite length_map, length_seq). cbn [map zip_with].
  rewrite gsum_app, IH. cbn [gsum foldr ksum]. rewrite gplus_0_r, zmul_in_exp, in_exp_add. f_equal; f_equal.
  - apply ksum_ext. intros j Hj. by rewrite lookup_total_app_l.
  - by rewrite lookup_total_app_r, Nat.sub_diag.
Qed.
End Exponents.

(** ** Pairings *)

Record bilinear {G1 G2 GT} `{AbGroup G1} `{AbGroup G2} `{AbGroup GT} (e : G1 -> G2 -> GT) : Prop := {
  bl_left x y z : e (gplus x y) z = gplus (e x z) (e y z);
  bl_right x y z : e x (gplus y z) = gplus (e x y) (e x z)
}.

Section Additive.
Context {A B : Type} `{LA : AbGroupLaws A} `{LB : AbGroupLaws B} (f : A -> B)
  (Hf : forall x y, f (gplus x y) = gplus (f x) (f y)).

Lemma additive_zero : f gzero = gzero.
Proof. apply (gplus_cancel_l (f gzero)). by rewrite <- Hf, gplus_0_r, gplus_0_r. Qed.

Lemma additive_opp x : f (gopp x) = gopp (f x).
Proof. apply gopp_unique. by rewrite <- Hf, gplus_opp_r, additive_zero. Qed.

Lemma additive_zmul n x : f (zmul n x) = zmul n (f x).
Proof.
  assert (Hn : forall k, f (nmul k x) = nmul k (f x)).
  { induction k as [|k IH]; cbn [nmul]; [apply additive_zero|]. by rewrite Hf, IH. }
  unfold zmul. destruct (0 <=? n); [apply Hn|]. by rewrite additive_opp, Hn.
Qed.
End Additive.

Lemma bilinear_exp {G1 G2 GT} `{L1 : AbGroupLaws G1} `{L2 : AbGroupLaws G2} `{LT : AbGroupLaws GT}
    (e : G1 -> G2 -> GT) (He : bilinear e) (g1 : G1) (g2 : G2) (Hg : zmul q g1 = gzero) x y :
  e (in_exp g1 x) (in_exp g2 y) = in_exp (e g1 g2) (kmul x y).
Proof.
  assert (Ht : zmul q (e g1 g2) = gzero).
  { rewrite <- (additive_zmul (fun a => e a g2) (fun a b => bl_left _ He a b g2)), Hg.
    apply (additive_zero (fun a => e a g2) (fun a b => bl_left _ He a b g2)). }
  unfold in_exp at 1 2. rewrite (additive_zmul (fun a => e a _) (fun a b => bl_left _ He a b _)).
  rewrite (additive_zmul (e g1) (bl_right _ He g1)). fold (in_exp (e g1 g2) y).
  rewrite (zmul_in_exp _ Ht). by rewrite Zmod.of_Z_to_Z.
Qed.

(** ** Interpolation on the coset *)

Section Lagrange.
Context {K : Type} {KF : KField K}.
Add Field K_field_lg : (k_theory (K := K)).
#[local] Open Scope field_scope.

(** The polynomial that is one on the point [i] of the coset of [eta] and zero on the
    others, at [x]. *)
Definition lagrange (eta : K) (d i : nat) (x : K) : K :=
  ksum (fun t => kpow (x * kinv (eta * kpow (kpow eta 2) i)) t) (2 ^ d) * kinv (kpow (1 + 1) d).

Lemma lagrange_ev (eta : K) d p x : 1 + 1 <> 0 -> root2 (S d) eta ->
  ksum (fun i => ev p (2 ^ d) (eta * kpow (kpow eta 2) i) * lagrange eta d i x) (2 ^ d) = ev p (2 ^ d) x.
Proof.
  intros H2 He. set (n := (2 ^ d)%nat). set (w := kpow eta 2).
  assert (Hw : root2 d w) by (by apply root2_square).
  assert (Hn0 : eta <> 0) by (by eapply root2_nonzero).
  assert (Hd : kpow (1 + 1) d <> 0) by (by apply kpow_nonzero).
  destruct (root_inverse d w Hw) as (w' & Hinv & Hw').
  transitivity (ksum (fun i => ksum (fun t => kinv (kpow (1 + 1) d) * kpow (x * kinv eta) t *
    (kpow w' (t * i) * dft w n (fun u => kpow eta u * p u) i)) n) n).
  { apply ksum_ext. intros i _. fold w. unfold lagrange. fold w n.
    transitivity (kinv (kpow (1 + 1) d) * ev p n (eta * kpow w i) * ksum (fun t => kpow (x * kinv (eta * kpow w i)) t) n);
      [ring|].
    rewrite <- ksum_scale. apply ksum_ext. intros t _.
    unfold n at 2. rewrite dft_ev. fold n. rewrite ev_shift.
    assert (Hi : kpow w i <> 0) by (apply kpow_nonzero; by eapply root2_nonzero).
    replace (x * kinv (eta * kpow w i)) with (x * kinv eta * kpow w' i).
    - rewrite kpow_mul_l, (Nat.mul_comm t i), kpow_mul. ring.
    - pose proof (kpow_inv w w' i Hinv) as Hp. transitivity (x * kinv eta * kpow w' i * (kpow w i * kinv (kpow w i))).
      { field. done. }
      transitivity (x * kinv eta * kinv (kpow w i) * (kpow w i * kpow w' i)); [ring|]. rewrite Hp. field. auto. }
  rewrite ksum_swap. apply ksum_ext. intros t Ht. rewrite ksum_scale.
  change (ksum (fun i => kpow w' (t * i) * dft w n (fun u => kpow eta u * p u) i) n) with
    (dft w' n (dft w n (fun u => kpow eta u * p u)) t).
  unfold n. rewrite (dft_inverse d w w') by done.
  rewrite kpow_mul_l. pose proof (kpow_inv eta (kinv eta) t) as Hp.
  transitivity (kpow x t * p t * (kpow eta t * kpow (kinv eta) t) * (kinv (kpow (1 + 1) d) * kpow (1 + 1) d)); [ring|].
  rewrite Hp by (field; done). field. done.
Qed.
End Lagrange.

(** ** The constraint system *)

Section System.
Add Field K_field_sys : (k_theory (K := Kr)).
#[local] Open Scope field_scope.

(** The entry of the row [i] and the signal [j] of one of the two matrices of a key. *)
Definition entry (coefs : list Coef) (side : bool) (i j : nat) : Kr :=
  lsum (map (fun cf => if Bool.eqb (cf_m cf =? 0)%Z side && (cf_c cf =? Z.of_nat i)%Z && (cf_s cf =? Z.of_nat j)%Z
                       then coef_val cf else 0) coefs).

Definition wval (wtns : list Element) (j : nat) : Kr := wt_val (wtns !!! j).

Lemma row_entries coefs wtns N side i : Forall (coef_ok wtns N) coefs ->
  row_value coefs wtns side i = ksum (fun j => wval wtns j * entry coefs side i j) (length wtns).
Proof.
  induction 1 as [|cf coefs [_ _ Hs] _ IH].
  - rewrite (ksum_ext _ (fun _ => 0)); [by rewrite ksum_zero|]. intros j _. unfold entry, lsum. cbn [map foldr]. ring.
  - unfold row_value, lsum in *. cbn [map foldr]. rewrite IH.
    transitivity (ksum (fun j => wval wtns j * (if Bool.eqb (cf_m cf =? 0)%Z side && (cf_c cf =? Z.of_nat i)%Z &&
      (cf_s cf =? Z.of_nat j)%Z then coef_val cf else 0)) (length wtns) +
      ksum (fun j => wval wtns j * entry coefs side i j) (length wtns)).
    2:{ rewrite <- ksum_plus. apply ksum_ext. intros j _. unfold entry, lsum. cbn [map foldr]. ring. }
    f_equal. rewrite (ksum_single _ _ (Z.to_nat (cf_s cf))).
    2:{ clear IH. unfold Element in *. lia. }
    + unfold contribution, wval. rewrite Z2Nat.id, Z.eqb_refl, andb_true_r by lia.
      destruct (_ && _); [done|ring].
    + intros j Hj Hne. rewrite (proj2 (Z.eqb_neq (cf_s cf) (Z.of_nat j))), andb_false_r by lia. ring.
Qed.

(** A combination of polynomials. *)
Lemma ev_combination (c : nat -> Kr) (p : nat -> nat -> Kr) m n x :
  ev (fun t => ksum (fun j => c j * p j t) m) n x = ksum (fun j => c j * ev (p j) n x) m.
Proof.
  unfold ev. transitivity (ksum (fun t => ksum (fun j => kpow x t * (c j * p j t)) m) n).
  { apply ksum_ext. intros t _. by rewrite ksum_scale. }
  rewrite ksum_swap. apply ksum_ext. intros j _. rewrite <- ksum_scale. apply ksum_ext. intros; ring.
Qed.

(** The secrets of a setup, and the polynomials of the signals, as coefficients: [sU]
    and [sV] interpolate the columns of the two matrices of the key, [sW] those of the
    third matrix, which the key does not hold. *)
Record Setup := mkSetup {
  tau : Kr; alpha : Kr; beta : Kr; gamma : Kr; delta : Kr;
  sU : nat -> nat -> Kr; sV : nat -> nat -> Kr; sW : nat -> nat -> Kr
}.

Record setup_ok (S : Setup) (coefs : list Coef) (third : nat -> nat -> Kr) (w : Kr) (n m : nat) : Prop := {
  su_gamma : gamma S <> 0;
  su_delta : delta S <> 0;
  su_U j : (j < m)%nat -> interpolates w n (sU S j) (fun i => entry coefs true i j);
  su_V j : (j < m)%nat -> interpolates w n (sV S j) (fun i => entry coefs false i j);
  su_W j : (j < m)%nat -> interpolates w n (sW S j) (fun i => third i j)
}.

(** The witness satisfies the constraints. *)
Definition satisfied (coefs : list Coef) (third : nat -> nat -> Kr) (wtns : list Element) (n : nat) : Prop :=
  forall i, (i < n)%nat -> row_value coefs wtns true i * row_value coefs wtns false i =
    ksum (fun j => wval wtns j * third i j) (length wtns).

(** What the signal [j] contributes to the point of its section. *)
Definition signal (S : Setup) (n j : nat) : Kr :=
  (beta S * ev (sU S j) n (tau S) + alpha S * ev (sV S j) n (tau S) + ev (sW S j) n (tau S))%K.

(** The scalar of the point [i] of the last section. *)
Definition h_scalar (S : Setup) (eta : Kr) (d i : nat) : Kr :=
  (- (lagrange eta d i (tau S) * (kpow (tau S) (2 ^ d) - 1)) / ((1 + 1) * delta S))%K.

(** The key of a setup for [m] signals, [nPublic + 1] of them public. *)
Definition setup_key {G1 G2} `{AbGroup G1} `{AbGroup G2} (S : Setup) (eta : Kr) (d m nPublic : nat) (g1 : G1) (g2 : G2) :
    KeyPoints G1 G2 :=
  let n := (2 ^ d)%nat in
  {| kp_alpha1 := in_exp g1 (alpha S); kp_beta1 := in_exp g1 (beta S); kp_beta2 := in_exp g2 (beta S);
     kp_delta1 := in_exp g1 (delta S); kp_delta2 := in_exp g2 (delta S);
     kp_A := map (fun j => in_exp g1 (ev (sU S j) n (tau S))) (seq 0 m);
     kp_B1 := map (fun j => in_exp g1 (ev (sV S j) n (tau S))) (seq 0 m);
     kp_B2 := map (fun j => in_exp g2 (ev (sV S j) n (tau S))) (seq 0 m);
     kp_C := map (fun j => in_exp g1 (signal S n j / delta S)) (seq (nPublic + 1) (m - (nPublic + 1)));
     kp_H := map (fun i => in_exp g1 (h_scalar S eta d i)) (seq 0 n) |}.

(** The points [IC] of the verification key: the one of the constant signal, and those of
    the public ones. *)
Definition setup_IC0 {G1} `{AbGroup G1} (S : Setup) (d : nat) (g1 : G1) : G1 := in_exp g1 (signal S (2 ^ d) 0 / gamma S).
Definition setup_IC {G1} `{AbGroup G1} (S : Setup) (d nPublic : nat) (g1 : G1) : list G1 :=
  map (fun j => in_exp g1 (signal S (2 ^ d) j / gamma S)) (seq 1 nPublic).

(** The public inputs of a witness. *)
Definition public_inputs (wtns : list Element) (nPublic : nat) : list Z :=
  map (fun x => (eval x mod q)%Z) (take nPublic (drop 1 wtns)).

(** ** The exponents of the proof *)

Lemma equation (al be ga de U V W Q Z pub priv r s : Kr) : ga <> 0 -> de <> 0 ->
  U * V - W = Z * Q -> pub + priv = be * U + al * V + W ->
  (U + al + r * de) * (V + be + s * de) =
  al * be + pub / ga * ga + (priv / de + Q * Z / de + s * (U + al + r * de) + r * (V + be + s * de) + - (r * s * de)) * de.
Proof.
  intros Hg Hd HW Hp.
  assert (EW : W = U * V - Z * Q) by (rewrite <- HW; ring).
  assert (Ep : priv = be * U + al * V + W - pub) by (rewrite <- Hp; ring).
  rewrite Ep, EW. field. auto.
Qed.

Lemma of_Z_q z : Zmod.of_Z q (z mod q) = Zmod.of_Z q z.
Proof. apply Zmod.to_Z_inj. rewrite !Zmod.to_Z_of_Z. by rewrite Z.mod_mod by apply q_nonzero. Qed.

Lemma of_Z_mul x y : Zmod.of_Z q (x * y) = Zmod.of_Z q x * Zmod.of_Z q y.
Proof. apply Zmod.to_Z_inj. change (?a * ?b) with (Zmod.mul a b). rewrite Zmod.to_Z_mul, !Zmod.to_Z_of_Z. apply Zmult_mod. Qed.

Lemma wval_lookup wtns j : (j < length wtns)%nat -> Zmod.of_Z q (map eval wtns !!! j) = wval wtns j.
Proof.
  intros Hj. unfold wval, wt_val. f_equal. destruct (lookup_lt_is_Some_2 wtns j Hj) as [x Hx].
  rewrite (list_lookup_total_correct _ _ _ Hx). apply list_lookup_total_correct.
  change (map eval wtns) with (eval <$> wtns). by rewrite list_lookup_fmap, Hx.
Qed.
End System.

Section Complete.
Context {G1 G2 : Type} `{L1 : AbGroupLaws G1} `{L2 : AbGroupLaws G2}.
Context (g1 : G1) (g2 : G2) (Hg1 : zmul q g1 = gzero) (Hg2 : zmul q g2 = gzero).
Context (S : Setup) (coefs : list Coef) (third : nat -> nat -> Kr) (wtns : list Element) (eta : Kr) (d nPublic : nat).
Context (Htwo : (k1 + k1 <> k0 :> Kr)%K) (Heta : root2 (Datatypes.S d) eta) (Hpub : (nPublic < length wtns)%nat).
Add Field K_field_cpl : (k_theory (K := Kr)).
#[local] Open Scope field_scope.
Let n := (2 ^ d)%nat.
Let w := kpow eta 2.
Let k := setup_key S eta d (length wtns) nPublic g1 g2.
Let ws := map eval wtns.
Context (HS : setup_ok S coefs third w n (length wtns)).

Lemma ws_length : length ws = length wtns.
Proof. apply length_map. Qed.

(** Sums over all the signals. *)
Lemma signal_sum {Gr} `{LG : AbGroupLaws Gr} (g : Gr) (Hg : zmul q g = gzero) (f : nat -> Kr) :
  msum ws (map (fun j => in_exp g (f j)) (seq 0 (length wtns))) = in_exp g (ksum (fun j => wval wtns j * f j) (length wtns)).
Proof.
  rewrite <- ws_length at 1. rewrite (msum_in_exp g Hg). rewrite ws_length. f_equal. apply ksum_ext. intros j Hj.
  f_equal. exact (wval_lookup wtns j Hj).
Qed.

(** The two polynomials of the witness are combinations of those of the signals. *)
Lemma witness_poly side (P : nat -> nat -> Kr) pa : Forall (coef_ok wtns (Z.of_nat n)) coefs ->
  (forall j, (j < length wtns)%nat -> interpolates w n (P j) (fun i => entry coefs side i j)) ->
  interpolates w n pa (row_value coefs wtns side) ->
  forall x, ev pa n x = ksum (fun j => wval wtns j * ev (P j) n x) (length wtns).
Proof.
  intros Hc HP Ha x. rewrite <- ev_combination. apply ev_ext. intros t Ht.
  apply (interpolates_unique d w Htwo (root2_square d eta Heta) pa
    (fun t => ksum (fun j => wval wtns j * P j t) (length wtns)) (row_value coefs wtns side) t Ha); [|exact Ht].
  intros i Hi. unfold n. rewrite ev_combination. rewrite (row_entries coefs wtns _ side i Hc).
  apply ksum_ext. intros j Hj. f_equal. by apply HP.
Qed.

(** What the three polynomials of the witness are at the secret point. *)
Lemma signals_total pa pb W : (forall x, ev pa n x = ksum (fun j => wval wtns j * ev (sU S j) n x) (length wtns)) ->
  (forall x, ev pb n x = ksum (fun j => wval wtns j * ev (sV S j) n x) (length wtns)) ->
  W = ksum (fun j => wval wtns j * ev (sW S j) n (tau S)) (length wtns) ->
  ksum (fun j => wval wtns j * signal S n j) (length wtns) = beta S * ev pa n (tau S) + alpha S * ev pb n (tau S) + W.
Proof.
  intros -> -> ->. rewrite <- !ksum_scale, <- !ksum_plus. apply ksum_ext. intros j _. unfold signal. ring.
Qed.

(** The points of the last section give the quotient at the secret point. *)
Lemma quotient_sum pa pb :
  msum (scalar_values eta n pa pb) (kp_H k) =
  in_exp g1 (ev (quotient pa pb n) n (tau S) * (kpow (tau S) n - 1) / delta S).
Proof.
  assert (Hl : length (scalar_values eta n pa pb) = n) by (unfold scalar_values; by rewrite length_map, length_seq).
  unfold k, setup_key. cbn [kp_H]. fold n. replace (seq 0 n) with (seq 0 (length (scalar_values eta n pa pb))) by (by rewrite Hl).
  rewrite (msum_in_exp g1 Hg1). rewrite Hl. f_equal.
  rewrite <- (lagrange_ev eta d (quotient pa pb n) (tau S) Htwo Heta). fold n.
  transitivity ((kpow (tau S) n - 1) / delta S *
    ksum (fun i => ev (quotient pa pb n) n (eta * kpow (kpow eta 2) i) * lagrange eta d i (tau S)) n);
    [|field; apply HS].
  rewrite <- ksum_scale. apply ksum_ext. intros i Hi. cbn [Nat.add].
  replace (scalar_values eta n pa pb !!! i) with (Zmod.to_Z (scalar_value eta n pa pb i)).
  - rewrite Zmod.of_Z_to_Z. unfold scalar_value, h_scalar. fold n. field. split; [apply HS|done].
  - symmetry. apply list_lookup_total_correct. unfold scalar_values. change (@map ?A ?B) with (@fmap list _ A B).
    rewrite list_lookup_fmap, lookup_seq_lt by done. done.
Qed.

(** The shares of the private and of the public signals. *)
Definition private_part : Kr :=
  ksum (fun j => wval wtns (nPublic + 1 + j) * signal S n (nPublic + 1 + j))%K (length wtns - (nPublic + 1)).
Definition public_part : Kr := ksum (fun j => wval wtns j * signal S n j)%K (nPublic + 1).

Lemma parts : public_part + private_part = ksum (fun j => wval wtns j * signal S n j) (length wtns).
Proof.
  unfold public_part, private_part. replace (length wtns) with (nPublic + 1 + (length wtns - (nPublic + 1)))%nat at 2 by lia.
  by rewrite (ksum_app _ (nPublic + 1)).
Qed.

Lemma private_sum : msum (drop (nPublic + 1) ws) (kp_C k) = in_exp g1 (private_part / delta S).
Proof.
  unfold k, setup_key. cbn [kp_C]. fold n.
  assert (Hl : length (drop (nPublic + 1) ws) = (length wtns - (nPublic + 1))%nat) by (rewrite length_drop, ws_length; lia).
  rewrite <- Hl. rewrite (msum_in_exp g1 Hg1 (drop (nPublic + 1) ws) (fun j => signal S n j / delta S)), Hl. f_equal.
  transitivity (kinv (delta S) * private_part); [|field; apply HS].
  unfold private_part. rewrite <- ksum_scale. apply ksum_ext. intros j Hj.
  rewrite lookup_total_drop. replace (Zmod.of_Z q (ws !!! (nPublic + 1 + j)%nat)) with (wval wtns (nPublic + 1 + j))
    by (symmetry; apply (wval_lookup wtns); unfold Element in *; lia). field. apply HS.
Qed.

Lemma public_sum : wval wtns 0 = 1 ->
  gplus (msum (public_inputs wtns nPublic) (setup_IC S d nPublic g1)) (setup_IC0 S d g1) = in_exp g1 (public_part / gamma S).
Proof.
  intros Hone. unfold setup_IC, setup_IC0. fold n.
  assert (Hl : length (public_inputs wtns nPublic) = nPublic).
  { unfold public_inputs. rewrite length_map, length_take, length_drop. unfold Element in *. lia. }
  rewrite <- Hl at 2. rewrite (msum_in_exp g1 Hg1 _ (fun j => signal S n j / gamma S)), Hl, <- (in_exp_add g1 Hg1). f_equal.
  transitivity (kinv (gamma S) * public_part); [|field; apply HS].
  unfold public_part. rewrite <- ksum_scale, (Nat.add_comm nPublic 1), ksum_app. cbn [ksum Nat.add].
  rewrite Hone. transitivity (ksum (fun j => kinv (gamma S) * (wval wtns (1 + j) * signal S n (1 + j))) nPublic + signal S n 0 / gamma S).
  - f_equal. apply ksum_ext. intros j Hj. replace (Zmod.of_Z q (public_inputs wtns nPublic !!! j)) with (wval wtns (1 + j)).
    + cbn [Nat.add]. field. apply HS.
    + destruct (lookup_lt_is_Some_2 wtns (1 + j)) as [x Hx]; [lia|]. unfold wval, wt_val.
      rewrite (list_lookup_total_correct _ _ _ Hx). symmetry.
      replace (public_inputs wtns nPublic !!! j) with (eval x mod q)%Z; [apply of_Z_q|].
      symmetry. apply list_lookup_total_correct. unfold public_inputs. change (@map ?A ?B) with (@fmap list _ A B).
      rewrite list_lookup_fmap, lookup_take_lt, lookup_drop by lia. exact (f_equal (fmap (fun x => eval x mod q)%Z) Hx).
  - cbn [Nat.add]. field. apply HS.
Qed.

(** The exponents of the points of a proof. *)
Definition exp_A (pa : nat -> Kr) (r : Z) : Kr := (ev pa n (tau S) + alpha S + Zmod.of_Z q r * delta S)%K.
Definition exp_B (pb : nat -> Kr) (s : Z) : Kr := (ev pb n (tau S) + beta S + Zmod.of_Z q s * delta S)%K.
Definition exp_C (pa pb : nat -> Kr) (r s : Z) : Kr :=
  (private_part / delta S + ev (quotient pa pb n) n (tau S) * (kpow (tau S) n - 1) / delta S +
   Zmod.of_Z q s * exp_A pa r + Zmod.of_Z q r * exp_B pb s + - (Zmod.of_Z q r * Zmod.of_Z q s * delta S))%K.

Lemma point_exp {Gr} `{LG : AbGroupLaws Gr} (g : Gr) (Hg : zmul q g = gzero) (X : Gr) (x y : Kr) r :
  X = in_exp g x -> gplus (gplus X (in_exp g y)) (zmul r (in_exp g (delta S))) = in_exp g (x + y + Zmod.of_Z q r * delta S).
Proof. intros ->. by rewrite (zmul_in_exp g Hg), <- !(in_exp_add g Hg). Qed.

Section Points.
Context (pa pb : nat -> Kr) (Hcoefs : Forall (coef_ok wtns (Z.of_nat n)) coefs).
Context (Ha : interpolates w n pa (row_value coefs wtns true)) (Hb : interpolates w n pb (row_value coefs wtns false)).

Lemma A_exp r : proof_point_A k ws r = in_exp g1 (exp_A pa r).
Proof.
  apply (point_exp g1 Hg1). unfold k, setup_key. cbn [kp_A]. rewrite signal_sum by done.
  f_equal. symmetry. apply (witness_poly true); [done|apply HS|done].
Qed.

Lemma B1_exp s : proof_point_B1 k ws s = in_exp g1 (exp_B pb s).
Proof.
  apply (point_exp g1 Hg1). unfold k, setup_key. cbn [kp_B1]. rewrite signal_sum by done.
  f_equal. symmetry. apply (witness_poly false); [done|apply HS|done].
Qed.

Lemma B_exp s : proof_point_B k ws s = in_exp g2 (exp_B pb s).
Proof.
  apply (point_exp g2 Hg2). unfold k, setup_key. cbn [kp_B2]. rewrite signal_sum by done.
  f_equal. symmetry. apply (witness_poly false); [done|apply HS|done].
Qed.

Lemma C_exp r s : proof_point_C k (Z.of_nat nPublic) ws (scalar_values eta n pa pb) r s = in_exp g1 (exp_C pa pb r s).
Proof.
  unfold proof_point_C. replace (Z.to_nat (Z.of_nat nPublic + 1)) with (nPublic + 1)%nat by lia.
  rewrite private_sum, quotient_sum, A_exp, B1_exp, !(zmul_in_exp g1 Hg1).
  change (kp_delta1 k) with (in_exp g1 (delta S)). rewrite (zmul_in_exp g1 Hg1), <- (in_exp_opp g1 Hg1), <- !(in_exp_add g1 Hg1).
  by rewrite of_Z_q, of_Z_mul.
Qed.

(** The equation of the verification, for any pairing. *)
Lemma pairing_equation {GT} `{LT : AbGroupLaws GT} (e : G1 -> G2 -> GT) (He : bilinear e) r s :
  satisfied coefs third wtns n -> wval wtns 0 = 1 ->
  e (proof_point_A k ws r) (proof_point_B k ws s) =
  gplus (gplus (e (kp_alpha1 k) (kp_beta2 k))
    (e (gplus (msum (public_inputs wtns nPublic) (setup_IC S d nPublic g1)) (setup_IC0 S d g1)) (in_exp g2 (gamma S))))
    (e (proof_point_C k (Z.of_nat nPublic) ws (scalar_values eta n pa pb) r s) (kp_delta2 k)).
Proof.
  intros Hsat Hone. rewrite A_exp, B_exp, C_exp, public_sum by done.
  change (kp_alpha1 k) with (in_exp g1 (alpha S)). change (kp_beta2 k) with (in_exp g2 (beta S)).
  change (kp_delta2 k) with (in_exp g2 (delta S)). rewrite !(bilinear_exp e He g1 g2 Hg1).
  assert (Ht : zmul q (e g1 g2) = gzero).
  { rewrite <- (additive_zmul (fun a => e a g2) (fun a b => bl_left _ He a b g2)), Hg1.
    apply (additive_zero (fun a => e a g2) (fun a b => bl_left _ He a b g2)). }
  rewrite <- !(in_exp_add (e g1 g2) Ht). f_equal.
  pose (pc t := ksum (fun j => wval wtns j * sW S j t) (length wtns)).
  assert (Hc : interpolates w n pc (fun i => row_value coefs wtns true i * row_value coefs wtns false i)).
  { intros i Hi. unfold pc. rewrite ev_combination, (Hsat i Hi). apply ksum_ext. intros j Hj. f_equal. by apply HS. }
  apply (equation (alpha S) (beta S) (gamma S) (delta S) (ev pa n (tau S)) (ev pb n (tau S)) (ev pc n (tau S)));
    [apply HS|apply HS| |].
  - etransitivity; [apply (division d w Htwo (root2_square d eta Heta) pa pb pc _ _ Ha Hb Hc)|reflexivity].
  - rewrite parts. apply signals_total.
    + apply (witness_poly true); [done|apply HS|done].
    + apply (witness_poly false); [done|apply HS|done].
    + apply ev_combination.
Qed.
End Points.
End Complete.

(** The equation of the verification for three points, whenever the key is the one of a
    setup for the coefficients and a third matrix, with generators of the order of the
    scalar field, and the witness satisfies every constraint. *)
Definition complete_points {G1 G2} `{AbGroup G1} `{AbGroup G2} (coefs : list Coef) (wtns : list Element) (eta : Kr) (d : nat)
    (nPublic : Z) (k : KeyPoints G1 G2) (A : G1) (B : G2) (C : G1) : Prop :=
  forall (S : Setup) (third : nat -> nat -> Kr) (nPub : nat) (g1 : G1) (g2 : G2),
    nPublic = Z.of_nat nPub -> zmul q g1 = gzero -> zmul q g2 = gzero ->
    setup_ok S coefs third (kpow eta 2) (2 ^ d) (length wtns) -> k = setup_key S eta d (length wtns) nPub g1 g2 ->
    satisfied coefs third wtns (2 ^ d) -> wval wtns 0 = (1%K : Kr) ->
    forall (GT : Type) (AT : AbGroup GT) (LT : AbGroupLaws GT) (e : G1 -> G2 -> GT), bilinear e ->
    let X := gplus (msum (public_inputs wtns nPub) (setup_IC S d nPub g1)) (setup_IC0 S d g1) in
    e A B = gplus (gplus (e (in_exp g1 (alpha S)) (in_exp g2 (beta S))) (e X (in_exp g2 (gamma S)))) (e C (in_exp g2 (delta S))).

(** C7: Completeness of [Prover::prove]: its three points are elements [A], [B], [C] of the
    groups, and if the key is the one of a setup with secrets [tau], [alpha], [beta],
    [gamma], [delta] for the matrices of its coefficients and a third one, the
    generators have the order of the scalar field, and the witness satisfies every
    constraint, then for every bilinear map of the two groups
    [e(A, B) = e(alpha, beta) + e(IC_0 + sum input_i IC_i, gamma) + e(C, delta)], the equation
    [Verifier::verify] decides, the inputs being those of the witness. *)
Theorem prove_complete {K E : Type} {KF : KField K} {FO : FieldOps E} {FR : FieldRep K E} {FV : FieldVal K E} {FL : FieldLaws K E}
    {K2 : Type} {KF2 : KField K2} {FO2 : FieldOps (F2El E)} {FR2 : FieldRep K2 (F2El E)} {FV2 : FieldVal K2 (F2El E)}
    {FL2 : FieldLaws K2 (F2El E)} {G : Mpn} {GL : MpnLaws G} {MZ : Mpz} {ML : MpzLaws MZ}
    (a1 b1 : K) (fa : E) (a2 b2 : K2) (fa2 : F2El E) (p : Prover E) (k : KeyPoints (curve_point a1 b1) (curve_point a2 b2))
    (wtns : list Element) (s d : nat) (w : Kr) nThreads L random_r random_s :
  f_rep fa a1 -> curve_ok a1 b1 -> f_rep fa2 a2 -> curve_ok a2 b2 ->
  key_points a1 b1 a2 b2 p k -> key_sizes a1 b1 a2 b2 p k wtns -> domain_ok p wtns s d w ->
  1 <= nThreads < 2 ^ 32 -> prove_logs_ok nThreads p d L ->
  length random_r = 31%nat -> Forall is_byte random_r -> length random_s = 31%nat -> Forall is_byte random_s ->
  exists proof A B C, prove fa fa2 nThreads L random_r random_s p wtns = Some proof /\
    stands_affine (proof_A proof) (proj1_sig A) /\ stands_affine (proof_B proof) (proj1_sig B) /\
    stands_affine (proof_C proof) (proj1_sig C) /\
    complete_points (coefs p) wtns (fft_root s (S d) w) d (nPublic p) k A B C.
Proof.
  intros Hfa Hc1 Hfa2 Hc2 Hk Hz Hd Hn HL Lr Br Ls Bs.
  pose proof (curve_group_laws _ _ Hc1). pose proof (curve_group_laws _ _ Hc2).
  destruct (prove_spec a1 b1 fa Hfa Hc1 a2 b2 fa2 Hfa2 Hc2 p k wtns s d w nThreads L random_r random_s Hk Hz Hd Hn HL Lr Br Ls Bs)
    as (pa & pb & proof & Ia & Ib & Ep & HA & HB & HC).
  do 4 eexists. split; [exact Ep|]. split; [exact HA|]. split; [exact HB|]. split; [exact HC|].
  set (eta := fft_root s (S d) w) in *.
  intros S third nPub g1 g2 HnP Hg1 Hg2 HS -> Hsat Hone GT AT LT e He X.
  pose proof (dm_table _ _ _ _ _ Hd) as Ht. rewrite HnP.
  apply (pairing_equation g1 g2 Hg1 Hg2 S (coefs p) third wtns eta d nPub (table_two _ _ _ Ht)); try done.
  - apply root2_pow. replace (Datatypes.S d + (s - Datatypes.S d))%nat with s by (pose proof (dm_room _ _ _ _ _ Hd); lia). apply Ht.
  - pose proof (kz_vars _ _ _ _ _ _ _ Hz). pose proof (kz_public _ _ _ _ _ _ _ Hz). unfold Element in *. lia.
  - pose proof (dm_coefs _ _ _ _ _ Hd) as Hc. by rewrite <- pow2_Z in Hc.
Qed.

(** ** Instances *)

(** The hypotheses on the setup can be met with generators that are not zero: the
    residues themselves, paired by their product, and one constraint. *)
Section Toy.
Add Field K_field_toy : (k_theory (K := Kr)).
#[local] Open Scope field_scope.
#[local] Instance residue_group : AbGroup Kr := {| gzero := 0; gplus := kadd; gopp := kopp |}.
#[local] Instance residue_group_laws : AbGroupLaws Kr.
Proof. split; cbn [gzero gplus gopp residue_group]; intros; ring. Qed.

Lemma nmul_residue n : nmul n (1 : Kr) = Zmod.of_Z q (Z.of_nat n).
Proof.
  induction n as [|n IH]; cbn [nmul]; [done|]. rewrite IH. apply Zmod.to_Z_inj. cbn [gplus residue_group].
  change (1 + Zmod.of_Z q (Z.of_nat n)) with (Zmod.add (Zmod.one : Kr) (Zmod.of_Z q (Z.of_nat n))).
  rewrite Zmod.to_Z_add, !Zmod.to_Z_of_Z, Zmod.to_Z_1, Nat2Z.inj_succ.
  by rewrite <- Zplus_mod, Z.add_1_l.
Qed.

Lemma zmul_residue z : (0 <= z)%Z -> zmul z (1 : Kr) = Zmod.of_Z q z.
Proof.
  intros Hz. rewrite <- (Z2Nat.id z Hz) at 1. rewrite zmul_nat, nmul_residue, Z2Nat.id by done. done.
Qed.

Lemma residue_order : zmul q (1 : Kr) = gzero.
Proof.
  etransitivity; [apply zmul_residue; pose proof (q_pos (P := Fr_params)); lia|].
  apply Zmod.to_Z_inj. rewrite Zmod.to_Z_of_Z, Z.mod_same by apply q_nonzero. reflexivity.
Qed.

Definition toy_wtns : list Element := [of_Z 4 1; of_Z 4 35; of_Z 4 6].
Definition toy_coefs : list Coef := [demo_coef 0 0 1 7; demo_coef 1 0 2 3; demo_coef 0 0 2 5].
Definition toy_third (i j : nat) : Kr :=
  match j with O => row_value toy_coefs toy_wtns true i * row_value toy_coefs toy_wtns false i | _ => 0 end%K.
Definition toy_setup : Setup :=
  mkSetup (Zmod.of_Z q 11) (Zmod.of_Z q 12) (Zmod.of_Z q 13) 1%K 1%K
    (fun j _ => entry toy_coefs true 0 j) (fun j _ => entry toy_coefs false 0 j) (fun j _ => toy_third 0 j).

Lemma toy_interpolates w (p : nat -> Kr) x : p O = x O -> interpolates w 1 p x.
Proof. intros H [|i] Hi; [|lia]. unfold ev. cbn [ksum kpow]. rewrite H. ring. Qed.

Lemma toy_setup_ok w : setup_ok toy_setup toy_coefs toy_third w 1 3.
Proof. split; try (intros; apply toy_interpolates; reflexivity); apply k_one_nonzero. Qed.

Lemma toy_coefs_ok : Forall (coef_ok toy_wtns 1) toy_coefs.
Proof.
  repeat (apply Forall_cons_2; [split; [eexists; apply rep_of_Z, mont_range|cbn; lia|cbn; lia]|]). apply Forall_nil_2.
Qed.

Lemma toy_one : wval toy_wtns 0 = 1.
Proof.
  unfold wval, wt_val. change (toy_wtns !!! O) with (of_Z 4 1). rewrite (rep_eval _ 1); [reflexivity|].
  apply rep_of_Z. pose proof (q_bounds (P := Fr_params)). lia.
Qed.

Lemma toy_satisfied : satisfied toy_coefs toy_third toy_wtns 1.
Proof.
  intros i Hi. assert (i = O) as -> by lia. change (length toy_wtns) with 3%nat. cbn [ksum toy_third].
  rewrite toy_one. ring.
Qed.

Lemma toy_pairing : bilinear (kmul : Kr -> Kr -> Kr).
Proof. split; intros; cbn [gplus residue_group]; ring. Qed.

Example toy_complete (eta : Kr) (pa pb : nat -> Kr) r s : 1 + 1 <> (0 : Kr) -> root2 1 eta ->
  interpolates (kpow eta 2) (2 ^ 0) pa (row_value toy_coefs toy_wtns true) ->
  interpolates (kpow eta 2) (2 ^ 0) pb (row_value toy_coefs toy_wtns false) ->
  let k := setup_key toy_setup eta 0 (length toy_wtns) 1 (1 : Kr) (1 : Kr) in let ws := map eval toy_wtns in
  kmul (proof_point_A k ws r) (proof_point_B k ws s) =
  gplus (gplus (kmul (kp_alpha1 k) (kp_beta2 k))
    (kmul (gplus (msum (public_inputs toy_wtns 1) (setup_IC toy_setup 0 1 (1 : Kr))) (setup_IC0 toy_setup 0 (1 : Kr)))
      (in_exp (1 : Kr) (gamma toy_setup))))
    (kmul (proof_point_C k (Z.of_nat 1) ws (scalar_values eta (2 ^ 0) pa pb) r s) (kp_delta2 k)).
Proof.
  intros H2 He Ha Hb.
  exact (pairing_equation (1 : Kr) (1 : Kr) residue_order residue_order toy_setup toy_coefs toy_third toy_wtns eta 0 1
    H2 He (le_S _ _ (le_n 2)) (toy_setup_ok _) pa pb toy_coefs_ok Ha Hb kmul toy_pairing r s toy_satisfied toy_one).
Qed.
End Toy.

Section Witness.
#[local] Existing Instances F79 field_class_rep bn2 bn6 bn12 F2_rep F6_rep F12_rep.
#[local] Existing Instances F79_ops F79_laws F79_val F79_ops2 F79_laws2 F79_val2 Mpn_reference Mpz_reference RawFr_rep.
Notation s79 := (Zmod.of_Z 79).

Lemma prove_complete_witness : exists (F : Fft Element) (w : Kr) proof A B C,
  prove (s79 0) (mkF2 (s79 0) (s79 0)) 1 demo_prove_logs demo_random demo_random (demo_prover F) demo_wtns = Some proof /\
  stands_affine (proof_A proof) (proj1_sig A) /\ stands_affine (proof_B proof) (proj1_sig B) /\
  stands_affine (proof_C proof) (proj1_sig C) /\
  complete_points (coefs (demo_prover F)) demo_wtns (fft_root 3 3 w) 2 1 demo_key A B C.
Proof.
  destruct demo_table as (F & w & Ht). exists F, w.
  apply (prove_complete (k0 : Zmod 79) (s79 1) (s79 0) (k0 (KField := bn2)) (s79 2, s79 4) (mkF2 (s79 0) (s79 0))
    (demo_prover F) demo_key demo_wtns 3 2 w 1 demo_prove_logs demo_random demo_random).
  - reflexivity.
  - apply small_curve.
  - split; reflexivity.
  - apply small_twist.
  - apply demo_key_points.
  - apply demo_key_sizes.
  - apply (demo_domain F w Ht).
  - split; [discriminate|reflexivity].
  - apply demo_prove_logs_ok.
  - reflexivity.
  - apply demo_random_bytes.
  - reflexivity.
  - apply demo_random_bytes.
Defined.
End Witness.
