(* ===== verification/CoefLocks.v ===== *)
(** The loop over the coefficients in [Prover::prove]: its rounds add to shared cells, each
    under one of [NLOCKS] mutexes.  What a thread does between two accesses to shared
    memory is a step; every interleaving of the steps of the threads is shown to be the
    rounds done one after the other in some order. *)

From Stdlib Require Import Zmod.
From stdpp Require Import relations.
From S2P Require Import Prelude Limbs Gmp Mpz FrRaw FrElement RawFr Loops Parallel Schedule Groth16.

Definition NLOCKS : Z := 1024.

(** A round: the product is computed, the mutex of the cell is taken, the cell is loaded,
    the sum is stored, the mutex is released. *)
Inductive phase :=
| Between
| Computed (i : Z) (aux : Element)
| Holding (i : Z) (aux : Element)
| Loaded (i : Z) (aux x : Element)
| Stored (i : Z).

(** A thread and the rounds it has not begun. *)
Record Thread := mkThread { where_ : phase; rest : list Z }.

(** [stored] is the history of the stores; the program does not keep it. *)
Record CoefState := mkCoefState {
  cells : array Element * array Element;
  locks : list bool;
  threads : list Thread;
  stored : list Z
}.

Section Steps.
Context {G : Mpn} (coefs : list Coef) (wtns : list Element).
#[local] Existing Instance Fr_params.

(** [locks[coefs[i].c % NLOCKS]] *)
Definition lock_of (cf : Coef) : nat := Z.to_nat (cf_c cf mod NLOCKS).

(** [ab[coefs[i].c]] *)
Definition cell_of (cf : Coef) (ab : array Element * array Element) : option Element :=
  array_get (if cf_m cf =? 0 then fst ab else snd ab) (cf_c cf).
Definition set_cell (cf : Coef) (x : Element) (ab : array Element * array Element) :
    option (array Element * array Element) :=
  if cf_m cf =? 0 then a ← array_set (fst ab) (cf_c cf) x; Some (a, snd ab)
  else b ← array_set (snd ab) (cf_c cf) x; Some (fst ab, b).

(** The next step of the thread [t]: undefined ([None]), not possible, or a new state. *)
Definition coef_thread_step (t : nat) (s : CoefState) : option (option CoefState) :=
  match threads s !! t with
  | None => Some None
  | Some (mkThread w rest) =>
      let goes w rest := <[t := mkThread w rest]> (threads s) in
      match w with
      | Between =>
          match rest with
          | [] => Some None
          | i :: rest =>
              cf ← coefs !! Z.to_nat i;
              w ← wtns !! Z.to_nat (cf_s cf);
              Some (Some (mkCoefState (cells s) (locks s) (goes (Computed i (RawFr_mul w (cf_coef cf))) rest) (stored s)))
          end
      | Computed i aux =>
          cf ← coefs !! Z.to_nat i;
          taken ← locks s !! lock_of cf;
          if taken : bool then Some None
          else Some (Some (mkCoefState (cells s) (<[lock_of cf := true]> (locks s)) (goes (Holding i aux) rest) (stored s)))
      | Holding i aux =>
          cf ← coefs !! Z.to_nat i;
          x ← cell_of cf (cells s);
          Some (Some (mkCoefState (cells s) (locks s) (goes (Loaded i aux x) rest) (stored s)))
      | Loaded i aux x =>
          cf ← coefs !! Z.to_nat i;
          ab ← set_cell cf (RawFr_add x aux) (cells s);
          Some (Some (mkCoefState ab (locks s) (goes (Stored i) rest) (stored s ++ [i])))
      | Stored i =>
          cf ← coefs !! Z.to_nat i;
          Some (Some (mkCoefState (cells s) (<[lock_of cf := false]> (locks s)) (goes Between rest) (stored s)))
      end
  end.

(** The loop begins with all mutexes free, the thread [t] having the rounds [work !! t]. *)
Definition coef_start (ab : array Element * array Element) (work : list (list Z)) : CoefState :=
  mkCoefState ab (replicate (Z.to_nat NLOCKS) false) (map (mkThread Between) work) [].

Inductive coef_steps_to (s s' : CoefState) : Prop :=
| coef_thread_steps t : coef_thread_step t s = Some (Some s') -> coef_steps_to s s'.

(** The rounds a thread runs in a call of the pool. *)
Definition rounds_of (log : list (JobRange * nat)) (t : nat) : list Z :=
  concat (map (fun r => job_range (fst r)) (filter (fun r => snd r = t) log)).
End Steps.

(** ** What the threads hold and have left *)

Section Spec.
Context {G : Mpn} (coefs : list Coef) (wtns : list Element).
#[local] Existing Instance Fr_params.
Notation step := (coef_thread_step coefs wtns).

Definition pending (th : Thread) : list Z :=
  match where_ th with
  | Computed i _ | Holding i _ | Loaded i _ _ => [i]
  | _ => []
  end ++ rest th.

Definition holds (th : Thread) : option nat :=
  match where_ th with
  | Holding i _ | Loaded i _ _ | Stored i => lock_of <$> coefs !! Z.to_nat i
  | _ => None
  end.

(** What a thread has in its variables. *)
Definition product_of (i : Z) (aux : Element) : Prop :=
  exists cf w, coefs !! Z.to_nat i = Some cf /\ wtns !! Z.to_nat (cf_s cf) = Some w /\ aux = RawFr_mul w (cf_coef cf).
Definition remembers (ab : array Element * array Element) (th : Thread) : Prop :=
  match where_ th with
  | Computed i aux | Holding i aux => product_of i aux
  | Loaded i aux x => product_of i aux /\ forall cf, coefs !! Z.to_nat i = Some cf -> cell_of cf ab = Some x
  | _ => True
  end.

(** Arrays of [N] initialised cells. *)
Definition ready (N : Z) (ab : array Element * array Element) : Prop :=
  (Z.of_nat (length (fst ab)) = N /\ Z.of_nat (length (snd ab)) = N) /\
  forall c, 0 <= c < N -> (exists x, array_get (fst ab) c = Some x) /\ (exists y, array_get (snd ab) c = Some y).

Definition round_ok (N i : Z) : Prop :=
  exists cf w, coefs !! Z.to_nat i = Some cf /\ wtns !! Z.to_nat (cf_s cf) = Some w /\ 0 <= cf_c cf < N.

Lemma lock_of_range cf : (lock_of cf < Z.to_nat NLOCKS)%nat.
Proof. unfold lock_of, NLOCKS. pose proof (Z.mod_pos_bound (cf_c cf) 1024 ltac:(lia)). lia. Qed.

(** *** Cells *)

Lemma cell_ready N cf ab : ready N ab -> 0 <= cf_c cf < N -> exists x, cell_of cf ab = Some x.
Proof. intros [_ H] Hc. destruct (H _ Hc) as [Ha Hb]. unfold cell_of. by destruct (cf_m cf =? 0). Qed.

Lemma array_set_ready N (a : array Element) c x : Z.of_nat (length a) = N -> 0 <= c < N ->
  exists a', array_set a c x = Some a' /\ Z.of_nat (length a') = N /\ array_get a' c = Some x /\
    forall k, k <> c -> array_get a' k = array_get a k.
Proof. intros Hl Hc. destruct (array_set_ok a c x) as (a' & E & Hl' & Hg & Ho); [lia|]. exists a'. rewrite Hl'. done. Qed.

Lemma set_cell_ready N cf x ab : ready N ab -> 0 <= cf_c cf < N ->
  exists ab', set_cell cf x ab = Some ab' /\ ready N ab' /\
    forall cf', lock_of cf' <> lock_of cf -> cell_of cf' ab' = cell_of cf' ab.
Proof.
  destruct ab as [a b]. intros [[La Lb] H] Hc. cbn [fst snd] in *. unfold set_cell, cell_of. cbn [fst snd].
  assert (Hne : forall cf', lock_of cf' <> lock_of cf -> cf_c cf' <> cf_c cf).
  { intros cf' Hl E. apply Hl. unfold lock_of. by rewrite E. }
  destruct (cf_m cf =? 0).
  - destruct (array_set_ready N a (cf_c cf) x La Hc) as (a' & -> & La' & Hg & Ho). eexists. split; [reflexivity|].
    split; [split; [done|]|].
    + cbn [fst snd]. intros c Hc'. destruct (H c Hc') as [Ha Hb]. split; [|done].
      destruct (decide (c = cf_c cf)) as [->|Hn]; [by exists x|by rewrite Ho].
    + intros cf' Hl%Hne. cbn [fst snd]. destruct (cf_m cf' =? 0); [by apply Ho|done].
  - destruct (array_set_ready N b (cf_c cf) x Lb Hc) as (b' & -> & Lb' & Hg & Ho). eexists. split; [reflexivity|].
    split; [split; [done|]|].
    + cbn [fst snd]. intros c Hc'. destruct (H c Hc') as [Ha Hb]. split; [done|].
      destruct (decide (c = cf_c cf)) as [->|Hn]; [by exists x|by rewrite Ho].
    + intros cf' Hl%Hne. cbn [fst snd]. destruct (cf_m cf' =? 0); [done|by apply Ho].
Qed.

(** A round in one piece: its load and its store. *)
Lemma coef_step_cells i cf w x ab : coefs !! Z.to_nat i = Some cf -> wtns !! Z.to_nat (cf_s cf) = Some w ->
  cell_of cf ab = Some x -> coef_step coefs wtns i ab = set_cell cf (RawFr_add x (RawFr_mul w (cf_coef cf))) ab.
Proof.
  destruct ab as [a b]. intros Hcf Hw. unfold coef_step, cell_of, set_cell, add_at. rewrite Hcf. cbn [mbind option_bind].
  rewrite Hw. cbn [mbind option_bind fst snd]. destruct (cf_m cf =? 0); intros ->; reflexivity.
Qed.

(** *** Updates of one thread *)

Lemma thread_cases (l : list Thread) t new t' th : <[t := new]> l !! t' = Some th ->
  (t' = t /\ th = new) \/ (t' <> t /\ l !! t' = Some th).
Proof. intros H. apply list_lookup_insert_Some in H. naive_solver. Qed.

Lemma pending_update (l : list Thread) t old new : l !! t = Some old -> exists others,
  concat (map pending l) ≡ₚ pending old ++ others /\ concat (map pending (<[t := new]> l)) ≡ₚ pending new ++ others.
Proof.
  intros H. exists (concat (map pending (take t l)) ++ concat (map pending (drop (S t) l))).
  pose proof (lookup_lt_Some _ _ _ H) as Hlt. split.
  - rewrite <- (take_drop_middle l t old H) at 1. rewrite map_app, concat_app. cbn [map concat]. solve_Permutation.
  - rewrite (insert_take_drop l t new Hlt), map_app, concat_app. cbn [map concat]. solve_Permutation.
Qed.

(** ** The invariant *)

Record coef_inv (N : Z) (ab0 : array Element * array Element) (all : list Z) (s : CoefState) : Prop := {
  ci_order : for_each (stored s) (coef_step coefs wtns) ab0 = Some (cells s);
  ci_ready : ready N (cells s);
  ci_locks : length (locks s) = Z.to_nat NLOCKS;
  ci_perm : stored s ++ concat (map pending (threads s)) ≡ₚ all;
  ci_valid t th i : threads s !! t = Some th -> where_ th = Stored i -> i ∈ all;
  ci_held t th L : threads s !! t = Some th -> holds th = Some L -> locks s !! L = Some true;
  ci_owner L : locks s !! L = Some true -> exists t th, threads s !! t = Some th /\ holds th = Some L;
  ci_one t t' th th' L : threads s !! t = Some th -> threads s !! t' = Some th' ->
    holds th = Some L -> holds th' = Some L -> t = t';
  ci_remember t th : threads s !! t = Some th -> remembers (cells s) th
}.

Context (N : Z) (ab0 : array Element * array Element) (all : list Z).
Context (Hall : forall i, i ∈ all -> round_ok N i).
Notation inv := (coef_inv N ab0 all).

Lemma pending_all s t th i : inv s -> threads s !! t = Some th -> i ∈ pending th -> i ∈ all.
Proof.
  intros H Ht Hi. rewrite <- (ci_perm _ _ _ _ H). apply elem_of_app. right. apply list_elem_of_In, in_concat.
  exists (pending th). split; [|by apply list_elem_of_In]. apply in_map, list_elem_of_In. by eapply list_elem_of_lookup_2.
Qed.

(** The phase and the rest of one thread change; the locks and the cells do not. *)
Lemma inv_update s t old new st : inv s -> threads s !! t = Some old ->
  holds new = holds old -> pending new = pending old -> remembers (cells s) new -> st = stored s ->
  (forall i, where_ new <> Stored i) ->
  inv (mkCoefState (cells s) (locks s) (<[t := new]> (threads s)) st).
Proof.
  intros [] Ht Hh Hp Hr -> Hs. split; cbn [cells locks threads stored]; try assumption.
  - destruct (pending_update (threads s) t old new Ht) as (o & E1 & E2). by rewrite E2, Hp, <- E1.
  - intros t' th i [[-> ->]|[_ H]]%thread_cases Hw; [by destruct (Hs i)|by eapply ci_valid0].
  - intros t' th L [[-> ->]|[_ H]]%thread_cases HL; [rewrite Hh in HL|]; by eapply ci_held0.
  - intros L (t' & th & H & HL)%ci_owner0. destruct (decide (t' = t)) as [->|Hn].
    + exists t, new. rewrite list_lookup_insert_eq by (by eapply lookup_lt_Some). rewrite Ht in H. injection H as <-.
      by rewrite Hh.
    + exists t', th. by rewrite list_lookup_insert_ne.
  - intros t1 t2 th1 th2 L [[-> ->]|[? H1]]%thread_cases [[-> ->]|[? H2]]%thread_cases E1 E2; try done.
    + rewrite Hh in E1. by eapply ci_one0.
    + rewrite Hh in E2. by eapply ci_one0.
    + by eapply ci_one0.
  - intros t' th [[-> ->]|[_ H]]%thread_cases; [done|by eapply ci_remember0].
Qed.

Lemma step_between s t i rest : inv s -> threads s !! t = Some (mkThread Between (i :: rest)) ->
  exists s', step t s = Some (Some s') /\ inv s'.
Proof.
  intros H Ht. destruct (Hall i) as (cf & w & Hcf & Hw & Hc).
  { eapply pending_all; [done|exact Ht|]. apply list_elem_of_here. }
  unfold coef_thread_step. rewrite Ht. cbn [where_]. rewrite Hcf. cbn [mbind option_bind]. rewrite Hw. cbn [mbind option_bind].
  eexists. split; [reflexivity|]. eapply inv_update; [done|exact Ht|done|done|by exists cf, w|done|done].
Qed.

Lemma step_holding s t i aux rest : inv s -> threads s !! t = Some (mkThread (Holding i aux) rest) ->
  exists s', step t s = Some (Some s') /\ inv s'.
Proof.
  intros H Ht. pose proof (ci_remember _ _ _ _ H _ _ Ht) as Hr. destruct (Hall i) as (cf & w & Hcf & Hw & Hc).
  { eapply pending_all; [done|exact Ht|]. apply list_elem_of_here. }
  destruct (cell_ready N cf (cells s) (ci_ready _ _ _ _ H) Hc) as [x Hx].
  unfold coef_thread_step. rewrite Ht. cbn [where_]. rewrite Hcf. cbn [mbind option_bind]. rewrite Hx. cbn [mbind option_bind].
  eexists. split; [reflexivity|]. eapply inv_update; [done|exact Ht|done|done| |done|done].
  split; [exact Hr|]. intros cf' Hcf'. rewrite Hcf in Hcf'. by injection Hcf' as <-.
Qed.

Lemma step_computed s t i aux rest : inv s -> threads s !! t = Some (mkThread (Computed i aux) rest) ->
  exists cf, coefs !! Z.to_nat i = Some cf /\
    ((locks s !! lock_of cf = Some true /\ step t s = Some None) \/ (exists s', step t s = Some (Some s') /\ inv s')).
Proof.
  intros H Ht. pose proof (ci_remember _ _ _ _ H _ _ Ht) as Hr. destruct (Hall i) as (cf & w & Hcf & Hw & Hc).
  { eapply pending_all; [done|exact Ht|]. apply list_elem_of_here. }
  exists cf. split; [done|]. unfold coef_thread_step. rewrite Ht. cbn [where_]. rewrite Hcf. cbn [mbind option_bind].
  destruct (lookup_lt_is_Some_2 (locks s) (lock_of cf)) as [k Hk]; [rewrite (ci_locks _ _ _ _ H); apply lock_of_range|].
  rewrite Hk. cbn [mbind option_bind]. destruct k; [by left|right]. eexists. split; [reflexivity|].
  assert (Hnew : holds (mkThread (Holding i aux) rest) = Some (lock_of cf)) by (unfold holds; cbn [where_]; by rewrite Hcf).
  destruct H. split; cbn [cells locks threads stored]; try assumption.
  - by rewrite length_insert.
  - destruct (pending_update (threads s) t _ (mkThread (Holding i aux) rest) Ht) as (o & E1 & E2). by rewrite E2, E1 in *.
  - intros t' th j [[-> ->]|[_ E]]%thread_cases Hj; [done|by eapply ci_valid0].
  - intros t' th L [[-> ->]|[_ E]]%thread_cases HL.
    + rewrite Hnew in HL. injection HL as <-. by rewrite list_lookup_insert_eq by (by eapply lookup_lt_Some).
    + pose proof (ci_held0 _ _ _ E HL) as HLt. rewrite list_lookup_insert_ne; [done|]. intros EL. by rewrite <- EL, Hk in HLt.
  - intros L HL. apply list_lookup_insert_Some in HL as [(<- & _ & _)|[Hn HL]].
    + exists t, (mkThread (Holding i aux) rest). by rewrite list_lookup_insert_eq by (by eapply lookup_lt_Some).
    + destruct (ci_owner0 _ HL) as (t' & th & E & HL'). exists t', th. rewrite list_lookup_insert_ne; [done|].
      intros ->. rewrite Ht in E. injection E as <-. done.
  - intros t1 t2 th1 th2 L [[-> ->]|[? E1]]%thread_cases [[-> ->]|[? E2]]%thread_cases H1 H2; try done.
    + rewrite Hnew in H1. injection H1 as <-. pose proof (ci_held0 _ _ _ E2 H2) as HL. by rewrite Hk in HL.
    + rewrite Hnew in H2. injection H2 as <-. pose proof (ci_held0 _ _ _ E1 H1) as HL. by rewrite Hk in HL.
    + by eapply ci_one0.
  - intros t' th [[-> ->]|[_ E]]%thread_cases; [done|by eapply ci_remember0].
Qed.

(** The store: no other thread remembers a cell under the mutex that is held. *)
Lemma step_loaded s t i aux x rest : inv s -> threads s !! t = Some (mkThread (Loaded i aux x) rest) ->
  exists s', step t s = Some (Some s') /\ inv s'.
Proof.
  intros H Ht. pose proof (ci_remember _ _ _ _ H _ _ Ht) as [(cf & w & Hcf & Hw & Haux) Hx]. specialize (Hx cf Hcf).
  assert (Hi : i ∈ all) by (eapply pending_all; [done|exact Ht|]; apply list_elem_of_here).
  destruct (Hall i Hi) as (cf' & w' & Hcf' & Hw' & Hc). rewrite Hcf in Hcf'. injection Hcf' as <-.
  destruct (set_cell_ready N cf (RawFr_add x aux) (cells s) (ci_ready _ _ _ _ H) Hc) as (ab' & Eab & Hready & Hother).
  unfold coef_thread_step. rewrite Ht. cbn [where_]. rewrite Hcf. cbn [mbind option_bind]. rewrite Eab. cbn [mbind option_bind].
  eexists. split; [reflexivity|].
  assert (Hold : holds (mkThread (Loaded i aux x) rest) = Some (lock_of cf)) by (unfold holds; cbn [where_]; by rewrite Hcf).
  assert (Hnew : holds (mkThread (Stored i) rest) = Some (lock_of cf)) by (unfold holds; cbn [where_]; by rewrite Hcf).
  destruct H. split; cbn [cells locks threads stored]; try assumption.
  - rewrite for_each_app, ci_order0. cbn [mbind option_bind for_each].
    rewrite (coef_step_cells i cf w x (cells s) Hcf Hw Hx), <- Haux, Eab. done.
  - destruct (pending_update (threads s) t _ (mkThread (Stored i) rest) Ht) as (o & E1 & E2).
    rewrite E2, <- ci_perm0, E1. cbn [pending where_ app]. solve_Permutation.
  - intros t' th j [[-> ->]|[_ E]]%thread_cases Hj; [by injection Hj as <-|by eapply ci_valid0].
  - intros t' th L [[-> ->]|[_ E]]%thread_cases HL; [|by eapply ci_held0].
    rewrite Hnew, <- Hold in HL. by eapply ci_held0.
  - intros L (t' & th & E & HL)%ci_owner0. destruct (decide (t' = t)) as [->|Hn].
    + exists t, (mkThread (Stored i) rest). rewrite list_lookup_insert_eq by (by eapply lookup_lt_Some).
      split; [done|]. rewrite Ht in E. injection E as <-. by rewrite Hnew, <- Hold.
    + exists t', th. by rewrite list_lookup_insert_ne.
  - intros t1 t2 th1 th2 L [[-> ->]|[? E1]]%thread_cases [[-> ->]|[? E2]]%thread_cases H1 H2; try done.
    + rewrite Hnew, <- Hold in H1. by eapply ci_one0.
    + rewrite Hnew, <- Hold in H2. by eapply ci_one0.
    + by eapply ci_one0.
  - intros t' th [[-> ->]|[Hn E]]%thread_cases; [done|]. pose proof (ci_remember0 _ _ E) as Hr. revert Hr.
    unfold remembers. destruct (where_ th) as [|j a|j a|j a y|j] eqn:Ew; try done. intros [Hp Hy]. split; [done|].
    intros cfj Hcfj. rewrite Hother; [by apply Hy|]. intros EL. apply Hn.
    apply (ci_one0 t' t th _ (lock_of cf) E Ht); [|exact Hold]. unfold holds. by rewrite Ew, Hcfj, <- EL.
Qed.

Lemma step_stored s t i rest : inv s -> threads s !! t = Some (mkThread (Stored i) rest) ->
  exists s', step t s = Some (Some s') /\ inv s'.
Proof.
  intros H Ht. destruct (Hall i) as (cf & w & Hcf & Hw & Hc); [by eapply (ci_valid _ _ _ _ H t)|].
  unfold coef_thread_step. rewrite Ht. cbn [where_]. rewrite Hcf. cbn [mbind option_bind]. eexists. split; [reflexivity|].
  assert (Hold : holds (mkThread (Stored i) rest) = Some (lock_of cf)) by (unfold holds; cbn [where_]; by rewrite Hcf).
  assert (Hoff : forall t' th L, t' <> t -> threads s !! t' = Some th -> holds th = Some L -> L <> lock_of cf).
  { intros t' th L Hn E HL ->. apply Hn. by eapply (ci_one _ _ _ _ H). }
  destruct H. split; cbn [cells locks threads stored]; try assumption.
  - by rewrite length_insert.
  - destruct (pending_update (threads s) t _ (mkThread Between rest) Ht) as (o & E1 & E2). by rewrite E2, E1 in *.
  - intros t' th j [[-> ->]|[_ E]]%thread_cases Hj; [done|by eapply ci_valid0].
  - intros t' th L [[-> ->]|[Hn E]]%thread_cases HL; [done|]. pose proof (Hoff _ _ _ Hn E HL).
    rewrite list_lookup_insert_ne by done. by eapply ci_held0.
  - intros L HL. apply list_lookup_insert_Some in HL as [(_ & [=] & _)|[Hn HL]].
    destruct (ci_owner0 _ HL) as (t' & th & E & HL'). exists t', th. rewrite list_lookup_insert_ne; [done|].
    intros ->. rewrite Ht in E. injection E as <-. rewrite Hold in HL'. by injection HL'.
  - intros t1 t2 th1 th2 L [[-> ->]|[? E1]]%thread_cases [[-> ->]|[? E2]]%thread_cases H1 H2; try done. by eapply ci_one0.
  - intros t' th [[-> ->]|[_ E]]%thread_cases; [done|by eapply ci_remember0].
Qed.

(** *** Every step keeps the invariant, none is undefined *)

Definition running (th : Thread) : Prop :=
  match where_ th with Between => rest th <> [] | Computed _ _ => False | _ => True end.

Lemma step_running s t th : inv s -> threads s !! t = Some th -> running th -> exists s', step t s = Some (Some s') /\ inv s'.
Proof.
  destruct th as [[|i aux|i aux|i aux x|i] [|j r]]; unfold running; cbn [where_ rest]; intros H Ht Hr; try done;
    first [by eapply step_between|by eapply step_holding|by eapply step_loaded|by eapply step_stored].
Qed.

Lemma step_inv s t : inv s -> step t s <> None /\ forall s', step t s = Some (Some s') -> inv s'.
Proof.
  intros H. destruct (threads s !! t) as [th|] eqn:Ht; [|unfold coef_thread_step; by rewrite Ht].
  destruct th as [[|i aux|i aux|i aux x|i] r].
  - destruct r as [|i r]; [unfold coef_thread_step; by rewrite Ht|].
    destruct (step_between s t i r H Ht) as (s' & -> & Hs'). split; [done|]. by intros ? [= <-].
  - destruct (step_computed s t i aux r H Ht) as (cf & _ & [[_ ->]|(s' & -> & Hs')]); [done|]. split; [done|]. by intros ? [= <-].
  - destruct (step_holding s t i aux r H Ht) as (s' & -> & Hs'). split; [done|]. by intros ? [= <-].
  - destruct (step_loaded s t i aux x r H Ht) as (s' & -> & Hs'). split; [done|]. by intros ? [= <-].
  - destruct (step_stored s t i r H Ht) as (s' & -> & Hs'). split; [done|]. by intros ? [= <-].
Qed.

(** *** Nobody waits for ever *)

Definition finished (s : CoefState) : Prop := Forall (fun th => where_ th = Between /\ rest th = []) (threads s).

#[export] Instance finished_dec s : Decision (finished s).
Proof. unfold finished. apply Forall_dec. intros [[] []]; (by left; split) || (right; by intros [? ?]). Defined.

Lemma no_deadlock s : inv s -> ~ finished s -> exists t s', step t s = Some (Some s').
Proof.
  intros H Hf. assert (Hsome : exists t th, threads s !! t = Some th /\ ~ (where_ th = Between /\ rest th = [])).
  { unfold finished in Hf. apply not_Forall_Exists in Hf; [|intros [[] []]; (by left; split) || (right; by intros [? ?])].
    apply Exists_exists in Hf as (th & Hin & Hth). apply list_elem_of_In, list_elem_of_lookup in Hin as [t Ht]. by exists t, th. }
  destruct Hsome as (t & th & Ht & Hth).
  assert (Hrun : running th \/ exists i aux, where_ th = Computed i aux).
  { destruct th as [[|i aux| | |] r]; unfold running; cbn [where_ rest] in *; eauto. }
  destruct Hrun as [Hr|(i & aux & Hw)].
  { destruct (step_running s t th H Ht Hr) as (s' & E & _). by exists t, s'. }
  destruct th as [? r]. cbn [where_] in Hw. subst. destruct (step_computed s t i aux r H Ht) as (cf & Hcf & [[Hk _]|(s' & E & _)]); [|by exists t, s'].
  destruct (ci_owner _ _ _ _ H _ Hk) as (t' & th' & Ht' & Hh). destruct (step_running s t' th' H Ht') as (s' & E & _); [|by exists t', s'].
  unfold running. unfold holds in Hh. by destruct (where_ th').
Qed.

(** *** Every run ends *)

Definition steps_left (th : Thread) : nat :=
  (match where_ th with Between => 0 | Computed _ _ => 4 | Holding _ _ => 3 | Loaded _ _ _ => 2 | Stored _ => 1 end + 5 * length (rest th))%nat.
Definition all_left (s : CoefState) : nat := sum_list_with steps_left (threads s).

Lemma left_update (l : list Thread) t old new : l !! t = Some old -> steps_left old = S (steps_left new) ->
  sum_list_with steps_left l = S (sum_list_with steps_left (<[t := new]> l)).
Proof.
  intros H E. rewrite (insert_take_drop l t new (lookup_lt_Some _ _ _ H)), <- (take_drop_middle l t old H) at 1.
  rewrite !sum_list_with_app. cbn [sum_list_with]. lia.
Qed.

Lemma step_left s t s' : step t s = Some (Some s') -> all_left s = S (all_left s').
Proof.
  unfold coef_thread_step, all_left. destruct (threads s !! t) as [[w r]|] eqn:Ht; [|done].
  destruct w as [|i aux|i aux|i aux x|i]; [destruct r as [|i r]; [done|]|..];
    repeat match goal with |- mbind _ ?m = _ -> _ => destruct m; cbn [mbind option_bind]; [|done] end;
    try (match goal with |- (if ?b then _ else _) = _ -> _ => destruct b; [done|] end);
    intros [= <-]; apply (left_update _ _ _ _ Ht); unfold steps_left; cbn [where_ rest length]; lia.
Qed.

(** *** Runs *)

Lemma start_inv work : concat work ≡ₚ all -> ready N ab0 -> inv (coef_start ab0 work).
Proof.
  intros Hp Hr. assert (Hth : forall t th, threads (coef_start ab0 work) !! t = Some th -> where_ th = Between).
  { intros t th H. apply list_lookup_fmap_Some in H as (r & -> & _). done. }
  split; try done.
  - unfold coef_start. cbn [stored app threads]. rewrite map_map. cbn. by rewrite map_id.
  - intros t th i H%Hth Hw. by rewrite H in Hw.
  - intros t th L H%Hth HL. unfold holds in HL. by rewrite H in HL.
  - intros L HL. unfold coef_start in HL. cbn [locks] in HL. by apply lookup_replicate in HL as [[=] _].
  - intros t t' th th' L H%Hth _ HL. unfold holds in HL. by rewrite H in HL.
  - intros t th H%Hth. unfold remembers. by rewrite H.
Qed.

Lemma steps_inv k s s' : inv s -> nsteps (coef_steps_to coefs wtns) k s s' -> inv s' /\ (all_left s = k + all_left s')%nat.
Proof.
  intros H Hk. induction Hk as [s|k s s1 s2 [t Ht] _ IH]; [done|].
  destruct (IH (proj2 (step_inv s t H) _ Ht)) as [Hinv E]. split; [done|]. rewrite (step_left _ _ _ Ht), E. lia.
Qed.

Lemma start_left work : all_left (coef_start ab0 work) = (5 * length (concat work))%nat.
Proof.
  unfold all_left, coef_start. cbn [threads]. induction work as [|r work IH]; [done|].
  cbn [map sum_list_with concat]. rewrite IH, length_app. unfold steps_left. cbn [where_ rest]. lia.
Qed.

Lemma finished_done s : inv s -> finished s -> stored s ≡ₚ all /\ all_left s = 0%nat /\ Forall (eq false) (locks s).
Proof.
  intros H Hf. assert (Hat : forall t th, threads s !! t = Some th -> where_ th = Between /\ rest th = [])
    by (intros t th Ht; by eapply Forall_lookup_1 in Hf).
  split; [|split].
  - rewrite <- (ci_perm _ _ _ _ H). assert (E : concat (map pending (threads s)) = []); [|by rewrite E, app_nil_r].
    clear -Hf. induction Hf as [|[w r] l [Hw Hr] _ IH]; [done|]. cbn in *. subst. exact IH.
  - unfold all_left. clear -Hf. induction Hf as [|[w r] l [Hw Hr] _ IH]; [done|]. cbn in *. subst. exact IH.
  - apply Forall_lookup_2. intros L [|] HL; [|done]. destruct (ci_owner _ _ _ _ H L HL) as (t & th & Ht & Hh).
    destruct (Hat t th Ht) as [Hw _]. unfold holds in Hh. by rewrite Hw in Hh.
Qed.

Lemma left_finished s : all_left s = 0%nat -> finished s.
Proof.
  unfold all_left, finished. induction (threads s) as [|[w r] l IH]; intros E; [apply List.Forall_nil|].
  cbn [sum_list_with] in E. apply List.Forall_cons; [|apply IH; lia].
  unfold steps_left in E. cbn [where_ rest] in *. destruct w, r; cbn in E; done || lia.
Qed.
End Spec.

(** *** The rounds of a call of the pool *)

Lemma rounds_perm (log : list (JobRange * nat)) n : Forall (fun r => Z.of_nat (snd r) < Z.of_nat n) log ->
  concat (map (rounds_of log) (seq 0 n)) ≡ₚ concat (map (fun r => job_range (fst r)) log).
Proof.
  intros H. induction H as [|[job t] log Ht _ IH]; cbn [map concat].
  { unfold rounds_of. cbn. by induction (seq 0 n). }
  cbn [snd fst] in *. rewrite <- IH. clear IH.
  assert (E : forall l, NoDup l -> t ∈ l ->
    concat (map (rounds_of ((job, t) :: log)) l) ≡ₚ job_range job ++ concat (map (rounds_of log) l)).
  { assert (En : forall x, x <> t -> rounds_of ((job, t) :: log) x = rounds_of log x).
    { intros x Hx. unfold rounds_of. rewrite filter_cons_False; [done|]. cbn. congruence. }
    assert (Es : rounds_of ((job, t) :: log) t = job_range job ++ rounds_of log t).
    { unfold rounds_of. rewrite filter_cons_True; done. }
    intros l. induction 1 as [|x l Hx Hnd IHl]; intros Hin; [by apply elem_of_nil in Hin|]. cbn [map concat].
    apply elem_of_cons in Hin as [<-|Hin].
    - rewrite Es, <- app_assoc. f_equiv. f_equiv. clear -Hx En.
      assert (El : map (rounds_of ((job, t) :: log)) l = map (rounds_of log) l); [|by rewrite El].
      apply map_ext_in. intros x Hx'%list_elem_of_In. apply En. by intros ->.
    - rewrite En by (by intros ->). rewrite (IHl Hin). solve_Permutation. }
  apply E; [apply NoDup_seq|]. apply elem_of_seq. lia.
Qed.

(** The bounds the files give: the cells and the signals of the coefficients. *)
Definition coef_in_bounds (N nSignals : Z) (cf : Coef) : Prop := 0 <= cf_c cf < N /\ 0 <= cf_s cf < nSignals.

Lemma rounds_in_bounds {G : Mpn} coefs (wtns : list Element) N i : Forall (coef_in_bounds N (Z.of_nat (length wtns))) coefs ->
  i ∈ seqZ 0 (Z.of_nat (length coefs)) -> round_ok coefs wtns N i.
Proof.
  intros H Hi%elem_of_seqZ. destruct (lookup_lt_is_Some_2 coefs (Z.to_nat i)) as [cf Hcf]; [lia|].
  destruct (Forall_lookup_1 _ _ _ _ H Hcf) as [Hc Hs].
  destruct (lookup_lt_is_Some_2 wtns (Z.to_nat (cf_s cf))) as [w Hw]; [lia|]. by exists cf, w.
Qed.

(** C21: The loop over the coefficients, whose rounds lock a mutex, load a cell, and store
    it with the product added: however the threads of the pool interleave these steps,
    no step is undefined, the cells at each moment are those that the rounds stored so
    far give when run one after the other, in the order of their stores; as long as
    rounds are left some thread can go on; and after five steps per coefficient all
    threads are through, every round has been done once and the mutexes are free.  So the loop
    is [for_each] over some rearrangement of the coefficients, which is what [prove]
    takes from its logs. *)
Theorem coef_loop_linearizes {G : Mpn} coefs wtns N ab0 nThreads log k s :
  Z.of_nat (length coefs) < 2 ^ 31 -> 1 <= nThreads < 2 ^ 32 ->
  call_log true nThreads (parallelFor 0 (Z.of_nat (length coefs)) nThreads) log ->
  Forall (coef_in_bounds N (Z.of_nat (length wtns))) coefs -> ready N ab0 ->
  nsteps (coef_steps_to coefs wtns) k (coef_start ab0 (map (rounds_of log) (seq 0 (Z.to_nat nThreads)))) s ->
  (forall t, coef_thread_step coefs wtns t s <> None) /\
  for_each (stored s) (coef_step coefs wtns) ab0 = Some (cells s) /\
  (((k < 5 * length coefs)%nat /\ exists t s', coef_thread_step coefs wtns t s = Some (Some s')) \/
   (k = (5 * length coefs)%nat /\ finished s /\ stored s ≡ₚ seqZ 0 (Z.of_nat (length coefs)) /\ Forall (eq false) (locks s))).
Proof.
  intros Hlen Hn Hlog Hc Hr Hk. set (all := seqZ 0 (Z.of_nat (length coefs))).
  destruct (parallelFor_log 0 (Z.of_nat (length coefs)) nThreads log) as [Hperm Hids]; [lia|unfold is_i32; lia..|done|done|].
  rewrite Z.sub_0_r in Hperm. rewrite <- (Z2Nat.id nThreads) in Hids by lia.
  pose proof (rounds_perm log _ Hids) as Hwork. rewrite Hperm in Hwork.
  assert (Hall : forall i, i ∈ all -> round_ok coefs wtns N i) by (intros i; by apply rounds_in_bounds).
  pose proof (start_inv coefs wtns N ab0 all _ Hwork Hr) as H0.
  destruct (steps_inv coefs wtns N ab0 all Hall k _ s H0 Hk) as [Hinv Hleft].
  rewrite start_left, Hwork in Hleft. unfold all in Hleft. rewrite length_seqZ, Nat2Z.id in Hleft.
  split; [intros t; by apply (step_inv coefs wtns N ab0 all Hall s t Hinv)|]. split; [apply (ci_order _ _ _ _ _ _ Hinv)|].
  destruct (decide (finished s)) as [Hf|Hf].
  - right. destruct (finished_done coefs wtns N ab0 all s Hinv Hf) as (Hp & E & Hl). split; [lia|]. by split.
  - left. split; [|exact (no_deadlock coefs wtns N ab0 all Hall s Hinv Hf)].
    destruct (decide (all_left s = 0%nat)) as [E|]; [|lia]. destruct Hf. by apply left_finished.
Qed.

(** A run along given threads. *)
Fixpoint coef_run {G : Mpn} coefs wtns (ts : list nat) (s : CoefState) : option CoefState :=
  match ts with
  | [] => Some s
  | t :: ts => s' ← mjoin (coef_thread_step coefs wtns t s); coef_run coefs wtns ts s'
  end.

Lemma coef_run_steps {G : Mpn} coefs wtns ts s s' : coef_run coefs wtns ts s = Some s' ->
  nsteps (coef_steps_to coefs wtns) (length ts) s s'.
Proof.
  revert s. induction ts as [|t ts IH]; intros s; cbn [coef_run length]; [intros [= <-]; constructor|].
  destruct (coef_thread_step coefs wtns t s) as [[s1|]|] eqn:E; cbn [mjoin option_join mbind option_bind]; [|done..].
  intros H%IH. econstructor; [by exists t|exact H].
Qed.

(** Three coefficients, the first two of one cell, on two threads: the second thread is
    the first to take the mutex. *)
Definition demo_coefs : list Coef := [mkCoef 0 1 0 [1; 0; 0; 0]; mkCoef 0 1 1 [5; 0; 0; 0]; mkCoef 1 0 1 [1; 0; 0; 0]].
Definition demo_wtns : list Element := [[1; 0; 0; 0]; [7; 0; 0; 0]].
Definition demo_cells : array Element * array Element :=
  (replicate 2 (Some [0; 0; 0; 0]), replicate 2 (Some [0; 0; 0; 0])).
Definition demo_pool_run : list (option nat) :=
  [None; None; None; Some 0; None; None; Some 0; Some 0; Some 0; None; None; None]%nat.
Definition demo_log : list (JobRange * nat) := [(mkJobRange 0 1, 0); (mkJobRange 1 2, 1); (mkJobRange 2 3, 0)]%nat.
Definition demo_run : list nat := [0; 1; 1; 1; 1; 1; 0; 0; 0; 0; 0; 0; 0; 0; 0]%nat.

#[local] Existing Instances Mpn_reference Fr_params.

Lemma coef_loop_linearizes_witness : exists s,
  coef_run demo_coefs demo_wtns demo_run (coef_start demo_cells (map (rounds_of demo_log) [0; 1]%nat)) = Some s /\
  stored s = [1; 0; 2] /\ finished s /\
  ((forall t, coef_thread_step demo_coefs demo_wtns t s <> None) /\
   for_each (stored s) (coef_step demo_coefs demo_wtns) demo_cells = Some (cells s) /\
   (((15 < 15)%nat /\ exists t s', coef_thread_step demo_coefs demo_wtns t s = Some (Some s')) \/
    (15%nat = 15%nat /\ finished s /\ stored s ≡ₚ seqZ 0 3 /\ Forall (eq false) (locks s)))).
Proof.
  destruct (coef_run demo_coefs demo_wtns demo_run (coef_start demo_cells (map (rounds_of demo_log) [0; 1]%nat))) as [s|] eqn:E;
    [|exfalso; revert E; vm_compute; discriminate].
  exists s. split; [reflexivity|].
  assert (Hs : stored s = [1; 0; 2] /\ finished s).
  { assert (H : Some (stored s, bool_decide (finished s)) = Some ([1; 0; 2], true)).
    { transitivity ((fun s => (stored s, bool_decide (finished s))) <$> Some s); [reflexivity|]. rewrite <- E. vm_compute. reflexivity. }
    injection H as H1 H2. split; [exact H1|exact (bool_decide_eq_true_1 _ H2)]. }
  split; [apply Hs|]. split; [apply Hs|].
  refine (coef_loop_linearizes demo_coefs demo_wtns 2 demo_cells 2 demo_log 15 s _ _ _ _ _ _).
  - reflexivity.
  - split; [discriminate|reflexivity].
  - exists demo_pool_run. eexists. split; [vm_compute; reflexivity|]. split; reflexivity.
  - unfold demo_coefs, demo_wtns, coef_in_bounds.
    constructor; [|constructor; [|constructor; [|constructor]]]; cbn [cf_c cf_s length]; lia.
  - split; [split; reflexivity|]. intros c Hc.
    assert (Hc2 : c = 0 \/ c = 1) by lia. destruct Hc2 as [-> | ->]; split; eexists; reflexivity.
  - exact (coef_run_steps _ _ demo_run _ _ E).
Defined.
