(* ===== verification/FullProver.v ===== *)
(** The proving service: [src/fullprover.cpp] and [src/fullprover.hpp].

    One object, shared by the HTTP handlers and at most a few detached worker
    threads, guards its fields with one non-recursive mutex.  A system state is the
    object, the mutex, the workers and whether the process has been terminated; a
    step is one critical section, or one unlocked stretch of a worker.  The
    external world (the JSON parser, the witness generator the worker runs through
    the shell, the Groth16 prover) is an interface. *)

From Stdlib Require Import Ascii String.
From stdpp Require Import gmap strings pretty.
From S2P Require Import Prelude Limbs Gmp Mpz FrRaw FrElement RawFr BinFile FileHeaders.

(** ** Names of circuits *)

(** [path.find_last_of(chars)]; [None] is [npos]. *)
Fixpoint find_last_of (chars : list Ascii.ascii) (path : list Ascii.ascii) : option nat :=
  match path with
  | [] => None
  | c :: path =>
      match find_last_of chars path with
      | Some i => Some (S i)
      | None => if bool_decide (c ∈ chars) then Some 0%nat else None
      end
  end.

(** [substr(pos)] and [substr(0, len)] with [npos + 1 = 0] and an unbounded [npos]. *)
Definition substr_from (path : list Ascii.ascii) (p : option nat) : list Ascii.ascii :=
  match p with Some i => drop (S i) path | None => path end.
Definition substr_to (path : list Ascii.ascii) (p : option nat) : list Ascii.ascii :=
  match p with Some i => take i path | None => path end.

Definition slash : Ascii.ascii := "/"%char.
Definition backslash : Ascii.ascii := "\"%char.
Definition dot : Ascii.ascii := "."%char.

Definition getfilename (path : string) : string :=
  let path := String.list_ascii_of_string path in
  let path := substr_from path (find_last_of [slash; backslash] path) in
  let dot_i := find_last_of [dot] path in
  String.string_of_list_ascii (substr_to path dot_i).

(** ** Exceptions *)

(** What a [catch (std::runtime_error e)] can tell apart. *)
Inductive cxx_exn := RuntimeError (what : string) | OtherException.

Definition text_of (bs : list Z) : string :=
  String.string_of_list_ascii (map (fun b => Ascii.ascii_of_N (Z.to_N b)) bs).

(** The messages of the container reader. *)
Definition what (e : file_error) : string :=
  match e with
  | FileTooShort => "File is too short."
  | InvalidFileType expected found =>
      "Invalid file type. It should be " +:+ text_of expected +:+ " and it is " +:+ text_of found
  | InvalidVersion maxVersion version =>
      "Invalid version. It should be <=" +:+ pretty maxVersion +:+ " and it is " +:+ pretty version
  | TooShortForSections n => "File is too short to contain " +:+ pretty n +:+ " sections."
  | SectionInvalid i pos size =>
      "Section #" +:+ pretty i +:+ " is invalid." +:+ ". It ends at pos " +:+ pretty pos +:+
      " but should end before " +:+ pretty size +:+ "."
  | SectionDoesNotExist id => "Section does not exist: " +:+ pretty id
  | SectionPosTooBig n p =>
      "Section pos too big. There are " +:+ pretty n +:+
      " and it's trying to access section: " +:+ pretty p
  | AlreadyReading => "Already reading a section"
  | InvalidSectionSize => "Invalid section size"
  | FilePosTooBig size new_pos =>
      "File pos is too big. There are " +:+ pretty size +:+
      " bytes and it's trying to access byte " +:+ pretty new_pos
  | NotGroth16 => "zkey file is not groth16"
  end.

(** [std::range_error] is a [std::runtime_error]; [std::invalid_argument] is not. *)
Definition exn_of (e : file_error) : cxx_exn :=
  match error_class e with
  | range_error => RuntimeError (what e)
  | invalid_argument => OtherException
  end.

(** ** The world outside *)

Class World := {
  Proof : Type;
  (** [json::parse] accepts the text. *)
  json_parse : string -> bool;
  (** The witness file the circuit's program leaves for an input, or the message of
      the [std::system_error] of opening it. *)
  run_witness : string -> string -> list Z + string;
  (** [provers[circuit]->prove(wtnsData)] on the bytes from [wtnsData] on. *)
  prove : string -> list Z -> Proof + cxx_exn
}.

(** ** State *)

Inductive Status :=
| aborted | busy | failed | success | unverified | uninitialized | initializing | ready.

#[export] Instance Status_eq_dec : EqDecision Status.
Proof. solve_decision. Defined.

Record FullProver {W : World} := mkFullProver {
  status : Status;
  pendingInput : string;
  executingInput : string;
  pendingCircuit : string;
  executingCircuit : string;
  zkHeaders : gmap string ZKeyHeader;
  proof : option Proof;
  pubData : list string;
  errString : string;
  canceled : bool
}.

Arguments mkFullProver {W} _ _ _ _ _ _ _ _ _ _.

(** Where a worker thread is: at the start of [thread_calculateProve], at its
    [isCanceled] with [wtnsData], inside [prove], in the [catch] block, or at
    [calcFinished]. *)
Inductive worker :=
| Starting
| Checking (wtnsData : list Z)
| Proving (circuit : string) (wtnsData : list Z)
| Catching (what : string)
| Finishing.

Record System {W : World} := mkSystem {
  fp : FullProver;
  (** [true]: a thread holds the mutex and waits for it again. *)
  mtx_lost : bool;
  workers : list worker;
  terminated : bool
}.

Arguments mkSystem {W} _ _ _ _.

Definition empty_string : string := EmptyString.
Definition nonempty (s : string) : bool := negb (bool_decide (s = empty_string)).

Section Methods.
Context {W : World}.

(** Returns the object and whether a worker thread was started. *)
Definition checkPending (s : FullProver) : FullProver * bool :=
  if negb (bool_decide (status s = busy)) then
    if nonempty (pendingInput s) && nonempty (pendingCircuit s) then
      (mkFullProver busy empty_string (pendingInput s) empty_string (pendingCircuit s)
         (zkHeaders s) None (pubData s) empty_string false, true)
    else (s, false)
  else (s, false).

Definition set_pending (input circuit : string) (s : FullProver) : FullProver :=
  mkFullProver (status s) input (executingInput s) circuit (executingCircuit s)
    (zkHeaders s) (proof s) (pubData s) (errString s) (canceled s).

(** The body of [startProve] once it has the mutex; [None]: it calls [abort],
    which waits for the mutex this thread holds. *)
Definition startProve (input circuit : string) (s : FullProver) : FullProver * option bool :=
  let s := set_pending input circuit s in
  if bool_decide (status s = busy) then (s, None)
  else let '(s, started) := checkPending s in (s, Some started).

Definition set_canceled (c : bool) (s : FullProver) : FullProver :=
  mkFullProver (status s) (pendingInput s) (executingInput s) (pendingCircuit s)
    (executingCircuit s) (zkHeaders s) (proof s) (pubData s) (errString s) c.

Definition abort (s : FullProver) : FullProver :=
  if negb (bool_decide (status s = busy)) then s else set_canceled true s.

Definition isCanceled (s : FullProver) : bool := canceled s.

Definition calcFinished (s : FullProver) : FullProver * bool :=
  let st := if canceled s then aborted
            else if nonempty (errString s) then failed else success in
  checkPending (mkFullProver st (pendingInput s) empty_string (pendingCircuit s)
    (executingCircuit s) (zkHeaders s) (proof s) (pubData s) (errString s) false).

(** The JSON object [getStatus] builds, field by field. *)
Inductive StatusReply :=
| ReplyReady | ReplyAborted | ReplyFailed (error : string)
| ReplySuccess (proof : option Proof) (pubData : list string) | ReplyBusy | ReplyEmpty.

Definition getStatus (s : FullProver) : StatusReply :=
  match status s with
  | ready => ReplyReady
  | aborted => ReplyAborted
  | failed => ReplyFailed (errString s)
  | success => ReplySuccess (proof s) (pubData s)
  | busy => ReplyBusy
  | _ => ReplyEmpty
  end.

Definition set_pubData (p : list string) (s : FullProver) : FullProver :=
  mkFullProver (status s) (pendingInput s) (executingInput s) (pendingCircuit s)
    (executingCircuit s) (zkHeaders s) (proof s) p (errString s) (canceled s).
Definition set_proof (p : option Proof) (s : FullProver) : FullProver :=
  mkFullProver (status s) (pendingInput s) (executingInput s) (pendingCircuit s)
    (executingCircuit s) (zkHeaders s) p (pubData s) (errString s) (canceled s).
Definition set_errString (e : string) (s : FullProver) : FullProver :=
  mkFullProver (status s) (pendingInput s) (executingInput s) (pendingCircuit s)
    (executingCircuit s) (zkHeaders s) (proof s) (pubData s) e (canceled s).
End Methods.

(** ** The worker *)

Section Worker.
Context {W : World} {P : FieldParams} {G : Mpn} {MZ : Mpz}.

(** [mpz_set_str(altBbn128r, ..., 10)] of the constructor. *)
Definition altBbn128r : Z :=
  mpz_set_str "21888242871839275222246405745257275088548364400416034343698204186575808495617".

(** [wtnsData[i]]: 32 bytes, as four limbs; [None] outside the file. *)
Definition element_at (wtnsData : list Z) (i : Z) : option (list Z) :=
  match bytes_at wtnsData (32 * i) 32 with
  | Some bs =>
      Some [le_value (take 8 bs); le_value (take 8 (drop 8 bs));
            le_value (take 8 (drop 16 bs)); le_value (drop 24 bs)]
  | None => None
  end.

(** The loop [for (int i = 1; i <= nPublic; i++)], [n] rounds from [i] on. *)
Fixpoint public_signals (wtnsData : list Z) (n : nat) (i : Z) : option (list string) :=
  match n with
  | O => Some []
  | S n =>
      match element_at wtnsData i with
      | None => None
      | Some e =>
          let aux := RawFr_toMontgomery e in
          match public_signals wtnsData n (i + 1) with
          | None => None
          | Some l => Some (RawFr_toString aux :: l)
          end
      end
  end.

(** *** The constructor *)

Inductive ctor_result :=
| Built (zk : gmap string ZKeyHeader)
| CtorThrows (e : cxx_exn)
| CtorUndefined.

Definition zkey_type : list Z := [122; 107; 101; 121].

(** [zKeys[circuit]->getSectionData(4)], ..., [getSectionData(9)]. *)
Definition get_proving_sections : M unit :=
  (_ <- getSectionData 4 0 ;; _ <- getSectionData 5 0 ;; _ <- getSectionData 6 0 ;;
   _ <- getSectionData 7 0 ;; _ <- getSectionData 8 0 ;; _ <- getSectionData 9 0 ;;
   mret tt)%file.

(** One file of the constructor's loop; [inr] is the [std::system_error] of opening it. *)
Definition load_key (file : list Z + string) : ZKeyHeader + option cxx_exn :=
  match file with
  | inr msg => inr (Some (RuntimeError msg))
  | inl bytes =>
      let '(zkey, o) := openBinFile bytes zkey_type 1 in
      match o with
      | Throw e => inr (Some (exn_of e))
      | Undefined => inr None
      | Val _ =>
          let '(zkey, o) := zkey_loadHeader zkey in
          match o with
          | Throw e => inr (Some (exn_of e))
          | Undefined => inr None
          | Val h =>
              if negb (rPrime h =? altBbn128r) then inr (Some OtherException)
              else
                match snd (get_proving_sections zkey) with
                | Throw e => inr (Some (exn_of e))
                | Undefined => inr None
                | Val _ => inl h
                end
          end
      end
  end.

Fixpoint construct (files : list (string * (list Z + string))) (zk : gmap string ZKeyHeader) :
    ctor_result :=
  match files with
  | [] => Built zk
  | (zkeyFileName, file) :: files =>
      let circuit := getfilename zkeyFileName in
      match load_key file with
      | inl h => construct files (<[circuit := h]> zk)
      | inr (Some e) => CtorThrows e
      | inr None => CtorUndefined
      end
  end.

(** *** The thread *)

Inductive load_result :=
| Loaded (pub : list string) (wtnsData : list Z)
| Raised (e : cxx_exn)
| LoadUndefined.

Definition wtns_type : list Z := [119; 116; 110; 115].

(** From the start of the [try] block to the first [isCanceled]. *)
Definition load_witness (zk : gmap string ZKeyHeader) (circuit input : string) : load_result :=
  if negb (json_parse input) then Raised OtherException
  else
    match run_witness circuit input with
    | inr msg => Raised (RuntimeError msg)
    | inl bytes =>
        let '(wtns, o) := openBinFile bytes wtns_type 2 in
        match o with
        | Throw e => Raised (exn_of e)
        | Undefined => LoadUndefined
        | Val _ =>
            let '(wtns, o) := wtns_loadHeader wtns in
            match o with
            | Throw e => Raised (exn_of e)
            | Undefined => LoadUndefined
            | Val wtnsHeader =>
                if negb (prime wtnsHeader =? altBbn128r) then Raised OtherException
                else
                  let '(_, o) := getSectionData 2 0 wtns in
                  match o with
                  | Throw e => Raised (exn_of e)
                  | Undefined => LoadUndefined
                  | Val p =>
                      match zk !! circuit with
                      | None => LoadUndefined
                      | Some h =>
                          let wtnsData := drop (Z.to_nat p) bytes in
                          match public_signals wtnsData (Z.to_nat (nPublic h)) 1 with
                          | None => LoadUndefined
                          | Some pub => Loaded pub wtnsData
                          end
                      end
                  end
            end
        end
    end.

(** One stretch of the worker [w]: the object, where the worker is now ([None]:
    the thread has ended), whether it started another worker, and whether the
    process was terminated or has undefined behaviour. *)
Inductive worker_result :=
| Runs (s : FullProver) (w : option worker) (started : bool)
| Terminates
| Waits.

Definition catch (s : FullProver) (e : cxx_exn) : worker_result :=
  match e with
  | RuntimeError msg => Runs s (Some (Catching msg)) false
  | OtherException => Terminates
  end.

Definition worker_step (lost : bool) (w : worker) (s : FullProver) : worker_result :=
  match w with
  | Starting =>
      match load_witness (zkHeaders s) (executingCircuit s) (executingInput s) with
      | Loaded pub wtnsData => Runs (set_pubData pub s) (Some (Checking wtnsData)) false
      | Raised e => catch s e
      | LoadUndefined => Terminates
      end
  | Checking wtnsData =>
      if lost then Waits
      else if negb (isCanceled s) then Runs s (Some (Proving (executingCircuit s) wtnsData)) false
      else Runs (set_proof None s) (Some Finishing) false
  | Proving circuit wtnsData =>
      match prove circuit wtnsData with
      | inl p => Runs (set_proof (Some p) s) (Some Finishing) false
      | inr e => catch s e
      end
  | Catching msg =>
      if lost then Waits
      else Runs (if negb (isCanceled s) then set_errString msg s else s) (Some Finishing) false
  | Finishing =>
      if lost then Waits
      else let '(s, started) := calcFinished s in Runs s None started
  end.

(** ** The system *)

Definition init (zk : gmap string ZKeyHeader) : System :=
  mkSystem (mkFullProver ready empty_string empty_string empty_string empty_string
    zk None [] empty_string false) false [] false.

Definition spawn (started : bool) (ws : list worker) : list worker :=
  if started then ws ++ [Starting] else ws.

(** What happens next: a request, or worker [i] running a stretch. *)
Inductive event :=
| EvStart (input circuit : string)
| EvAbort
| EvWorker (i : nat).

(** [None]: the event cannot happen, its thread has to wait. *)
Definition next (e : event) (s : System) : option System :=
  if terminated s then None
  else
    match e with
    | EvStart input circuit =>
        if mtx_lost s then None
        else
          match startProve input circuit (fp s) with
          | (f, Some started) => Some (mkSystem f false (spawn started (workers s)) false)
          | (f, None) => Some (mkSystem f true (workers s) false)
          end
    | EvAbort =>
        if mtx_lost s then None else Some (mkSystem (abort (fp s)) false (workers s) false)
    | EvWorker i =>
        match workers s !! i with
        | None => None
        | Some w =>
            match worker_step (mtx_lost s) w (fp s) with
            | Waits => None
            | Terminates => Some (mkSystem (fp s) (mtx_lost s) (workers s) true)
            | Runs f (Some w') started =>
                Some (mkSystem f (mtx_lost s) (spawn started (<[i := w']> (workers s))) false)
            | Runs f None started =>
                Some (mkSystem f (mtx_lost s) (spawn started (delete i (workers s))) false)
            end
        end
    end.

Inductive step : System -> event -> System -> Prop :=
| step_next s e s' : next e s = Some s' -> step s e s'.

(** The states a service created with the keys [zk] can reach. *)
Inductive reachable (zk : gmap string ZKeyHeader) : System -> Prop :=
| reachable_init : reachable zk (init zk)
| reachable_step s e s' : reachable zk s -> step s e s' -> reachable zk s'.

(** A run of events. *)
Fixpoint run (es : list event) (s : System) : option System :=
  match es with
  | [] => Some s
  | e :: es => match next e s with Some s' => run es s' | None => None end
  end.
End Worker.
