(* ===== verification/FullProverSpec.v ===== *)
(** Invariants of the proving service, what its answers mean, and how it can be
    made to wait for ever. *)

From Stdlib Require Import Ascii String.
From stdpp Require Import gmap strings.
From S2P Require Import Prelude Limbs Gmp Mpz FrRaw FrElement RawFr BinFile BinFileFormat FileHeaders FileHeadersSpec FullProver.

Section Spec.
Context {W : World} {P : FieldParams} {G : Mpn} {MZ : Mpz}.

(** ** Single worker *)

(** At most one worker; the service is busy exactly while there is one; a
    cancellation is only pending while busy; no complete request waits while the
    mutex works; the mutex is only lost while busy. *)
Record consistent (s : System) : Prop := {
  one_worker : (length (workers s) <= 1)%nat;
  busy_iff : status (fp s) = busy <-> workers s <> [];
  canceled_busy : canceled (fp s) = true -> status (fp s) = busy;
  pending_none : mtx_lost s = false ->
    nonempty (pendingInput (fp s)) && nonempty (pendingCircuit (fp s)) = false;
  lost_busy : mtx_lost s = true -> status (fp s) = busy;
  status_known : status (fp s) ∈ [ready; aborted; failed; success; busy]
}.

Lemma worker_alone s i w : consistent s -> workers s !! i = Some w -> i = 0%nat /\ workers s = [w].
Proof.
  intros Hc Hw. pose proof (one_worker _ Hc). destruct (workers s) as [|w' [|]]; cbn in *; [done| |lia].
  destruct i; [by injection Hw as ->|done].
Qed.

(** A step of a running worker changes neither what the requests set nor the status. *)
Lemma worker_runs lost w s f w' started :
  worker_step lost w s = Runs f (Some w') started ->
  started = false /\ status f = status s /\ canceled f = canceled s /\
  pendingInput f = pendingInput s /\ pendingCircuit f = pendingCircuit s.
Proof.
  unfold worker_step, catch. intros H.
  repeat (match type of H with context [match ?x with _ => _ end] => destruct x eqn:? end);
    try discriminate H; injection H as <- _ <-; done.
Qed.

Lemma worker_ends lost w s f started :
  worker_step lost w s = Runs f None started ->
  w = Finishing /\ lost = false /\ calcFinished s = (f, started).
Proof.
  unfold worker_step, catch. intros H.
  destruct w; repeat (match type of H with context [match ?x with _ => _ end] => destruct x eqn:? end);
    try discriminate H; injection H as <- <-; done.
Qed.

(** Without a complete pending request [calcFinished] starts nothing. *)
Lemma calcFinished_idle s :
  nonempty (pendingInput s) && nonempty (pendingCircuit s) = false ->
  exists f, calcFinished s = (f, false) /\ canceled f = false /\
    pendingInput f = pendingInput s /\ pendingCircuit f = pendingCircuit s /\
    status f = (if canceled s then aborted else if nonempty (errString s) then failed else success) /\
    errString f = errString s /\ proof f = proof s /\ pubData f = pubData s /\
    zkHeaders f = zkHeaders s.
Proof.
  intros Hp. unfold calcFinished. set (f := mkFullProver _ _ _ _ _ _ _ _ _ _). exists f.
  split; [|done]. unfold checkPending. cbn [f pendingInput pendingCircuit]. rewrite Hp.
  by destruct (negb _).
Qed.

Lemma consistent_init zk : consistent (init zk).
Proof. split; cbn; try done; try lia. set_solver. Qed.

Lemma consistent_next s e s' : consistent s -> next e s = Some s' -> consistent s'.
Proof.
  intros Hc. unfold next. destruct (terminated s); [done|]. destruct e as [input circuit| |i].
  - destruct (mtx_lost s) eqn:Hl; [done|]. unfold startProve.
    destruct (bool_decide_reflect (status (set_pending input circuit (fp s)) = busy)) as [Hb|Hb].
    + intros [= <-]. cbn in Hb. destruct Hc. split; cbn; done.
    + unfold checkPending. rewrite bool_decide_eq_false_2 by done. cbn [negb set_pending pendingInput pendingCircuit].
      assert (Hw : workers s = []).
      { destruct (workers s) eqn:E; [done|]. contradict Hb. cbn. apply (busy_iff _ Hc). by rewrite E. }
      destruct (nonempty input && nonempty circuit) eqn:E; intros [= <-]; cbn [spawn] in *.
      * rewrite Hw. split; cbn; [lia|by split|done..|set_solver].
      * destruct Hc. rewrite Hl in *. split; cbn; done.
  - destruct (mtx_lost s) eqn:Hl; [done|]. intros [= <-]. unfold abort.
    destruct (bool_decide_reflect (status (fp s) = busy)) as [Hb|Hb]; cbn [negb].
    + destruct Hc. rewrite Hl in *. split; cbn; done.
    + destruct Hc. rewrite Hl in *. split; cbn; done.
  - destruct (workers s !! i) as [w|] eqn:Hw; [|done].
    destruct (worker_alone _ _ _ Hc Hw) as [-> Hws].
    destruct (worker_step (mtx_lost s) w (fp s)) as [f [w'|] started| |] eqn:Hs; [| | |done]; intros [= <-].
    + apply worker_runs in Hs as (-> & Hst & Hca & Hpi & Hpc). rewrite Hws. cbn.
      destruct Hc as [H1 H2 H3 H4 H5 H6]. rewrite Hws in H2.
      split; cbn; rewrite ?Hst, ?Hca, ?Hpi, ?Hpc; try done. by rewrite H2.
    + apply worker_ends in Hs as (-> & Hlost & Hf). rewrite Hws, Hlost.
      destruct (calcFinished_idle (fp s)) as (f' & Hf' & Hca & Hpi & Hpc & Hst & _);
        [by apply (pending_none _ Hc)|].
      rewrite Hf in Hf'. injection Hf' as -> ->. cbn [spawn delete list_delete].
      assert (Hne : status f' <> busy) by (rewrite Hst; by repeat case_match).
      pose proof (pending_none _ Hc Hlost).
      split; cbn; rewrite ?Hca, ?Hpi, ?Hpc; try done; try lia.
      rewrite Hst. repeat case_match; set_solver.
    + destruct Hc; split; cbn; done.
Qed.

Lemma consistent_reachable zk s : reachable zk s -> consistent s.
Proof.
  induction 1 as [|s e s' _ IH Hs]; [apply consistent_init|].
  inversion Hs; subst. by eapply consistent_next.
Qed.

(** C4: In every state the service can reach, at most one worker runs, the status is
    [busy] exactly while it does, a cancellation is pending only while busy, no
    complete request waits while the mutex works, the mutex is lost only while
    busy, and the status is one of the five the interface reports. *)
Theorem reachable_consistent zk s : reachable zk s -> consistent s.
Proof. apply consistent_reachable. Qed.

(** ** A request while busy stops the service *)

(** Once the mutex is lost no request is served and the status stays [busy]. *)
Lemma lost_next s e s' :
  mtx_lost s = true -> status (fp s) = busy -> next e s = Some s' ->
  mtx_lost s' = true /\ status (fp s') = busy /\ exists i, e = EvWorker i.
Proof.
  intros Hl Hb. unfold next. rewrite Hl. destruct (terminated s); [done|].
  destruct e as [| |i]; [done..|]. destruct (workers s !! i) as [w|]; [|done].
  destruct (worker_step true w (fp s)) as [f [w'|] started| |] eqn:E; intros [= <-]; cbn.
  - apply worker_runs in E as (_ & Hst & _). rewrite Hst. eauto.
  - apply worker_ends in E as (_ & ? & _). done.
  - eauto.
Qed.

(** C23: A second request while one is running makes its thread wait for the mutex it
    holds; from then on no request is served, no cancellation either, and every
    status query is answered [busy], whatever the worker does. *)
Theorem start_while_busy_deadlocks s input circuit :
  consistent s -> status (fp s) = busy -> mtx_lost s = false -> terminated s = false ->
  exists d, next (EvStart input circuit) s = Some d /\ mtx_lost d = true /\
    forall es s', run es d = Some s' -> getStatus (fp s') = ReplyBusy /\
      forall i c, next (EvStart i c) s' = None /\ next EvAbort s' = None.
Proof.
  intros Hc Hb Hl Ht. unfold next at 1. rewrite Ht, Hl. unfold startProve. cbn [status set_pending].
  rewrite bool_decide_eq_true_2 by done. eexists. split; [done|]. split; [done|].
  set (d := mkSystem _ true _ false). assert (Hd : mtx_lost d = true) by done.
  assert (Hdb : status (fp d) = busy) by done. clearbody d. intros es s'. revert d Hd Hdb.
  induction es as [|e es IH]; intros d Hd Hdb; cbn [run].
  - intros [= <-]. split; [unfold getStatus; by rewrite Hdb|].
    intros i c. unfold next. rewrite Hd. by destruct (terminated d).
  - destruct (next e d) as [d'|] eqn:E; [|done].
    destruct (lost_next _ _ _ Hd Hdb E) as (Hd' & Hdb' & _). by apply IH.
Qed.

(** ** What the answers mean *)

(** A request that asks for a proof: neither its input nor its circuit is empty. *)
Definition complete (e : event) : bool :=
  match e with EvStart input circuit => nonempty input && nonempty circuit | _ => false end.

(** The last such request, after the event [e] and in a run. *)
Definition latest (r : option (string * string)) (e : event) : option (string * string) :=
  match e with EvStart input circuit => if complete e then Some (input, circuit) else r | _ => r end.
Definition last_request (es : list event) : option (string * string) := fold_left latest es None.

Lemma last_request_split es input circuit : last_request es = Some (input, circuit) ->
  exists before after, es = before ++ EvStart input circuit :: after /\
    complete (EvStart input circuit) = true /\ Forall (fun e => complete e = false) after.
Proof.
  unfold last_request. induction es as [|e es IH] using rev_ind; [done|]. rewrite fold_left_app. cbn [fold_left].
  destruct (complete e) eqn:Ee.
  - destruct e as [i c| |]; [|done..]. unfold latest at 1. rewrite Ee. intros [= -> ->].
    exists es, []. by repeat constructor.
  - assert (latest (fold_left latest es None) e = fold_left latest es None) as ->
      by (destruct e; cbn [latest]; by rewrite ?Ee).
    intros (before & after & -> & Hc & Ha)%IH. exists before, (after ++ [e]).
    split; [by rewrite <- app_assoc|]. split; [done|]. apply Forall_app. by split; [|constructor].
Qed.

(** The public signals and proof of a finished request. *)
Definition answers_for (zk : gmap string ZKeyHeader) (circuit input : string) (f : FullProver) : Prop :=
  exists d p, load_witness zk circuit input = Loaded (pubData f) d /\
    prove circuit d = inl p /\ proof f = Some p.

(** What a worker knows at each point. *)
Definition worker_inv (zk : gmap string ZKeyHeader) (f : FullProver) (w : worker) : Prop :=
  match w with
  | Starting => errString f = empty_string
  | Checking d => errString f = empty_string /\
      load_witness zk (executingCircuit f) (executingInput f) = Loaded (pubData f) d
  | Proving c d => errString f = empty_string /\ c = executingCircuit f /\
      load_witness zk c (executingInput f) = Loaded (pubData f) d
  | Catching msg => errString f = empty_string /\ msg <> empty_string
  | Finishing => canceled f = true \/ errString f <> empty_string \/ answers_for zk (executingCircuit f) (executingInput f) f
  end.

(** What holds after a run whose last complete request is [r]: while the mutex works it is
    the one a worker executes, and the one a success answers. *)
Definition sound (zk : gmap string ZKeyHeader) (r : option (string * string)) (s : System) : Prop :=
  zkHeaders (fp s) = zk /\ Forall (worker_inv zk (fp s)) (workers s) /\
  (workers s <> [] -> mtx_lost s = false -> r = Some (executingInput (fp s), executingCircuit (fp s))) /\
  (status (fp s) = success -> exists input circuit, r = Some (input, circuit) /\ answers_for zk circuit input (fp s)).

(** No exception carries an empty message. *)
Definition messages_nonempty : Prop :=
  (forall c i m, run_witness c i = inr m -> m <> empty_string) /\
  (forall c d m, prove c d = inr (RuntimeError m) -> m <> empty_string).

Lemma what_nonempty e : what e <> empty_string.
Proof. by destruct e. Qed.

Lemma load_raises zk c i m :
  messages_nonempty -> load_witness zk c i = Raised (RuntimeError m) -> m <> empty_string.
Proof.
  intros [Hm _]. unfold load_witness, exn_of. intros H.
  repeat (match type of H with context [match ?x with _ => _ end] => destruct x eqn:? end);
    try discriminate H; injection H as <-; try apply what_nonempty; by eapply Hm.
Qed.

(** A stretch of a running worker keeps its knowledge. *)
Lemma worker_runs_inv zk lost w s f w' started :
  messages_nonempty -> zkHeaders s = zk -> worker_inv zk s w ->
  worker_step lost w s = Runs f (Some w') started ->
  zkHeaders f = zk /\ worker_inv zk f w' /\
  executingInput f = executingInput s /\ executingCircuit f = executingCircuit s.
Proof.
  intros Hm <- Hw. pose proof (proj2 Hm) as Hp. unfold worker_step, catch, isCanceled. destruct w.
  - destruct (load_witness _ _ _) as [pub d|[]|] eqn:E; intros [= <- <- _]; (split; [done|]); (split; [|done]); cbn.
    + by split.
    + split; [done|]. by eapply load_raises.
  - destruct lost; [done|]. destruct Hw as [He Hl]. destruct (canceled s) eqn:Ec; intros [= <- <- _]; (split; [done|]); (split; [|done]); cbn;
      [by left|done].
  - destruct Hw as (He & -> & Hl). destruct (prove _ wtnsData) as [p|[]] eqn:E;
      intros [= <- <- _]; (split; [done|]); (split; [|done]); cbn.
    + right; right. by exists wtnsData, p.
    + split; [done|]. by eapply Hp.
  - destruct lost; [done|]. destruct Hw as [He Hmsg].
    destruct (canceled s) eqn:Ec; intros [= <- <- _]; (split; [done|]); (split; [|done]); cbn; [by left|by right; left].
  - destruct lost; [done|]. by destruct (calcFinished s).
Qed.

(** The start of a request. *)
Lemma sound_start zk r input circuit s s' :
  consistent s -> sound zk r s -> next (EvStart input circuit) s = Some s' -> sound zk (latest r (EvStart input circuit)) s'.
Proof.
  intros Hc (Hz & Hf & Hr & Hsu). unfold next. destruct (terminated s); [done|]. destruct (mtx_lost s) eqn:Hl; [done|].
  unfold startProve. destruct (bool_decide_reflect (status (set_pending input circuit (fp s)) = busy)) as [Hb|Hb].
  { intros [= <-]. cbn in Hb. split; [done|]. split; [exact Hf|]. cbn. split; [done|]. by rewrite Hb. }
  unfold checkPending. rewrite bool_decide_eq_false_2 by done. cbn [negb set_pending pendingInput pendingCircuit latest complete].
  assert (Hw : workers s = []).
  { destruct (workers s) eqn:E; [done|]. contradict Hb. cbn. apply (busy_iff _ Hc). by rewrite E. }
  destruct (_ && _); intros [= <-]; cbn [spawn]; rewrite Hw.
  - split; [done|]. split; [by apply Forall_singleton|]. done.
  - split; [done|]. split; [by apply Forall_nil_2|]. split; [done|exact Hsu].
Qed.

Lemma sound_next zk r e s s' :
  messages_nonempty -> consistent s -> sound zk r s -> next e s = Some s' -> sound zk (latest r e) s'.
Proof.
  intros Hm Hc Hs. destruct e as [input circuit| |i]; [by apply sound_start|..]; cbn [latest];
    destruct Hs as (Hz & Hf & Hr & Hsu); unfold next; (destruct (terminated s); [done|]).
  - destruct (mtx_lost s) eqn:Hl; [done|]. intros [= <-]. unfold abort.
    destruct (negb _); [by repeat split|]. split; [done|]. split; [|by split]. cbn [fp workers].
    eapply Forall_impl; [|exact Hf]. intros [| | | |]; cbn; try done. by left.
  - destruct (workers s !! i) as [w|] eqn:Hw; [|done].
    destruct (worker_alone _ _ _ Hc Hw) as [-> Hws]. rewrite Hws in Hf, Hr |- *.
    rewrite Forall_singleton in Hf.
    destruct (worker_step _ _ _) as [f [w'|] started| |] eqn:E; [| | |done]; intros [= <-].
    + destruct (worker_runs_inv _ _ _ _ _ _ _ Hm Hz Hf E) as (Hz' & Hw' & Hi & Hci).
      pose proof (worker_runs _ _ _ _ _ _ E) as (-> & Hst & _).
      assert (Hbusy : status f = busy) by (rewrite Hst; apply (busy_iff _ Hc); by rewrite Hws).
      split; [done|]. split; [by apply Forall_singleton|]. cbn. rewrite Hbusy, Hi, Hci. split; [|done].
      intros _. by apply Hr.
    + apply worker_ends in E as (-> & Hlost & Hcf). specialize (Hr ltac:(done) Hlost).
      destruct (calcFinished_idle (fp s)) as (f' & Hf' & Hca & _ & _ & Hst & He & Hpr & Hpu & Hz');
        [by apply (pending_none _ Hc)|]. rewrite Hcf in Hf'. injection Hf' as -> ->.
      split; [cbn; congruence|]. split; [by apply Forall_nil_2|]. cbn [fp]. split; [done|].
      rewrite Hst. cbn in Hf. unfold nonempty, answers_for in *. rewrite Hpu, Hpr. destruct (canceled (fp s)); [done|].
      case_bool_decide as Herr; cbn [negb]; [|done]. intros _. destruct Hf as [?|[?|Ha]]; [done..|].
      by exists (executingInput (fp s)), (executingCircuit (fp s)).
    + split; [done|]. cbn [fp workers mtx_lost]. split; [by apply Forall_singleton|]. by split.
Qed.

Lemma sound_run zk es : messages_nonempty -> forall s s' r,
  consistent s -> sound zk r s -> run es s = Some s' -> sound zk (fold_left latest es r) s'.
Proof.
  intros Hm. induction es as [|e es IH]; intros s s' r Hc Hs; cbn [run fold_left]; [by intros [= <-]|].
  destruct (next e s) as [s1|] eqn:E; [|done]. apply IH; [by eapply consistent_next|by eapply sound_next].
Qed.

(** C14: Whenever a run of the service leads to a reported success, the success answers the
    last request of the run that asked for a proof: the proof reported is the prover's
    answer, for the circuit of that request, on the witness data of its input, and the public
    signals are those of the same witness (provided no exception carries an empty
    message). *)
Theorem answers_are_sound zk es s pf pub :
  messages_nonempty -> run es (init zk) = Some s -> getStatus (fp s) = ReplySuccess pf pub ->
  exists before after input circuit d p,
    es = before ++ EvStart input circuit :: after /\ complete (EvStart input circuit) = true /\
    Forall (fun e => complete e = false) after /\
    load_witness zk circuit input = Loaded pub d /\ prove circuit d = inl p /\ pf = Some p.
Proof.
  intros Hm Hr. assert (H0 : sound zk None (init zk)) by (split; [done|]; split; [by apply Forall_nil_2|]; done).
  destruct (sound_run zk es Hm _ _ _ (consistent_init zk) H0 Hr) as (_ & _ & _ & Hs).
  unfold getStatus. destruct (status (fp s)) eqn:E; try discriminate. intros [= <- <-].
  destruct (Hs eq_refl) as (input & circuit & Hl & d & p & H1 & H2 & H3).
  apply last_request_split in Hl as (before & after & He & Hc & Ha). by exists before, after, input, circuit, d, p.
Qed.

(** ** Complete runs *)

(** What a request left alone ends with. *)
Definition expected (zk : gmap string ZKeyHeader) (circuit input : string) : option StatusReply :=
  match load_witness zk circuit input with
  | Loaded pub d =>
      match prove circuit d with
      | inl p => Some (ReplySuccess (Some p) pub)
      | inr (RuntimeError m) => Some (ReplyFailed m)
      | inr OtherException => None
      end
  | Raised (RuntimeError m) => Some (ReplyFailed m)
  | _ => None
  end.

(** The service takes a request: no worker, the mutex works. *)
Definition idle (s : System) : Prop :=
  consistent s /\ status (fp s) <> busy /\ mtx_lost s = false /\ terminated s = false.

Lemma start_idle s input circuit :
  idle s -> nonempty input = true -> nonempty circuit = true ->
  next (EvStart input circuit) s =
    Some (mkSystem (mkFullProver busy empty_string input empty_string circuit (zkHeaders (fp s))
      None (pubData (fp s)) empty_string false) false [Starting] false).
Proof.
  intros (Hc & Hb & Hl & Ht) Hi Hci. unfold next. rewrite Ht, Hl. unfold startProve.
  cbn [status set_pending]. rewrite bool_decide_eq_false_2 by done.
  unfold checkPending. cbn [status set_pending pendingInput pendingCircuit].
  rewrite bool_decide_eq_false_2, Hi, Hci by done. cbn [negb andb].
  assert (workers s = []) as ->.
  { destruct (workers s) eqn:E; [done|]. contradict Hb. apply (busy_iff _ Hc). by rewrite E. }
  done.
Qed.

Lemma next_worker w f :
  next (EvWorker 0) (mkSystem f false [w] false) =
  match worker_step false w f with
  | Waits => None
  | Terminates => Some (mkSystem f false [w] true)
  | Runs f' (Some w') started => Some (mkSystem f' false (spawn started [w']) false)
  | Runs f' None started => Some (mkSystem f' false (spawn started []) false)
  end.
Proof. done. Qed.

(** A finished worker leaves the status its outcome calls for. *)
Lemma next_finishing f :
  nonempty (pendingInput f) && nonempty (pendingCircuit f) = false ->
  exists f', next (EvWorker 0) (mkSystem f false [Finishing] false) =
      Some (mkSystem f' false [] false) /\
    status f' = (if canceled f then aborted else if nonempty (errString f) then failed else success) /\
    errString f' = errString f /\ proof f' = proof f /\ pubData f' = pubData f.
Proof.
  intros Hp. destruct (calcFinished_idle f Hp) as (f' & Hf & _ & _ & _ & Hst & He & Hpr & Hpu & _).
  exists f'. split; [|done]. rewrite next_worker. cbn [worker_step]. by rewrite Hf.
Qed.

Lemma run_consistent es : forall s s', consistent s -> run es s = Some s' -> consistent s'.
Proof.
  induction es as [|e es IH]; intros s s' Hc; cbn [run]; [by intros [= <-]|].
  destruct (next e s) as [s1|] eqn:E; [|done]. apply IH. by eapply consistent_next.
Qed.

(** The worker of a request that is left alone, from [Finishing] on. *)
Lemma finish_idle f :
  pendingInput f = empty_string -> canceled f = false ->
  exists f', next (EvWorker 0) (mkSystem f false [Finishing] false) = Some (mkSystem f' false [] false) /\
    status f' <> busy /\
    getStatus f' = if nonempty (errString f) then ReplyFailed (errString f)
                   else ReplySuccess (proof f) (pubData f).
Proof.
  intros Hp Hca. destruct (next_finishing f) as (f' & Hn & Hst & He & Hpr & Hpu); [by rewrite Hp|].
  exists f'. split; [done|]. rewrite Hca in Hst. unfold getStatus. rewrite Hst.
  destruct (nonempty (errString f)); by rewrite ?He, ?Hpr, ?Hpu.
Qed.

(** The worker steps of a request until [r] can be read. *)
Inductive served (r : StatusReply) : System -> nat -> Prop :=
| served_here f : status f <> busy -> getStatus f = r -> served r (mkSystem f false [] false) 0
| served_next s s' n : next (EvWorker 0) s = Some s' -> served r s' n -> served r s (S n).

Lemma served_run r s n : served r s n ->
  exists f, run (replicate n (EvWorker 0)) s = Some (mkSystem f false [] false) /\
    getStatus f = r /\ status f <> busy.
Proof.
  induction 1 as [f Hb Hg|s s' n Hn _ (f & Hr & Hg & Hb)]; [by exists f|].
  exists f. split; [|done]. cbn [replicate run]. by rewrite Hn.
Qed.

Lemma served_finishing f r :
  pendingInput f = empty_string -> canceled f = false ->
  r = (if nonempty (errString f) then ReplyFailed (errString f)
       else ReplySuccess (proof f) (pubData f)) ->
  served r (mkSystem f false [Finishing] false) 1.
Proof.
  intros Hp Hca ->. destruct (finish_idle f Hp Hca) as (f' & Hn & Hb & Hg).
  eapply served_next; [exact Hn|]. by apply served_here.
Qed.

Lemma served_catching f m :
  pendingInput f = empty_string -> canceled f = false -> m <> empty_string ->
  served (ReplyFailed m) (mkSystem f false [Catching m] false) 2.
Proof.
  intros Hp Hca Hm. eapply served_next.
  - rewrite next_worker. cbn [worker_step isCanceled]. unfold isCanceled. rewrite Hca. reflexivity.
  - apply served_finishing; [done..|]. cbn. unfold nonempty. by rewrite bool_decide_eq_false_2.
Qed.

Lemma served_starting f r :
  pendingInput f = empty_string -> canceled f = false -> errString f = empty_string ->
  messages_nonempty -> expected (zkHeaders f) (executingCircuit f) (executingInput f) = Some r ->
  exists n, (n <= 5)%nat /\ served r (mkSystem f false [Starting] false) n.
Proof.
  intros Hp Hca He Hm. unfold expected.
  destruct (load_witness _ _ _) as [pub d|[m|]|] eqn:El; [| |done..].
  - assert (H1 : next (EvWorker 0) (mkSystem f false [Starting] false) =
      Some (mkSystem (set_pubData pub f) false [Checking d] false))
      by (rewrite next_worker; cbn [worker_step]; by rewrite El).
    assert (H2 : next (EvWorker 0) (mkSystem (set_pubData pub f) false [Checking d] false) =
      Some (mkSystem (set_pubData pub f) false [Proving (executingCircuit f) d] false)).
    { rewrite next_worker. unfold worker_step, isCanceled. cbn [canceled set_pubData]. by rewrite Hca. }
    destruct (prove _ d) as [p|[m|]] eqn:Epr; [..|done]; intros [= <-].
    + exists 4%nat. split; [lia|]. do 2 (eapply served_next; [eassumption|]).
      eapply served_next; [rewrite next_worker; cbn [worker_step]; rewrite Epr; reflexivity|].
      apply served_finishing; [done..|]. cbn. by rewrite He.
    + exists 5%nat. split; [lia|]. do 2 (eapply served_next; [eassumption|]).
      eapply served_next; [rewrite next_worker; cbn [worker_step]; rewrite Epr; reflexivity|].
      apply served_catching; [done..|]. by eapply (proj2 Hm).
  - intros [= <-]. exists 3%nat. split; [lia|].
    eapply served_next; [rewrite next_worker; cbn [worker_step]; rewrite El; reflexivity|].
    apply served_catching; [done..|]. by eapply load_raises.
Qed.

(** C20: A request to an idle service whose worker is left alone is finished within
    five stretches of the worker, with the reply its inputs call for (success with
    proof and public signals, or failure with the exception's message), and the
    service is idle again. *)
Theorem serve_completes s circuit input r :
  idle s -> nonempty input = true -> nonempty circuit = true -> messages_nonempty ->
  expected (zkHeaders (fp s)) circuit input = Some r ->
  exists n s', (n <= 5)%nat /\
    run (EvStart input circuit :: replicate n (EvWorker 0)) s = Some s' /\
    getStatus (fp s') = r /\ idle s'.
Proof.
  intros Hidle Hi Hci Hm He. pose proof (start_idle _ _ _ Hidle Hi Hci) as Hs.
  match type of Hs with _ = Some (mkSystem ?f _ _ _) =>
    destruct (served_starting f r eq_refl eq_refl eq_refl Hm He) as (n & Hn & Hserved) end.
  destruct (served_run _ _ _ Hserved) as (f & Hrun & Hg & Hb).
  exists n, (mkSystem f false [] false). split; [done|].
  assert (Hall : run (EvStart input circuit :: replicate n (EvWorker 0)) s =
    Some (mkSystem f false [] false)) by (cbn [run]; by rewrite Hs).
  split; [done|]. split; [done|]. split; [|done].
  eapply run_consistent; [|exact Hall]. apply Hidle.
Qed.

(** A cancelled worker goes on until it ends, and then the request is aborted. *)
Lemma cancelled_run n : forall s s',
  consistent s -> terminated s = false -> mtx_lost s = false -> workers s <> [] ->
  canceled (fp s) = true -> run (replicate n (EvWorker 0)) s = Some s' ->
  terminated s' = true \/ (workers s' <> [] /\ canceled (fp s') = true) \/
  (workers s' = [] /\ getStatus (fp s') = ReplyAborted).
Proof.
  induction n as [|n IH]; intros s s' Hc Ht Hl Hw Hca; cbn [replicate run];
    [intros [= <-]; by right; left|].
  destruct (next (EvWorker 0) s) as [s1|] eqn:Hn; [|done].
  pose proof (consistent_next _ _ _ Hc Hn) as Hc1.
  destruct (workers s) as [|w ws] eqn:Ews; [done|]. unfold next in Hn. rewrite Ht, Ews, Hl in Hn.
  cbn [lookup list_lookup] in Hn. pose proof (one_worker _ Hc) as H1. rewrite Ews in H1.
  destruct ws; [|cbn in H1; lia].
  destruct (worker_step false w (fp s)) as [f [w'|] started| |] eqn:E; [| | |done];
    injection Hn as <-; cbn in Hc1 |- *.
  - apply worker_runs in E as (-> & _ & Hcf & _). apply IH; try done. cbn. by rewrite Hcf.
  - apply worker_ends in E as (-> & _ & Hcf).
    destruct (calcFinished_idle (fp s)) as (f' & Hf' & _ & _ & _ & Hst & _);
      [by apply (pending_none _ Hc)|]. rewrite Hcf in Hf'. injection Hf' as -> ->.
    destruct n; cbn [replicate run]; [|done]. intros [= <-]. right; right. split; [done|].
    cbn [fp]. unfold getStatus. by rewrite Hst, Hca.
  - destruct n; cbn [replicate run]; [|done]. intros [= <-]. by left.
Qed.

(** C39: After a cancellation, at any point of the worker, the request ends as
    aborted as soon as the worker ends. *)
Theorem cancelled_is_aborted s n :
  consistent s -> terminated s = false -> mtx_lost s = false -> workers s <> [] ->
  exists s1, next EvAbort s = Some s1 /\
    forall s2, run (replicate n (EvWorker 0)) s1 = Some s2 ->
      terminated s2 = true \/ (workers s2 <> [] /\ canceled (fp s2) = true) \/
      (workers s2 = [] /\ getStatus (fp s2) = ReplyAborted).
Proof.
  intros Hc Ht Hl Hw. destruct (next EvAbort s) as [s1|] eqn:E.
  2: { unfold next in E. by rewrite Ht, Hl in E. }
  exists s1. split; [done|]. intros s2.
  pose proof (consistent_next _ _ _ Hc E) as Hc1. unfold next in E. rewrite Ht, Hl in E.
  injection E as <-. apply cancelled_run; try done.
  cbn [fp]. unfold abort. rewrite bool_decide_eq_true_2 by (by apply (busy_iff _ Hc)). done.
Qed.

(** C40: An input that is no JSON text ends the whole process: the worker's handler
    catches [std::runtime_error] only. *)
Theorem malformed_input_terminates s circuit input :
  idle s -> nonempty input = true -> nonempty circuit = true -> json_parse input = false ->
  exists s', run [EvStart input circuit; EvWorker 0] s = Some s' /\ terminated s' = true.
Proof.
  intros Hidle Hi Hci Hj. pose proof (start_idle _ _ _ Hidle Hi Hci) as Hs.
  eexists. cbn [run]. rewrite Hs, next_worker. cbn [worker_step executingInput executingCircuit zkHeaders].
  unfold load_witness. rewrite Hj. cbn [negb catch]. done.
Qed.

(** ** Construction *)

Lemma load_key_prime file h : load_key file = inl h -> rPrime h = altBbn128r.
Proof.
  unfold load_key. destruct file as [bytes|]; [|done].
  destruct (openBinFile bytes zkey_type 1) as [f [|e|]]; [|done..].
  destruct (zkey_loadHeader f) as [f' [h'|e|]]; [|done..].
  destruct (Z.eqb_spec (rPrime h') altBbn128r) as [E|]; cbn [negb]; [|done].
  destruct (snd (get_proving_sections f')); [|done..]. by intros [= <-].
Qed.

Lemma construct_keys files : forall zk zk',
  construct files zk = Built zk' ->
  (forall c, is_Some (zk !! c) \/ In c (map (fun f => getfilename (fst f)) files) <-> is_Some (zk' !! c)) /\
  (map_Forall (fun _ h => rPrime h = altBbn128r) zk ->
   map_Forall (fun _ h => rPrime h = altBbn128r) zk').
Proof.
  induction files as [|[name file] files IH]; intros zk zk'; cbn [construct map In fst].
  - intros [= <-]. split; [tauto|done].
  - destruct (load_key file) as [h|[e|]] eqn:E; [|done..]. intros H.
    destruct (IH _ _ H) as [Hk Hp]. split.
    + intros c. rewrite <- Hk, lookup_insert_is_Some'. tauto.
    + intros Hz. apply Hp, map_Forall_insert_2; [by eapply load_key_prime|done].
Qed.

(** A service that was constructed knows exactly the circuits named by its key
    files, and only keys over the BN254 scalar field. *)
Theorem construct_correct files zk :
  construct files ∅ = Built zk ->
  (forall c, is_Some (zk !! c) <-> In c (map (fun f => getfilename (fst f)) files)) /\
  (forall c h, zk !! c = Some h -> rPrime h = altBbn128r).
Proof.
  intros H. destruct (construct_keys _ _ _ H) as [Hk Hp]. split.
  - intros c. rewrite <- Hk, lookup_empty. split; [|by right]. by intros [[? ?]|?].
  - intros c h Hc. by apply (Hp (map_Forall_empty _) c).
Qed.
End Spec.


(** ** A concrete service *)

Section Witnesses.
#[local] Existing Instance Fr_params.

(** One circuit, whose program leaves a witness file with the elements 1 and 35. *)
Definition demo_wtns_file : list Z :=
  encode_file wtns_type 2
    [(1, encode_wtns_header (mkWtnsHeader 32 q 2)); (2, le_bytes 32 1 ++ le_bytes 32 35)].

Definition demo_world : World := {|
  Proof := Z;
  json_parse s := match s with String.String c _ => bool_decide (c = "{"%char) | _ => false end;
  run_witness c i := if bool_decide (c = "mult"%string) then inl demo_wtns_file else inr "open"%string;
  prove c d := inl (Z.of_nat (length d))
|}.
#[local] Existing Instance demo_world.

Definition demo_keys : gmap string ZKeyHeader :=
  {["mult"%string := mkZKeyHeader 32 0 32 q 2 1 4 3 0 0 0 0 0 0]}.

Definition demo_start : event := EvStart "{}"%string "mult"%string.

(** The service after one complete request, and while it runs. *)
Definition demo_done : System :=
  default (init demo_keys) (run (demo_start :: replicate 4 (EvWorker 0)) (init demo_keys)).
Definition demo_busy : System := default (init demo_keys) (run [demo_start] (init demo_keys)).

Lemma reachable_run zk es : forall s s', reachable zk s -> run es s = Some s' -> reachable zk s'.
Proof.
  induction es as [|e es IH]; intros s s' Hr; cbn [run]; [by intros [= <-]|].
  destruct (next e s) as [s1|] eqn:E; [|done]. apply IH. eapply reachable_step; [exact Hr|].
  by constructor.
Qed.

Lemma demo_done_reachable : reachable demo_keys demo_done.
Proof.
  apply (reachable_run _ (demo_start :: replicate 4 (EvWorker 0)) (init demo_keys));
    [constructor|vm_compute; reflexivity].
Qed.
Lemma demo_busy_reachable : reachable demo_keys demo_busy.
Proof. apply (reachable_run _ [demo_start] (init demo_keys)); [constructor|vm_compute; reflexivity]. Qed.

Lemma demo_messages : messages_nonempty.
Proof.
  split; intros c i m; cbn; [|done]. case_bool_decide; [done|]. by intros [= <-].
Qed.

Lemma reachable_consistent_witness : consistent demo_busy.
Proof. apply (reachable_consistent demo_keys), demo_busy_reachable. Defined.

Lemma demo_busy_consistent : consistent demo_busy.
Proof. apply (consistent_next (init demo_keys) demo_start); [apply consistent_init|vm_compute; reflexivity]. Qed.

Lemma demo_idle : idle (init demo_keys).
Proof. split; [apply consistent_init|done]. Qed.

Lemma answers_are_sound_witness : let es := demo_start :: replicate 4 (EvWorker 0) in
  exists before after input circuit d p,
    es = before ++ EvStart input circuit :: after /\ complete (EvStart input circuit) = true /\
    Forall (fun e => complete e = false) after /\
    load_witness demo_keys circuit input = Loaded ["35"%string] d /\ prove circuit d = inl p /\ Some 64 = Some p.
Proof.
  apply (answers_are_sound demo_keys (demo_start :: replicate 4 (EvWorker 0)) demo_done);
    [apply demo_messages|vm_compute; reflexivity|vm_compute; reflexivity].
Defined.

Lemma start_while_busy_deadlocks_witness :
  exists d, next demo_start demo_busy = Some d /\ mtx_lost d = true /\
    forall es s', run es d = Some s' -> getStatus (fp s') = ReplyBusy /\
      forall i c, next (EvStart i c) s' = None /\ next EvAbort s' = None.
Proof. apply start_while_busy_deadlocks; [apply demo_busy_consistent|reflexivity..]. Defined.

Lemma serve_completes_witness :
  exists n s', (n <= 5)%nat /\
    run (demo_start :: replicate n (EvWorker 0)) (init demo_keys) = Some s' /\
    getStatus (fp s') = ReplySuccess (Some 64) ["35"%string] /\ idle s'.
Proof.
  apply serve_completes;
    [apply demo_idle|reflexivity|reflexivity|apply demo_messages|vm_compute; reflexivity].
Defined.

Lemma cancelled_is_aborted_witness :
  exists s1, next EvAbort demo_busy = Some s1 /\
    forall s2, run (replicate 3 (EvWorker 0)) s1 = Some s2 ->
      terminated s2 = true \/ (workers s2 <> [] /\ canceled (fp s2) = true) \/
      (workers s2 = [] /\ getStatus (fp s2) = ReplyAborted).
Proof.
  apply cancelled_is_aborted; [apply demo_busy_consistent|reflexivity|reflexivity|].
  vm_compute. discriminate.
Defined.

Lemma malformed_input_terminates_witness :
  exists s', run [EvStart "oops"%string "mult"%string; EvWorker 0] (init demo_keys) = Some s' /\
    terminated s' = true.
Proof. apply malformed_input_terminates; [apply demo_idle|reflexivity..]. Defined.

(** A key file for the circuit [mult]. *)
Definition demo_key_file : list Z :=
  encode_file zkey_type 1
    ((1, le_bytes 4 1) ::
     (2, encode_zkey_header (mkZKeyDesc 1 7 32 q 2 1 4 [1; 2] [3; 4] [5; 6; 7; 8]
           [9; 10; 11; 12] [13; 14] [15; 16; 17; 18])) ::
     map (fun i => (i, [])) [4; 5; 6; 7; 8; 9]).

Lemma construct_correct_witness :
  let zk := match construct [("build/mult.zkey"%string, inl demo_key_file)] ∅ with
            | Built zk => zk | _ => ∅ end in
  (forall c, is_Some (zk !! c) <-> In c (map (fun f => getfilename (fst f))
     [("build/mult.zkey"%string, inl (B := string) demo_key_file)])) /\
  (forall c h, zk !! c = Some h -> rPrime h = altBbn128r).
Proof. apply construct_correct. vm_compute. reflexivity. Defined.

(** Circuit names drop the directories and the last extension. *)
Example getfilename_demo : getfilename "build/v1.2/mult.zkey" = "mult"%string.
Proof. reflexivity. Qed.
End Witnesses.
