(* ===== verification/ProofServer.v ===== *)
(** The proof server, [src/main_proofserver.cpp], and its handlers, [src/proverapi.cpp]: the
    command line, and the requests as the router hands them over.  The endpoint has one
    thread, so a handler that never returns ends the service of requests.  The text of a
    status is a parameter; what the framework answers when a handler throws is not
    part of the repository. *)

From Stdlib Require Import Ascii String.
From stdpp Require Import gmap strings.
From S2P Require Import Prelude Limbs Gmp Mpz FrRaw FrElement RawFr BinFile BinFileFormat FileHeaders FileHeadersSpec FullProver FullProverSpec.

(** ** [std::stoi] with the radix ten *)

Definition is_space (c : ascii) : bool :=
  let n := N_of_ascii c in ((9 <=? n) && (n <=? 13) || (n =? 32))%N.
Fixpoint skip_spaces (s : list ascii) : list ascii :=
  match s with c :: s' => if is_space c then skip_spaces s' else s | [] => [] end.
Definition digit_of (c : ascii) : option Z :=
  let n := Z.of_N (N_of_ascii c) in if (48 <=? n) && (n <=? 57) then Some (n - 48) else None.

(** The number the digits at the start make; [None] when there is none. *)
Fixpoint number_of (s : list ascii) (acc : option Z) : option Z :=
  match s with
  | c :: s => match digit_of c with Some d => number_of s (Some (default 0 acc * 10 + d)) | None => acc end
  | [] => acc
  end.

(** [None]: [std::invalid_argument] or [std::out_of_range]. *)
Definition stoi (s : string) : option Z :=
  let s := skip_spaces (list_ascii_of_string s) in
  let '(sign, s) := match s with
                    | "-"%char :: s => (-1, s)
                    | "+"%char :: s => (1, s)
                    | _ => (1, s)
                    end in
  n ← number_of s None;
  let n := sign * n in
  if (- 2 ^ 31 <=? n) && (n <? 2 ^ 31) then Some n else None.

(** ** Requests *)

(** The routes of [main]; [getConfig] and [postConfig] have none. *)
Inductive request :=
| GetStatus
| PostStart
| PostStop
| PostInput (circuit body : string)
| PostCancel.

Section Server.
Context {W : World} {P : FieldParams} {G : Mpn} {MZ : Mpz}.

(** [getStatus().dump()]; [None]: it throws, because a message is no UTF-8 text. *)
Context (status_text : StatusReply -> option string).

Record Response := mkResponse { code : Z; body : string }.
Definition Ok : Response := mkResponse 200 empty_string.

Inductive outcome := Answers (r : Response) | Throws | Blocks.

(** The only thread of the endpoint takes requests unless it waits for the mutex it holds. *)
Definition free (s : System) : bool := negb (terminated s) && negb (mtx_lost s).

(** A handler: the new state and how it ends; [None]: no thread takes the request. *)
Definition handle (r : request) (s : System) : option (System * outcome) :=
  if negb (free s) then None
  else
    match r with
    | PostInput circuit body =>
        s' ← next (EvStart body circuit) s; Some (s', if mtx_lost s' then Blocks else Answers Ok)
    | PostCancel => s' ← next EvAbort s; Some (s', Answers Ok)
    | GetStatus => Some (s, match status_text (getStatus (fp s)) with Some t => Answers (mkResponse 200 t) | None => Throws end)
    | PostStart | PostStop => Some (s, Answers Ok)
    end.

(** The process: its endpoint's thread takes a request, or a worker runs a stretch. *)
Inductive server_event := Handle (r : request) | Work (i : nat).

Definition server_next (e : server_event) (s : System) : option (System * option outcome) :=
  match e with
  | Handle r => '(s, o) ← handle r s; Some (s, Some o)
  | Work i => s' ← next (EvWorker i) s; Some (s', None)
  end.

(** The responses a run sends, in order. *)
Fixpoint server_run (es : list server_event) (s : System) : option (System * list Response) :=
  match es with
  | [] => Some (s, [])
  | e :: es =>
      '(s, r) ← server_next e s; '(s, rs) ← server_run es s;
      Some (s, match r with Some (Answers r) => r :: rs | _ => rs end)
  end.

(** ** [main] *)

Inductive server_outcome :=
| Usage
| Uncaught
| Broken
| Serves (port : Z) (s : System).

Definition main_proofserver (files : string -> list Z + string) (argv : list string) : server_outcome :=
  match argv with
  | _ :: port :: (_ :: _) as zkeyFileNames =>
      match stoi port with
      | None => Uncaught
      | Some port =>
          match construct (map (fun name => (name, files name)) (drop 2 argv)) ∅ with
          | CtorThrows _ => Uncaught
          | CtorUndefined => Broken
          | Built zk => Serves port (init zk)
          end
      end
  | _ => Usage
  end.

(** ** What the server does *)

Lemma handle_consistent r s s' o : consistent s -> handle r s = Some (s', o) -> consistent s'.
Proof.
  intros Hc. unfold handle. destruct (negb (free s)); [done|]. destruct r as [| | |c b|]; try (by intros [= <- _]).
  - destruct (next (EvStart b c) s) eqn:E; cbn; [|done]. intros [= <- _]. by eapply consistent_next.
  - destruct (next EvAbort s) eqn:E; cbn; [|done]. intros [= <- _]. by eapply consistent_next.
Qed.

Lemma server_next_consistent e s s' r : consistent s -> server_next e s = Some (s', r) -> consistent s'.
Proof.
  intros Hc. destruct e as [r'|i]; cbn [server_next].
  - destruct (handle r' s) as [[s1 o]|] eqn:E; cbn; [|done]. intros [= <- _]. by eapply handle_consistent.
  - destruct (next (EvWorker i) s) eqn:E; cbn; [|done]. intros [= <- _]. by eapply consistent_next.
Qed.

Lemma server_run_cons e es s s' rs : server_run (e :: es) s = Some (s', rs) ->
  exists s1 r rs', server_next e s = Some (s1, r) /\ server_run es s1 = Some (s', rs') /\
    rs = match r with Some (Answers r) => r :: rs' | _ => rs' end.
Proof.
  cbn [server_run]. destruct (server_next e s) as [[s1 r]|]; cbn; [|done].
  destruct (server_run es s1) as [[s2 rs']|] eqn:E; cbn; [|done]. intros [= <- <-]. by exists s1, r, rs'.
Qed.

Lemma server_run_consistent es : forall s s' rs, consistent s -> server_run es s = Some (s', rs) -> consistent s'.
Proof.
  induction es as [|e es IH]; intros s s' rs Hc; [by intros [= <- _]|].
  intros (s1 & r & rs' & H1 & H2 & _)%server_run_cons. eapply IH; [|exact H2]. by eapply server_next_consistent.
Qed.

(** The request that blocks the thread. *)
Definition blocks (r : request) (s : System) : Prop :=
  match r with PostInput _ _ => status (fp s) = busy | _ => False end.

(** The response a handler sends. *)
Definition answer (r : request) (s : System) : outcome :=
  match r with
  | GetStatus => match status_text (getStatus (fp s)) with Some t => Answers (mkResponse 200 t) | None => Throws end
  | _ => Answers Ok
  end.

Lemma handle_answers s r : free s = true ->
  exists s', (blocks r s /\ handle r s = Some (s', Blocks) /\ mtx_lost s' = true /\ status (fp s') = busy) \/
    (~ blocks r s /\ handle r s = Some (s', answer r s) /\ free s' = true).
Proof.
  intros Hf. pose proof Hf as [Ht Hl]%andb_true_iff. apply negb_true_iff in Ht, Hl. unfold handle. rewrite Hf. cbn [negb].
  destruct r as [| | |c b|]; cbn [blocks answer]; try (exists s; right; split; [tauto|done]).
  - unfold next. rewrite Ht, Hl. unfold startProve. cbn [status set_pending].
    destruct (bool_decide_reflect (status (fp s) = busy)) as [Hb|Hb].
    + eexists. left. done.
    + destruct (checkPending _) as [f st]. eexists. right. split; [exact Hb|]. split; reflexivity.
  - unfold next. rewrite Ht, Hl. eexists. right. split; [tauto|]. split; reflexivity.
Qed.

(** A run in which no thread takes requests has none. *)
Lemma no_requests es : forall s s' rs, mtx_lost s = true -> status (fp s) = busy -> server_run es s = Some (s', rs) ->
  Forall (fun e => exists i, e = Work i) es /\ rs = [].
Proof.
  induction es as [|e es IH]; intros s s' rs Hl Hb; [by intros [= _ <-]|].
  intros (s1 & r & rs' & H1 & H2 & ->)%server_run_cons. destruct e as [r'|i]; cbn [server_next] in H1.
  - unfold handle, free in H1. rewrite Hl, andb_false_r in H1. done.
  - destruct (next (EvWorker i) s) as [s1'|] eqn:E; cbn in H1; [|done]. injection H1 as -> <-.
    destruct (lost_next _ _ _ Hl Hb E) as (Hl1 & Hb1 & _). destruct (IH _ _ _ Hl1 Hb1 H2) as [H3 ->].
    split; [|done]. constructor; [by exists i|done].
Qed.

(** C30: From the command line to the last request: a server that starts was given two
    arguments or more, a port, and key files of the right curve.  At any point of its run its
    thread, when it is free, takes every request and is free again after it: it answers at
    once with the code 200, a status with the text of one of the five known ones (a
    text the library refuses apart).  Except for an input that arrives while a proof
    is computed: that handler never returns, and from then on no request is answered. *)
Theorem proofserver_correct files argv port s0 es s rs :
  main_proofserver files argv = Serves port s0 -> server_run es s0 = Some (s, rs) ->
  (exists zk, construct (map (fun name => (name, files name)) (drop 2 argv)) ∅ = Built zk /\ s0 = init zk /\
    (3 <= length argv)%nat) /\
  getStatus (fp s) <> ReplyEmpty /\
  (free s = true -> forall r, exists s',
    (~ blocks r s /\ handle r s = Some (s', answer r s) /\ free s' = true) \/
    (blocks r s /\ handle r s = Some (s', Blocks) /\
     forall es' s'' rs', server_run es' s' = Some (s'', rs') -> Forall (fun e => exists i, e = Work i) es' /\ rs' = [])).
Proof.
  unfold main_proofserver. intros Hm Hr.
  assert (exists zk, construct (map (fun name => (name, files name)) (drop 2 argv)) ∅ = Built zk /\ s0 = init zk /\
    (3 <= length argv)%nat) as (zk & Hz & -> & Hn).
  { destruct argv as [|a0 [|p [|z zs]]]; try done. destruct (stoi p); [|done]. destruct (construct _ _) as [zk| |]; try done.
    injection Hm as _ <-. exists zk. split; [done|]. split; [done|]. cbn. lia. }
  pose proof (server_run_consistent _ _ _ _ (consistent_init zk) Hr) as Hc. split; [by exists zk|]. split.
  - pose proof (status_known _ Hc) as Hk. unfold getStatus. destruct (status (fp s)); try done; set_solver.
  - intros Hf r. destruct (handle_answers s r Hf) as (s' & [(H1 & H2 & H3 & H4)|H]); exists s'; [right|by left].
    do 2 (split; [done|]). intros es' s'' rs'. by apply no_requests.
Qed.
End Server.

(** ** Instance: the service of [FullProverSpec] *)

Example stoi_samples : map stoi [" 8080"; "-12x"; "+"; "99999999999"; ""]%string = [Some 8080; Some (-12); None; None; None].
Proof. reflexivity. Qed.

Section Witness.
#[local] Existing Instances Fr_params demo_world Mpn_reference Mpz_reference.

Definition server_files (name : string) : list Z + string :=
  if (name =? "mult.zkey")%string then inl demo_key_file else inr "open"%string.
Definition server_argv : list string := ["proverServer"; "8080"; "mult.zkey"]%string.
Definition server_start : System :=
  match main_proofserver server_files server_argv with Serves _ s => s | _ => init ∅ end.
Definition server_events : list server_event := [Handle GetStatus; Handle (PostInput "mult" "{}"); Work 0].
Definition server_text (r : StatusReply) : option string :=
  match r with ReplyBusy => Some "busy"%string | ReplyReady => Some "ready"%string | ReplyFailed _ => None | _ => Some "other"%string end.
Definition server_busy : System := default server_start (fst <$> server_run server_text server_events server_start).

Lemma proofserver_correct_witness :
  handle server_text GetStatus server_busy = Some (server_busy, Answers (mkResponse 200 "busy")) /\
  exists s', handle server_text (PostInput "mult" "{}") server_busy = Some (s', Blocks) /\
    forall es' s'' rs', server_run server_text es' s' = Some (s'', rs') -> Forall (fun e => exists i, e = Work i) es' /\ rs' = [].
Proof.
  split; [vm_compute; reflexivity|].
  destruct (proofserver_correct server_text server_files server_argv 8080 server_start server_events server_busy [mkResponse 200 "ready"; Ok])
    as (_ & _ & H); [vm_compute; reflexivity..|].
  destruct (H ltac:(vm_compute; reflexivity) (PostInput "mult" "{}")) as (s' & [[Hn _]|(_ & H1 & H2)]).
  - destruct Hn. vm_compute. reflexivity.
  - exists s'. split; [exact H1|exact H2].
Defined.
End Witness.
