(* ===== verification/ProverApi.v ===== *)
(** The C interface of the prover, [src/prover.cpp] and [src/prover.h]: the object behind
    its handle, made from the bytes of a key, and the exported functions with their
    codes, buffers and messages. *)

From Stdlib Require Import String Ascii Zmod.
From stdpp Require Import pretty.
From S2P Require Import Prelude Limbs Gmp Mpz SplitParStr FrRaw FrElement FrElementWp FrMpz RawFr BinFile FileHeaders FullProver Field Fft Tower TowerText Curve Engine Pairing Json Verify ProofJson Groth16.

(** ** Calls *)

(** A C++ call returns, throws, or is undefined: it reads or writes outside the memory it
    was given, or does not end. *)
Inductive thrown := StdException (what : string) | InvalidWitnessLength (what : string).
Inductive call (A : Type) := Done (x : A) | Throws (e : thrown) | Undef.
#[global] Arguments Done {A} x. #[global] Arguments Throws {A} e. #[global] Arguments Undef {A}.

Definition cbind {A B} (m : call A) (f : A -> call B) : call B :=
  match m with Done x => f x | Throws e => Throws e | Undef => Undef end.
Notation "x <~! m ; k" := (cbind m (fun x => k)) (at level 90, m at next level, k at level 200, right associativity).
Notation "' p <~! m ; k" := (cbind m (fun '(p) => k))
  (at level 90, p pattern, m at next level, k at level 200, right associativity).

(** A method of the container reader, on a reader. *)
Definition on_file {A} (m : M A) (f : BinFile) : call (BinFile * A) :=
  match m f with
  | (f, Val x) => Done (f, x)
  | (_, Throw e) => Throws (StdException (what e))
  | (_, BinFile.Undefined) => Undef
  end.

Definition openBin (fileData _type : list Z) (maxVersion : Z) : call BinFile :=
  match openBinFile fileData _type maxVersion with
  | (f, Val _) => Done f
  | (_, Throw e) => Throws (StdException (what e))
  | (_, BinFile.Undefined) => Undef
  end.

Definition of_json {A} (m : attempt A) : call A :=
  match m with Value x => Done x | Thrown w => Throws (StdException w) | Json.Undefined => Undef end.

Definition of_option {A} (m : option A) : call A := match m with Some x => Done x | None => Undef end.

(** ** Messages *)

Definition NUL : ascii := "000".

Fixpoint cstring (s : list ascii) : list ascii :=
  match s with
  | [] => []
  | c :: s => if (c =? NUL)%char then [] else c :: cstring s
  end.

(** [memcpy] of a text to the start of a buffer, and a final null character. *)
Definition write_text (buffer t : list ascii) : call (list ascii) :=
  if (length t + 1 <=? length buffer)%nat then Done (t ++ NUL :: drop (length t + 1) buffer) else Undef.

(** [snprintf(error_msg, maxsize, "%s", what)], if there is a buffer. *)
Definition CopyError (error_msg : option (list ascii)) (maxsize : nat) (what : list ascii) : call (option (list ascii)) :=
  match error_msg with
  | None => Done None
  | Some b =>
      if (maxsize =? 0)%nat then Done (Some b)
      else b <~! write_text b (take (maxsize - 1) (cstring what)); Done (Some b)
  end.

(** ** Sizes *)

Definition ProofBufferMinSize : Z := 810.
Definition PublicBufferMinSize (count : Z) : Z := u64 (u64 (count * 82) + 4).

(** ** What the pointers of a key point to *)

(** A field element, a point or a coefficient at an offset, inside the bytes. *)
Definition field_at (d : list Z) (p : Z) : option Element := bs ← bytes_at d p 32; Some (element_of_bytes bs).
Definition point1_at (d : list Z) (p : Z) : option (PointAffine (E := Element)) :=
  x ← field_at d p; y ← field_at d (p + 32); Some (mkPointAffine x y).
Definition point2_at (d : list Z) (p : Z) : option (PointAffine (E := F2El Element)) :=
  xa ← field_at d p; xb ← field_at d (p + 32); ya ← field_at d (p + 64); yb ← field_at d (p + 96);
  Some (mkPointAffine (mkF2 xa xb) (mkF2 ya yb)).
Definition u32_at (d : list Z) (p : Z) : option Z := bs ← bytes_at d p 4; Some (le_value bs).
Definition coef_at (d : list Z) (p : Z) : option Coef :=
  m ← u32_at d p; c ← u32_at d (p + 4); s ← u32_at d (p + 8); v ← field_at d (p + 12); Some (mkCoef m c s v).

(** The first [n] objects of an array from [p] on, as far as they are inside the bytes. *)
Fixpoint array_at {A} (at_ : Z -> option A) (size : Z) (n : nat) (p : Z) : list A :=
  match n with
  | O => []
  | S n => match at_ p with Some x => x :: array_at at_ size n (p + size) | None => [] end
  end.

(** ** The object *)

(** [zkey_mapped]: the bytes the pointers of the object lead to are still there. *)
Record Groth16Prover := mkGroth16Prover {
  zkey_mapped : bool;
  zkeyHeader : ZKeyHeader;
  prover : Prover Element
}.

(** What the threads and the random generator do in one call. *)
Record Choices := mkChoices {
  ch_threads : Z;
  ch_roots : list (Z * nat);
  ch_logs : ProveLogs;
  ch_random_r : list Z;
  ch_random_s : list Z
}.

Section Api.
Context {G : Mpn} {MZ : Mpz} (EN : EngineData Element) (fuel : nat).
#[local] Existing Instance Fq_params.

Definition PrimeIsValid (prime : Z) : bool := prime =? altBbn128r.

(** [makeProver] of the header and the six sections. *)
Definition make_prover (ch : Choices) (d : list Z) (h : ZKeyHeader) (s4 s5 s6 s7 s8 s9 : Z) : call (Prover Element) :=
  let nVars := FileHeaders.nVars h in let nPublic := FileHeaders.nPublic h in
  let n := FileHeaders.domainSize h in let nCoefs := FileHeaders.nCoefs h in
  alpha1 <~! of_option (point1_at d (FileHeaders.vk_alpha1 h));
  beta1 <~! of_option (point1_at d (FileHeaders.vk_beta1 h));
  beta2 <~! of_option (point2_at d (FileHeaders.vk_beta2 h));
  delta1 <~! of_option (point1_at d (FileHeaders.vk_delta1 h));
  delta2 <~! of_option (point2_at d (FileHeaders.vk_delta2 h));
  r <~! of_option (makeProver fuel (ch_threads ch) (ch_roots ch) nVars nPublic n nCoefs alpha1 beta1 beta2 delta1 delta2
    (array_at (coef_at d) 44 (Z.to_nat nCoefs) (s4 + 4))
    (array_at (point1_at d) 64 (Z.to_nat nVars) s5)
    (array_at (point1_at d) 64 (Z.to_nat nVars) s6)
    (array_at (point2_at d) 128 (Z.to_nat nVars) s7)
    (array_at (point1_at d) 64 (Z.to_nat (u32 (u32 (nVars - nPublic) - 1))) s8)
    (array_at (point1_at d) 64 (Z.to_nat n) s9));
  match r with inl what => Throws (StdException what) | inr p => Done p end.

(** The constructor [Groth16Prover]. *)
Definition Groth16Prover_new (ch : Choices) (zkey_buffer : list Z) : call Groth16Prover :=
  zkey <~! openBin zkey_buffer zkey_type 1;
  '(zkey, h) <~! on_file zkey_loadHeader zkey;
  if negb (PrimeIsValid (rPrime h)) then Throws (StdException "zkey curve not supported")
  else
    '(zkey, s4) <~! on_file (getSectionData 4 0) zkey;
    '(zkey, s5) <~! on_file (getSectionData 5 0) zkey;
    '(zkey, s6) <~! on_file (getSectionData 6 0) zkey;
    '(zkey, s7) <~! on_file (getSectionData 7 0) zkey;
    '(zkey, s8) <~! on_file (getSectionData 8 0) zkey;
    '(zkey, s9) <~! on_file (getSectionData 9 0) zkey;
    p <~! make_prover ch zkey_buffer h s4 s5 s6 s7 s8 s9;
    Done (mkGroth16Prover true h p).

(** [BuildPublicString]: the rounds from [i] on, and the text. *)
Fixpoint public_json (wtnsData : list Z) (n : nat) (i : Z) (jsonPublic : json) : call json :=
  match n with
  | O => Done jsonPublic
  | S n =>
      e <~! of_option (field_at wtnsData (32 * i));
      jsonPublic <~! of_json (push_back jsonPublic (jstring (RawFr_toString (P := Fr_params) (RawFr_toMontgomery (P := Fr_params) e))));
      public_json wtnsData n (i + 1) jsonPublic
  end.
Definition BuildPublicString (wtnsData : list Z) (nPublic : Z) : call (list ascii) :=
  j <~! public_json wtnsData (Z.to_nat nPublic) 1 jnull; of_option (dump j).

Definition length_message (circuit witness : Z) : string :=
  "Invalid witness length. Circuit: " +:+ pretty circuit +:+ ", witness: " +:+ pretty witness.

(** [Groth16Prover::prove] up to the pointer [wtnsData]: the bytes from it on. *)
Definition open_witness (g : Groth16Prover) (wtns_buffer : list Z) : call (list Z) :=
  wtns <~! openBin wtns_buffer wtns_type 2;
  '(wtns, h) <~! on_file wtns_loadHeader wtns;
  let nVars := FileHeaders.nVars (zkeyHeader g) in
  if negb (nVars =? wtns_nVars h) then Throws (InvalidWitnessLength (length_message nVars (wtns_nVars h)))
  else if negb (PrimeIsValid (prime h)) then Throws (StdException "different wtns curve")
  else
    '(wtns, p) <~! on_file (getSectionData 2 0) wtns;
    Done (drop (Z.to_nat p) wtns_buffer).

(** [Groth16Prover::prove]: the texts of the proof and of the public values. *)
Definition Groth16Prover_prove (ch : Choices) (g : Groth16Prover) (wtns_buffer : list Z) : call (list ascii * list ascii) :=
  wtnsData <~! open_witness g wtns_buffer;
  if negb (zkey_mapped g) then Undef
  else
    proof <~! of_option (Groth16.prove (FO2 := F2_ops (en_f2 EN)) (cv_fa (en_g1 EN)) (cv_fa (en_g2 EN)) (ch_threads ch) (ch_logs ch)
      (ch_random_r ch) (ch_random_s ch) (prover g)
      (array_at (field_at wtnsData) 32 (Z.to_nat (FileHeaders.nVars (zkeyHeader g))) 0));
    j <~! of_json (toJson proof);
    stringProof <~! of_option (dump j);
    stringPublic <~! BuildPublicString wtnsData (FileHeaders.nPublic (zkeyHeader g));
    Done (stringProof, stringPublic).
End Api.

(** ** The exported functions *)

Definition PROVER_OK : Z := 0.
Definition PROVER_ERROR : Z := 1.
Definition PROVER_ERROR_SHORT_BUFFER : Z := 2.
Definition PROVER_INVALID_WITNESS_LENGTH : Z := 3.

(** The buffers and variables [groth16_prover_prove] has pointers to; [None] is [NULL]. *)
Record Buffers := mkBuffers {
  proof_buffer : option (list ascii);
  proof_size : option Z;
  public_buffer : option (list ascii);
  public_size : option Z;
  error_msg : option (list ascii)
}.

Definition set_error (b : Buffers) (m : option (list ascii)) : Buffers :=
  mkBuffers (proof_buffer b) (proof_size b) (public_buffer b) (public_size b) m.

(** The handlers: [return code] after [CopyError]. *)
Definition fail (code : Z) (b : Buffers) (maxsize : nat) (what : string) : call (Z * Buffers) :=
  m <~! CopyError (error_msg b) maxsize (chars what); Done (code, set_error b m).

Definition short_buffer_message (requiredProofSize origProofSize requiredPublicSize origPublicSize : Z) : string :=
  "Buffer insufficient for generated proof. Required - proof: " +:+ pretty requiredProofSize +:+
  " (provided: " +:+ pretty origProofSize +:+ "), public: " +:+ pretty requiredPublicSize +:+
  " (provided: " +:+ pretty origPublicSize +:+ ")".

(** The end of [groth16_prover_prove], with the two texts. *)
Definition return_texts (stringProof stringPublic : list ascii) (b : Buffers) (maxsize : nat)
    (bufProof bufPublic : list ascii) (sizeProof sizePublic : Z) : call (Z * Buffers) :=
  let lenProof := Z.of_nat (length stringProof) in let lenPublic := Z.of_nat (length stringPublic) in
  if (lenProof >=? 2 ^ 64 - 1) || (lenPublic >=? 2 ^ 64 - 1) then
    fail PROVER_ERROR b maxsize "Proof or public data too large"
  else
    let requiredProofSize := u64 (lenProof + 1) in let requiredPublicSize := u64 (lenPublic + 1) in
    if (sizeProof <? requiredProofSize) || (sizePublic <? requiredPublicSize) then
      fail PROVER_ERROR_SHORT_BUFFER
        (mkBuffers (Some bufProof) (Some requiredProofSize) (Some bufPublic) (Some requiredPublicSize) (error_msg b)) maxsize
        (short_buffer_message requiredProofSize sizeProof requiredPublicSize sizePublic)
    else
      bufProof <~! write_text bufProof stringProof;
      bufPublic <~! write_text bufPublic stringPublic;
      Done (PROVER_OK, mkBuffers (Some bufProof) (Some lenProof) (Some bufPublic) (Some lenPublic) (error_msg b)).

Section Exported.
Context {G : Mpn} {MZ : Mpz} (EN : EngineData Element) (fuel : nat).

Definition groth16_public_size_for_zkey_buf (zkey_buffer : list Z) (public_size : option Z) (error_msg : option (list ascii))
    (maxsize : nat) : call (Z * option Z * option (list ascii)) :=
  match zkey <~! openBin zkey_buffer zkey_type 1; on_file zkey_loadHeader zkey with
  | Done (_, h) =>
      match public_size with
      | None => Undef
      | Some _ => Done (PROVER_OK, Some (PublicBufferMinSize (FileHeaders.nPublic h)), error_msg)
      end
  | Throws (StdException what | InvalidWitnessLength what) =>
      m <~! CopyError error_msg maxsize (chars what); Done (PROVER_ERROR, public_size, m)
  | Undef => Undef
  end.

(** A file is its bytes, or the message of the exception of opening it. *)
Definition groth16_public_size_for_zkey_file (zkey_file : list Z + string) (public_size : option Z)
    (error_msg : option (list ascii)) (maxsize : nat) : call (Z * option Z * option (list ascii)) :=
  match zkey_file with
  | inl zkey_buffer => groth16_public_size_for_zkey_buf zkey_buffer public_size error_msg maxsize
  | inr what => m <~! CopyError error_msg maxsize (chars what); Done (PROVER_ERROR, public_size, m)
  end.

Definition groth16_proof_size : Z := ProofBufferMinSize.

(** [prover_object] is the variable the handle goes to, [None] for [NULL]. *)
Definition groth16_prover_create (ch : Choices) (prover_object : option (option Groth16Prover)) (zkey_buffer : option (list Z))
    (error_msg : option (list ascii)) (maxsize : nat) : call (Z * option (option Groth16Prover) * option (list ascii)) :=
  match (match prover_object, zkey_buffer with
         | None, _ => Throws (StdException "Null prover object")
         | Some _, None => Throws (StdException "Null zkey buffer")
         | Some _, Some zkey_buffer => Groth16Prover_new fuel ch zkey_buffer
         end) with
  | Done prover => Done (PROVER_OK, Some (Some prover), error_msg)
  | Throws (StdException what | InvalidWitnessLength what) =>
      m <~! CopyError error_msg maxsize (chars what); Done (PROVER_ERROR, prover_object, m)
  | Undef => Undef
  end.

(** The mapping ends with the file loader, when the function returns. *)
Definition unmap (g : Groth16Prover) : Groth16Prover := mkGroth16Prover false (zkeyHeader g) (prover g).

Definition groth16_prover_create_zkey_file (ch : Choices) (prover_object : option (option Groth16Prover))
    (zkey_file : list Z + string) (error_msg : option (list ascii)) (maxsize : nat) :
    call (Z * option (option Groth16Prover) * option (list ascii)) :=
  match zkey_file with
  | inr what => m <~! CopyError error_msg maxsize (chars what); Done (PROVER_ERROR, prover_object, m)
  | inl data =>
      '(code, o, m) <~! groth16_prover_create ch prover_object (Some data) error_msg maxsize;
      Done (code, if code =? PROVER_OK then option_map (option_map unmap) o else o, m)
  end.

Definition groth16_prover_prove (ch : Choices) (prover_object : option Groth16Prover) (wtns_buffer : option (list Z))
    (b : Buffers) (maxsize : nat) : call (Z * Buffers) :=
  match prover_object with None => fail PROVER_ERROR b maxsize "Null prover object" | Some g =>
  match wtns_buffer with None => fail PROVER_ERROR b maxsize "Null witness buffer" | Some wtns_buffer =>
  match proof_buffer b with None => fail PROVER_ERROR b maxsize "Null proof buffer" | Some bufProof =>
  match proof_size b with None => fail PROVER_ERROR b maxsize "Null proof size" | Some sizeProof =>
  match public_buffer b with None => fail PROVER_ERROR b maxsize "Null public buffer" | Some bufPublic =>
  match public_size b with None => fail PROVER_ERROR b maxsize "Null public size" | Some sizePublic =>
    match Groth16Prover_prove EN ch g wtns_buffer with
    | Done (stringProof, stringPublic) =>
        return_texts stringProof stringPublic b maxsize bufProof bufPublic sizeProof sizePublic
    | Throws (InvalidWitnessLength what) => fail PROVER_INVALID_WITNESS_LENGTH b maxsize what
    | Throws (StdException what) => fail PROVER_ERROR b maxsize what
    | Undef => Undef
    end
  end end end end end end.

Definition groth16_prover (ch_create ch : Choices) (zkey_buffer wtns_buffer : option (list Z)) (b : Buffers) (maxsize : nat) :
    call (Z * Buffers) :=
  '(error, prover, m) <~! groth16_prover_create ch_create (Some None) zkey_buffer (error_msg b) maxsize;
  if negb (error =? PROVER_OK) then Done (error, set_error b m)
  else groth16_prover_prove ch (default None prover) wtns_buffer (set_error b m) maxsize.

Definition groth16_prover_zkey_file (ch_create ch : Choices) (zkey_file : list Z + string) (wtns_buffer : option (list Z))
    (b : Buffers) (maxsize : nat) : call (Z * Buffers) :=
  match zkey_file with
  | inr what => fail PROVER_ERROR b maxsize what
  | inl data => groth16_prover ch_create ch (Some data) wtns_buffer b maxsize
  end.
End Exported.
