(* ===== verification/ProverApiSpec.v ===== *)
(** The codes, buffers and messages of the exported functions of the prover, and how long
    a handle lives. *)

From Stdlib Require Import String Ascii Zmod.
From S2P Require Import Prelude Limbs Gmp Mpz FrRaw FrElement FrMpz RawFr BinFile FileHeaders FullProver Field Fft Tower TowerText Curve Engine Json Verify ProofJson Groth16 ProverApi.

(** ** Messages *)

Lemma cstring_plain t b : Forall (fun c => c <> NUL) t -> cstring (t ++ NUL :: b) = t.
Proof.
  induction 1 as [|c t Hc _ IH]; [done|]. cbn [app cstring]. destruct (Ascii.eqb_spec c NUL); [done|]. by rewrite IH.
Qed.

Lemma cstring_no_nul s : Forall (fun c => c <> NUL) (cstring s).
Proof.
  induction s as [|c s IH]; [apply Forall_nil_2|]. cbn [cstring]. destruct (Ascii.eqb_spec c NUL); [apply Forall_nil_2|].
  by apply Forall_cons_2.
Qed.

(** The buffer has the cells its size says. *)
Definition message_ok (m : option (list ascii)) (maxsize : nat) : Prop :=
  match m with Some b => (maxsize <= length b)%nat | None => True end.

(** The buffer [m] becomes [m'], which holds as much of the message as fits. *)
Definition reports (maxsize : nat) (what : string) (m m' : option (list ascii)) : Prop :=
  match m, m' with
  | None, None => True
  | Some b, Some b' =>
      length b' = length b /\ drop maxsize b' = drop maxsize b /\
      ((0 < maxsize)%nat -> cstring b' = take (maxsize - 1) (cstring (chars what)))
  | _, _ => False
  end.

Lemma CopyError_spec m maxsize what : message_ok m maxsize ->
  exists m', CopyError m maxsize (chars what) = Done m' /\ reports maxsize what m m'.
Proof.
  intros Hm. destruct m as [b|]; [|by exists None]. cbn [message_ok] in Hm. unfold CopyError.
  destruct (Nat.eqb_spec maxsize 0) as [->|Hz]; [exists (Some b); split; [done|split; [done|split; [done|lia]]]|].
  set (t := take (maxsize - 1) (cstring (chars what))).
  assert (Ht : (length t + 1 <= maxsize)%nat) by (unfold t; rewrite length_take; lia).
  unfold write_text. destruct (Nat.leb_spec (length t + 1) (length b)) as [_|]; [|lia]. cbn [cbind].
  eexists. split; [done|]. cbn [reports]. split; [|split].
  - rewrite length_app. cbn [length]. rewrite length_drop. lia.
  - rewrite drop_app_ge by lia. replace (maxsize - length t)%nat with (S (maxsize - (length t + 1))) by lia.
    cbn [drop]. rewrite drop_drop. f_equal. lia.
  - intros _. apply cstring_plain. apply Forall_take, cstring_no_nul.
Qed.

Lemma fail_spec code b maxsize what : message_ok (error_msg b) maxsize ->
  exists m, fail code b maxsize what = Done (code, set_error b m) /\ reports maxsize what (error_msg b) m.
Proof.
  intros Hm. destruct (CopyError_spec _ _ what Hm) as (m & E & H). exists m. unfold fail. by rewrite E.
Qed.

(** ** [groth16_prover_prove] *)

(** The first argument that is [NULL], by the message it gets. *)
Definition first_null {A B} (prover_object : option A) (wtns_buffer : option B) (b : Buffers) : option string :=
  match prover_object, wtns_buffer, proof_buffer b, proof_size b, public_buffer b, public_size b with
  | None, _, _, _, _, _ => Some "Null prover object"
  | _, None, _, _, _, _ => Some "Null witness buffer"
  | _, _, None, _, _, _ => Some "Null proof buffer"
  | _, _, _, None, _, _ => Some "Null proof size"
  | _, _, _, _, None, _ => Some "Null public buffer"
  | _, _, _, _, _, None => Some "Null public size"
  | _, _, _, _, _, _ => None
  end%string.

(** A buffer that holds a text and its final null, and is otherwise as before. *)
Definition holds_text (t b b' : list ascii) : Prop :=
  length b' = length b /\ take (length t + 1) b' = t ++ [NUL] /\ drop (length t + 1) b' = drop (length t + 1) b.

Lemma write_text_spec b t : (length t + 1 <= length b)%nat -> exists b', write_text b t = Done b' /\ holds_text t b b'.
Proof.
  intros H. unfold write_text. destruct (Nat.leb_spec (length t + 1) (length b)) as [_|]; [|lia].
  eexists. split; [done|]. replace (t ++ NUL :: drop (length t + 1) b) with ((t ++ [NUL]) ++ drop (length t + 1) b)
    by (by rewrite <- app_assoc).
  assert (Hl : length (t ++ [NUL]) = (length t + 1)%nat) by (by rewrite length_app).
  split; [|split].
  - rewrite length_app, Hl, length_drop. lia.
  - rewrite <- Hl. apply take_app_length.
  - rewrite <- Hl. apply drop_app_length.
Qed.

(** The outcome for two texts. *)
Definition returned (sp spub : list ascii) (b : Buffers) (maxsize : nat) (r : call (Z * Buffers))
    (bp bpub : list ascii) (np npub : Z) : Prop :=
  let needp := Z.of_nat (length sp) + 1 in let needpub := Z.of_nat (length spub) + 1 in
  if (needp <=? np) && (needpub <=? npub) then
    exists bp' bpub', holds_text sp bp bp' /\ holds_text spub bpub bpub' /\
      r = Done (PROVER_OK, mkBuffers (Some bp') (Some (needp - 1)) (Some bpub') (Some (needpub - 1)) (error_msg b))
  else
    exists m, reports maxsize (short_buffer_message needp np needpub npub) (error_msg b) m /\
      r = Done (PROVER_ERROR_SHORT_BUFFER, mkBuffers (Some bp) (Some needp) (Some bpub) (Some needpub) m).

Lemma return_texts_spec sp spub b maxsize bp bpub np npub :
  message_ok (error_msg b) maxsize -> np <= Z.of_nat (length bp) -> npub <= Z.of_nat (length bpub) ->
  Z.of_nat (length sp) + 1 < 2 ^ 64 -> Z.of_nat (length spub) + 1 < 2 ^ 64 ->
  returned sp spub b maxsize (return_texts sp spub b maxsize bp bpub np npub) bp bpub np npub.
Proof.
  intros Hm Hp Hpub Hsp Hspub. unfold returned, return_texts.
  destruct (Z.geb_spec (Z.of_nat (length sp)) (2 ^ 64 - 1)); [lia|].
  destruct (Z.geb_spec (Z.of_nat (length spub)) (2 ^ 64 - 1)); [lia|]. cbn [orb].
  rewrite !u64_id by (unfold is_u64; lia).
  destruct (Z.ltb_spec np (Z.of_nat (length sp) + 1)), (Z.leb_spec (Z.of_nat (length sp) + 1) np); try lia; cbn [orb andb].
  - destruct (fail_spec PROVER_ERROR_SHORT_BUFFER
      (mkBuffers (Some bp) (Some (Z.of_nat (length sp) + 1)) (Some bpub) (Some (Z.of_nat (length spub) + 1)) (error_msg b)) maxsize
      (short_buffer_message (Z.of_nat (length sp) + 1) np (Z.of_nat (length spub) + 1) npub) Hm) as (m & E & Hr).
    exists m. split; [exact Hr|exact E].
  - destruct (Z.ltb_spec npub (Z.of_nat (length spub) + 1)), (Z.leb_spec (Z.of_nat (length spub) + 1) npub); try lia.
    + destruct (fail_spec PROVER_ERROR_SHORT_BUFFER
        (mkBuffers (Some bp) (Some (Z.of_nat (length sp) + 1)) (Some bpub) (Some (Z.of_nat (length spub) + 1)) (error_msg b)) maxsize
        (short_buffer_message (Z.of_nat (length sp) + 1) np (Z.of_nat (length spub) + 1) npub) Hm) as (m & E & Hr).
      exists m. split; [exact Hr|exact E].
    + destruct (write_text_spec bp sp) as (bp1 & E1 & T1); [lia|].
      destruct (write_text_spec bpub spub) as (bp2 & E2 & T2); [lia|].
      exists bp1, bp2. split; [exact T1|]. split; [exact T2|]. rewrite E1. cbn [cbind]. rewrite E2. cbn [cbind].
      by rewrite !Z.add_simpl_r.
Qed.

Section Spec.
Context {G : Mpn} {MZ : Mpz} (EN : EngineData Element) (fuel : nat).

(** The sizes are not more than the cells of their buffers. *)
Record honest (b : Buffers) (maxsize : nat) : Prop := {
  hn_proof : forall c n, proof_buffer b = Some c -> proof_size b = Some n -> n <= Z.of_nat (length c);
  hn_public : forall c n, public_buffer b = Some c -> public_size b = Some n -> n <= Z.of_nat (length c);
  hn_message : message_ok (error_msg b) maxsize
}.

Definition prove_outcome (ch : Choices) (prover_object : option Groth16Prover) (wtns_buffer : option (list Z))
    (b : Buffers) (maxsize : nat) (r : call (Z * Buffers)) : Prop :=
  match first_null prover_object wtns_buffer b with
  | Some what => exists m, r = Done (PROVER_ERROR, set_error b m) /\ reports maxsize what (error_msg b) m
  | None =>
      exists g w bp np bpub npub, prover_object = Some g /\ wtns_buffer = Some w /\
        proof_buffer b = Some bp /\ proof_size b = Some np /\ public_buffer b = Some bpub /\ public_size b = Some npub /\
        match Groth16Prover_prove EN ch g w with
        | Undef => r = Undef
        | Throws (InvalidWitnessLength what) =>
            exists m, r = Done (PROVER_INVALID_WITNESS_LENGTH, set_error b m) /\ reports maxsize what (error_msg b) m
        | Throws (StdException what) =>
            exists m, r = Done (PROVER_ERROR, set_error b m) /\ reports maxsize what (error_msg b) m
        | Done (sp, spub) =>
            Z.of_nat (length sp) + 1 < 2 ^ 64 -> Z.of_nat (length spub) + 1 < 2 ^ 64 ->
            returned sp spub b maxsize r bp bpub np npub
        end
  end.

Lemma prover_prove_spec ch prover_object wtns_buffer b maxsize : honest b maxsize ->
  prove_outcome ch prover_object wtns_buffer b maxsize (groth16_prover_prove EN ch prover_object wtns_buffer b maxsize).
Proof.
  intros [Hp Hpub Hm]. unfold prove_outcome, first_null, groth16_prover_prove.
  destruct prover_object as [g|]; [|by apply fail_spec]. destruct wtns_buffer as [w|]; [|by apply fail_spec].
  destruct (proof_buffer b) as [bp|] eqn:Ebp; [|by apply fail_spec].
  destruct (proof_size b) as [np|] eqn:Enp; [|by apply fail_spec].
  destruct (public_buffer b) as [bpub|] eqn:Ebpub; [|by apply fail_spec].
  destruct (public_size b) as [npub|] eqn:Enpub; [|by apply fail_spec].
  exists g, w, bp, np, bpub, npub. do 6 (split; [done|]).
  destruct (Groth16Prover_prove EN ch g w) as [[sp spub]|[what|what]|]; [|by apply fail_spec..|done].
  intros Hsp Hspub. apply return_texts_spec; try done; [by eapply Hp|by eapply Hpub].
Qed.
End Spec.

(** ** How long a handle lives *)

Lemma cbind_Done {A B} (m : call A) (f : A -> call B) y : (x <~! m; f x) = Done y -> exists x, m = Done x /\ f x = Done y.
Proof. destruct m as [x| |]; [|done..]. by exists x. Qed.

Section Handles.
Context {G : Mpn} {MZ : Mpz}.

Lemma Groth16Prover_new_mapped fuel ch data g : Groth16Prover_new fuel ch data = Done g -> zkey_mapped g = true.
Proof.
  unfold Groth16Prover_new. intros (zkey & _ & ((zkey1 & h) & _ & E)%cbind_Done)%cbind_Done.
  destruct (negb (PrimeIsValid (rPrime h))); [done|].
  repeat (apply cbind_Done in E as ((? & ?) & _ & E)). apply cbind_Done in E as (p & _ & [= <-]). done.
Qed.

(** An object made from bytes that stay: the handle points to it. *)
Lemma create_Done fuel ch slot data msg maxsize o m :
  groth16_prover_create fuel ch (Some slot) (Some data) msg maxsize = Done (PROVER_OK, o, m) ->
  exists g, o = Some (Some g) /\ m = msg /\ Groth16Prover_new fuel ch data = Done g.
Proof.
  unfold groth16_prover_create. destruct (Groth16Prover_new fuel ch data) as [g|[w|w]|]; [|by intros (? & _ & ?)%cbind_Done..|done].
  intros [= <- <-]. by exists g.
Qed.
End Handles.

(** C22: [groth16_prover_prove], on every branch: the first argument that is [NULL] decides the
    message of an error with code 1; a witness of the wrong length has code 3 and every
    other exception code 1, with its message cut to the buffer and terminated, and the
    buffers and sizes untouched; texts that do not fit have code 2, both sizes set to what
    is needed and no byte of the two buffers written; otherwise the code is 0, each buffer
    begins with its text and a null character, is otherwise as before, and the sizes are
    the lengths of the texts.  Nothing outside the buffers is written. *)
Theorem prover_prove_codes {G : Mpn} {MZ : Mpz} (EN : EngineData Element) ch prover_object wtns_buffer b maxsize :
  honest b maxsize ->
  prove_outcome EN ch prover_object wtns_buffer b maxsize (groth16_prover_prove EN ch prover_object wtns_buffer b maxsize).
Proof. apply prover_prove_spec. Qed.

(** C24: A handle made by [groth16_prover_create_zkey_file] is the one [groth16_prover_create]
    makes from the bytes of the file, with pointers to memory that is unmapped when the
    function returns: a proof with it is undefined behaviour as soon as the witness is
    accepted, whatever the key. *)
Theorem file_handle_dangles {G : Mpn} {MZ : Mpz} (EN : EngineData Element) fuel ch ch' slot data msg maxsize g m w wtnsData
    bp np bpub npub msg' maxsize' :
  groth16_prover_create_zkey_file fuel ch (Some slot) (inl data) msg maxsize = Done (PROVER_OK, Some (Some g), m) ->
  open_witness g w = Done wtnsData ->
  (exists g0, groth16_prover_create fuel ch (Some slot) (Some data) msg maxsize = Done (PROVER_OK, Some (Some g0), m) /\
     zkey_mapped g0 = true /\ zkeyHeader g0 = zkeyHeader g /\ prover g0 = prover g) /\
  groth16_prover_prove EN ch' (Some g) (Some w) (mkBuffers (Some bp) (Some np) (Some bpub) (Some npub) msg') maxsize' = Undef.
Proof.
  intros E Ew. unfold groth16_prover_create_zkey_file in E. apply cbind_Done in E as (((code & o) & m0) & E & [= -> E2 ->]).
  destruct (create_Done _ _ _ _ _ _ _ _ E) as (g0 & -> & -> & En). cbn in E2. injection E2 as <-.
  split; [exists g0; split; [exact E|split; [by eapply Groth16Prover_new_mapped|done]]|].
  cbn [groth16_prover_prove proof_buffer proof_size public_buffer public_size]. unfold Groth16Prover_prove. rewrite Ew. done.
Qed.
