(* ===== verification/ProverFile.v ===== *)
(** A proving key as a file: the bytes of its sections, and the object the constructor
    makes from them. *)

From Stdlib Require Import String Ascii Zmod.
From stdpp Require Import gmap.
From S2P Require Import Prelude Limbs Gmp Mpz FrRaw FrElement FrElementWp FrMpz RawFr BinFile BinFileSpec BinFileFormat FileHeaders FileHeadersSpec FullProver Group Parallel Schedule Field Dft Powers Quotient Fft FftSpec FftFr Tower TowerText Curve CurveSpec GroupLaw CurveClass Engine Pairing Json Verify ProofJson Groth16 QuotientSpec ProverPoints Groth16Spec ProverApi.

(** ** Objects as bytes *)

Definition point1_bytes (p : PointAffine (E := Element)) : list Z := element_bytes (ax p) ++ element_bytes (ay p).
Definition point2_bytes (p : PointAffine (E := F2El Element)) : list Z :=
  element_bytes (f2a (ax p)) ++ element_bytes (f2b (ax p)) ++ element_bytes (f2a (ay p)) ++ element_bytes (f2b (ay p)).
Definition coef_bytes (c : Coef) : list Z :=
  le_bytes 4 (cf_m c) ++ le_bytes 4 (cf_c c) ++ le_bytes 4 (cf_s c) ++ element_bytes (cf_coef c).

Definition limbs1 (p : PointAffine (E := Element)) : Prop := limbs 4 (ax p) /\ limbs 4 (ay p).
Definition limbs2 (p : PointAffine (E := F2El Element)) : Prop :=
  limbs 4 (f2a (ax p)) /\ limbs 4 (f2b (ax p)) /\ limbs 4 (f2a (ay p)) /\ limbs 4 (f2b (ay p)).
Definition limbs_coef (c : Coef) : Prop :=
  is_u32 (cf_m c) /\ is_u32 (cf_c c) /\ is_u32 (cf_s c) /\ limbs 4 (cf_coef c).

(** Reads the object written at [p]. *)
Definition reads_back {A} (at_ : list Z -> Z -> option A) (enc : A -> list Z) (ok : A -> Prop) (size : Z) : Prop :=
  forall x, ok x -> Z.of_nat (length (enc x)) = size /\
    forall pre post p, p = Z.of_nat (length pre) -> at_ (pre ++ enc x ++ post) p = Some x.

Lemma read_field : reads_back field_at element_bytes (limbs 4) 32.
Proof.
  intros x Hx. destruct (limbs_bytes x Hx) as (Hv & Hl & Hb). split; [by rewrite Hl|].
  intros pre post p ->. unfold field_at. pose proof (bytes_at_app pre (element_bytes x) post) as H. rewrite Hl in H.
  rewrite H. destruct (element_of_bytes_spec _ Hl Hb) as [H1 H2].
  change (Some (element_of_bytes (element_bytes x)) = Some x). apply f_equal, (eval_inj 4); [done|done|]. by rewrite H2, Hv.
Qed.

Lemma read_u32 : reads_back u32_at (le_bytes 4) is_u32 4.
Proof.
  intros x Hx. split; [by rewrite le_bytes_length|]. intros pre post p ->. unfold u32_at.
  pose proof (bytes_at_app pre (le_bytes 4 x) post) as H. rewrite le_bytes_length in H. rewrite H.
  cbn [base.mbind option_bind]. by rewrite le_value_bytes.
Qed.

(** The object after the ones already read. *)
Lemma reads_next {A} at_ enc ok size (R : reads_back (A := A) at_ enc ok size) x d pre post p :
  ok x -> d = pre ++ enc x ++ post -> p = Z.of_nat (length pre) -> at_ d p = Some x.
Proof. intros Hx -> Hp. by apply R. Qed.

Ltac lengths := rewrite ?length_app, ?le_bytes_length; unfold Element in *; lia.
Ltac nth_object R pre x post :=
  match goal with |- base.mbind _ (_ ?d ?p) = _ =>
    rewrite (reads_next _ _ _ _ R x d pre post p);
      [cbn [base.mbind option_bind]|assumption|by rewrite <- ?app_assoc|lengths]
  end.
Tactic Notation "nth_field" constr(pre) constr(x) constr(post) := nth_object read_field pre x post.
Tactic Notation "nth_u32" constr(pre) constr(x) constr(post) := nth_object read_u32 pre x post.

Lemma field_length e : limbs 4 e -> length (element_bytes e) = 32%nat.
Proof. intros H. apply limbs_bytes, H. Qed.

Lemma read_point1 : reads_back point1_at point1_bytes limbs1 64.
Proof.
  intros [x y] [Hx Hy]. cbn [ax ay] in *. pose proof (field_length x Hx). pose proof (field_length y Hy).
  unfold point1_bytes. cbn [ax ay]. split; [lengths|].
  intros pre post p ->. unfold point1_at. nth_field pre x (element_bytes y ++ post).
  by nth_field (pre ++ element_bytes x) y post.
Qed.

Lemma read_point2 : reads_back point2_at point2_bytes limbs2 128.
Proof.
  intros [[x y] [z t]] (Hx & Hy & Hz & Ht). cbn [ax ay f2a f2b] in *.
  pose proof (field_length x Hx). pose proof (field_length y Hy). pose proof (field_length z Hz). pose proof (field_length t Ht).
  unfold point2_bytes. cbn [ax ay f2a f2b]. split; [lengths|].
  intros pre post p ->. unfold point2_at.
  nth_field pre x (element_bytes y ++ element_bytes z ++ element_bytes t ++ post).
  nth_field (pre ++ element_bytes x) y (element_bytes z ++ element_bytes t ++ post).
  nth_field (pre ++ element_bytes x ++ element_bytes y) z (element_bytes t ++ post).
  by nth_field (pre ++ element_bytes x ++ element_bytes y ++ element_bytes z) t post.
Qed.

Lemma read_coef : reads_back coef_at coef_bytes limbs_coef 44.
Proof.
  intros [m c s v] (Hm & Hc & Hs & Hv). cbn [cf_m cf_c cf_s cf_coef] in *. pose proof (field_length v Hv).
  unfold coef_bytes. cbn [cf_m cf_c cf_s cf_coef]. split; [lengths|].
  intros pre post p ->. unfold coef_at.
  nth_u32 pre m (le_bytes 4 c ++ le_bytes 4 s ++ element_bytes v ++ post).
  nth_u32 (pre ++ le_bytes 4 m) c (le_bytes 4 s ++ element_bytes v ++ post).
  nth_u32 (pre ++ le_bytes 4 m ++ le_bytes 4 c) s (element_bytes v ++ post).
  by nth_field (pre ++ le_bytes 4 m ++ le_bytes 4 c ++ le_bytes 4 s) v post.
Qed.

(** An array of objects. *)
Lemma array_at_spec {A} at_ enc ok size (R : reads_back (A := A) at_ enc ok size) l : Forall ok l ->
  forall pre post p, p = Z.of_nat (length pre) ->
  array_at (at_ (pre ++ flat_map enc l ++ post)) size (length l) p = l.
Proof.
  induction 1 as [|x l Hx Hl IH]; intros pre post p ->; [done|]. destruct (R x Hx) as [Hlen Hat].
  cbn [array_at length flat_map]. rewrite <- app_assoc, Hat by done. f_equal. rewrite app_assoc. apply IH.
  rewrite length_app. lia.
Qed.

Lemma bytes_length {A} at_ enc ok size (R : reads_back (A := A) at_ enc ok size) l : Forall ok l ->
  Z.of_nat (length (flat_map enc l)) = size * Z.of_nat (length l).
Proof.
  induction 1 as [|x l Hx Hl IH]; [cbn; lia|]. cbn [flat_map length]. rewrite length_app, Nat2Z.inj_add, IH, (proj1 (R x Hx)). lia.
Qed.

(** ** Methods that keep the table of sections *)

Definition keeps {A} (m : M A) : Prop := forall f, sections (fst (m f)) = sections f.

Lemma keeps_bind {A B} (m : M A) (k : A -> M B) : keeps m -> (forall a, keeps (k a)) -> keeps (BinFile.mbind m k).
Proof.
  intros Hm Hk f. unfold BinFile.mbind. specialize (Hm f). destruct (m f) as [f' [a|e|]]; cbn [fst] in Hm |- *; [|done..].
  by rewrite Hk.
Qed.

Create HintDb keeps.
Ltac keep :=
  repeat first
    [ solve [auto with keeps nocore]
    | apply keeps_bind; [|intros ?]
    | match goal with |- keeps (if ?b then _ else _) => destruct b end
    | match goal with |- keeps (match ?o with _ => _ end) => destruct o end
    | by intros ? ].

Lemma keeps_lookup id p : keeps (lookup_section id p).
Proof. unfold lookup_section. keep. Qed.
#[export] Hint Resolve keeps_lookup : keeps.
Lemma keeps_start id p : keeps (startReadSection id p).
Proof. unfold startReadSection. keep. Qed.
Lemma keeps_end c : keeps (endReadSection c).
Proof. unfold endReadSection. keep. Qed.
Lemma keeps_u32 : keeps readU32LE.
Proof. unfold readU32LE, load. keep. Qed.
Lemma keeps_read n : keeps (read n).
Proof. unfold read. keep. Qed.
#[export] Hint Resolve keeps_start keeps_end keeps_u32 keeps_read : keeps.
Lemma keeps_import {MZ : Mpz} n : keeps (import_number n).
Proof. unfold import_number. keep. Qed.
#[export] Hint Resolve keeps_import : keeps.

Lemma keeps_zkey {MZ : Mpz} : keeps zkey_loadHeader.
Proof. unfold zkey_loadHeader, getSectionSize. keep. Qed.

Lemma keeps_wtns {MZ : Mpz} : keeps wtns_loadHeader.
Proof. unfold wtns_loadHeader. keep. Qed.

(** *** The data of a section *)

(** The file has [bs] in its first section [id]. *)
Definition section_data (f : BinFile) (d : list Z) (id : Z) (bs : list Z) : Prop :=
  exists pre post, d = pre ++ bs ++ post /\ on_file (getSectionData id 0) f = Done (f, Z.of_nat (length pre)).

Lemma section_data_first f d id bs : size f = Z.of_nat (length d) -> first_section f id bs -> data f = d -> section_data f d id bs.
Proof.
  intros Hsz (s & l & Hs & (H1 & H2 & H3) & Hb) <-. rewrite Hsz in H3.
  exists (take (Z.to_nat (start s)) (data f)), (drop (Z.to_nat (ssize s)) (drop (Z.to_nat (start s)) (data f))).
  split; [subst bs; unfold section_bytes; by rewrite take_drop, take_drop|].
  unfold on_file, getSectionData, lookup_section, BinFile.mbind, gets. rewrite Hs.
  change ((s :: l) !! Z.to_nat 0) with (Some s). unfold mret, sret. do 2 f_equal. rewrite length_take. lia.
Qed.

Lemma section_data_keeps f f' d id bs : sections f' = sections f -> section_data f d id bs -> section_data f' d id bs.
Proof.
  intros Hs (pre & post & Hd & E). exists pre, post. split; [done|]. revert E.
  unfold on_file, getSectionData, lookup_section, BinFile.mbind, gets. rewrite Hs.
  destruct (sections f !! i32 id) as [l|]; [|done]. unfold mret, throw, sret. destruct (l !! Z.to_nat 0) as [s|]; [|done].
  intros [= ->]. done.
Qed.

Lemma altBbn128r_q {MZ : Mpz} {ML : MpzLaws MZ} : altBbn128r = q (P := Fr_params).
Proof.
  unfold altBbn128r. replace "21888242871839275222246405745257275088548364400416034343698204186575808495617"%string
    with (decimal (q (P := Fr_params))) by (vm_compute; reflexivity). unfold decimal.
  rewrite <- mpz_get_str_spec. apply mpz_set_get_str.
Qed.

(** ** Key files *)

Section KeyFile.
Context {G : Mpn} {GL : MpnLaws G} {MZ : Mpz} {ML : MpzLaws MZ}.
Notation Fr := Fr_params.

Lemma bytes_at_inv d p n bs : bytes_at d p n = Some bs ->
  exists pre post, d = pre ++ bs ++ post /\ p = Z.of_nat (length pre).
Proof.
  unfold bytes_at. destruct ((0 <=? p) && (p + Z.of_nat n <=? Z.of_nat (length d))) eqn:E; [|done].
  apply andb_true_iff in E as [E1%Z.leb_le E2%Z.leb_le]. intros [= <-].
  exists (take (Z.to_nat p) d), (drop n (drop (Z.to_nat p) d)). split; [by rewrite !take_drop|].
  rewrite length_take. lia.
Qed.

Lemma object_at {A} at_ enc ok size (R : reads_back (A := A) at_ enc ok size) x d p n :
  ok x -> bytes_at d p n = Some (enc x) -> at_ d p = Some x.
Proof. intros Hx Hb. apply bytes_at_inv in Hb as (pre & post & Hd & Hp). by eapply reads_next. Qed.

Lemma section_array {A} at_ enc ok size (R : reads_back (A := A) at_ enc ok size) f d id l : Forall ok l ->
  section_data f d id (flat_map enc l) ->
  exists s, on_file (getSectionData id 0) f = Done (f, s) /\ array_at (at_ d) size (length l) s = l.
Proof.
  intros Hl (pre & post & Hd & E). exists (Z.of_nat (length pre)). split; [done|]. subst d. by eapply array_at_spec.
Qed.

(** The header of the key [p]; [gamma2] is in the file and not in the object. *)
Definition key_desc (p : Prover Element) (gamma2 : PointAffine (E := F2El Element)) : ZKeyDesc :=
  mkZKeyDesc 32 (q (P := Fq_params)) 32 (q (P := Fr)) (nVars p) (nPublic p) (domainSize p)
    (point1_bytes (vk_alpha1 p)) (point1_bytes (vk_beta1 p)) (point2_bytes (vk_beta2 p)) (point2_bytes gamma2)
    (point1_bytes (vk_delta1 p)) (point2_bytes (vk_delta2 p)).

Definition first_payload (secs : list (Z * list Z)) (id : Z) (bs : list Z) : Prop := exists l, payloads id secs = bs :: l.

(** Sections that hold the key [p]; other sections, and their order, do not matter. *)
Record key_sections (secs : list (Z * list Z)) (p : Prover Element) (gamma2 : PointAffine (E := F2El Element)) : Prop := {
  ks_1 : first_payload secs 1 (le_bytes 4 1);
  ks_2 : first_payload secs 2 (encode_zkey_header (key_desc p gamma2));
  ks_4 : exists n4, length n4 = 4%nat /\ first_payload secs 4 (n4 ++ flat_map coef_bytes (coefs p));
  ks_5 : first_payload secs 5 (flat_map point1_bytes (pointsA p));
  ks_6 : first_payload secs 6 (flat_map point1_bytes (pointsB1 p));
  ks_7 : first_payload secs 7 (flat_map point2_bytes (pointsB2 p));
  ks_8 : first_payload secs 8 (flat_map point1_bytes (pointsC p));
  ks_9 : first_payload secs 9 (flat_map point1_bytes (pointsH p))
}.

(** The objects of the key are arrays of limbs, as many as the counts say. *)
Record key_objects (p : Prover Element) (gamma2 : PointAffine (E := F2El Element)) : Prop := {
  ko_vars : is_u32 (nVars p);
  ko_public : 0 <= nPublic p < nVars p;
  ko_domain : is_u32 (domainSize p);
  ko_alpha1 : limbs1 (vk_alpha1 p);
  ko_beta1 : limbs1 (vk_beta1 p);
  ko_beta2 : limbs2 (vk_beta2 p);
  ko_gamma2 : limbs2 gamma2;
  ko_delta1 : limbs1 (vk_delta1 p);
  ko_delta2 : limbs2 (vk_delta2 p);
  ko_coefs : Forall limbs_coef (coefs p) /\ nCoefs p = Z.of_nat (length (coefs p));
  ko_A : Forall limbs1 (pointsA p) /\ nVars p = Z.of_nat (length (pointsA p));
  ko_B1 : Forall limbs1 (pointsB1 p) /\ nVars p = Z.of_nat (length (pointsB1 p));
  ko_B2 : Forall limbs2 (pointsB2 p) /\ nVars p = Z.of_nat (length (pointsB2 p));
  ko_C : Forall limbs1 (pointsC p) /\ nVars p - nPublic p - 1 = Z.of_nat (length (pointsC p));
  ko_H : Forall limbs1 (pointsH p) /\ domainSize p = Z.of_nat (length (pointsH p))
}.

Lemma key_desc_ok p gamma2 : key_objects p gamma2 -> zkey_desc_ok (key_desc p gamma2).
Proof.
  intros H. pose proof (q_bounds (P := Fq_params)). pose proof (q_bounds (P := Fr)).
  assert (2 ^ 254 < 2 ^ (8 * 32)) by (apply Z.pow_lt_mono_r; lia).
  destruct (read_point1 _ (ko_alpha1 _ _ H)) as [L1 _]. destruct (read_point1 _ (ko_beta1 _ _ H)) as [L2 _].
  destruct (read_point2 _ (ko_beta2 _ _ H)) as [L3 _]. destruct (read_point2 _ (ko_gamma2 _ _ H)) as [L4 _].
  destruct (read_point1 _ (ko_delta1 _ _ H)) as [L5 _]. destruct (read_point2 _ (ko_delta2 _ _ H)) as [L6 _].
  pose proof (ko_vars _ _ H) as Hv. pose proof (ko_public _ _ H) as Hp. unfold is_u32 in Hv.
  unfold zkey_desc_ok, key_desc. cbn [d_n8q d_n8r d_q d_r d_nVars d_nPublic d_domainSize d_alpha1 d_beta1 d_beta2 d_gamma2 d_delta1 d_delta2].
  rewrite L1, L2, L3, L4, L5, L6. repeat split; try lia; try apply H.
Qed.

(** The object [makeProver] is given: the points of the key, read through its pointers. *)
Lemma make_prover_reads fuel ch d h p gamma2 s4 s5 s6 s7 s8 s9 n :
  key_objects p gamma2 -> header_describes d n h (key_desc p gamma2) -> FileHeaders.nCoefs h = nCoefs p ->
  array_at (coef_at d) 44 (length (coefs p)) (s4 + 4) = coefs p ->
  array_at (point1_at d) 64 (length (pointsA p)) s5 = pointsA p ->
  array_at (point1_at d) 64 (length (pointsB1 p)) s6 = pointsB1 p ->
  array_at (point2_at d) 128 (length (pointsB2 p)) s7 = pointsB2 p ->
  array_at (point1_at d) 64 (length (pointsC p)) s8 = pointsC p ->
  array_at (point1_at d) 64 (length (pointsH p)) s9 = pointsH p ->
  make_prover fuel ch d h s4 s5 s6 s7 s8 s9 =
    (r <~! of_option (makeProver fuel (ch_threads ch) (ch_roots ch) (nVars p) (nPublic p) (domainSize p) (nCoefs p)
      (vk_alpha1 p) (vk_beta1 p) (vk_beta2 p) (vk_delta1 p) (vk_delta2 p)
      (coefs p) (pointsA p) (pointsB1 p) (pointsB2 p) (pointsC p) (pointsH p));
    match r with inl what => Throws (StdException what) | inr p => Done p end).
Proof.
  intros H (_ & _ & _ & _ & Ev & Ep & Ed & _ & B1 & B2 & B3 & _ & B5 & B6) En A4 A5 A6 A7 A8 A9.
  unfold key_desc in *. cbn [d_nVars d_nPublic d_domainSize d_alpha1 d_beta1 d_beta2 d_delta1 d_delta2] in *.
  unfold make_prover. rewrite Ev, Ep, Ed, En.
  rewrite (object_at _ _ _ _ read_point1 _ _ _ _ (ko_alpha1 _ _ H) B1), (object_at _ _ _ _ read_point1 _ _ _ _ (ko_beta1 _ _ H) B2),
    (object_at _ _ _ _ read_point2 _ _ _ _ (ko_beta2 _ _ H) B3), (object_at _ _ _ _ read_point1 _ _ _ _ (ko_delta1 _ _ H) B5),
    (object_at _ _ _ _ read_point2 _ _ _ _ (ko_delta2 _ _ H) B6). cbn [of_option cbind].
  pose proof (ko_vars _ _ H) as Hv. pose proof (ko_public _ _ H) as Hp. unfold is_u32 in Hv.
  rewrite !(u32_id (nVars p - nPublic p)) by word_lia. rewrite u32_id by word_lia.
  rewrite (proj2 (ko_coefs _ _ H)), (proj2 (ko_C _ _ H)), !Nat2Z.id, A4, A8.
  rewrite (proj2 (ko_H _ _ H)), Nat2Z.id, A9.
  rewrite (proj2 (ko_A _ _ H)) at 2. rewrite (proj2 (ko_B1 _ _ H)) at 2. rewrite (proj2 (ko_B2 _ _ H)) at 2.
  rewrite !Nat2Z.id, A5, A6, A7. done.
Qed.

Lemma key_file_new fuel ch v secs p gamma2 :
  describable zkey_type v secs -> v <= 1 -> Forall is_byte (encode_file zkey_type v secs) ->
  key_sections secs p gamma2 -> key_objects p gamma2 ->
  exists h, FileHeaders.nVars h = nVars p /\ FileHeaders.nPublic h = nPublic p /\
    Groth16Prover_new fuel ch (encode_file zkey_type v secs) =
      (r <~! of_option (makeProver fuel (ch_threads ch) (ch_roots ch) (nVars p) (nPublic p) (domainSize p) (nCoefs p)
        (vk_alpha1 p) (vk_beta1 p) (vk_beta2 p) (vk_delta1 p) (vk_delta2 p)
        (coefs p) (pointsA p) (pointsB1 p) (pointsB2 p) (pointsC p) (pointsH p));
      match r with inl what => Throws (StdException what) | inr p => Done (mkGroth16Prover true h p) end).
Proof.
  intros Hdesc Hv Hb [S1 S2 S4 S5 S6 S7 S8 S9] H. set (d := encode_file zkey_type v secs) in *.
  destruct S4 as (n4 & L4 & S4).
  destruct (openBinFile_encoded zkey_type v secs 1 Hdesc Hv Hb) as (f & Ho & Hwf & Hdata & _ & _ & Hr & Hsec). fold d in Ho, Hdata, Hsec.
  assert (Hfirst : forall id bs, first_payload secs id bs -> first_section f id bs).
  { intros id bs [l Hl]. destruct (Hsec id) as [E I]. rewrite <- Hdata, Hl in E. by eapply first_section_encoded. }
  destruct (zkey_loadHeader_at f (key_desc p gamma2) (n4 ++ flat_map coef_bytes (coefs p))) as (f' & h & El & Hh); [by auto|by auto|by apply key_desc_ok|by auto|by auto|by auto|].
  rewrite Hdata in Hh.
  assert (Hdat : forall id bs, first_payload secs id bs -> section_data f' d id bs).
  { intros id bs Hp. eapply section_data_keeps; [|eapply section_data_first; [|by apply Hfirst|done]].
    - pose proof (keeps_zkey f) as K. by rewrite El in K.
    - rewrite <- Hdata. apply Hwf. }
  destruct (Hdat 4 _ S4) as (pre & post & Ed & E4).
  assert (A4 : array_at (coef_at d) 44 (length (coefs p)) (Z.of_nat (length pre) + 4) = coefs p).
  { rewrite Ed, <- app_assoc, app_assoc. apply (array_at_spec _ _ _ _ read_coef); [apply H|]. rewrite length_app. lia. }
  destruct (section_array _ _ _ _ read_point1 f' d 5 (pointsA p)) as (s5 & E5 & A5); [apply H|by apply Hdat|].
  destruct (section_array _ _ _ _ read_point1 f' d 6 (pointsB1 p)) as (s6 & E6 & A6); [apply H|by apply Hdat|].
  destruct (section_array _ _ _ _ read_point2 f' d 7 (pointsB2 p)) as (s7 & E7 & A7); [apply H|by apply Hdat|].
  destruct (section_array _ _ _ _ read_point1 f' d 8 (pointsC p)) as (s8 & E8 & A8); [apply H|by apply Hdat|].
  destruct (section_array _ _ _ _ read_point1 f' d 9 (pointsH p)) as (s9 & E9 & A9); [apply H|by apply Hdat|].
  pose proof Hh as (_ & _ & _ & Er & Ev & Ep & _ & En & _). cbn [key_desc d_r d_n8r d_nVars d_nPublic] in Er, Ev, Ep, En.
  assert (En' : FileHeaders.nCoefs h = nCoefs p).
  { destruct (ko_coefs _ _ H) as [Hc Hl]. rewrite En, Hl, length_app, Nat2Z.inj_add, (bytes_length _ _ _ _ read_coef _ Hc), L4.
    change (12 + 32) with 44. rewrite Z.add_comm, (Z.mul_comm 44), Z.div_add_l by lia. change (Z.of_nat 4 / 44) with 0. lia. }
  exists h. split; [done|]. split; [done|].
  unfold Groth16Prover_new, openBin. rewrite Ho. cbn [cbind]. unfold on_file at 1. rewrite El. cbn [cbind].
  unfold PrimeIsValid. rewrite Er, altBbn128r_q, Z.eqb_refl. cbn [negb].
  rewrite E4. cbn [cbind]. rewrite E5. cbn [cbind]. rewrite E6. cbn [cbind]. rewrite E7. cbn [cbind]. rewrite E8. cbn [cbind].
  rewrite E9. cbn [cbind].
  rewrite (make_prover_reads fuel ch d h p gamma2 _ s5 s6 s7 s8 s9 _ H Hh En' A4 A5 A6 A7 A8 A9).
  destruct (of_option (makeProver _ _ _ _ _ _ _ _ _ _ _ _ _ _ _ _ _ _)) as [[what|p']|e|]; reflexivity.
Qed.

(** ** Witness files *)

Record witness_sections (secs : list (Z * list Z)) (ws : list Element) : Prop := {
  ws_1 : first_payload secs 1 (encode_wtns_header (mkWtnsHeader 32 (q (P := Fr)) (Z.of_nat (length ws))));
  ws_2 : first_payload secs 2 (flat_map element_bytes ws)
}.

Lemma witness_file_opens g v secs ws :
  describable wtns_type v secs -> v <= 2 -> Forall is_byte (encode_file wtns_type v secs) ->
  witness_sections secs ws -> Forall (limbs 4) ws -> FileHeaders.nVars (zkeyHeader g) = Z.of_nat (length ws) ->
  Z.of_nat (length ws) < 2 ^ 32 ->
  exists post, open_witness g (encode_file wtns_type v secs) = Done (flat_map element_bytes ws ++ post).
Proof.
  intros Hdesc Hv Hb [S1 S2] Hw Hn Hn32. set (d := encode_file wtns_type v secs) in *.
  destruct (openBinFile_encoded wtns_type v secs 2 Hdesc Hv Hb) as (f & Ho & Hwf & Hdata & _ & _ & Hr & Hsec). fold d in Ho, Hdata, Hsec.
  assert (Hfirst : forall id bs, first_payload secs id bs -> first_section f id bs).
  { intros id bs [l Hl]. destruct (Hsec id) as [E I]. rewrite <- Hdata, Hl in E. by eapply first_section_encoded. }
  destruct (wtns_loadHeader_at f (mkWtnsHeader 32 (q (P := Fr)) (Z.of_nat (length ws))) Hwf Hr (Hfirst _ _ S1)) as [p El].
  { pose proof (q_bounds (P := Fr)). assert (2 ^ 254 < 2 ^ (8 * 32)) by (apply Z.pow_lt_mono_r; lia).
    unfold wtns_header_ok, is_u32. cbn [n8 prime wtns_nVars]. lia. }
  assert (Hdat : section_data (set_reading None (set_pos p f)) d 2 (flat_map element_bytes ws)).
  { eapply section_data_keeps; [|eapply section_data_first; [|by apply Hfirst|done]]; [done|rewrite <- Hdata; apply Hwf]. }
  destruct Hdat as (pre & post & Ed & E2). exists post.
  unfold open_witness, openBin. rewrite Ho. cbn [cbind]. unfold on_file at 1. rewrite El. cbn [cbind prime wtns_nVars].
  rewrite Hn, Z.eqb_refl. cbn [negb]. unfold PrimeIsValid. rewrite altBbn128r_q, Z.eqb_refl. cbn [negb].
  rewrite E2. cbn [cbind]. by rewrite Ed, Nat2Z.id, drop_app_length.
Qed.

Lemma witness_array ws post : Forall (limbs 4) ws ->
  array_at (field_at (flat_map element_bytes ws ++ post)) 32 (length ws) 0 = ws.
Proof. intros H. by apply (array_at_spec _ _ _ _ read_field ws H []). Qed.

(** The element [i] of the witness. *)
Lemma witness_element ws post i e : Forall (limbs 4) ws -> ws !! i = Some e ->
  field_at (flat_map element_bytes ws ++ post) (32 * Z.of_nat i) = Some e.
Proof.
  intros H He. pose proof (take_drop_middle ws i e He) as Hw. rewrite <- Hw, flat_map_app. cbn [flat_map]. rewrite <- !app_assoc.
  assert (Hi : limbs 4 e) by (by eapply Forall_lookup_1).
  eapply (reads_next _ _ _ _ read_field); [exact Hi|reflexivity|].
  rewrite (bytes_length _ _ _ _ read_field) by (by apply Forall_take). rewrite length_take_le; [done|].
  apply lookup_lt_Some in He. lia.
Qed.
End KeyFile.
