(* ===== verification/ProverEnd.v ===== *)
(** The exported prover from files to texts: what [groth16_prover] returns for a key file
    and a witness file. *)

From Stdlib Require Import String Ascii Zmod.
From stdpp Require Import gmap.
From S2P Require Import Prelude Limbs Gmp Mpz SplitParStr FrRaw FrElement FrElementWp FrMpz RawFr BinFile BinFileSpec BinFileFormat FileHeaders FileHeadersSpec FullProver Group Parallel Schedule Primes Field Dft Powers Quotient Fft FftSpec FftFr ExtField Tower TowerSpec TowerBn TowerFq TowerText TowerDefault Curve CurveSpec GroupLaw CurveClass Engine Pairing Json Verify ProofJson Groth16 QuotientSpec ProverPoints Groth16Spec ProverApi ProverApiSpec ProverFile.

(** ** The text of the public values *)

Section Public.
Context {G : Mpn} {GL : MpnLaws G} {MZ : Mpz} {ML : MpzLaws MZ}.
#[local] Existing Instance Fr_params.

(** The decimal numbers of the residues of the witness values [1], ..., [n]. *)
Definition public_strings (ws : list Element) (n : nat) : list json :=
  map (fun e => jstring (decimal (eval e mod q))) (take n (drop 1 ws)).

(** As JSON: an array, and [null] when there is none. *)
Definition public_value (ws : list Element) (n : nat) : json :=
  match public_strings ws n with [] => jnull | l => jarray l end.

Lemma written_value e : limbs 4 e -> RawFr_toString (RawFr_toMontgomery e) = decimal (eval e mod q).
Proof.
  intros He. apply toString_decimal. split; [apply Z.mod_pos_bound, q_pos|].
  unfold RawFr_toMontgomery, Fr_rawToMontgomery. rewrite rawR2_eq.
  eapply rep_cast; [apply Fr_rawMMul_spec; [done|apply R2_rep]|]. unfold mont. solve_mont.
Qed.

Definition extend (j : json) (l : list json) : json :=
  match l, j with [], _ => j | _, jarray l0 => jarray (l0 ++ l) | _, _ => jarray l end.

Lemma public_json_spec ws post : Forall (limbs 4) ws ->
  forall n i l, (i + n <= length ws)%nat -> (0 < i)%nat ->
  public_json (flat_map element_bytes ws ++ post) n (Z.of_nat i) (match l with [] => jnull | _ => jarray l end) =
  Done (match l ++ map (fun e => jstring (decimal (eval e mod q))) (take n (drop i ws)) with [] => jnull | l => jarray l end).
Proof.
  intros Hw. induction n as [|n IH]; intros i l Hi Hpos.
  - cbn [public_json]. rewrite take_0. cbn [map]. rewrite app_nil_r. by destruct l.
  - destruct (lookup_lt_is_Some_2 ws i) as [e He]; [lia|].
    cbn [public_json]. rewrite (witness_element ws post i e Hw He). cbn [of_option cbind].
    rewrite written_value by (by eapply Forall_lookup_1).
    assert (Hpush : push_back (match l with [] => jnull | _ => jarray l end) (jstring (decimal (eval e mod q))) =
      Value (jarray (l ++ [jstring (decimal (eval e mod q))]))) by (by destruct l).
    rewrite Hpush. cbn [of_json cbind]. replace (Z.of_nat i + 1) with (Z.of_nat (S i)) by lia.
    rewrite (drop_S _ _ _ He). cbn [take map].
    specialize (IH (S i) (l ++ [jstring (decimal (eval e mod q))]) ltac:(lia) ltac:(lia)).
    rewrite <- app_assoc in IH. cbn [app] in IH. rewrite <- IH. f_equal. by destruct l.
Qed.

Lemma dump_strings (l : list json) : Forall (fun j => exists s, dump j = Some s /\ (length s <= 79)%nat) l -> l <> [] ->
  exists s, dump (jarray l) = Some s /\ (length s <= 80 * length l + 1)%nat.
Proof.
  intros Hl Hne. cbn [dump]. set (go := fix go l := match l with [] => Some [] | v :: l => d ← dump v; ds ← go l; Some (d :: ds) end).
  assert (Hgo : exists ds, go l = Some ds /\ length ds = length l /\ Forall (fun d => length d <= 79)%nat ds).
  { clear Hne. induction Hl as [|j l (s & Es & Ls) _ (ds & Ed & Ld & Fd)]; [by exists []|].
    exists (s :: ds). cbn [go]. rewrite Es. cbn [base.mbind option_bind]. rewrite Ed. cbn [base.mbind option_bind length].
    split; [done|]. split; [by f_equal|]. by apply Forall_cons_2. }
  destruct Hgo as (ds & Ed & Ld & Fd). rewrite Ed. cbn [base.mbind option_bind]. eexists. split; [done|].
  cbn [length]. rewrite length_app. cbn [length].
  assert (Hj : (length (joined ds) + 1 <= 80 * length ds)%nat).
  { assert (ds <> []) by (intros ->; destruct l; [done|discriminate]). rewrite length_joined by done.
    clear -Fd. induction Fd as [|d ds Hd _ IH]; [cbn; lia|]. cbn [sum_list_with length]. lia. }
  lia.
Qed.

Lemma decimal_residue v : (length (chars (decimal (v mod q))) <= 77)%nat.
Proof.
  rewrite chars_length. apply decimal_bound; [|lia]. pose proof (Z.mod_pos_bound v q q_pos) as H.
  pose proof q_bounds. assert (2 ^ 254 < 10 ^ Z.of_nat 77) by (vm_compute; reflexivity). lia.
Qed.

(** The text fits the size [groth16_public_size_for_zkey_buf] reports, unless there is no
    public value. *)
Lemma public_text ws n : (n < length ws)%nat ->
  exists s, dump (public_value ws n) = Some s /\
    ((0 < n)%nat -> (length s + 1 <= 82 * n + 4)%nat) /\ (n = 0%nat -> s = chars "null").
Proof.
  intros Hn. unfold public_value, public_strings. destruct n as [|n].
  { rewrite take_0. cbn [map]. exists (chars "null"). split; [done|]. split; [lia|done]. }
  set (l := map _ _). assert (Hl : length l = S n).
  { unfold l. rewrite length_map, length_take, length_drop. unfold Element in *. lia. }
  destruct (dump_strings l) as (s & Es & Ls).
  - unfold l. clear. induction (take (S n) (drop 1 ws)) as [|e es IH]; [apply Forall_nil_2|].
    cbn [map]. apply Forall_cons_2; [|exact IH]. rewrite dump_decimal. eexists. split; [done|].
    cbn [length]. rewrite length_app. cbn [length]. pose proof (decimal_residue (eval e)). lia.
  - intros E. by rewrite E in Hl.
  - exists s. rewrite Hl in Ls. split; [destruct l; [done|exact Es]|]. split; [lia|done].
Qed.
End Public.

(** ** Objects of the engine *)

#[local] Existing Instances Fq_params Fq RawFr_rep bn2 F2_rep.
#[local] Existing Instance RawFr_field | 0.
Notation G1 := (curve_point (0%K : Kq) (1 + 1 + 1)%K).
Notation G2 := (curve_point (0%K : Kq2) (of_pair twist_b : Kq2)).

Lemma stands_limbs1 (p : PointAffine (E := Element)) A : stands_affine p A -> limbs1 p /\ residue (ax p) /\ residue (ay p).
Proof.
  assert (He : forall (e : Element) (x : Kq), f_rep e x -> limbs 4 e /\ residue e).
  { intros e x [Hx Hr]. split; [by eapply rep_limbs|]. by exists (Zmod.to_Z x). }
  unfold limbs1. destruct A as [[x y]|]; cbn [stands_affine]; intros [[]%He []%He]; tauto.
Qed.

Lemma stands_limbs2 (p : PointAffine (E := F2El Element)) (A : apoint (K := Kq2)) : stands_affine p A ->
  limbs2 p /\ Forall residue [f2a (ax p); f2b (ax p); f2a (ay p); f2b (ay p)].
Proof.
  assert (He : forall (e : F2El Element) (x : Kq2), f_rep e x -> (limbs 4 (f2a e) /\ limbs 4 (f2b e)) /\ residue (f2a e) /\ residue (f2b e)).
  { intros e x [[Hx Hr] [Hy Hs]]. split; [split; by eapply rep_limbs|].
    split; [by exists (Zmod.to_Z (fst x))|by exists (Zmod.to_Z (snd x))]. }
  unfold limbs2. destruct A as [[x y]|]; cbn [stands_affine]; intros [[[] []]%He [[] []]%He];
    (split; [tauto|repeat (apply Forall_cons_2; [assumption|]); apply Forall_nil_2]).
Qed.

Definition with_fft (p : Prover Element) (F : Fft Element) : Prover Element :=
  mkProver (nVars p) (nPublic p) (domainSize p) (nCoefs p) (vk_alpha1 p) (vk_beta1 p) (vk_beta2 p) (vk_delta1 p) (vk_delta2 p)
    (coefs p) (pointsA p) (pointsB1 p) (pointsB2 p) (pointsC p) (pointsH p) F.

Section End.
Context {G : Mpn} {GL : MpnLaws G} {MZ : Mpz} {ML : MpzLaws MZ}.

(** What a run is about: a key [p] with the points [k] of the two curves and its file, a
    witness and its file, and what the threads and the generator do. *)
Record prover_run (p : Prover Element) (gamma2 : PointAffine (E := F2El Element)) (k : KeyPoints G1 G2) (d : nat)
    (ws : list Element) (zkey wtns : list Z) (ch_create ch : Choices) (fuel : nat) : Prop := {
  pr_zkey : exists v secs, zkey = encode_file zkey_type v secs /\ describable zkey_type v secs /\ v <= 1 /\
    Forall is_byte zkey /\ key_sections secs p gamma2;
  pr_wtns : exists v secs, wtns = encode_file wtns_type v secs /\ describable wtns_type v secs /\ v <= 2 /\
    Forall is_byte wtns /\ witness_sections secs ws;
  pr_points : key_points 0%K (1 + 1 + 1)%K 0%K (of_pair twist_b) p k;
  pr_gamma2 : limbs2 gamma2;
  pr_sizes : key_sizes 0%K (1 + 1 + 1)%K 0%K (of_pair twist_b) p k ws;
  pr_power : (d <= 27)%nat;
  pr_domain : domainSize p = 2 ^ Z.of_nat d;
  pr_coefs : Forall (fun c => is_u32 (cf_m c) /\ coef_ok ws (2 ^ Z.of_nat d) c) (coefs p);
  pr_count : nCoefs p = Z.of_nat (length (coefs p));
  pr_values : Forall wt_ok ws;
  pr_fuel : (3 <= fuel)%nat;
  pr_create : 1 <= ch_threads ch_create < 2 ^ 32 /\
    call_log false (ch_threads ch_create) (parallelBlock (ch_threads ch_create)) (ch_roots ch_create);
  pr_prove : 1 <= ch_threads ch < 2 ^ 32 /\ prove_logs_ok (ch_threads ch) p d (ch_logs ch);
  pr_random_r : length (ch_random_r ch) = 31%nat /\ Forall is_byte (ch_random_r ch);
  pr_random_s : length (ch_random_s ch) = 31%nat /\ Forall is_byte (ch_random_s ch)
}.

Lemma stands_list (at1 : list (PointAffine (E := Element))) (Xs : list G1) :
  Forall2 (at_affine 0%K (1 + 1 + 1)%K) at1 Xs -> Forall limbs1 at1.
Proof. induction 1 as [|p X l Xs Hp _ IH]; [apply Forall_nil_2|]. apply Forall_cons_2; [apply (stands_limbs1 _ _ Hp)|done]. Qed.

Lemma stands_list2 (at2 : list (PointAffine (E := F2El Element))) (Xs : list G2) :
  Forall2 (at_affine 0%K (of_pair twist_b : Kq2)) at2 Xs -> Forall limbs2 at2.
Proof. induction 1 as [|p X l Xs Hp _ IH]; [apply Forall_nil_2|]. apply Forall_cons_2; [apply (stands_limbs2 _ _ Hp)|done]. Qed.

Lemma run_objects p gamma2 k d ws zkey wtns ch_create ch fuel :
  prover_run p gamma2 k d ws zkey wtns ch_create ch fuel -> key_objects p gamma2.
Proof.
  intros H. pose proof (pr_points _ _ _ _ _ _ _ _ _ _ H) as K. destruct (pr_sizes _ _ _ _ _ _ _ _ _ _ H) as [Zv Zs Zp ZA ZB1 ZB2 ZC ZH].
  pose proof (pr_domain _ _ _ _ _ _ _ _ _ _ H) as Hd. pose proof (pr_power _ _ _ _ _ _ _ _ _ _ H) as Hd27.
  assert (2 ^ Z.of_nat d <= 2 ^ 27) by (apply Z.pow_le_mono_r; lia). assert (0 < 2 ^ Z.of_nat d) by (apply Z.pow_pos_nonneg; lia).
  assert (2 ^ 27 < 2 ^ 32) by reflexivity.
  pose proof (Forall2_length (ky_A _ _ _ _ _ _ K)). pose proof (Forall2_length (ky_B1 _ _ _ _ _ _ K)).
  pose proof (Forall2_length (ky_B2 _ _ _ _ _ _ K)). pose proof (Forall2_length (ky_C _ _ _ _ _ _ K)).
  pose proof (Forall2_length (ky_H _ _ _ _ _ _ K)).
  split; try (unfold is_u32; lia); try (split; [|lia]).
  - apply (stands_limbs1 _ _ (ky_alpha1 _ _ _ _ _ _ K)).
  - apply (stands_limbs1 _ _ (ky_beta1 _ _ _ _ _ _ K)).
  - apply (stands_limbs2 _ _ (ky_beta2 _ _ _ _ _ _ K)).
  - apply H.
  - apply (stands_limbs1 _ _ (ky_delta1 _ _ _ _ _ _ K)).
  - apply (stands_limbs2 _ _ (ky_delta2 _ _ _ _ _ _ K)).
  - split; [|apply H]. refine (list.Forall_impl _ _ _ (pr_coefs _ _ _ _ _ _ _ _ _ _ H) _).
    intros c [Hm [[x Hx] Hc Hs]]. unfold limbs_coef, is_u32. split; [done|]. split; [lia|]. split; [lia|]. exact (rep_limbs (P := Fr_params) _ _ Hx).
  - by eapply stands_list, (ky_A _ _ _ _ _ _ K).
  - by eapply stands_list, (ky_B1 _ _ _ _ _ _ K).
  - by eapply stands_list2, (ky_B2 _ _ _ _ _ _ K).
  - by eapply stands_list, (ky_C _ _ _ _ _ _ K).
  - by eapply stands_list, (ky_H _ _ _ _ _ _ K).
Qed.

(** The proof of the run, on a domain with the root [eta]. *)
Definition proof_of_run (p : Prover Element) (k : KeyPoints G1 G2) (d : nat) (ws : list Element) (ch : Choices)
    (proof : ProofData Element) : Prop :=
  exists (w : Zmod (q (P := Fr_params))) pa pb,
    let eta := fft_root (H := Fr_residues) (S d) (S d) w in let n := (2 ^ d)%nat in
    let r := le_value (ch_random_r ch) in let s := le_value (ch_random_s ch) in
    root2 (F := Fr_residues) (S d) eta /\
    interpolates (H := Fr_residues) (kpow (H := Fr_residues) eta 2) n pa (row_value (coefs p) ws true) /\
    interpolates (H := Fr_residues) (kpow (H := Fr_residues) eta 2) n pb (row_value (coefs p) ws false) /\
    stands_affine (proof_A proof) (proj1_sig (proof_point_A k (map eval ws) r)) /\
    stands_affine (proof_B proof) (proj1_sig (proof_point_B k (map eval ws) s)) /\
    stands_affine (proof_C proof)
      (proj1_sig (proof_point_C k (nPublic p) (map eval ws) (scalar_values eta n pa pb) r s)).

Lemma with_fft_points p F k : key_points 0%K (1 + 1 + 1)%K 0%K (of_pair twist_b : Kq2) p k ->
  key_points 0%K (1 + 1 + 1)%K 0%K (of_pair twist_b) (with_fft p F) k.
Proof. by intros []; split. Qed.

Lemma proof_residues (proof : ProofData Element) A B C :
  stands_affine (proof_A proof) A -> stands_affine (proof_B proof) (B : apoint (K := Kq2)) -> stands_affine (proof_C proof) C ->
  Forall residue (coordinates proof).
Proof.
  intros HA HB HC. apply stands_limbs1 in HA as (_ & ? & ?). apply stands_limbs1 in HC as (_ & ? & ?).
  apply stands_limbs2 in HB as (_ & HB). unfold coordinates.
  apply Forall_cons_2; [done|]. apply Forall_cons_2; [done|]. apply (Forall_app_2 _ [_; _; _; _]); [exact HB|].
  by repeat (apply Forall_cons_2; [done|]).
Qed.

Lemma run_spec EN f0 p gamma2 k d ws zkey wtns ch_create ch fuel :
  Engine_new (S f0) = Returns EN -> prover_run p gamma2 k d ws zkey wtns ch_create ch fuel ->
  exists g proof sp spub, Groth16Prover_new fuel ch_create zkey = Done g /\ proof_of_run p k d ws ch proof /\
    dump (proof_value proof) = Some sp /\ (length sp + 1 <= 810)%nat /\
    dump (public_value ws (Z.to_nat (nPublic p))) = Some spub /\
    Groth16Prover_prove EN ch g wtns = Done (sp, spub).
Proof.
  intros HEN H. pose proof (run_objects _ _ _ _ _ _ _ _ _ _ H) as HO.
  destruct H as [(v & secs & -> & Hz1 & Hz2 & Hz3 & Hz4) (v' & secs' & -> & Hw1 & Hw2 & Hw3 & Hw4) Hk _ Hs Hd27 HN Hcf Hcount Hval
    Hfuel [Hc1 Hc2] [Hp1 Hp2] [Lr Br] [Ls Bs]].
  destruct (engine_default f0) as (EN' & HEN' & [D1 _] & [D2 _] & FL2). rewrite HEN in HEN'. injection HEN' as <-.
  destruct (key_file_new fuel ch_create v secs p gamma2 Hz1 Hz2 Hz3 Hz4 HO) as (h & Hv & Hpub & Enew).
  destruct (makeProver_spec fuel (ch_threads ch_create) (ch_roots ch_create) d (nVars p) (nPublic p) (nCoefs p)
    (vk_alpha1 p) (vk_beta1 p) (vk_beta2 p) (vk_delta1 p) (vk_delta2 p) (coefs p) (pointsA p) (pointsB1 p) (pointsB2 p)
    (pointsC p) (pointsH p) Hfuel Hc1 Hc2 Hd27) as (F & w & EM & Ht).
  rewrite HN, EM in Enew. cbn [of_option cbind] in Enew. rewrite <- HN in Enew. fold (with_fft p F) in Enew.
  set (g := mkGroth16Prover true h (with_fft p F)) in Enew.
  assert (Hlim : Forall (limbs 4) ws) by (refine (list.Forall_impl _ _ _ Hval _); by intros x [Hx _]).
  assert (Hws : Z.of_nat (length ws) = nVars p) by (symmetry; apply Hs).
  destruct (witness_file_opens g v' secs' ws Hw1 Hw2 Hw3 Hw4 Hlim) as (post & Eo).
  { cbn [g zkeyHeader]. by rewrite Hv, Hws. }
  { rewrite Hws. pose proof (ko_vars _ _ HO). unfold is_u32 in *. lia. }
  assert (Hs' : key_sizes (0%K : Kq) (1 + 1 + 1)%K (0%K : Kq2) (of_pair twist_b) (with_fft p F) k ws) by (destruct Hs; split; assumption).
  assert (Hp2' : prove_logs_ok (ch_threads ch) (with_fft p F) d (ch_logs ch)) by (destruct Hp2; split; assumption).
  assert (Hdom : domain_ok (with_fft p F) ws (S d) d w).
  { split; [exact Ht|lia|lia|exact HN|exact Hval| |exact Hcount]. refine (list.Forall_impl _ _ _ Hcf _). by intros c [_ Hc]. }
  destruct (prove_spec (FL2 := FL2) (0%K : Kq) (1 + 1 + 1)%K (cv_fa (en_g1 EN)) D1 g1_curve_ok
    (0%K : Kq2) (of_pair twist_b) (cv_fa (en_g2 EN)) D2 g2_curve_ok (with_fft p F) k ws (S d) d w (ch_threads ch) (ch_logs ch)
    (ch_random_r ch) (ch_random_s ch) (with_fft_points p F k Hk) Hs' Hdom Hp1 Hp2' Lr Br Ls Bs)
    as (pa & pb & proof & Ia & Ib & Ep & HA & HB & HC).
  pose proof (proof_residues _ _ _ _ HA HB HC) as Hres.
  destruct (proof_text proof Hres) as (sp & Esp & Lsp).
  destruct (public_text ws (Z.to_nat (nPublic p))) as (spub & Espub & _).
  { pose proof (ko_public _ _ HO). unfold Element in *. lia. }
  exists g, proof, sp, spub. split; [exact Enew|]. split.
  { exists w, pa, pb. split; [exact (proj1 (quotient_scalars_spec _ _ _ _ _ _ _ Hdom Hp1 (pl_scalars _ _ _ _ Hp2')))|]. split; [exact Ia|]. split; [exact Ib|]. split; [exact HA|]. split; [exact HB|exact HC]. }
  split; [done|]. split; [done|]. split; [done|].
  unfold Groth16Prover_prove. rewrite Eo. cbn [cbind g zkey_mapped negb zkeyHeader prover].
  rewrite Hv, <- Hws, Nat2Z.id, witness_array, Ep by done. cbn [of_option cbind]. rewrite toJson_value. cbn [of_json cbind].
  rewrite Esp. cbn [of_option cbind]. rewrite Hpub. unfold BuildPublicString.
  pose proof (public_json_spec ws post Hlim (Z.to_nat (nPublic p)) 1 []) as EP. cbn [app] in EP.
  change (Z.of_nat 1) with 1 in EP. rewrite EP by (pose proof (ko_public _ _ HO); unfold Element in *; lia). cbn [cbind].
  change (match map _ _ with [] => jnull | _ => _ end) with (public_value ws (Z.to_nat (nPublic p))).
  rewrite Espub. done.
Qed.

(** [groth16_prover] on a run. *)
Lemma groth16_prover_run EN f0 p gamma2 k d ws zkey wtns ch_create ch fuel bp np bpub npub msg maxsize :
  Engine_new (S f0) = Returns EN -> prover_run p gamma2 k d ws zkey wtns ch_create ch fuel ->
  let b := mkBuffers (Some bp) (Some np) (Some bpub) (Some npub) msg in honest b maxsize ->
  exists proof sp spub, proof_of_run p k d ws ch proof /\
    dump (proof_value proof) = Some sp /\ (length sp + 1 <= 810)%nat /\
    dump (public_value ws (Z.to_nat (nPublic p))) = Some spub /\
    returned sp spub b maxsize (groth16_prover EN fuel ch_create ch (Some zkey) (Some wtns) b maxsize) bp bpub np npub.
Proof.
  intros HEN H b Hb. destruct (run_spec EN f0 _ _ _ _ _ _ _ _ ch _ HEN H) as (g & proof & sp & spub & E1 & Hp & E2 & L & E3 & E4).
  exists proof, sp, spub. do 4 (split; [done|]).
  unfold groth16_prover, groth16_prover_create. rewrite E1. cbn [cbind Z.eqb PROVER_OK negb default].
  change (set_error b (error_msg b)) with b.
  destruct (prover_prove_spec EN ch (Some g) (Some wtns) b maxsize Hb) as (g' & w' & bp' & np' & bpub' & npub' & [= <-] & [= <-] & [= <-] & [= <-] & [= <-] & [= <-] & Hr).
  rewrite E4 in Hr. apply Hr; [lia|].
  pose proof (run_objects _ _ _ _ _ _ _ _ _ _ H) as HO. pose proof (ko_vars _ _ HO) as Hv. pose proof (ko_public _ _ HO) as Hn.
  destruct (public_text ws (Z.to_nat (nPublic p))) as (s & Es & Ls & Lz).
  { pose proof (kz_vars _ _ _ _ _ _ _ (pr_sizes _ _ _ _ _ _ _ _ _ _ H)). unfold Element in *. lia. }
  rewrite E3 in Es. injection Es as <-. unfold is_u32 in Hv. fold_pows.
  destruct (Z.to_nat (nPublic p)) as [|n] eqn:En; [rewrite (Lz eq_refl); vm_compute; reflexivity|].
  specialize (Ls ltac:(lia)). lia.
Qed.

Lemma public_size_run p gamma2 k d ws zkey wtns ch_create ch fuel x msg maxsize :
  prover_run p gamma2 k d ws zkey wtns ch_create ch fuel ->
  groth16_public_size_for_zkey_buf zkey (Some x) msg maxsize = Done (PROVER_OK, Some (PublicBufferMinSize (nPublic p)), msg).
Proof.
  intros H. pose proof (run_objects _ _ _ _ _ _ _ _ _ _ H) as HO.
  destruct (pr_zkey _ _ _ _ _ _ _ _ _ _ H) as (v & secs & -> & Hz1 & Hz2 & Hz3 & Hz4).
  destruct (ks_1 _ _ _ Hz4) as [r1 S1]. destruct (ks_2 _ _ _ Hz4) as [r2 S2]. destruct (ks_4 _ _ _ Hz4) as (n4 & _ & r4 & S4).
  destruct (openBinFile_encoded zkey_type v secs 1 Hz1 Hz2 Hz3) as (f & Ho & Hwf & Hdata & _ & _ & Hr & Hsec).
  assert (Hfirst : forall id bs l, payloads id secs = bs :: l -> first_section f id bs).
  { intros id bs l Hl. destruct (Hsec id) as [E I]. rewrite <- Hdata, Hl in E. by eapply first_section_encoded. }
  destruct (zkey_loadHeader_at f (key_desc p gamma2) _ Hwf Hr (key_desc_ok p gamma2 HO) (Hfirst _ _ _ S1) (Hfirst _ _ _ S2)
    (Hfirst _ _ _ S4)) as (f' & h & El & Hh).
  unfold groth16_public_size_for_zkey_buf, openBin. rewrite Ho. cbn [cbind]. unfold on_file. rewrite El.
  destruct Hh as (_ & _ & _ & _ & _ & -> & _). done.
Qed.
End End.

(** C1: [groth16_prover], from a key file and a witness file to texts: it makes the object
    from the bytes of the key, and on a key of points of the curves of the engine and a
    witness of its length it writes to the buffers, if they are large enough, the text of a
    proof with the three points of Groth16 for that key, witness and random bytes, and the
    decimal numbers of the first [nPublic] witness values modulo the order; if a buffer is
    too small, nothing is written but the two sizes that are needed and a message.  The
    text of the proof is read back as that proof. *)
Theorem groth16_prover_correct {G : Mpn} {GL : MpnLaws G} {MZ : Mpz} {ML : MpzLaws MZ}
    EN f0 p gamma2 (k : KeyPoints G1 G2) d ws zkey wtns ch_create ch fuel bp np bpub npub msg maxsize :
  Engine_new (S f0) = Returns EN -> prover_run p gamma2 k d ws zkey wtns ch_create ch fuel ->
  let b := mkBuffers (Some bp) (Some np) (Some bpub) (Some npub) msg in honest b maxsize ->
  exists proof sp spub, proof_of_run p k d ws ch proof /\
    dump (proof_value proof) = Some sp /\ Proof_fromJson (proof_value proof) = Value proof /\
    dump (public_value ws (Z.to_nat (nPublic p))) = Some spub /\
    returned sp spub b maxsize (groth16_prover EN fuel ch_create ch (Some zkey) (Some wtns) b maxsize) bp bpub np npub.
Proof.
  intros HEN H b Hb. destruct (groth16_prover_run EN f0 _ _ _ _ _ _ _ _ ch _ bp np bpub npub msg maxsize HEN H Hb)
    as (proof & sp & spub & Hp & E1 & _ & E2 & Hr).
  exists proof, sp, spub. split; [exact Hp|]. split; [exact E1|]. split; [|split; [exact E2|exact Hr]]. apply fromJson_value.
  destruct Hp as (w & pa & pb & _ & _ & _ & HA & HB & HC). pose proof (proof_residues _ _ _ _ HA HB HC) as Hres.
  refine (list.Forall_impl _ _ _ Hres _). apply residue_text.
Qed.

(** C9: The sizes the library reports are enough, but for a key without public values: with
    buffers of the sizes of [groth16_proof_size] and [groth16_public_size_for_zkey_buf]
    for the key, [groth16_prover] succeeds when there is a public value; when there is
    none it always asks for a larger buffer, because the text is [null] and not [[]]. *)
Theorem reported_sizes_correct {G : Mpn} {GL : MpnLaws G} {MZ : Mpz} {ML : MpzLaws MZ}
    EN f0 p gamma2 (k : KeyPoints G1 G2) d ws zkey wtns ch_create ch fuel bp np bpub npub msg maxsize x :
  Engine_new (S f0) = Returns EN -> prover_run p gamma2 k d ws zkey wtns ch_create ch fuel ->
  let b := mkBuffers (Some bp) (Some np) (Some bpub) (Some npub) msg in honest b maxsize ->
  np = groth16_proof_size ->
  groth16_public_size_for_zkey_buf zkey (Some x) msg maxsize = Done (PROVER_OK, Some npub, msg) ->
  exists b', groth16_prover EN fuel ch_create ch (Some zkey) (Some wtns) b maxsize =
    Done (if nPublic p =? 0 then PROVER_ERROR_SHORT_BUFFER else PROVER_OK, b').
Proof.
  intros HEN H b Hb -> E. rewrite (public_size_run _ _ _ _ _ _ _ _ _ _ x msg maxsize H) in E. injection E as <-.
  destruct (groth16_prover_run EN f0 _ _ _ _ _ _ _ _ ch _ bp _ bpub _ msg maxsize HEN H Hb)
    as (proof & sp & spub & _ & _ & L & E2 & Hr).
  pose proof (run_objects _ _ _ _ _ _ _ _ _ _ H) as HO. pose proof (ko_vars _ _ HO) as Hv. pose proof (ko_public _ _ HO) as Hn.
  destruct (public_text ws (Z.to_nat (nPublic p))) as (s & Es & Ls & Lz).
  { pose proof (kz_vars _ _ _ _ _ _ _ (pr_sizes _ _ _ _ _ _ _ _ _ _ H)). unfold Element in *. lia. }
  rewrite E2 in Es. injection Es as <-. unfold returned in Hr. unfold groth16_proof_size, ProofBufferMinSize in *.
  destruct (Z.leb_spec (Z.of_nat (length sp) + 1) 810) as [_|]; [|lia]. cbn [andb] in Hr.
  assert (EP : PublicBufferMinSize (nPublic p) = nPublic p * 82 + 4).
  { unfold PublicBufferMinSize, is_u32 in *. rewrite (u64_id (nPublic p * 82)) by word_lia. by rewrite u64_id by word_lia. }
  unfold b in *. rewrite EP in *. destruct (Z.eqb_spec (nPublic p) 0) as [E0|E0].
  - assert (L4 : length spub = 4%nat) by (rewrite Lz by lia; reflexivity).
    destruct (Z.leb_spec (Z.of_nat (length spub) + 1) (nPublic p * 82 + 4)); [lia|].
    destruct Hr as (m & _ & Hr). eexists. exact Hr.
  - specialize (Ls ltac:(lia)). destruct (Z.leb_spec (Z.of_nat (length spub) + 1) (nPublic p * 82 + 4)) as [_|]; [|lia].
    destruct Hr as (bp' & bpub' & _ & _ & Hr). eexists. exact Hr.
Qed.
