(* ===== verification/ProverDemo.v ===== *)
(** The exported prover on a small key of the curves of the engine: three variables, one
    public value and a domain of four rows, with one thread. *)

From Stdlib Require Import String Ascii Zmod.
From stdpp Require Import gmap.
From S2P Require Import Prelude Limbs Gmp Mpz SplitParStr FrRaw FrElement FrElementWp FrMpz RawFr BinFile BinFileSpec BinFileFormat FileHeaders FileHeadersSpec FullProver Group Loops Parallel Schedule Msm Primes Field Dft Powers Quotient Fft FftSpec FftFr ExtField Tower TowerSpec TowerBn TowerFq TowerText TowerDefault Curve CurveSpec GroupLaw CurveClass Engine Pairing Json Verify ProofJson Groth16 QuotientSpec ProverPoints Groth16Spec Groth16Demo ProverApi ProverApiSpec ProverFile ProverEnd.

#[local] Existing Instances Fq_params Fq RawFr_rep bn2 F2_rep Mpn_reference Mpz_reference.
#[local] Existing Instance RawFr_field | 0.

(** ** The key *)

Definition q_elem (v : Z) : Element := of_Z 4 (mont v).
Definition P1 : PointAffine (E := Element) := mkPointAffine (q_elem 1) (q_elem 2).
Definition P2 : PointAffine (E := F2El Element) :=
  mkPointAffine (mkF2 (q_elem (fst g2_x)) (q_elem (snd g2_x))) (mkF2 (q_elem (fst g2_y)) (q_elem (snd g2_y))).
Definition X1 : G1 := to_curve _ _ _ g1_on_curve.
Definition X2 : G2 := to_curve _ _ _ g2_on_curve.

Definition bn_prover (F : Fft Element) : Prover Element :=
  mkProver 3 1 4 3 P1 P1 P2 P1 P2 [demo_coef 0 2 1 7; demo_coef 1 2 2 1; demo_coef 0 0 2 5]
    [P1; P1; P1] [P1; P1; P1] [P2; P2; P2] [P1] [P1; P1; P1; P1] F.
Definition bn_key : KeyPoints G1 G2 :=
  mkKeyPoints X1 X1 X2 X1 X2 [X1; X1; X1] [X1; X1; X1] [X2; X2; X2] [X1] [X1; X1; X1; X1].

(** Its file, and that of the witness. *)
Definition no_fft : Fft Element := mkFft 0 [] [] [].
Definition bn_p : Prover Element := bn_prover no_fft.
Definition bn_sections : list (Z * list Z) :=
  [(1, le_bytes 4 1); (2, encode_zkey_header (key_desc bn_p P2));
   (4, le_bytes 4 3 ++ flat_map coef_bytes (coefs bn_p)); (5, flat_map point1_bytes (pointsA bn_p));
   (6, flat_map point1_bytes (pointsB1 bn_p)); (7, flat_map point2_bytes (pointsB2 bn_p));
   (8, flat_map point1_bytes (pointsC bn_p)); (9, flat_map point1_bytes (pointsH bn_p))].
Definition bn_zkey : list Z := encode_file zkey_type 1 bn_sections.
Definition bn_wtns_sections : list (Z * list Z) :=
  [(1, encode_wtns_header (mkWtnsHeader 32 (q (P := Fr_params)) 3)); (2, flat_map element_bytes demo_wtns)].
Definition bn_wtns : list Z := encode_file wtns_type 2 bn_wtns_sections.

Definition bn_choices : Choices :=
  mkChoices 1 (alone_log false (parallelBlock 1)) demo_prove_logs demo_random demo_random.

(** ** It is a run *)

Lemma q_elem_rep v : 0 <= v < q -> f_rep (q_elem v) (Zmod.of_Z q v : Kq).
Proof.
  intros Hv. unfold f_rep, RawFr_rep, elem. rewrite Zmod.to_Z_of_Z, Z.mod_small by done. split; [done|].
  apply rep_of_Z, mont_range.
Qed.

Ltac in_field := split; [vm_compute; discriminate|vm_compute; reflexivity].

Lemma P1_stands : at_affine (0%K : Kq) (1 + 1 + 1)%K P1 X1.
Proof. split; [exact (q_elem_rep 1 ltac:(in_field))|exact (q_elem_rep 2 ltac:(in_field))]. Qed.

Lemma P2_stands : at_affine (0%K : Kq2) (of_pair twist_b) P2 X2.
Proof.
  split; split; [exact (q_elem_rep (fst g2_x) ltac:(in_field))|exact (q_elem_rep (snd g2_x) ltac:(in_field))
    |exact (q_elem_rep (fst g2_y) ltac:(in_field))|exact (q_elem_rep (snd g2_y) ltac:(in_field))].
Qed.

Lemma bn_key_points F : key_points (0%K : Kq) (1 + 1 + 1)%K (0%K : Kq2) (of_pair twist_b) (bn_prover F) bn_key.
Proof.
  pose proof P1_stands. pose proof P2_stands.
  split; try assumption; repeat (apply Forall2_cons; [assumption|]); apply Forall2_nil.
Qed.

Lemma bytes_by_computation l : forallb (fun b => (0 <=? b) && (b <? 256)) l = true -> Forall is_byte l.
Proof.
  induction l as [|b l IH]; [intros _; apply Forall_nil_2|]. cbn [forallb].
  intros [[H1%Z.leb_le H2%Z.ltb_lt]%andb_true_iff H3]%andb_true_iff. apply Forall_cons_2; [split; [lia|exact H2]|by apply IH].
Qed.

Ltac small := split; [discriminate|vm_compute; reflexivity].

Lemma bn_zkey_ok : describable zkey_type 1 bn_sections /\ Forall is_byte bn_zkey /\ key_sections bn_sections bn_p P2.
Proof.
  split; [|split].
  - split; [reflexivity|]. split; [small|]. split; [small|]. split; [|vm_compute; reflexivity].
    repeat (apply Forall_cons_2; [small|]). apply Forall_nil_2.
  - apply bytes_by_computation. vm_compute. reflexivity.
  - split; try (by exists []). exists (le_bytes 4 3). split; [reflexivity|by exists []].
Qed.

Lemma bn_wtns_ok : describable wtns_type 2 bn_wtns_sections /\ Forall is_byte bn_wtns /\ witness_sections bn_wtns_sections demo_wtns.
Proof.
  split; [|split].
  - split; [reflexivity|]. split; [small|]. split; [small|]. split; [|vm_compute; reflexivity].
    repeat (apply Forall_cons_2; [small|]). apply Forall_nil_2.
  - apply bytes_by_computation. vm_compute. reflexivity.
  - split; by exists [].
Qed.

Lemma bn_logs_ok : prove_logs_ok 1 bn_p 2 demo_prove_logs.
Proof.
  split; try (intros _; split; alone_tac).
  split; try alone_tac; try apply demo_coset_ok.
  change (seqZ 0 _) with [0; 1; 2]. cbn [coefs_order demo_prove_logs]. solve_Permutation.
Qed.

Lemma bn_run : prover_run bn_p P2 bn_key 2 demo_wtns bn_zkey bn_wtns bn_choices bn_choices 3.
Proof.
  destruct bn_zkey_ok as (Z1 & Z2 & Z3). destruct bn_wtns_ok as (W1 & W2 & W3). split.
  - exists 1, bn_sections. split; [reflexivity|]. split; [exact Z1|]. split; [lia|]. split; [exact Z2|exact Z3].
  - exists 2, bn_wtns_sections. split; [reflexivity|]. split; [exact W1|]. split; [lia|]. split; [exact W2|exact W3].
  - apply bn_key_points.
  - apply (stands_limbs2 _ _ P2_stands).
  - split; try reflexivity. split; [discriminate|reflexivity].
  - lia.
  - reflexivity.
  - repeat (apply Forall_cons_2; [split; [small|split; [eexists; apply (rep_of_Z (P := Fr_params)), (mont_range (P := Fr_params))|cbn; lia|cbn; lia]]|]).
    apply Forall_nil_2.
  - reflexivity.
  - repeat (apply Forall_cons_2; [apply demo_wt_ok; lia|]). apply Forall_nil_2.
  - lia.
  - split; [cbn; lia|]. apply (alone_call_log false (parallelBlock 1)). vm_compute. reflexivity.
  - split; [cbn; lia|]. apply bn_logs_ok.
  - split; [reflexivity|apply demo_random_bytes].
  - split; [reflexivity|apply demo_random_bytes].
Qed.

(** ** Instances *)

Definition zeros (n : nat) : list ascii := replicate n NUL.
Notation bn_buffers np npub := (mkBuffers (Some (zeros 810)) (Some np) (Some (zeros 86)) (Some npub) None).

Lemma bn_honest np npub maxsize : np <= 810 -> npub <= 86 -> honest (bn_buffers np npub) maxsize.
Proof. intros H1 H2. split; [intros ? ? [= <-] [= <-]; exact H1|intros ? ? [= <-] [= <-]; exact H2|exact I]. Qed.

Lemma groth16_prover_correct_witness : exists EN : EngineData Element, Engine_new 1 = Returns EN /\
  exists proof sp spub, proof_of_run bn_p bn_key 2 demo_wtns bn_choices proof /\
    dump (proof_value proof) = Some sp /\ Proof_fromJson (proof_value proof) = Value proof /\
    dump (public_value demo_wtns 1) = Some spub /\
    returned sp spub (bn_buffers 810 5) 0
      (groth16_prover EN 3 bn_choices bn_choices (Some bn_zkey) (Some bn_wtns) (bn_buffers 810 5) 0) (zeros 810) (zeros 86) 810 5.
Proof.
  destruct (engine_default 0) as (EN & HEN & _). exists EN. split; [exact HEN|].
  exact (groth16_prover_correct EN 0 bn_p P2 bn_key 2 demo_wtns bn_zkey bn_wtns bn_choices bn_choices 3
    (zeros 810) 810 (zeros 86) 5 None 0 HEN bn_run (bn_honest 810 5 0 ltac:(lia) ltac:(lia))).
Defined.

Lemma reported_sizes_correct_witness : exists EN : EngineData Element,
  exists b', groth16_prover EN 3 bn_choices bn_choices (Some bn_zkey) (Some bn_wtns) (bn_buffers 810 86) 0 = Done (PROVER_OK, b').
Proof.
  destruct (engine_default 0) as (EN & HEN & _). exists EN.
  exact (reported_sizes_correct EN 0 bn_p P2 bn_key 2 demo_wtns bn_zkey bn_wtns bn_choices bn_choices 3
    (zeros 810) 810 (zeros 86) 86 None 0 0 HEN bn_run (bn_honest 810 86 0 ltac:(lia) ltac:(lia)) eq_refl
    (public_size_run bn_p P2 bn_key 2 demo_wtns bn_zkey bn_wtns bn_choices bn_choices 3 0 None 0 bn_run)).
Defined.

Definition bad_header : ZKeyHeader := mkZKeyHeader 0 0 0 0 3 0 0 0 0 0 0 0 0 0.
Definition some_prover : Groth16Prover := mkGroth16Prover true bad_header bn_p.

Lemma prover_prove_codes_witness : exists EN : EngineData Element,
  prove_outcome EN bn_choices None (Some bn_wtns) (bn_buffers 810 86) 0
    (groth16_prover_prove EN bn_choices None (Some bn_wtns) (bn_buffers 810 86) 0) /\
  prove_outcome EN bn_choices (Some some_prover) (Some [1; 2]) (bn_buffers 810 86) 0
    (groth16_prover_prove EN bn_choices (Some some_prover) (Some [1; 2]) (bn_buffers 810 86) 0).
Proof.
  destruct (engine_default 0) as (EN & HEN & _). exists EN.
  split; apply (prover_prove_codes EN); apply bn_honest; lia.
Defined.

(** A handle from a file, and the witness it accepts. *)
Lemma handle_from_file EN fuel ch ch' slot data msg maxsize g w texts :
  Groth16Prover_new fuel ch data = Done g -> Groth16Prover_prove EN ch' g w = Done texts ->
  groth16_prover_create_zkey_file fuel ch (Some slot) (inl data) msg maxsize = Done (PROVER_OK, Some (Some (unmap g)), msg) /\
  exists wtnsData, open_witness (unmap g) w = Done wtnsData.
Proof.
  intros E1 E2. split; [unfold groth16_prover_create_zkey_file, groth16_prover_create; by rewrite E1|].
  unfold Groth16Prover_prove in E2. apply cbind_Done in E2 as (wtnsData & E2 & _). by exists wtnsData.
Qed.

Lemma file_handle_dangles_witness : exists (EN : EngineData Element) g m,
  (exists g0, groth16_prover_create 3 bn_choices (Some None) (Some bn_zkey) None 0 = Done (PROVER_OK, Some (Some g0), m) /\
     zkey_mapped g0 = true /\ zkeyHeader g0 = zkeyHeader g /\ prover g0 = prover g) /\
  groth16_prover_prove EN bn_choices (Some g) (Some bn_wtns) (bn_buffers 810 86) 0 = Undef.
Proof.
  destruct (engine_default 0) as (EN & HEN & _).
  destruct (run_spec EN 0 _ _ _ _ _ _ _ _ _ _ HEN bn_run) as (g & proof & sp & spub & E1 & _ & _ & _ & _ & E2).
  destruct (handle_from_file EN 3 bn_choices bn_choices None bn_zkey None 0 g bn_wtns _ E1 E2) as (E3 & wtnsData & E4).
  exists EN, (unmap g), None.
  exact (file_handle_dangles EN 3 bn_choices bn_choices None bn_zkey None 0 (unmap g) None bn_wtns wtnsData
    (zeros 810) 810 (zeros 86) 86 None 0%nat E3 E4).
Defined.
