(* ===== verification/Mains.v ===== *)
(** The command lines of the prover and of the verifier, [src/main_prover.cpp] and
    [src/main_verifier.cpp]: their exit status, what they print to the error stream and
    the files they write. *)

From Stdlib Require Import String Ascii Zmod.
From stdpp Require Import gmap.
From S2P Require Import Prelude Limbs Gmp Mpz SplitParStr FrRaw FrElement FrElementWp FrMpz RawFr BinFile BinFileSpec BinFileFormat FileHeaders FileHeadersSpec FullProver Group Parallel Schedule Primes Field Dft Powers Quotient Fft FftSpec FftFr ExtField Tower TowerSpec TowerBn TowerFq TowerText TowerDefault Curve CurveSpec GroupLaw CurveClass Engine Pairing Json Verify ProofJson VerifierApi Groth16 QuotientSpec ProverPoints Groth16Spec ProverApi ProverApiSpec ProverFile PairingSpec Groth16Demo ProverEnd ProverDemo.

Definition EXIT_SUCCESS : Z := 0.
Definition EXIT_FAILURE : Z := 1.

(** What a run leaves: its status, the lines on the error stream, and the files it asked
    the system to write, whether that worked or not. *)
Record Exit := mkExit {
  status : Z;
  errors : list (list ascii);
  written : list (string * list ascii)
}.

Definition failed_with (what : list ascii) : Exit := mkExit EXIT_FAILURE [chars "Error: " ++ what] [].

(** The message in a buffer, up to its null character; [None] if there is none in it. *)
Definition message_in (buffer : list ascii) : option (list ascii) :=
  if existsb (fun c => (c =? NUL)%char) buffer then Some (cstring buffer) else None.

(** [throw std::runtime_error(errorMsg)] *)
Definition runtime_error (m : option (list ascii)) : call Exit :=
  what <~! of_option (b ← m; message_in b); Done (failed_with what).

Section Prover.
Context {G : Mpn} {MZ : Mpz} (EN : EngineData Element) (fuel : nat) (ch_create ch : Choices).

(** [main] of the prover.  [files] are the mapped files or the messages of their errors,
    [errorMsg] the content of the local array. *)
Definition main_prover (files : string -> list Z + string) (errorMsg : list ascii) (argv : list string) : call Exit :=
  match argv with
  | [_; zkeyFilename; wtnsFilename; proofFilename; publicFilename] =>
      match files zkeyFilename with inr what => Done (failed_with (chars what)) | inl zkey =>
      match files wtnsFilename with inr what => Done (failed_with (chars what)) | inl wtns =>
        '(error, publicSize, m) <~! groth16_public_size_for_zkey_buf zkey (Some 0) (Some errorMsg) 1024;
        if negb (error =? PROVER_OK) then runtime_error m
        else
          let publicSize := default 0 publicSize in
          let proofSize := groth16_proof_size in
          let publicBuffer := replicate (Z.to_nat publicSize) NUL in
          let proofBuffer := replicate (Z.to_nat proofSize) NUL in
          '(error, b) <~! groth16_prover EN fuel ch_create ch (Some zkey) (Some wtns)
            (mkBuffers (Some proofBuffer) (Some proofSize) (Some publicBuffer) (Some publicSize) m) 1024;
          if negb (error =? PROVER_OK) then runtime_error (error_msg b)
          else
            let text buffer size := take (Z.to_nat (default 0 size)) (default [] buffer) in
            Done (mkExit EXIT_SUCCESS []
              [(proofFilename, text (proof_buffer b) (proof_size b)); (publicFilename, text (public_buffer b) (public_size b))])
      end end
  | _ => Done (mkExit EXIT_FAILURE [chars "Invalid number of parameters";
           chars "Usage: prover <circuit.zkey> <witness.wtns> <proof.json> <public.json>"] [])
  end.
End Prover.

(** [dataAsString().c_str()] as a C string. *)
Definition file_text (data : list ascii) : string := string_of_list_ascii (cstring data).

Section Verifier.
Context {JL : JsonLib} {G : Mpn} {MZ : Mpz} {E : Type} {FO : FieldOps E} {FT : FieldText E} (V : Verifier E) (g1 : CurveData E).

(** [main] of the verifier. *)
Definition main_verifier (files : string -> list ascii + string) (errorMessage : list ascii) (argv : list string) : call Exit :=
  match argv with
  | [_; keyFilename; inputsFilename; proofFilename] =>
      match files proofFilename with inr what => Done (failed_with (chars what)) | inl proof =>
      match files inputsFilename with inr what => Done (failed_with (chars what)) | inl inputs =>
      match files keyFilename with inr what => Done (failed_with (chars what)) | inl key =>
        '(error, m) <~! of_json (groth16_verify V g1 (file_text proof) (file_text inputs) (file_text key) (Some errorMessage) 256);
        if error =? VERIFIER_VALID_PROOF then Done (mkExit EXIT_SUCCESS [chars "Result: Valid proof"] [])
        else if error =? VERIFIER_INVALID_PROOF then Done (mkExit EXIT_FAILURE [chars "Result: Invalid proof"] [])
        else runtime_error m
      end end end
  | _ => Done (mkExit EXIT_FAILURE [chars "Invalid number of parameters:";
           chars "Usage: verifier <verification_key.json> <inputs.json> <proof.json>"] [])
  end.
End Verifier.

(** ** Messages *)

Lemma cstring_whole b : existsb (fun c => (c =? NUL)%char) b = false -> cstring b = b.
Proof.
  induction b as [|c b IH]; [done|]. cbn [existsb cstring]. intros [Hc Hb]%orb_false_iff. by rewrite Hc, IH.
Qed.

Lemma reported_message maxsize what b m : (0 < maxsize <= length b)%nat -> reports maxsize what (Some b) m ->
  (x ← m; message_in x) = Some (take (maxsize - 1) (cstring (chars what))).
Proof.
  intros Hm. destruct m as [b'|]; cbn [reports]; [|done]. intros (Hl & _ & Hc). specialize (Hc ltac:(lia)).
  cbn [mbind option_bind base.mbind]. unfold message_in. destruct (existsb _ b') eqn:E; [by rewrite Hc|].
  pose proof (cstring_whole b' E) as Hw. rewrite Hc in Hw. apply (f_equal length) in Hw.
  rewrite length_take in Hw. lia.
Qed.

Lemma holds_text_take t b b' : holds_text t b b' -> take (length t) b' = t.
Proof.
  intros (_ & H & _). apply (f_equal (take (length t))) in H. rewrite take_take, Nat.min_l, take_app_length in H by lia. exact H.
Qed.

(** ** The prover *)

#[local] Existing Instances Fq_params Fq RawFr_rep bn2 F2_rep.
#[local] Existing Instance RawFr_field | 0.

Section ProverMain.
Context {G : Mpn} {GL : MpnLaws G} {MZ : Mpz} {ML : MpzLaws MZ}.

(** C35: The command line of the prover, on a key file and a witness file of the library's
    formats: when the key has public values it ends with success, having written the
    text of a proof with the three points of Groth16 to the third file and the text of the
    public values to the fourth; when the key has none, it writes nothing and fails with
    the message of a buffer that is too small, because the buffer it makes has
    the size the library reports. *)
Theorem main_prover_correct EN f0 p gamma2 (k : KeyPoints G1 G2) d ws zkey wtns ch_create ch fuel files errorMsg argv0 zf wf pf uf :
  Engine_new (S f0) = Returns EN -> prover_run p gamma2 k d ws zkey wtns ch_create ch fuel ->
  files zf = inl zkey -> files wf = inl wtns -> length errorMsg = 1024%nat ->
  exists proof sp spub, proof_of_run p k d ws ch proof /\
    dump (proof_value proof) = Some sp /\ dump (public_value ws (Z.to_nat (nPublic p))) = Some spub /\
    main_prover EN fuel ch_create ch files errorMsg [argv0; zf; wf; pf; uf] =
      Done (if nPublic p =? 0
            then failed_with (take 1023 (cstring (chars (short_buffer_message (Z.of_nat (length sp) + 1) 810 5 4))))
            else mkExit EXIT_SUCCESS [] [(pf, sp); (uf, spub)]).
Proof.
  intros HEN H Hz Hw Hmsg. pose proof (run_objects _ _ _ _ _ _ _ _ _ _ H) as HO. pose proof (ko_vars _ _ HO) as Hv. pose proof (ko_public _ _ HO) as Hn.
  assert (EP : PublicBufferMinSize (nPublic p) = nPublic p * 82 + 4).
  { unfold PublicBufferMinSize, is_u32 in *. rewrite (u64_id (nPublic p * 82)) by word_lia. by rewrite u64_id by word_lia. }
  set (np := groth16_proof_size). set (npub := nPublic p * 82 + 4).
  set (bp := replicate (Z.to_nat np) NUL). set (bpub := replicate (Z.to_nat npub) NUL).
  assert (Hb : honest (mkBuffers (Some bp) (Some np) (Some bpub) (Some npub) (Some errorMsg)) 1024).
  { split; [intros c n [= <-] [= <-]|intros c n [= <-] [= <-]|cbn; lia]; unfold bp, bpub, npub; rewrite length_replicate; lia. }
  destruct (groth16_prover_run EN f0 _ _ _ _ _ _ _ _ ch _ bp np bpub npub (Some errorMsg) 1024 HEN H Hb)
    as (proof & sp & spub & Hp & E1 & L & E2 & Hr).
  exists proof, sp, spub. do 3 (split; [done|]). unfold main_prover. rewrite Hz, Hw.
  rewrite (public_size_run _ _ _ _ _ _ _ _ _ _ 0 (Some errorMsg) 1024 H). cbn [cbind]. change (negb (PROVER_OK =? PROVER_OK)) with false.
  cbn iota. change (default 0 (Some (PublicBufferMinSize (nPublic p)))) with (PublicBufferMinSize (nPublic p)). rewrite EP.
  cbv zeta. fold np. fold npub. fold bp. fold bpub.
  destruct (public_text ws (Z.to_nat (nPublic p))) as (s & Es & Ls & Lz).
  { pose proof (kz_vars _ _ _ _ _ _ _ (pr_sizes _ _ _ _ _ _ _ _ _ _ H)). unfold Element in *. lia. }
  rewrite E2 in Es. injection Es as <-. unfold returned in Hr. destruct (Z.leb_spec (Z.of_nat (length sp) + 1) np) as [_|Hlt];
    [|unfold np, groth16_proof_size, ProofBufferMinSize in Hlt; lia]. cbn [andb] in Hr.
  destruct (Z.eqb_spec (nPublic p) 0) as [E0|E0].
  - assert (L4 : length spub = 4%nat) by (rewrite Lz by lia; reflexivity). rewrite L4 in Hr.
    assert (Enpub : npub = 4) by (unfold npub; lia). rewrite Enpub in Hr. change (Z.of_nat 4 + 1 <=? 4) with false in Hr. cbn iota in Hr.
    destruct Hr as (m & Hm & Hr). rewrite Enpub. rewrite Hr. cbn [cbind error_msg].
    change (negb (PROVER_ERROR_SHORT_BUFFER =? PROVER_OK)) with true. cbn iota.
    unfold runtime_error. cbn [error_msg] in Hm. rewrite (reported_message 1024 _ errorMsg m ltac:(lia) Hm). done.
  - specialize (Ls ltac:(lia)). destruct (Z.leb_spec (Z.of_nat (length spub) + 1) npub) as [_|Hlt]; [|unfold npub in Hlt; lia].
    destruct Hr as (bp' & bpub' & T1 & T2 & Hr). rewrite Hr. cbn [cbind]. change (negb (PROVER_OK =? PROVER_OK)) with false. cbn iota.
    cbn [proof_buffer proof_size public_buffer public_size default id]. rewrite !Z.add_simpl_r, !Nat2Z.id.
    by rewrite (holds_text_take _ _ _ T1), (holds_text_take _ _ _ T2).
Qed.
End ProverMain.

(** ** The verifier *)

Lemma strncpy_message b what n : length b = n -> (length what < n)%nat -> Forall (fun c => c <> NUL) what ->
  message_in (strncpy b what n) = Some what.
Proof.
  intros Hb Hw Hc. unfold strncpy. rewrite drop_ge, app_nil_r by lia.
  rewrite take_ge by (rewrite length_app, length_replicate; lia).
  replace (n - length what)%nat with (S (n - length what - 1)) by lia. cbn [replicate].
  unfold message_in. change "000"%char with NUL. rewrite existsb_app. cbn [existsb]. change (NUL =? NUL)%char with true.
  rewrite orb_true_r. by rewrite cstring_plain.
Qed.

Lemma plain_message what : forallb (fun c => negb (c =? NUL)%char) what = true -> Forall (fun c => c <> NUL) what.
Proof.
  intros H. apply list.Forall_forall. intros c Hc%list_elem_of_In. eapply forallb_forall in H; [|exact Hc].
  by destruct (Ascii.eqb_spec c NUL).
Qed.

Section VerifierMain.
Context {JL : JsonLib} {G : Mpn} {GL : MpnLaws G} {MZ : Mpz} {ML : MpzLaws MZ}.
Context {E : Type} {FO : FieldOps E} {FT : FieldText E}.

(** What the command line makes of the outcome of [Verifier::verify]. *)
Definition exit_of (r : option (string + bool)) : call Exit :=
  match r with
  | Some (inr true) => Done (mkExit EXIT_SUCCESS [chars "Result: Valid proof"] [])
  | Some (inr false) => Done (mkExit EXIT_FAILURE [chars "Result: Invalid proof"] [])
  | Some (inl what) => Done (failed_with (chars what))
  | None => Undef
  end.

(** C36: The command line of the verifier: on files that hold a proof, a list of numbers and a
    key it succeeds exactly when [Verifier::verify] accepts the proof for the residues
    of the numbers, says so, and fails with a line for a rejected proof and for the message of
    an exception; it fails with "invalid proof data" on a proof file that is no
    JSON or not of protocol groth16.  The message fits its buffer. *)
Theorem main_verifier_correct (V : Verifier E) g1 files errorMessage argv0 kf inf pf key_data inputs_data proof_data prf key n xs :
  files kf = inl key_data -> files inf = inl inputs_data -> files pf = inl proof_data -> length errorMessage = 256%nat ->
  let proof := file_text proof_data in let inputs := file_text inputs_data in let vkey := file_text key_data in
  (json_parse proof = Some (proof_value prf) -> Forall read_back (coordinates prf) ->
   json_parse inputs = Some (inputs_json xs) -> xs <> [] ->
   json_parse vkey = Some (key_json key n) -> key_read_back key -> IC key <> [] ->
   exists els, Forall2 (elem (P := Fr_params)) els (map (fun x => x mod q (P := Fr_params)) xs) /\
     main_verifier V g1 files errorMessage [argv0; kf; inf; pf] = exit_of (verify V g1 prf els key)) /\
  ((json_parse proof = None \/
    (exists l, json_parse proof = Some (jobject l) /\ find_key l "protocol" <> Some (jstring "groth16"))) ->
   main_verifier V g1 files errorMessage [argv0; kf; inf; pf] = Done (failed_with (chars "invalid proof data"))).
Proof.
  intros Hk Hi Hp Hm proof inputs vkey. split.
  - intros Jp Rp Ji Hxs Jk Rk Hic. exists (map (RawFr_fromString (P := Fr_params)) (map decimal xs)). split; [apply inputs_elements|].
    unfold main_verifier. rewrite Hp, Hi, Hk. fold proof. fold inputs. fold vkey.
    rewrite (verify_texts_read V g1 proof inputs vkey prf key n xs (Some errorMessage) 256 Jp Rp Ji Hxs Jk Rk Hic).
    set (els := map _ (map decimal xs)). unfold verify. destruct (negb _).
    + cbn [code_of fmap option_fmap option_map of_json cbind]. change (2 =? VERIFIER_VALID_PROOF) with false. change (2 =? VERIFIER_INVALID_PROOF) with false.
      cbn iota. unfold runtime_error. cbn [mbind option_bind base.mbind].
      rewrite strncpy_message by (done || (cbn; lia) || (by apply plain_message)). done.
    + destruct (vk_loop _ _ _ _ _); [|done]. cbn [mbind option_bind base.mbind]. destruct (IC key !! 0%nat); [|done]. cbn [mbind option_bind base.mbind].
      by destruct (pairingCheck V _).
  - intros H. unfold main_verifier. rewrite Hp, Hi, Hk. fold proof. fold inputs. fold vkey.
    rewrite (verify_texts_rejected V g1 proof inputs vkey (Some errorMessage) 256 H). cbn [fmap option_fmap option_map of_json cbind].
    change (2 =? VERIFIER_VALID_PROOF) with false. change (2 =? VERIFIER_INVALID_PROOF) with false. cbn iota.
    unfold runtime_error. cbn [mbind option_bind base.mbind].
    rewrite strncpy_message by (done || (cbn; lia) || (by apply plain_message)). done.
Qed.
End VerifierMain.

(** ** Instances *)

Section Runs.
#[local] Existing Instances Mpn_reference Mpz_reference.

Definition demo_files (name : string) : list Z + string :=
  if (name =? "circuit.zkey")%string then inl bn_zkey else if (name =? "witness.wtns")%string then inl bn_wtns else inr "open"%string.

Lemma main_prover_correct_witness : exists (EN : EngineData Element) proof sp spub, proof_of_run bn_p bn_key 2 Groth16Demo.demo_wtns bn_choices proof /\
  dump (proof_value proof) = Some sp /\ dump (public_value Groth16Demo.demo_wtns 1) = Some spub /\
  main_prover EN 3 bn_choices bn_choices demo_files (replicate 1024 NUL) ["prover"; "circuit.zkey"; "witness.wtns"; "proof.json"; "public.json"]%string =
    Done (mkExit EXIT_SUCCESS [] [("proof.json"%string, sp); ("public.json"%string, spub)]).
Proof.
  destruct (engine_default 0) as (EN & HEN & _). exists EN.
  exact (main_prover_correct EN 0 bn_p P2 bn_key 2 Groth16Demo.demo_wtns bn_zkey bn_wtns bn_choices bn_choices 3 demo_files (replicate 1024 NUL)
    "prover" "circuit.zkey" "witness.wtns" "proof.json" "public.json" HEN bn_run eq_refl eq_refl (length_replicate _ _)).
Defined.
End Runs.

Section SmallVerifier.
#[local] Existing Instances F79 field_class_rep F79_ops Mpn_reference Mpz_reference F79_text small_json.

Definition small_files (name : string) : list ascii + string :=
  if (name =? "vk.json")%string then inl (chars "key") else if (name =? "in.json")%string then inl (chars "inputs")
  else if (name =? "proof.json")%string then inl (chars "proof") else inl (chars "?").

Ltac reads := unfold read_back; apply Zmod.to_Z_inj; vm_compute; reflexivity.

Lemma main_verifier_correct_witness :
  (exists els, Forall2 (elem (P := Fr_params)) els [3] /\
    main_verifier small_verifier small_g1 small_files (replicate 256 NUL) ["verifier"; "vk.json"; "in.json"; "proof.json"]%string =
      exit_of (verify small_verifier small_g1 small_proof els small_key)) /\
  main_verifier small_verifier small_g1 small_files (replicate 256 NUL) ["verifier"; "vk.json"; "in.json"; "none"]%string =
    Done (failed_with (chars "invalid proof data")).
Proof.
  split.
  - apply (main_verifier_correct small_verifier small_g1 small_files (replicate 256 NUL) "verifier" "vk.json" "in.json" "proof.json"
      (chars "key") (chars "inputs") (chars "proof") small_proof small_key 1 [3]); try reflexivity.
    + repeat (apply Forall_cons_2; [reads|]). apply Forall_nil_2.
    + discriminate.
    + split; [split; reads|split; split; reads|split; split; reads|split; split; reads|].
      repeat (apply Forall_cons_2; [split; reads|]). apply Forall_nil_2.
    + discriminate.
  - apply (main_verifier_correct small_verifier small_g1 small_files (replicate 256 NUL) "verifier" "vk.json" "in.json" "none"
      (chars "key") (chars "inputs") (chars "?") small_proof small_key 1 [3]); try reflexivity.
    left. reflexivity.
Defined.
End SmallVerifier.
